(* ===== verification/_CoqProject ===== *)
-Q . S2P
Prelude.v
Kernel.v
Sim.v
Timespec.v
KqueueEvent.v
SimLaws.v
SignalfdCtx.v
SignalSim.v
Descriptors.v
Compat.v
CompatSim.v
EventfdCtx.v
TimerfdCtx.v
EpollNode.v
EpollLaws.v
EpollFeed.v
EpollCtx.v
EpollInv.v
EpollOps.v
EpollRegister.v
EpollCtl.v
EpollWait.v
Frame.v
EpollReport.v
EpollLife.v
EpollSim.v
Rwlock.v
Sharing.v
FileDesc.v
ShimCtx.v
ShimIo.v
Api.v
ShimInv.v
ShimOps.v
ShimCalls.v
ShimRun.v
ShimExact.v
ShimSim.v
Deadline.v
DeadlineSim.v
Memory.v
RbRank.v
RbTree.v
RbHeap.v
RbMap.v
Tailq.v
ContainerSim.v
