(* ===== verification/Prelude.v ===== *)
(** * epoll-shim, verified

    epoll-shim provides Linux's epoll, eventfd, timerfd and signalfd on systems that have
    kqueue.  Every such descriptor is a kqueue; what Linux keeps in the kernel, the library
    keeps in memory, in a process-wide table of file descriptions (src/src/epoll_shim_ctx.c)
    whose entries hold one of four kinds of state (src/src/*_ctx.c).  This development
    models that code as state transformers and proves what makes it correct.

    ** How the code is represented

    - [Prelude]: the monad [M S A] of C code with its reasons to stop (a failed assertion,
      reached undefined behaviour, a dangling pointer, a lock taken twice, a loop cut off),
      results with error numbers, field update, machine integers, and the predicate
      [wpg o m Q s] ("[m] run in [s] ends with [Q], or stops for a reason [o] allows") with its
      rules.  [wp] allows no stop at all: a theorem with [wp] includes that the code ends.
    - [Kernel]: the system calls the library makes as an inductive type, their constants, and
      the class [Kernel W] of worlds that answer them.  Nothing is assumed of the answers
      except by the named law classes below, each next to the code that relies on it and met
      by the concrete system [Sim] (instances in [SimLaws], [SignalSim], [CompatSim],
      [EpollSim], [ShimSim], [DeadlineSim]), on which the witnesses run.
    - [Platform] (in [Kernel]) is the build configuration: EVFILT_USER, EVFILT_EXCEPT,
      NOTE_USECONDS and the quirks CMake looks for.  Theorems hold for every platform unless
      they say otherwise.

    ** Parts of the program

    - src/src/timespec_util.*: [Timespec] (checked addition of times).
    - src/src/kqueue_event.*: [KqueueEvent], the self-triggered event; the interface
      [SelfEvent] is what eventfd relies on, with EVFILT_USER or with a pipe.
    - src/src/eventfd_ctx.*: [EventfdCtx]; [EventfdSpec] is the abstract counter.
    - src/src/timerfd_ctx.*: [TimerfdCtx], with arithmetic in nanoseconds.
    - src/src/signalfd_ctx.*: [SignalfdCtx] and its laws; witnesses in [SignalSim].
    - src/src/compat_*.c: [Compat] over [Descriptors] (which descriptors are open, with which
      flags, which signals are blocked); witnesses in [CompatSim].
    - src/src/pollable_desc.h, src/src/epollfd_ctx.*: a registered descriptor in [EpollNode]
      and [EpollFeed] (translation of kernel events), the instance in [EpollCtx]; the tree and
      the lists are a map and lists of addresses (what that rests on is proved in [RbMap] and
      [Tailq]), nodes live on a heap, and following a pointer to a freed node stops with
      [DanglingPointer].  The invariant is in [EpollInv],
      laws in [EpollLaws], proofs in [EpollOps], [EpollRegister], [EpollCtl] (epoll_ctl
      against the interest list of epoll(7)), [EpollWait], [EpollReport] (what epoll_wait
      answers) and [EpollLife] (whole lives of an instance); witnesses in [EpollSim].
    - src/src/rwlock.*: [Rwlock], the reader/writer lock as a step relation over any number
      of threads, one step per mutex-protected section or semaphore operation.  [Sharing] runs
      the table's functions of epoll_shim_ctx.c in any number of threads on that lock: slots,
      reference counts and the references of epoll nodes, one step per access.
    - src/src/epoll_shim_ctx.*: descriptions, references and the step detector in [FileDesc],
      the array [open_files] and close in [ShimCtx], read, write, poll, ppoll and fcntl in
      [ShimIo]; the functions of src/src/epoll.c, eventfd.c, timerfd.c and signalfd.c in
      [Api] (their read, write and poll functions in [FileDesc] and [ShimIo]).  Code of a kind
      runs on its union member ([on_eventfd] and so on); reading another member is undefined.
      Proofs: [Frame] (what every operation of a kind preserves, whatever the system
      answers), [ShimInv] (the invariant [shim_inv] and the rules of the primitives),
      [ShimOps] (creation), [ShimCalls] (calls on one descriptor), [ShimRun] (polling, the step
      detector, whole runs), [ShimExact] (exact answers); witnesses in [ShimSim].  [Deadline]
      follows the monotonic clock through every function, epoll instances included;
      witnesses and a run of an epoll instance that watches an eventfd in [DeadlineSim].

    - src/external/tree-macros (RB_): the tree of registered descriptors, and
      src/external/queue-macros (TAILQ_): the list of poll descriptors.  [Memory] is a memory
      of words with a separation logic (Iris) for it; [RbTree] is the code of the tree macros,
      [RbRank] the trees and repairs as functions, with ranks, order and height, [RbHeap] the
      rules of the macros in separation logic, [RbMap] what follows: a map.  [Tailq] has code,
      rules and consequences for the list.  Witnesses in [ContainerSim].

    ** What the theorems show

    - Safety of whole runs: [EpollLife.epoll_run_safe] (no node is used after it was freed,
      all are freed at the end), [ShimRun.shim_run_safe] (the table: locks, references, slots,
      no leak), [ShimRun.shim_isolation], [Rwlock.rwlock_exclusion] and deadlock freedom;
      with threads, [Sharing.sharing_no_fault] (no freed description is used) and
      [Sharing.sharing_quiescent] (no reference leaks).
    - Refinement: epoll_ctl implements the interest list ([EpollCtl]), eventfd the counter of
      eventfd(2), on the state ([EventfdCtx]) and through the API ([ShimExact]).
    - The containers: the tree macros implement a finite map in logarithmic time
      ([RbMap.rb_run_refines], [RbMap.rb_run_well_formed]), the list macros a list
      ([Tailq.tailq_run_refines]); the loop that frees all nodes reads none that is freed
      ([RbMap.destroy_nodes_frees]).  These are the [gmap] and the lists of [EpollCtx], whose
      operations are the ones the theorems allow: a node is inserted once, removed only when it
      is in, and looked up with a key of its own.
    - What epoll_wait answers ([EpollReport.epollfd_ctx_wait_answers]) and when it may answer
      nothing ([Deadline.epoll_wait_not_early]; likewise poll and ppoll).
    - Functional behaviour of timers, signals, events, creation, close, poll and fcntl, errors
      included; round trips; bounds of all integer arithmetic that could overflow.
    - Known deviations, each proved on a concrete run or for all states: writing 0 to an
      eventfd, a failing trigger, gettime on an expired timer, huge intervals, EVFILT_EXCEPT
      left behind by EPOLL_CTL_DEL.

    ** Bounds and fuel

    Loops that depend on the system (draining a pipe or a kqueue, reading again after a
    wait, ppoll again after a spurious wake-up) take [fuel], a class parameter.  Where the
    loop is bounded the theorem asks for enough fuel and proves that it ends (signals:
    more than the number of queued events; draining: the system's law says so).  Where it
    is not (a blocking read waits as long as it takes) the theorems allow [OutOfFuel] and
    nothing else.  [grow_space] has 32 rounds, proved enough; [unref_depth] is 2 because only
    closing an epoll instance drops other descriptions, which drop none.  The loops on a tree
    of [n] nodes are proved to end within 2 lg (n + 1) + 1 rounds ([RbMap.enough]), those that
    visit all nodes or elements within as many rounds as there are.

    ** Not modelled

    - Threads, except in [Rwlock] and [Sharing]: the other files run one call at a time, with
      the mutexes and the lock as state, so that taking one twice or forgetting one is an
      error; the thread of the step detector is a round of a run.  [Sharing] leaves the state
      of the descriptions and their mutexes out; a node of an epoll instance is a reference,
      not tied to one instance.  Memory order is not modelled.
    - Epoll instances are not part of [shim_inv]: their own theorems are over any world
      with the laws [EpollLaws] and [PollableLaws].
    - pthread attributes, cancellation, the condition variable that waits for polling threads
      (it has no effect in one thread), errno preservation (errno_return.h).
    - src/src/wrap.c and the interposition library: dlsym and forwarding; the headers
      under src/include apart from their constants; compat_sem, compat_itimerspec: types.
    - In [Memory] a structure is its words; the other fields of a node are in [EpollNode], and
      no theorem runs [EpollCtx] on the memory itself.
    - The macros of src/external/*/sys that the program does not expand (SLIST, STAILQ, LIST,
      SPLAY, reverse loops), src/external/microatf and src/test: unused code and tests. *)

From stdpp Require Export prelude gmap sorting.
From Stdlib Require Export ZArith Lia.

#[global] Open Scope Z_scope.

Declare Scope c_scope.
Delimit Scope c_scope with c.

(** ** The monad of the C code

    A C function is a state transformer.  It may [Stop]: at a failed
    [assert], at a reached [__builtin_unreachable ()] or other undefined
    behaviour, at an access through a pointer that is not live, at a lock the
    thread already holds, or because a loop ran out of the iterations the model
    grants it. *)

Inductive stop : Type := AssertFailed | Unreachable | DanglingPointer | Deadlock | OutOfFuel.

Inductive outcome (S A : Type) : Type :=
| Done (a : A) (s : S)
| Stop (why : stop).
Arguments Done {S A} a s.
Arguments Stop {S A} why.

Definition M (S A : Type) : Type := S -> outcome S A.

Definition ret {S A} (a : A) : M S A := fun s => Done a s.

Definition bind {S A B} (m : M S A) (k : A -> M S B) : M S B := fun s =>
  match m s with
  | Done a s' => k a s'
  | Stop why => Stop why
  end.

Definition stop_with {S A} (why : stop) : M S A := fun _ => Stop why.
Definition gets {S A} (f : S -> A) : M S A := fun s => Done (f s) s.
Definition modify {S} (f : S -> S) : M S unit := fun s => Done tt (f s).

(** [assert (b)] of the C code. *)
Definition c_assert {S} (b : bool) : M S unit := if b then ret tt else stop_with AssertFailed.

Definition when {S} (b : bool) (m : M S unit) : M S unit := if b then m else ret tt.

Fixpoint iterM {S A} (f : A -> M S unit) (l : list A) : M S unit :=
  match l with
  | [] => ret tt
  | a :: l' => bind (f a) (fun _ => iterM f l')
  end.

Notation "'let*' x ':=' m 'in' k" := (bind m (fun x => k))
  (at level 10, x pattern, m at level 200, k at level 200) : c_scope.
Notation "m ;; k" := (bind m (fun _ => k))
  (at level 100, k at level 200, right associativity) : c_scope.
#[global] Open Scope c_scope.

(** *** Results

    [Ok] is a C function that returned 0 (its out parameters are the
    payload), [Err ec] one that returned the error number [ec].  A system
    call that returned -1 with [errno = ec] is [Err ec] too. *)

Abbreviation errno_t := Z (only parsing).

Inductive result (A : Type) : Type :=
| Ok (a : A)
| Err (ec : errno_t).
Arguments Ok {A} a.
Arguments Err {A} ec.

(** An [errno_t] that may be 0. *)
Definition of_errno (ec : errno_t) : result unit := if ec =? 0 then Ok tt else Err ec.

(** [if ((ec = m) != 0) return ec;] *)
Definition bind_result {S A B} (m : M S (result A)) (k : A -> M S (result B)) : M S (result B) :=
  bind m (fun r => match r with Ok a => k a | Err ec => ret (Err ec) end).

Notation "'try*' x ':=' m 'in' k" := (bind_result m (fun x => k))
  (at level 10, x pattern, m at level 200, k at level 200) : c_scope.

Definition is_ok {A} (r : result A) : bool := match r with Ok _ => true | Err _ => false end.

(** [ec = ec != 0 ? ec : ec_local] *)
Definition first_error (ec ec_local : result unit) : result unit :=
  match ec with Err _ => ec | Ok _ => ec_local end.

(** ** Field update *)

(** [Upd f] replaces the field [f] of a structure; the instance is derived
    from the structure's eta expansion. *)
Class Eta (R : Type) := eta : R -> R.
Class Upd {R T : Type} (f : R -> T) := upd : T -> R -> R.
Arguments upd {R T} f {_} _ _ : simpl never.

Ltac derive_upd :=
  lazymatch goal with
  | |- @Upd ?R ?T ?f =>
      let v := fresh "v" in
      let r := fresh "r" in
      red; intros v r;
      let e := eval hnf in (@eta R _ r) in
      let g := eval pattern (f r) in e in
      match g with
      | ?h _ => let t := eval cbv beta in (h v) in exact t
      end
  end.
#[export] Hint Extern 0 (Upd _) => derive_upd : typeclass_instances.

Notation "r '<|' f ':=' v '|>'" := (upd f v r)
  (at level 1, left associativity, f at level 9, v at level 200) : c_scope.

(** ** A structure reached through a pointer

    [M (C * W)] is code that holds a pointer to a [C] and runs in the world
    [W].  [zoom f m] runs [m] on the member [f]; [lift m] runs code of the
    world alone. *)

Definition get {C W} : M (C * W) C := gets fst.
Definition getf {C W A} (f : C -> A) : M (C * W) A := gets (fun s => f (fst s)).
Definition put {C W} (c : C) : M (C * W) unit := fun s => Done tt (c, snd s).
Definition mod_self {C W} (f : C -> C) : M (C * W) unit :=
  fun s => Done tt (f (fst s), snd s).

Definition zoom {C F W A} (f : C -> F) `{!Upd f} (m : M (F * W) A) : M (C * W) A :=
  fun s =>
    match m (f (fst s), snd s) with
    | Done a (x, w) => Done a ((fst s) <| f := x |>, w)
    | Stop why => Stop why
    end.

Definition lift {C W A} (m : M W A) : M (C * W) A := fun s =>
  match m (snd s) with
  | Done a w => Done a (fst s, w)
  | Stop why => Stop why
  end.

Notation "'self' f ':=' v" := (mod_self (fun c => c <| f := v |>))
  (at level 90, f at level 9, v at level 89) : c_scope.

Arguments ret : simpl never.
Arguments bind : simpl never.
Arguments bind_result : simpl never.
Arguments stop_with : simpl never.
Arguments gets : simpl never.
Arguments modify : simpl never.
Arguments c_assert : simpl never.
Arguments when : simpl never.
Arguments get : simpl never.
Arguments getf : simpl never.
Arguments put : simpl never.
Arguments mod_self : simpl never.
Arguments zoom : simpl never.
Arguments lift : simpl never.

(** ** Machine integers *)

Definition INT_MAX : Z := 2 ^ 31 - 1.
Definition INT64_MAX : Z := 2 ^ 63 - 1.
Definition INT64_MIN : Z := - 2 ^ 63.
Definition UINT64_MAX : Z := 2 ^ 64 - 1.
Definition SIZE_MAX : Z := 2 ^ 64 - 1.

Definition fits_int (z : Z) : bool := (- 2 ^ 31 <=? z) && (z <=? INT_MAX).
Definition fits_i64 (z : Z) : bool := (INT64_MIN <=? z) && (z <=? INT64_MAX).
Definition fits_u64 (z : Z) : bool := (0 <=? z) && (z <=? UINT64_MAX).

(** [__builtin_{add,sub,mul}_overflow]: the exact result, when the type of the
    out parameter holds it. *)
Definition checked (fits : Z -> bool) (z : Z) : option Z := if fits z then Some z else None.

(** Conversion to [uint32_t] and [uint16_t], and to [short]. *)
Definition u32 (z : Z) : Z := z mod 2 ^ 32.
Definition u16 (z : Z) : Z := Z.land z 0xFFFF.

(** [x & m], read as a truth value. *)
Definition has (x m : Z) : bool := negb (Z.land x m =? 0).

(** ** Reasoning about [M]

    [wpg o m Q s]: [m] run in [s] ends in a result and a state satisfying [Q],
    or stops for a reason [o] allows. *)

Definition wpg {S A} (o : stop -> Prop) (m : M S A) (Q : A -> S -> Prop) (s : S) : Prop :=
  match m s with
  | Done a s' => Q a s'
  | Stop why => o why
  end.

Arguments wpg : simpl never.

(** [wp]: total; [wlp]: a loop may be cut off. *)
Abbreviation wp := (wpg (fun _ => False)).
Abbreviation wlp := (wpg (fun why => why = OutOfFuel)).

Section Wp.
Context {S : Type} (o : stop -> Prop).

Lemma wp_ret {A} (a : A) Q (s : S) : wpg o (ret a) Q s <-> Q a s.
Proof. done. Qed.

Lemma wp_bind {A B} (m : M S A) (k : A -> M S B) Q s :
  wpg o (bind m k) Q s <-> wpg o m (fun a s' => wpg o (k a) Q s') s.
Proof. unfold wpg, bind. by destruct (m s). Qed.

Lemma wp_bind_result {A B} (m : M S (result A)) (k : A -> M S (result B)) Q s :
  wpg o (bind_result m k) Q s <->
  wpg o m (fun r s' => match r with Ok a => wpg o (k a) Q s' | Err ec => Q (Err ec) s' end) s.
Proof. unfold wpg, bind_result, bind. destruct (m s) as [[]|]; done. Qed.

Lemma wp_mono {A} (m : M S A) (Q Q' : A -> S -> Prop) s :
  wpg o m Q s -> (forall a s', Q a s' -> Q' a s') -> wpg o m Q' s.
Proof. unfold wpg. destruct (m s); auto. Qed.

(** The rules against a run that has been evaluated. *)
Lemma wp_run {A} (m : M S A) (Q : A -> S -> Prop) s a s' : m s = Done a s' -> wpg o m Q s <-> Q a s'.
Proof. intros H. unfold wpg. by rewrite H. Qed.

Lemma wp_and {A} (m : M S A) (Q Q' : A -> S -> Prop) s :
  wpg o m Q s -> wpg o m Q' s -> wpg o m (fun a s' => Q a s' /\ Q' a s') s.
Proof. unfold wpg. destruct (m s); auto. Qed.

Lemma wp_assert (b : bool) Q (s : S) :
  wpg o (c_assert b) Q s <-> if b then Q tt s else o AssertFailed.
Proof. by destruct b. Qed.

Lemma wp_stop {A} why (Q : A -> S -> Prop) s : wpg o (stop_with why) Q s <-> o why.
Proof. done. Qed.

Lemma wp_when (b : bool) (m : M S unit) Q s :
  wpg o (when b m) Q s <-> if b then wpg o m Q s else Q tt s.
Proof. by destruct b. Qed.

Lemma wp_gets {A} (f : S -> A) Q s : wpg o (gets f) Q s <-> Q (f s) s.
Proof. done. Qed.

Lemma wp_modify (f : S -> S) Q s : wpg o (modify f) Q s <-> Q tt (f s).
Proof. done. Qed.

(** The invariant rule of a loop over a list. *)
Lemma wp_iterM {A} (f : A -> M S unit) (I : S -> Prop) l s :
  (forall a s', a ∈ l -> I s' -> wpg o (f a) (fun _ => I) s') ->
  I s -> wpg o (iterM f l) (fun _ => I) s.
Proof.
  revert s. induction l as [|a l IH]; intros s Hf Hs; cbn; [done|].
  apply wp_bind. eapply wp_mono; [apply Hf; [set_solver|done]|].
  intros ? s' Hs'. apply IH; [|done]. intros. apply Hf; [set_solver|done].
Qed.
End Wp.

Section WpZoom.
Context {C W : Type} (o : stop -> Prop).

Lemma wp_getf {A} (f : C -> A) Q (s : C * W) : wpg o (getf f) Q s <-> Q (f s.1) s.
Proof. done. Qed.

Lemma wp_put (c : C) Q (s : C * W) : wpg o (put c) Q s <-> Q tt (c, s.2).
Proof. done. Qed.

Lemma wp_mod_self (f : C -> C) Q (s : C * W) : wpg o (mod_self f) Q s <-> Q tt (f s.1, s.2).
Proof. done. Qed.

Lemma wp_zoom {F A} (f : C -> F) `{!Upd f} (m : M (F * W) A) Q c w :
  wpg o (zoom f m) Q (c, w) <-> wpg o m (fun a s => Q a (c <| f := s.1 |>, s.2)) (f c, w).
Proof. unfold wpg, zoom. cbn. destruct (m (f c, w)) as [a [x w']|]; done. Qed.

Lemma wp_lift {A} (m : M W A) Q c w :
  wpg o (lift (C := C) m) Q (c, w) <-> wpg o m (fun a w' => Q a (c, w')) w.
Proof. unfold wpg, lift. cbn. by destruct (m w). Qed.
End WpZoom.

(** Rewriting database of the rules that turn a [wpg] goal into a first-order one. *)
Create Rewrite HintDb wp.
#[export] Hint Rewrite @wp_ret @wp_bind @wp_bind_result @wp_assert @wp_stop @wp_when @wp_gets
  @wp_modify @wp_getf @wp_put @wp_mod_self @wp_zoom @wp_lift : wp.

(** ** Bits *)

Lemma has_lor x y m : has (Z.lor x y) m = has x m || has y m.
Proof.
  unfold has. rewrite Z.land_lor_distr_l.
  destruct (Z.eqb_spec (Z.land x m) 0) as [->|Hx], (Z.eqb_spec (Z.land y m) 0) as [->|Hy]; cbn;
    rewrite ?Z.lor_0_r; try (apply negb_true_iff, Z.eqb_neq);
    try done; rewrite Z.lor_eq_0_iff; tauto.
Qed.

(** Masking keeps a flag of the mask and drops the others. *)
Lemma has_land_in x k m : Z.land k m = m -> has (Z.land x k) m = has x m.
Proof. intros H. unfold has. by rewrite <- Z.land_assoc, H. Qed.

Lemma has_land_out x k m : Z.land k m = 0 -> has (Z.land x k) m = false.
Proof. intros H. unfold has. by rewrite <- Z.land_assoc, H, Z.land_0_r. Qed.

Lemma has_0 m : has 0 m = false.
Proof. reflexivity. Qed.

(** A value with no bit of a mask outside another mask. *)
Lemma land_subset_trans x k k' : Z.land x k = x -> Z.land k k' = k -> Z.land x k' = x.
Proof. intros Hx Hk. rewrite <- Hx at 1. by rewrite <- Z.land_assoc, Hk. Qed.

(** A single flag. *)
Definition is_flag (m : Z) : Prop := exists k, 0 <= k /\ m = 2 ^ k.

Lemma has_flag x k : 0 <= k -> has x (2 ^ k) = Z.testbit x k.
Proof.
  intros Hk. unfold has. destruct (Z.testbit x k) eqn:E.
  - apply negb_true_iff, Z.eqb_neq. intros H0.
    assert (Z.testbit (Z.land x (2 ^ k)) k = false) as Hb by (by rewrite H0, Z.bits_0).
    rewrite Z.land_spec, E, Z.pow2_bits_true in Hb by done. done.
  - apply negb_false_iff, Z.eqb_eq, Z.bits_inj'. intros i Hi.
    rewrite Z.bits_0, Z.land_spec, Z.pow2_bits_eqb by done.
    destruct (Z.eqb_spec k i) as [<-|]; [by rewrite E|apply andb_false_r].
Qed.

Lemma has_flag_land x y m : is_flag m -> has (Z.land x y) m = has x m && has y m.
Proof. intros (k & Hk & ->). by rewrite !has_flag, Z.land_spec. Qed.

Lemma u32_small z : 0 <= z < 2 ^ 32 -> u32 z = z.
Proof. apply Z.mod_small. Qed.

(** ** Sums over a list *)

Fixpoint sumZ {A} (f : A -> Z) (l : list A) : Z :=
  match l with
  | [] => 0
  | a :: l' => f a + sumZ f l'
  end.

Lemma sumZ_app {A} (f : A -> Z) l l' : sumZ f (l ++ l') = sumZ f l + sumZ f l'.
Proof. induction l; cbn; lia. Qed.

(** Replacing one element. *)
Lemma sumZ_insert {A} (f : A -> Z) (l : list A) i a b :
  l !! i = Some a -> sumZ f (<[i := b]> l) = sumZ f l - f a + f b.
Proof.
  revert i. induction l as [|x l IH]; intros [|i] H; cbn in *; try done.
  - injection H as ->. lia.
  - change (f x + sumZ f (<[i:=b]> l) = f x + sumZ f l - f a + f b). rewrite (IH _ H). lia.
Qed.

Lemma sumZ_nonneg {A} (f : A -> Z) l : (forall a, 0 <= f a) -> 0 <= sumZ f l.
Proof. intros H. induction l as [|a l IH]; cbn; [lia|]. specialize (H a). lia. Qed.

Lemma sumZ_le {A} (f g : A -> Z) l : (forall a, f a <= g a) -> sumZ f l <= sumZ g l.
Proof. intros H. induction l as [|a l IH]; cbn; [lia|]. specialize (H a). lia. Qed.

(** An element counts for at most the whole. *)
Lemma sumZ_lookup_le {A} (f : A -> Z) (l : list A) i a :
  (forall x, 0 <= f x) -> l !! i = Some a -> f a <= sumZ f l.
Proof.
  intros Hf. revert i. induction l as [|x l IH]; intros [|i] H; cbn in *; try done.
  - injection H as ->. pose proof (sumZ_nonneg f l Hf). lia.
  - specialize (IH _ H). specialize (Hf x). lia.
Qed.

(** A function bounded by a multiple of a vanishing sum vanishes. *)
Lemma sumZ_zero {A} (f g : A -> Z) l :
  (forall a, 0 <= g a) -> (forall a, g a = 0 -> f a = 0) -> sumZ g l = 0 -> sumZ f l = 0.
Proof.
  intros Hg Hfg. induction l as [|a l IH]; cbn; intros H; [done|].
  pose proof (sumZ_nonneg g l Hg). specialize (Hg a).
  rewrite (Hfg a), IH; lia.
Qed.

Lemma sumZ_ext {A} (f g : A -> Z) l : Forall (fun a => f a = g a) l -> sumZ f l = sumZ g l.
Proof. induction 1; cbn; lia. Qed.

Lemma sumZ_all_zero {A} (f : A -> Z) l : Forall (fun a => f a = 0) l -> sumZ f l = 0.
Proof. induction 1; cbn; lia. Qed.

(** ** Removing the one occurrence of an element *)

Lemma length_filter_ne (l : list Z) p : NoDup l -> p ∈ l ->
  Z.of_nat (length (filter (fun q => q <> p) l)) = Z.of_nat (length l) - 1.
Proof.
  induction 1 as [|x l Hx Hl IH]; [by intros ?%elem_of_nil|]. intros Hp.
  rewrite filter_cons. destruct (decide (x <> p)) as [Hne|Heq]; cbn [length].
  - apply elem_of_cons in Hp as [->|Hp]; [done|]. specialize (IH Hp). lia.
  - apply dec_stable in Heq as ->.
    assert (filter (fun q => q <> p) l = l) as ->; [|lia].
    clear IH Hl Hp. induction l as [|y l IH]; [done|].
    rewrite filter_cons_True by set_solver. f_equal. apply IH. set_solver.
Qed.

(** ** Tactics *)

(** Case analysis on the scrutinee of the first [match] of the goal. *)
Ltac case_goal :=
  match goal with
  | |- context [match ?x with _ => _ end] => let E := fresh "E" in destruct x eqn:E
  end.

(** Booleans to propositions, for [lia]. *)
Ltac b2p :=
  repeat match goal with
  | H : negb _ = true |- _ => apply negb_true_iff in H
  | H : negb _ = false |- _ => apply negb_false_iff in H
  | H : _ && _ = true |- _ => apply andb_true_iff in H as [? ?]
  | H : _ || _ = false |- _ => apply orb_false_iff in H as [? ?]
  | H : (_ =? _) = true |- _ => apply Z.eqb_eq in H
  | H : (_ =? _) = false |- _ => apply Z.eqb_neq in H
  | H : (_ <? _) = true |- _ => apply Z.ltb_lt in H
  | H : (_ <? _) = false |- _ => apply Z.ltb_ge in H
  | H : (_ <=? _) = true |- _ => apply Z.leb_le in H
  | H : (_ <=? _) = false |- _ => apply Z.leb_gt in H
  end.

(** Evaluate field accesses of updated structures. *)
Ltac fields := unfold upd; cbn.
Ltac fields_all := unfold upd in *; cbn in *.

(** Evaluate flag tests on constants. *)
Ltac eval_has :=
  repeat match goal with
  | |- context [has ?x ?m] =>
      let v := eval vm_compute in (has x m) in
      lazymatch v with
      | true => change (has x m) with true
      | false => change (has x m) with false
      end
  end; cbn.

(** ** Maps in the order of their keys *)

Definition key_le (x y : Z * Z) : Prop := x.1 <= y.1.

#[export] Instance key_le_dec : RelDecision key_le.
Proof. intros x y. unfold key_le. apply _. Defined.

#[export] Instance key_le_total : Total key_le.
Proof. intros x y. unfold key_le. lia. Qed.

#[export] Instance key_le_trans : Transitive key_le.
Proof. intros x y z. unfold key_le. lia. Qed.

(** The entries of a map as a search tree has them. *)
Definition in_order (m : gmap Z Z) : list (Z * Z) := merge_sort key_le (map_to_list m).

Lemma in_order_permutation m : in_order m ≡ₚ map_to_list m.
Proof. apply merge_sort_Permutation. Qed.

Lemma in_order_elem m k a : (k, a) ∈ in_order m <-> m !! k = Some a.
Proof. rewrite in_order_permutation. apply elem_of_map_to_list. Qed.
