(* ===== verification/Kernel.v ===== *)
(** * The operating system below epoll-shim

    The constants and structures of the system headers, the build
    configuration the preprocessor tests ([Platform]), the system and library
    calls the code makes ([syscall]) and the interface of a world that answers
    them ([Kernel]).  The answers are a parameter: every theorem holds for any
    instance, and what a theorem needs of the documented behaviour of a call
    is a law of one of the named classes in the files that use them. *)

From S2P Require Import Prelude.

(** ** <errno.h> (the values shared by the BSDs) *)

Definition ENOENT : errno_t := 2.
Definition EINTR : errno_t := 4.
Definition EBADF : errno_t := 9.
Definition ENOMEM : errno_t := 12.
Definition EFAULT : errno_t := 14.
Definition EEXIST : errno_t := 17.
Definition ENODEV : errno_t := 19.
Definition EINVAL : errno_t := 22.
Definition ENOTTY : errno_t := 25.
Definition EPIPE : errno_t := 32.
Definition EAGAIN : errno_t := 35.
Definition EWOULDBLOCK : errno_t := EAGAIN.
Definition EOVERFLOW : errno_t := 84.
Definition ECANCELED : errno_t := 85.

(** ** <fcntl.h> and <sys/stat.h> *)

Definition O_RDONLY : Z := 0.
Definition O_WRONLY : Z := 1.
Definition O_RDWR : Z := 2.
Definition O_ACCMODE : Z := 3.
Definition O_NONBLOCK : Z := 0x4.
Definition O_CLOEXEC : Z := 0x100000.
Definition FD_CLOEXEC : Z := 1.

Inductive fcntl_cmd : Type := F_GETFD | F_SETFD | F_GETFL | F_SETFL.

Definition S_IFMT : Z := 0xF000.
Definition S_ISFIFO (mode : Z) : bool := Z.land mode S_IFMT =? 0x1000.
Definition S_ISSOCK (mode : Z) : bool := Z.land mode S_IFMT =? 0xC000.

(** ** <poll.h> *)

Definition POLLIN : Z := 0x1.
Definition POLLPRI : Z := 0x2.
Definition POLLOUT : Z := 0x4.
Definition POLLERR : Z := 0x8.
Definition POLLHUP : Z := 0x10.
Definition POLLNVAL : Z := 0x20.

Record pollfd := { pfd_fd : Z; pfd_events : Z; pfd_revents : Z }.

(** ** <sys/event.h> *)

Definition EVFILT_READ : Z := -1.
Definition EVFILT_WRITE : Z := -2.
Definition EVFILT_SIGNAL : Z := -6.
Definition EVFILT_TIMER : Z := -7.
Definition EVFILT_USER : Z := -11.
Definition EVFILT_EXCEPT : Z := -15.

Definition EV_ADD : Z := 0x1.
Definition EV_DELETE : Z := 0x2.
Definition EV_ONESHOT : Z := 0x10.
Definition EV_CLEAR : Z := 0x20.
Definition EV_RECEIPT : Z := 0x40.
Definition EV_ERROR : Z := 0x4000.
Definition EV_EOF : Z := 0x8000.

Definition NOTE_TRIGGER : Z := 0x01000000.
Definition NOTE_OOB : Z := 0x2.
Definition NOTE_USECONDS : Z := 0x4.

Record kevent := {
  kev_ident : Z;
  kev_filter : Z;
  kev_flags : Z;
  kev_fflags : Z;
  kev_data : Z;
  kev_udata : Z
}.

(** [EV_SET(&kev, ident, filter, flags, fflags, data, udata)] *)
Definition EV_SET (ident filter flags fflags data udata : Z) : kevent :=
  {| kev_ident := ident; kev_filter := filter; kev_flags := flags;
     kev_fflags := fflags; kev_data := data; kev_udata := udata |}.

(** ** <time.h> *)

Record timespec := { tv_sec : Z; tv_nsec : Z }.
Record itimerspec := { it_interval : timespec; it_value : timespec }.

Inductive clockid_t : Type := CLOCK_REALTIME | CLOCK_MONOTONIC.

#[export] Instance clockid_eq_dec : EqDecision clockid_t.
Proof. solve_decision. Defined.

(** The two clocks as the [int] of the interface. *)
Definition clockid_of_int (clockid : Z) : option clockid_t :=
  if clockid =? 0 then Some CLOCK_REALTIME
  else if clockid =? 4 then Some CLOCK_MONOTONIC
  else None.

(** ** <signal.h>: a [sigset_t] is a bit mask, signal [i] its bit [i - 1]. *)

Abbreviation sigset_t := Z (only parsing).
Definition sigismember (set : sigset_t) (i : Z) : bool := Z.testbit set (i - 1).
Definition sigandset (left right : sigset_t) : sigset_t := Z.land left right.
Definition sigisemptyset (set : sigset_t) : bool := set =? 0.

Record siginfo_t := {
  si_signo : Z;
  si_errno : Z;
  si_code : Z;
  si_pid : Z;
  si_uid : Z;
  si_addr : Z;
  si_status : Z;
  si_band : Z;
  sival_int : Z;
  sival_ptr : Z;
  si_trapno : Z;
  si_timerid : Z;
  si_overrun : Z;
  si_mqd : Z;
  si_utime : Z;
  si_stime : Z;
  si_trap : Z;
  si_fd : Z
}.

(** A [siginfo_t] with all bytes zero. *)
Definition siginfo_zero : siginfo_t :=
  {| si_signo := 0; si_errno := 0; si_code := 0; si_pid := 0; si_uid := 0; si_addr := 0;
     si_status := 0; si_band := 0; sival_int := 0; sival_ptr := 0; si_trapno := 0;
     si_timerid := 0; si_overrun := 0; si_mqd := 0; si_utime := 0; si_stime := 0;
     si_trap := 0; si_fd := 0 |}.
#[export] Instance eta_siginfo : Eta siginfo_t := fun r =>
  {| si_signo := si_signo r; si_errno := si_errno r; si_code := si_code r; si_pid := si_pid r;
     si_uid := si_uid r; si_addr := si_addr r; si_status := si_status r; si_band := si_band r;
     sival_int := sival_int r; sival_ptr := sival_ptr r; si_trapno := si_trapno r;
     si_timerid := si_timerid r; si_overrun := si_overrun r; si_mqd := si_mqd r;
     si_utime := si_utime r; si_stime := si_stime r; si_trap := si_trap r; si_fd := si_fd r |}.

(** The handler of a [struct sigaction]; [SIG_FUN] is any function. *)
Inductive sighandler : Type := SIG_DFL | SIG_IGN | SIG_FUN (f : Z).
Record sigaction := { sa_handler : sighandler; sa_siginfo : bool; sa_restart : bool }.

(** ** Build configuration *)

Inductive os_t : Type := FreeBSD | NetBSD | OpenBSD | DragonFly | Apple.

#[export] Instance os_eq_dec : EqDecision os_t.
Proof. solve_decision. Defined.

(** What [#if] and [#ifdef] see; [POLLRDHUP_VALUE] is CMake's: the system's value where
    there is one ([has_pollrdhup]), else 0x2000. *)
Class Platform := {
  os : os_t;
  has_evfilt_user : bool;
  has_evfilt_except : bool;
  has_note_useconds : bool;
  quirk_oneshot_timeout_zero : bool;
  quirky_evfilt_timer : bool;
  has_pollrdhup : bool;
  POLLRDHUP_VALUE : Z
}.

Definition is_os `{Platform} (o : os_t) : bool := bool_decide (os = o).

(** ** Calls *)

Inductive syscall : Type -> Type :=
| sys_kqueue : syscall (result Z)
| sys_kqueue1 (flags : Z) : syscall (result Z)
| sys_kevent (kq : Z) (changes : list kevent) (nevents : Z) (timeout : option timespec) :
    syscall (result (list kevent))
| sys_poll (fds : list pollfd) (timeout : Z) : syscall (result (Z * list pollfd))
| sys_ppoll (fds : list pollfd) (timeout : option timespec) (sigmask : option sigset_t) :
    syscall (result (Z * list pollfd))
| sys_read (fd nbytes : Z) : syscall (result (list Z))
| sys_write (fd : Z) (buf : list Z) : syscall (result Z)
| sys_close (fd : Z) : syscall (result unit)
| sys_fcntl (fd : Z) (cmd : fcntl_cmd) (arg : Z) : syscall (result Z)
| sys_ioctl_fionread (fd : Z) : syscall (result Z)
| sys_ioctl_fionbio (fd opt : Z) : syscall (result unit)
| sys_fstat (fd : Z) : syscall (result Z)
| sys_pipe : syscall (result (Z * Z))
| sys_pipe2 (flags : Z) : syscall (result (Z * Z))
| sys_socket (domain type protocol : Z) : syscall (result Z)
| sys_socketpair (domain type protocol : Z) : syscall (result (Z * Z))
| sys_clock_gettime (clockid : clockid_t) : syscall (result timespec)
| sys_boottime : syscall (result timespec)
| sys_clk_tck : syscall Z
| sys_malloc (size : Z) : syscall (result Z)
| sys_realloc (ptr size : Z) : syscall (result Z)
| sys_free (ptr : Z) : syscall unit
| sys_mutex_init : syscall (result unit)
| sys_mutex_destroy : syscall (result unit)
| sys_cond_init : syscall (result unit)
| sys_cond_destroy : syscall (result unit)
| sys_sem_init (value : Z) : syscall (result unit)
| sys_sem_destroy : syscall (result unit)
| sys_sem_wait : syscall (result unit)
| sys_sigpending : syscall (result sigset_t)
| sys_sigtimedwait (set : sigset_t) : syscall (result (Z * siginfo_t))
| sys_sigwait (set : sigset_t) : syscall (result Z)
| sys_thrsigdivert (mask : sigset_t) : syscall (result Z)
| sys_sigaction_get (sig : Z) : syscall (result sigaction)
| sys_sigaction_set (sig : Z) (act : sigaction) : syscall (result unit)
| sys_sigmask_get : syscall (result sigset_t)
| sys_sigmask_set (set : sigset_t) : syscall (result sigset_t)
| sys_cap_rights_get (fd : Z) : syscall (result (bool * bool))
| sys_pthread_create : syscall (result unit)
| sys_nanosleep (t : timespec) : syscall unit
| sys_indeterminate_kevent : syscall kevent.

(** A world that answers calls. *)
Class Kernel (W : Type) := kernel_step : forall A, syscall A -> W -> A * W.
Arguments kernel_step {W _ A} _ _ : simpl never.

(** Memory of the program next to the world: calls leave it alone. *)
#[export] Instance kernel_prod {C W} `{!Kernel W} : Kernel (C * W) := fun _ c s =>
  let (a, w) := kernel_step c (snd s) in (a, (fst s, w)).

(** Make a call. *)
Definition call {W A} `{!Kernel W} (c : syscall A) : M W A := fun w =>
  let (a, w') := kernel_step c w in Done a w'.

Arguments call : simpl never.

(** Call for effect, with [(void)] before the call. *)
Definition call_ {W A} `{!Kernel W} (c : syscall A) : M W unit := call c ;; ret tt.

(** ** Reasoning about calls *)

Lemma wp_call {W A} `{!Kernel W} o (c : syscall A) Q w :
  wpg o (call c) Q w <-> let (a, w') := kernel_step c w in Q a w'.
Proof. unfold wpg, call. by destruct (kernel_step c w). Qed.

Lemma wp_call_pair {C W A} `{!Kernel W} o (c : syscall A) Q (x : C) w :
  wpg o (call c) Q (x, w) <-> let (a, w') := kernel_step c w in Q a (x, w').
Proof.
  unfold wpg, call, kernel_step at 1, kernel_prod. cbn. by destruct (kernel_step c w).
Qed.

#[export] Hint Rewrite @wp_call_pair : wp.

(** [law L as r w' H]: case analysis on the answer of the call the law [L] is
    about, which the goal makes too. *)
Tactic Notation "law" constr(l) "as" simple_intropattern(r) ident(w') simple_intropattern(H) :=
  let L := fresh "L" in
  pose proof l as L;
  cbv zeta in L;
  match type of L with
  | context [kernel_step ?c ?w] => destruct (kernel_step c w) as [r w']
  end;
  revert L; cbn [is_ok]; intros H.

(** Reduce a [wpg] goal up to the next case distinction or call. *)
Ltac wps := repeat (progress (autorewrite with wp; cbn)).
