(* ===== verification/Sim.v ===== *)
(** * A small concrete operating system

    An executable instance of [Kernel], used to evaluate the model on concrete
    inputs and to show that the laws the theorems assume of the system can be
    met.  A kqueue maps a pair of identifier and filter to the user data of
    the registration and a bit that says whether the event is pending; a
    pending event is reported once.  A pipe is the number of bytes in it; its
    write end is its read end plus one. *)

From S2P Require Import Prelude Kernel.

Record knote := { kn_udata : Z; kn_active : bool }.

Record sim := {
  sim_kqs : gmap Z (gmap (Z * Z) knote);
  sim_pipes : gmap Z Z;
  sim_next : Z;
  sim_real : timespec;
  sim_mono : timespec;
  sim_boot : timespec;
  sim_modes : gmap Z Z;
  sim_flags : gmap Z Z;
  sim_pending : Z;
  (** the next [kevent] call fails with this error *)
  sim_kevent_error : option errno_t;
  sim_malloc_error : option errno_t;
  sim_open : gset Z;
  sim_fdflags : gmap Z Z;
  sim_mask : Z
}.
#[export] Instance eta_sim : Eta sim := fun r =>
  {| sim_kqs := sim_kqs r; sim_pipes := sim_pipes r; sim_next := sim_next r;
     sim_real := sim_real r; sim_mono := sim_mono r; sim_boot := sim_boot r;
     sim_modes := sim_modes r; sim_flags := sim_flags r; sim_pending := sim_pending r;
     sim_kevent_error := sim_kevent_error r; sim_malloc_error := sim_malloc_error r;
     sim_open := sim_open r; sim_fdflags := sim_fdflags r; sim_mask := sim_mask r |}.

Definition sim_init : sim :=
  {| sim_kqs := ∅; sim_pipes := ∅; sim_next := 3;
     sim_real := {| tv_sec := 1000000; tv_nsec := 0 |};
     sim_mono := {| tv_sec := 1000; tv_nsec := 0 |};
     sim_boot := {| tv_sec := 999000; tv_nsec := 0 |};
     sim_modes := ∅; sim_flags := ∅; sim_pending := 0;
     sim_kevent_error := None; sim_malloc_error := None;
     sim_open := ∅; sim_fdflags := ∅; sim_mask := 0 |}.

(** The next identifier: descriptors and addresses are odd numbers from 3 on. *)
Definition sim_new (s : sim) : Z := Z.max 3 (sim_next s).

(** The open descriptors, all below the next identifier. *)
Definition sim_opened (s : sim) : gset Z := filter (fun fd => fd < sim_new s) (sim_open s).

(** Identifiers are used up; the descriptors [fds] are new. *)
Definition sim_use (fds : list Z) (s : sim) : sim :=
  s <| sim_open := sim_opened s ∪ list_to_set fds |> <| sim_next := sim_new s + 2 |>.

(** ** kqueue *)

Definition kev_key (c : kevent) : Z * Z := (kev_ident c, kev_filter c).

(** A kqueue is readable when an event is pending. *)
Definition sim_readable (s : sim) (kq : Z) : bool :=
  match sim_kqs s !! kq with
  | Some m => existsb (fun p => kn_active p.2) (map_to_list m)
  | None => false
  end.

(** A pipe end that already holds bytes, or a kqueue with an event, is pending as soon as it is
    registered. *)
Definition initially_active (s : sim) (c : kevent) : bool :=
  (kev_filter c =? EVFILT_READ) &&
  match sim_pipes s !! kev_ident c with Some n => 0 <? n | None => sim_readable s (kev_ident c) end.

(** One change; the number is the [data] of its receipt. *)
Definition sim_change (s : sim) (m : gmap (Z * Z) knote) (c : kevent) : gmap (Z * Z) knote * Z :=
  match m !! kev_key c with
  | None =>
      if has (kev_flags c) EV_DELETE then (m, ENOENT)
      else if has (kev_flags c) EV_ADD then
        (<[kev_key c := {| kn_udata := kev_udata c; kn_active := initially_active s c |}]> m, 0)
      else (m, ENOENT)
  | Some kn =>
      if has (kev_flags c) EV_DELETE then (delete (kev_key c) m, 0)
      else
        let trigger := (kev_filter c =? EVFILT_USER) && has (kev_fflags c) NOTE_TRIGGER in
        (<[kev_key c := {| kn_udata := kev_udata c; kn_active := kn_active kn || trigger |}]> m, 0)
  end.

Definition receipt (c : kevent) (d : Z) : kevent :=
  EV_SET (kev_ident c) (kev_filter c) (Z.lor (kev_flags c) EV_ERROR) (kev_fflags c) d (kev_udata c).

Fixpoint sim_changes (s : sim) (m : gmap (Z * Z) knote) (l : list kevent) :
    gmap (Z * Z) knote * list kevent :=
  match l with
  | [] => (m, [])
  | c :: l' =>
      let (m1, d) := sim_change s m c in
      let (m2, r) := sim_changes s m1 l' in
      (m2, receipt c d :: r)
  end.

Definition sim_events (m : gmap (Z * Z) knote) : list kevent :=
  map (fun p => EV_SET p.1.1 p.1.2 0 0 0 (kn_udata p.2))
    (List.filter (fun p => kn_active p.2) (map_to_list m)).

Definition deactivate (kn : knote) : knote := {| kn_udata := kn_udata kn; kn_active := false |}.

Definition report (m : gmap (Z * Z) knote) (e : kevent) : gmap (Z * Z) knote :=
  alter deactivate (kev_key e) m.

(** Injected failures do not hit deletions. *)
Definition sim_failure (s : sim) (changes : list kevent) : option errno_t :=
  match sim_kevent_error s with
  | Some ec => if existsb (fun c => has (kev_flags c) EV_DELETE) changes then None else Some ec
  | None => None
  end.

(** At most [nevents] of the pending events are handed out. *)
Definition sim_kevent (kq : Z) (changes : list kevent) (nevents : Z) (s : sim) :
    result (list kevent) * sim :=
  match sim_kqs s !! kq, changes with
  | None, _ => (Err EBADF, s)
  | Some m, [] =>
      if 0 <? nevents
      then
        let l := take (Z.to_nat nevents) (sim_events m) in
        (Ok l, s <| sim_kqs := <[kq := fold_left report l m]> (sim_kqs s) |>)
      else (Ok [], s)
  | Some m, _ =>
      match sim_failure s changes with
      | Some ec => (Err ec, s <| sim_kevent_error := None |>)
      | None =>
          let (m', receipts) := sim_changes s m changes in
          let s' := s <| sim_kqs := <[kq := m']> (sim_kqs s) |> in
          if 0 <? nevents then (Ok receipts, s')
          else
            match List.filter (fun r => negb (kev_data r =? 0)) receipts with
            | r :: _ => (Err (kev_data r), s')
            | [] => (Ok [], s')
            end
      end
  end.

(** Time passes and all timers fire. *)
Definition sim_sleep (secs : Z) (s : sim) : sim :=
  let later ts := {| tv_sec := tv_sec ts + secs; tv_nsec := tv_nsec ts |} in
  let fire (key : Z * Z) kn :=
    {| kn_udata := kn_udata kn; kn_active := kn_active kn || (key.2 =? EVFILT_TIMER) |} in
  s <| sim_real := later (sim_real s) |> <| sim_mono := later (sim_mono s) |>
    <| sim_kqs := fmap (M := gmap Z)
         (fun m : gmap (Z * Z) knote => map_imap (fun key kn => Some (fire key kn)) m : gmap (Z * Z) knote)
         (sim_kqs s) |>.

(** ** pipes *)

Definition activate (kn : knote) : knote := {| kn_udata := kn_udata kn; kn_active := true |}.

Definition sim_write (fd : Z) (buf : list Z) (s : sim) : result Z * sim :=
  match sim_pipes s !! (fd - 1) with
  | Some n =>
      (Ok (Z.of_nat (length buf)),
       s <| sim_pipes := <[fd - 1 := n + Z.of_nat (length buf)]> (sim_pipes s) |>
         <| sim_kqs := alter activate (fd - 1, EVFILT_READ) <$> sim_kqs s |>)
  | None => (Err EBADF, s)
  end.

Definition sim_read (fd nbytes : Z) (s : sim) : result (list Z) * sim :=
  match sim_pipes s !! fd with
  | Some n =>
      if 0 <? n then
        (Ok (repeat 0 (Z.to_nat (Z.min n nbytes))),
         s <| sim_pipes := <[fd := n - Z.min n nbytes]> (sim_pipes s) |>)
      else (Err EAGAIN, s)
  | None => (Err EBADF, s)
  end.

(** ** signals *)

(** The least pending signal of the set is taken. *)
Definition sim_sigtimedwait (set : sigset_t) (s : sim) : result (Z * siginfo_t) * sim :=
  match List.find (sigismember (Z.land (sim_pending s) set)) (seqZ 1 128) with
  | Some i =>
      (Ok (i, siginfo_zero <| si_signo := i |>),
       s <| sim_pending := Z.clearbit (sim_pending s) (i - 1) |>)
  | None => (Err EAGAIN, s)
  end.

(** A signal arrives. *)
Definition sim_signal (i : Z) (s : sim) : sim :=
  s <| sim_pending := Z.setbit (sim_pending s) (i - 1) |>
    <| sim_kqs := alter activate (i, EVFILT_SIGNAL) <$> sim_kqs s |>.

(** ** All calls *)

(** A clock that is out of range cannot be read. *)
Definition sim_clock (ts : timespec) : result timespec :=
  if (0 <=? tv_sec ts) && (tv_sec ts <=? INT64_MAX) && (0 <=? tv_nsec ts) && (tv_nsec ts <? 10 ^ 9)
  then Ok ts else Err EINVAL.

(** EMFILE when there is no descriptor left. *)
Definition sim_new_kq (s : sim) : result Z * sim :=
  if INT_MAX <? sim_new s then (Err 24, s)
  else (Ok (sim_new s), sim_use [sim_new s] (s <| sim_kqs := <[sim_new s := ∅]> (sim_kqs s) |>)).

Definition sim_new_pipe (s : sim) : result (Z * Z) * sim :=
  (Ok (sim_new s, sim_new s + 1),
   sim_use [sim_new s; sim_new s + 1] (s <| sim_pipes := <[sim_new s := 0]> (sim_pipes s) |>)).

Definition sim_alloc (s : sim) : result Z * sim :=
  match sim_malloc_error s with
  | Some ec => (Err ec, s)
  | None => (Ok (sim_new s), sim_use [] s)
  end.

Definition sim_poll_one (s : sim) (p : pollfd) : pollfd :=
  {| pfd_fd := pfd_fd p; pfd_events := pfd_events p;
     pfd_revents := if sim_readable s (pfd_fd p) then Z.land (pfd_events p) POLLIN else 0 |}.

(** The monotonic clock, in nanoseconds, and its advance. *)
Definition sim_now (s : sim) : Z := tv_sec (sim_mono s) * 10 ^ 9 + tv_nsec (sim_mono s).

Definition sim_pass (nanos : Z) (s : sim) : sim :=
  let now := sim_now s + Z.max 0 nanos in
  s <| sim_mono := {| tv_sec := now / 10 ^ 9; tv_nsec := now mod 10 ^ 9 |} |>.

(** Without a ready descriptor the timeout elapses. *)
Definition sim_poll (fds : list pollfd) (nanos : Z) (s : sim) : result (Z * list pollfd) * sim :=
  let fds' := map (sim_poll_one s) fds in
  let n := Z.of_nat (length (List.filter (fun p => negb (pfd_revents p =? 0)) fds')) in
  (Ok (n, fds'), if n =? 0 then sim_pass nanos s else s).

#[export] Instance sim_kernel : Kernel sim := fun A c =>
  match c in syscall A return sim -> A * sim with
  | sys_kqueue => sim_new_kq
  | sys_kqueue1 _ => sim_new_kq
  | sys_kevent kq changes nevents _ => sim_kevent kq changes nevents
  | sys_poll fds timeout => sim_poll fds (timeout * 10 ^ 6)
  | sys_ppoll fds timeout _ =>
      sim_poll fds (match timeout with Some t => tv_sec t * 10 ^ 9 + tv_nsec t | None => 0 end)
  | sys_read fd n => sim_read fd n
  | sys_write fd buf => sim_write fd buf
  | sys_close fd => fun s =>
      (Ok tt, s <| sim_kqs := delete fd (sim_kqs s) |> <| sim_pipes := delete fd (sim_pipes s) |>
        <| sim_open := sim_open s ∖ {[fd]} |>)
  | sys_fcntl fd cmd arg => fun s =>
      match cmd with
      | F_GETFL => (Ok (default 0 (sim_flags s !! fd)), s)
      | F_SETFL => (Ok 0, s <| sim_flags := <[fd := arg]> (sim_flags s) |>)
      | F_GETFD => (Ok (default 0 (sim_fdflags s !! fd)), s)
      | F_SETFD => (Ok 0, s <| sim_fdflags := <[fd := arg]> (sim_fdflags s) |>)
      end
  | sys_ioctl_fionread fd => fun s =>
      match sim_kqs s !! fd with Some _ => (Err ENOTTY, s) | None => (Ok 0, s) end
  | sys_ioctl_fionbio _ _ => fun s => (Ok tt, s)
  | sys_fstat fd => fun s =>
      if negb ((0 <=? fd) && (fd <=? INT_MAX)) then (Err EBADF, s)
      else
        match sim_modes s !! fd with
        | Some mode => (Ok mode, s)
        | None => match sim_kqs s !! fd with Some _ => (Ok 0x1000, s) | None => (Err EBADF, s) end
        end
  | sys_pipe => sim_new_pipe
  | sys_pipe2 _ => sim_new_pipe
  | sys_socket _ _ _ => fun s => (Ok (sim_new s), sim_use [sim_new s] s)
  | sys_socketpair _ _ _ => fun s =>
      (Ok (sim_new s, sim_new s + 1), sim_use [sim_new s; sim_new s + 1] s)
  | sys_clock_gettime CLOCK_REALTIME => fun s => (sim_clock (sim_real s), s)
  | sys_clock_gettime CLOCK_MONOTONIC => fun s => (sim_clock (sim_mono s), s)
  | sys_boottime => fun s => (Ok (sim_boot s), s)
  | sys_clk_tck => fun s => (100, s)
  | sys_malloc _ => sim_alloc
  | sys_realloc _ _ => sim_alloc
  | sys_free _ => fun s => (tt, s)
  | sys_mutex_init => fun s => (Ok tt, s)
  | sys_mutex_destroy => fun s => (Ok tt, s)
  | sys_cond_init => fun s => (Ok tt, s)
  | sys_cond_destroy => fun s => (Ok tt, s)
  | sys_sem_init _ => fun s => (Ok tt, s)
  | sys_sem_destroy => fun s => (Ok tt, s)
  | sys_sem_wait => fun s => (Ok tt, s)
  | sys_sigpending => fun s => (Ok (sim_pending s), s)
  | sys_sigtimedwait set => sim_sigtimedwait set
  | sys_sigwait _ => fun s => (Err EAGAIN, s)
  | sys_thrsigdivert _ => fun s => (Err EAGAIN, s)
  | sys_sigaction_get _ => fun s =>
      (Ok {| sa_handler := SIG_DFL; sa_siginfo := false; sa_restart := false |}, s)
  | sys_sigaction_set _ _ => fun s => (Ok tt, s)
  | sys_sigmask_get => fun s => (Ok (sim_mask s), s)
  | sys_sigmask_set set => fun s => (Ok (sim_mask s), s <| sim_mask := set |>)
  | sys_cap_rights_get _ => fun s => (Ok (true, true), s)
  | sys_pthread_create => fun s => (Ok tt, s)
  | sys_nanosleep _ => fun s => (tt, s)
  | sys_indeterminate_kevent => fun s => (EV_SET 0 0 0 0 0 0, s)
  end.

(** ** Build configurations *)

Definition freebsd : Platform :=
  {| os := FreeBSD; has_evfilt_user := true; has_evfilt_except := false;
     has_note_useconds := true; quirk_oneshot_timeout_zero := false;
     quirky_evfilt_timer := false; has_pollrdhup := true; POLLRDHUP_VALUE := 0x4000 |}.

Definition netbsd9 : Platform :=
  {| os := NetBSD; has_evfilt_user := false; has_evfilt_except := false;
     has_note_useconds := false; quirk_oneshot_timeout_zero := true;
     quirky_evfilt_timer := true; has_pollrdhup := false; POLLRDHUP_VALUE := 0x2000 |}.

Definition macos : Platform :=
  {| os := Apple; has_evfilt_user := true; has_evfilt_except := true;
     has_note_useconds := true; quirk_oneshot_timeout_zero := false;
     quirky_evfilt_timer := false; has_pollrdhup := false; POLLRDHUP_VALUE := 0x2000 |}.
