(* ===== verification/Timespec.v ===== *)
(** * Time values (src/timespec_util.c, src/timespec_util.h)

    Validity, overflow-checked addition and subtraction and the two macros of
    the header.  [nanos] is the reference: a time value as one integer number
    of nanoseconds. *)

From S2P Require Import Prelude Kernel.

(** ** Definitions *)

Definition NSEC_PER_SEC : Z := 1000000000.

Definition timespec_is_valid (ts : timespec) : bool :=
  (0 <=? tv_sec ts) && (0 <=? tv_nsec ts) && (tv_nsec ts <? 1000000000).

Definition itimerspec_is_valid (its : itimerspec) : bool :=
  timespec_is_valid (it_value its) && timespec_is_valid (it_interval its).

(** [None] is the return value [false]; the callers do not read the partly
    written out parameter then. *)
Definition timespecadd_safe {S} (tsp usp : timespec) : M S (option timespec) :=
  c_assert (timespec_is_valid tsp) ;;
  c_assert (timespec_is_valid usp) ;;
  match checked fits_i64 (tv_sec tsp + tv_sec usp) with
  | None => ret None
  | Some sec =>
      let nsec := tv_nsec tsp + tv_nsec usp in
      if 1000000000 <=? nsec then
        match checked fits_i64 (sec + 1) with
        | None => ret None
        | Some sec' => ret (Some {| tv_sec := sec'; tv_nsec := nsec - 1000000000 |})
        end
      else ret (Some {| tv_sec := sec; tv_nsec := nsec |})
  end.

Definition timespecsub_safe {S} (tsp usp : timespec) : M S (option timespec) :=
  c_assert (timespec_is_valid tsp) ;;
  c_assert (timespec_is_valid usp) ;;
  match checked fits_i64 (tv_sec tsp - tv_sec usp) with
  | None => ret None
  | Some sec =>
      let nsec := tv_nsec tsp - tv_nsec usp in
      if nsec <? 0 then
        match checked fits_i64 (sec - 1) with
        | None => ret None
        | Some sec' => ret (Some {| tv_sec := sec'; tv_nsec := nsec + 1000000000 |})
        end
      else ret (Some {| tv_sec := sec; tv_nsec := nsec |})
  end.

(** The macro [timespecsub]: no overflow check. *)
Definition timespecsub (tsp usp : timespec) : timespec :=
  let sec := tv_sec tsp - tv_sec usp in
  let nsec := tv_nsec tsp - tv_nsec usp in
  if nsec <? 0 then {| tv_sec := sec - 1; tv_nsec := nsec + 1000000000 |}
  else {| tv_sec := sec; tv_nsec := nsec |}.

(** The macro [timespeccmp]; [cmp] is the operator. *)
Definition timespeccmp (tvp uvp : timespec) (cmp : Z -> Z -> bool) : bool :=
  if tv_sec tvp =? tv_sec uvp then cmp (tv_nsec tvp) (tv_nsec uvp)
  else cmp (tv_sec tvp) (tv_sec uvp).

(** ** Reference semantics *)

Definition nanos (ts : timespec) : Z := tv_sec ts * NSEC_PER_SEC + tv_nsec ts.

(** A valid value whose seconds are a [time_t]. *)
Definition timespec_ok (ts : timespec) : Prop :=
  timespec_is_valid ts = true /\ tv_sec ts <= INT64_MAX.

(** The nanosecond part is in range; the seconds may be negative. *)
Definition nsec_ok (ts : timespec) : Prop := 0 <= tv_nsec ts < NSEC_PER_SEC.

(** ** Lemmas *)

Lemma timespec_is_valid_spec ts :
  timespec_is_valid ts = true <-> 0 <= tv_sec ts /\ nsec_ok ts.
Proof.
  unfold timespec_is_valid, nsec_ok, NSEC_PER_SEC.
  rewrite !andb_true_iff, !Z.leb_le, Z.ltb_lt. lia.
Qed.

Lemma timespec_ok_spec ts :
  timespec_ok ts <-> 0 <= tv_sec ts <= INT64_MAX /\ nsec_ok ts.
Proof. unfold timespec_ok. rewrite timespec_is_valid_spec. tauto. Qed.

Lemma timespec_ok_valid ts : timespec_ok ts -> timespec_is_valid ts = true.
Proof. by intros []. Qed.

Lemma timespec_ok_nsec ts : timespec_ok ts -> nsec_ok ts.
Proof. rewrite timespec_ok_spec. tauto. Qed.

Lemma timespec_ok_nonneg ts : timespec_ok ts -> 0 <= nanos ts.
Proof. rewrite timespec_ok_spec. unfold nanos, nsec_ok, NSEC_PER_SEC. lia. Qed.

(** The representation is canonical. *)
Lemma nanos_inj a b : nsec_ok a -> nsec_ok b -> nanos a = nanos b -> a = b.
Proof.
  unfold nanos, nsec_ok, NSEC_PER_SEC. destruct a, b; cbn. intros. f_equal; lia.
Qed.

(** The macro agrees with the order on nanoseconds. *)
Lemma timespeccmp_leb a b : nsec_ok a -> nsec_ok b ->
  timespeccmp a b Z.leb = (nanos a <=? nanos b).
Proof.
  unfold timespeccmp, nanos, nsec_ok, NSEC_PER_SEC. intros.
  destruct (Z.eqb_spec (tv_sec a) (tv_sec b)); apply eq_true_iff_eq; rewrite !Z.leb_le; lia.
Qed.

Lemma timespeccmp_geb a b : nsec_ok a -> nsec_ok b ->
  timespeccmp a b Z.geb = (nanos b <=? nanos a).
Proof.
  unfold timespeccmp, nanos, nsec_ok, NSEC_PER_SEC. intros.
  destruct (Z.eqb_spec (tv_sec a) (tv_sec b)); apply eq_true_iff_eq;
    rewrite Z.geb_leb, !Z.leb_le; lia.
Qed.

Lemma timespeccmp_ltb a b : nsec_ok a -> nsec_ok b ->
  timespeccmp a b Z.ltb = (nanos a <? nanos b).
Proof.
  unfold timespeccmp, nanos, nsec_ok, NSEC_PER_SEC. intros.
  destruct (Z.eqb_spec (tv_sec a) (tv_sec b)); apply eq_true_iff_eq; rewrite !Z.ltb_lt; lia.
Qed.

Lemma timespecsub_nanos a b : nsec_ok a -> nsec_ok b ->
  nsec_ok (timespecsub a b) /\ nanos (timespecsub a b) = nanos a - nanos b.
Proof.
  unfold timespecsub, nanos, nsec_ok, NSEC_PER_SEC. intros.
  destruct (Z.ltb_spec (tv_nsec a - tv_nsec b) 0); cbn; lia.
Qed.

Lemma checked_Some (fits : Z -> bool) z z' : checked fits z = Some z' <-> fits z = true /\ z' = z.
Proof. unfold checked. destruct (fits z); intuition congruence. Qed.

Lemma checked_None (fits : Z -> bool) z : checked fits z = None <-> fits z = false.
Proof. unfold checked. destruct (fits z); intuition congruence. Qed.

Lemma fits_i64_spec z : fits_i64 z = true <-> INT64_MIN <= z <= INT64_MAX.
Proof. unfold fits_i64. rewrite andb_true_iff, !Z.leb_le. done. Qed.

Lemma fits_i64_false z : fits_i64 z = false <-> ~ (INT64_MIN <= z <= INT64_MAX).
Proof. rewrite <- fits_i64_spec. destruct (fits_i64 z); intuition congruence. Qed.

(** Addition, in closed form. *)
Lemma timespecadd_safe_run {S} a b (s : S) : timespec_ok a -> timespec_ok b ->
  exists r, timespecadd_safe a b s = Done r s /\
    match r with
    | Some c => timespec_ok c /\ nanos c = nanos a + nanos b
    | None => (INT64_MAX + 1) * NSEC_PER_SEC <= nanos a + nanos b
    end.
Proof.
  intros Ha Hb. unfold timespecadd_safe, bind, c_assert.
  rewrite (timespec_ok_valid _ Ha), (timespec_ok_valid _ Hb). cbn.
  apply timespec_ok_spec in Ha, Hb.
  unfold nsec_ok, nanos, NSEC_PER_SEC in *.
  destruct (checked fits_i64 (tv_sec a + tv_sec b)) as [sec|] eqn:E; cycle 1.
  { apply checked_None, fits_i64_false in E. unfold INT64_MIN, INT64_MAX in *.
    eexists; split; [done|]. cbn. lia. }
  apply checked_Some in E as [E ->]. apply fits_i64_spec in E.
  destruct (Z.leb_spec 1000000000 (tv_nsec a + tv_nsec b)); cycle 1.
  { eexists; split; [done|]. cbn. rewrite timespec_ok_spec. unfold nsec_ok, NSEC_PER_SEC. cbn. lia. }
  destruct (checked fits_i64 (tv_sec a + tv_sec b + 1)) as [sec|] eqn:E'; cycle 1.
  - apply checked_None, fits_i64_false in E'. eexists; split; [done|]. cbn.
    unfold INT64_MIN, INT64_MAX in *. lia.
  - apply checked_Some in E' as [E' ->]. apply fits_i64_spec in E'.
    eexists; split; [done|]. cbn. rewrite timespec_ok_spec. unfold nsec_ok, NSEC_PER_SEC. cbn. lia.
Qed.

(** Subtraction of valid values cannot overflow. *)
Lemma timespecsub_safe_run {S} a b (s : S) : timespec_ok a -> timespec_ok b ->
  timespecsub_safe a b s = Done (Some (timespecsub a b)) s.
Proof.
  intros Ha Hb. unfold timespecsub_safe, timespecsub, bind, c_assert.
  rewrite (timespec_ok_valid _ Ha), (timespec_ok_valid _ Hb). cbn.
  apply timespec_ok_spec in Ha, Hb. unfold nsec_ok, NSEC_PER_SEC, INT64_MAX in *.
  assert (fits_i64 (tv_sec a - tv_sec b) = true) as E
    by (apply fits_i64_spec; unfold INT64_MIN, INT64_MAX; lia).
  assert (fits_i64 (tv_sec a - tv_sec b - 1) = true) as E'
    by (apply fits_i64_spec; unfold INT64_MIN, INT64_MAX; lia).
  unfold checked. rewrite E, E'. by destruct (tv_nsec a - tv_nsec b <? 0).
Qed.

(** ** Properties *)

(** [timespecadd_safe] on valid operands never fails its assertions; it
    returns [true] exactly when the sum is representable, and the stored value
    is then the valid representation of the exact sum in nanoseconds. *)
Theorem timespecadd_safe_correct {S} a b (s : S) : timespec_ok a -> timespec_ok b ->
  exists r, timespecadd_safe a b s = Done r s /\
    (forall c, r = Some c <-> timespec_ok c /\ nanos c = nanos a + nanos b) /\
    (r = None <-> (INT64_MAX + 1) * NSEC_PER_SEC <= nanos a + nanos b).
Proof.
  intros Ha Hb. destruct (timespecadd_safe_run a b s Ha Hb) as (r & Hr & Hspec).
  exists r. split; [done|].
  destruct r as [c|].
  - destruct Hspec as [Hc Hn]. split.
    + intros c'. split; [by intros [= ->]|]. intros [Hc' Hn'].
      f_equal. apply nanos_inj; eauto using timespec_ok_nsec. congruence.
    + split; [done|]. intros H. apply timespec_ok_spec in Hc as [? ?].
      unfold nsec_ok, nanos, NSEC_PER_SEC in *. lia.
  - split; [|done]. intros c. split; [done|]. intros [Hc Hn]. exfalso.
    apply timespec_ok_spec in Hc as [? ?]. unfold nsec_ok, nanos, NSEC_PER_SEC in *. lia.
Qed.

Lemma timespecadd_safe_correct_witness :
  exists r, timespecadd_safe (S := unit) {| tv_sec := 1; tv_nsec := 999999999 |}
      {| tv_sec := 2; tv_nsec := 5 |} tt = Done r tt /\
    (forall c, r = Some c <-> timespec_ok c /\
       nanos c = nanos {| tv_sec := 1; tv_nsec := 999999999 |} + nanos {| tv_sec := 2; tv_nsec := 5 |}) /\
    (r = None <-> (INT64_MAX + 1) * NSEC_PER_SEC <=
       nanos {| tv_sec := 1; tv_nsec := 999999999 |} + nanos {| tv_sec := 2; tv_nsec := 5 |}).
Proof.
  apply timespecadd_safe_correct; (split; [reflexivity|unfold INT64_MAX; cbn; lia]).
Defined.
