(* ===== verification/KqueueEvent.v ===== *)
(** * The self-triggered event of a kqueue (src/kqueue_event.c)

    eventfd and signalfd descriptors are kqueues.  Such a kqueue is made
    readable by hand, with an [EVFILT_USER] event or, where that filter does
    not exist, with a byte in a self pipe.  [is_triggered_] remembers whether
    that was done. *)

From S2P Require Import Prelude Kernel.

(** Iterations granted to the draining loops. *)
Class Fuel := fuel : nat.

Record KQueueEvent := { is_triggered_ : bool; self_pipe_ : Z * Z }.
#[export] Instance eta_KQueueEvent : Eta KQueueEvent := fun r =>
  {| is_triggered_ := is_triggered_ r; self_pipe_ := self_pipe_ r |}.

Section KqueueEvent.
Context {W : Type} `{!Platform, !Kernel W, !Fuel}.

(** [char c[32]; while (real_read(fd, c, sizeof(c)) >= 0) {}] *)
Fixpoint read_until_error (n : nat) (fd : Z) : M W unit :=
  match n with
  | O => stop_with OutOfFuel
  | S n' =>
      let* r := call (sys_read fd 32) in
      match r with
      | Ok _ => read_until_error n' fd
      | Err _ => ret tt
      end
  end.

(** [while ((n = kevent(kq, NULL, 0, kevs, 32, &{0, 0})) > 0) {}] *)
Fixpoint kevent_until_empty (n : nat) (kq : Z) : M W unit :=
  match n with
  | O => stop_with OutOfFuel
  | S n' =>
      let* r := call (sys_kevent kq [] 32 (Some {| tv_sec := 0; tv_nsec := 0 |})) in
      match r with
      | Ok (_ :: _) => kevent_until_empty n' kq
      | _ => ret tt
      end
  end.

Definition kqueue_event_trigger (kq : Z) : M (KQueueEvent * W) (result unit) :=
  let* triggered := getf is_triggered_ in
  if triggered then ret (Ok tt)
  else if has_evfilt_user then
    let* r := call (sys_kevent kq [EV_SET 0 EVFILT_USER 0 NOTE_TRIGGER 0 0] 0 None) in
    match r with
    | Err ec => ret (Err ec)
    | Ok _ => self is_triggered_ := true ;; ret (Ok tt)
    end
  else
    let* p := getf self_pipe_ in
    let* r := call (sys_write p.2 [0]) in
    match r with
    | Err ec =>
        if negb (ec =? EAGAIN) && negb (ec =? EWOULDBLOCK) then ret (Err ec)
        else self is_triggered_ := true ;; ret (Ok tt)
    | Ok _ => self is_triggered_ := true ;; ret (Ok tt)
    end.

Definition kqueue_event_terminate : M (KQueueEvent * W) (result unit) :=
  if has_evfilt_user then ret (Ok tt)
  else
    let* p := getf self_pipe_ in
    let* r0 := call (sys_close p.1) in
    let* r1 := call (sys_close p.2) in
    ret (first_error (first_error (Ok tt) r0) r1).

(** The result carries [kevs[0 .. *kevs_length]]. *)
Definition kqueue_event_init (kevs : list kevent) (should_trigger : bool) :
    M (KQueueEvent * W) (result (list kevent)) :=
  put {| is_triggered_ := false; self_pipe_ := (-1, -1) |} ;;
  if has_evfilt_user then
    let kevs := kevs ++ [EV_SET 0 EVFILT_USER (Z.lor EV_ADD EV_CLEAR) 0 0 0] in
    if should_trigger then
      self is_triggered_ := true ;;
      ret (Ok (kevs ++ [EV_SET 0 EVFILT_USER 0 NOTE_TRIGGER 0 0]))
    else ret (Ok kevs)
  else
    try* p := call (sys_pipe2 (Z.lor O_NONBLOCK O_CLOEXEC)) in
    self self_pipe_ := p ;;
    let kevs := kevs ++ [EV_SET p.1 EVFILT_READ (Z.lor EV_ADD EV_CLEAR) 0 0 0] in
    if should_trigger then
      let* r := kqueue_event_trigger (-1) in
      match r with
      | Err ec =>
          kqueue_event_terminate ;; ret (Err ec)
      | Ok _ =>
          let* triggered := getf is_triggered_ in
          c_assert triggered ;;
          ret (Ok kevs)
      end
    else ret (Ok kevs).

Definition kqueue_event_is_triggered : M (KQueueEvent * W) bool := getf is_triggered_.

Definition kqueue_event_clear (kq : Z) : M (KQueueEvent * W) unit :=
  let* p := getf self_pipe_ in
  when (negb has_evfilt_user) (lift (read_until_error fuel p.1)) ;;
  lift (kevent_until_empty fuel kq) ;;
  self is_triggered_ := false.
End KqueueEvent.

(** Termination only closes the pipe. *)
Lemma kqueue_event_terminate_total `{!Platform, !Kernel W} (e : KQueueEvent) (w : W) :
  wp kqueue_event_terminate (fun _ s => s.1 = e) (e, w).
Proof.
  unfold kqueue_event_terminate. destruct has_evfilt_user; wps; [done|].
  destruct (kernel_step _ w) as [r1 w1]. wps. destruct (kernel_step _ w1) as [r2 w2]. by wps.
Qed.

(** ** What the code relies on of the system

    [armed w kq p]: the only event registered with [kq] is the one of
    [kqueue_event_init], edge triggered; without [EVFILT_USER] it watches the
    self pipe [p].  [bytes w p] is the number of bytes in a self pipe. *)
Class SelfEventLaws (W : Type) `{!Platform, !Kernel W} := {
  readable : W -> Z -> bool;
  unarmed : W -> Z -> Prop;
  armed : W -> Z -> Z * Z -> Prop;
  is_pipe : W -> Z * Z -> Prop;
  bytes : W -> Z * Z -> Z;
  (** kevent(2), NOTE_TRIGGER: the event becomes pending. *)
  law_trigger w kq p : has_evfilt_user = true -> armed w kq p ->
    let (r, w') := kernel_step (sys_kevent kq [EV_SET 0 EVFILT_USER 0 NOTE_TRIGGER 0 0] 0 None) w in
    armed w' kq p /\ readable w' kq = is_ok r || readable w kq;
  (** kevent(2), EV_ADD | EV_CLEAR on a new kqueue. *)
  law_attach_user w kq p (trigger : bool) : has_evfilt_user = true -> unarmed w kq ->
    let add := EV_SET 0 EVFILT_USER (Z.lor EV_ADD EV_CLEAR) 0 0 0 in
    let fire := EV_SET 0 EVFILT_USER 0 NOTE_TRIGGER 0 0 in
    let (r, w') := kernel_step (sys_kevent kq (if trigger then [add; fire] else [add]) 0 None) w in
    is_ok r = true -> armed w' kq p /\ readable w' kq = trigger;
  law_attach_pipe w kq p : has_evfilt_user = false -> unarmed w kq -> is_pipe w p ->
    let add := EV_SET p.1 EVFILT_READ (Z.lor EV_ADD EV_CLEAR) 0 0 0 in
    let (r, w') := kernel_step (sys_kevent kq [add] 0 None) w in
    is_ok r = true ->
    armed w' kq p /\ is_pipe w' p /\ bytes w' p = bytes w p /\ readable w' kq = (0 <? bytes w p);
  (** pipe2(2) *)
  law_pipe w kq : has_evfilt_user = false -> unarmed w kq ->
    let (r, w') := kernel_step (sys_pipe2 (Z.lor O_NONBLOCK O_CLOEXEC)) w in
    unarmed w' kq /\ match r with Ok p => is_pipe w' p /\ bytes w' p = 0 | Err _ => True end;
  (** write(2) on an empty non-blocking pipe: it does not report a full pipe. *)
  law_write w p : has_evfilt_user = false -> is_pipe w p -> bytes w p = 0 ->
    let (r, w') := kernel_step (sys_write p.2 [0]) w in
    is_pipe w' p /\
    (forall kq, unarmed w kq -> unarmed w' kq) /\
    (forall kq, armed w kq p -> armed w' kq p /\ readable w' kq = is_ok r || readable w kq) /\
    bytes w' p = (if is_ok r then 1 else 0) /\ r <> Err EAGAIN;
  (** read(2): at most [nbytes] bytes, an error when the pipe is empty. *)
  law_read w p : has_evfilt_user = false -> is_pipe w p -> 0 <= bytes w p <= 32 ->
    let (r, w') := kernel_step (sys_read p.1 32) w in
    is_pipe w' p /\ (forall kq, armed w kq p -> armed w' kq p) /\
    bytes w' p = 0 /\ is_ok r = (0 <? bytes w p);
  (** kevent(2) with room for all events and a zero timeout: EV_CLEAR resets the event. *)
  law_drain w kq p : armed w kq p -> (has_evfilt_user = false -> bytes w p = 0) ->
    let (r, w') :=
      kernel_step (sys_kevent kq [] 32 (Some {| tv_sec := 0; tv_nsec := 0 |})) w in
    armed w' kq p /\ readable w' kq = false /\ (is_pipe w p -> is_pipe w' p) /\
    bytes w' p = bytes w p /\ is_ok r = true /\ (readable w kq = false -> r = Ok [])
}.

(** ** The contract of the component

    [sound e kq w]: the structure [e] describes the kqueue [kq]. *)
Class SelfEvent (W : Type) `{!Platform, !Kernel W, !Fuel} := {
  kq_readable : W -> Z -> bool;
  fresh_kq : W -> Z -> Prop;
  sound : KQueueEvent -> Z -> W -> Prop;
  sound_readable e kq w : sound e kq w -> kq_readable w kq = is_triggered_ e;
  trigger_spec e kq w : sound e kq w ->
    wp (kqueue_event_trigger kq)
      (fun r s => sound s.1 kq s.2 /\
         is_triggered_ s.1 = (is_ok r || is_triggered_ e) /\
         (is_triggered_ e = true -> r = Ok tt)) (e, w);
  clear_spec e kq w : sound e kq w ->
    wp (kqueue_event_clear kq)
      (fun _ s => sound s.1 kq s.2 /\ is_triggered_ s.1 = false) (e, w);
  (** [prepared e kq w kevs t]: initialised; the changes [kevs] are to be registered. *)
  prepared : KQueueEvent -> Z -> W -> list kevent -> bool -> Prop;
  init_spec e kq w (t : bool) : fresh_kq w kq ->
    wp (kqueue_event_init [] t)
      (fun r s => match r with Ok kevs => prepared s.1 kq s.2 kevs t | Err _ => True end) (e, w);
  register_spec e kq w kevs (t : bool) : prepared e kq w kevs t ->
    let (r, w') := kernel_step (sys_kevent kq kevs 0 None) w in
    is_ok r = true -> sound e kq w' /\ is_triggered_ e = t
}.

(** ** The implementation meets its contract *)

Section Correct.
Context {W : Type} `{!Platform, !Kernel W, !Fuel, !SelfEventLaws W}.

Definition event_sound (e : KQueueEvent) (kq : Z) (w : W) : Prop :=
  armed w kq (self_pipe_ e) /\
  readable w kq = is_triggered_ e /\
  (has_evfilt_user = false ->
   is_pipe w (self_pipe_ e) /\ bytes w (self_pipe_ e) = if is_triggered_ e then 1 else 0).

Lemma event_trigger_spec e kq w : event_sound e kq w ->
  wp (kqueue_event_trigger kq)
    (fun r s => event_sound s.1 kq s.2 /\
       is_triggered_ s.1 = (is_ok r || is_triggered_ e) /\
       (is_triggered_ e = true -> r = Ok tt)) (e, w).
Proof.
  intros (Harm & Hread & Hpipe). unfold kqueue_event_trigger. wps.
  destruct (is_triggered_ e) eqn:Et; wps; [unfold event_sound; cbn; rewrite Et; auto|].
  destruct has_evfilt_user eqn:Eu; wps.
  - law (law_trigger w kq _ Eu Harm) as [l|ec] w' [Ha Hr]; wps;
      unfold event_sound, upd; cbn in *; rewrite ?Et, ?Hr, ?Hread; split_and!; congruence.
  - specialize (Hpipe eq_refl) as [Hp Hb].
    law (law_write w _ Eu Hp Hb) as [l|ec] w' (Hp' & _ & Hkq & Hb' & Hne);
      destruct (Hkq _ Harm) as [Ha Hr]; cbn in *.
    + wps. unfold event_sound, upd; cbn. rewrite Hr. auto.
    + unfold EWOULDBLOCK. destruct (Z.eqb_spec ec EAGAIN) as [->|_]; [done|].
      cbn. wps. unfold event_sound; cbn. rewrite Et, Hr, Hread. split_and!; congruence || auto.
Qed.

Lemma kevent_until_empty_spec n kq p w : (2 <= n)%nat -> armed w kq p ->
  (has_evfilt_user = false -> is_pipe w p /\ bytes w p = 0) ->
  wp (kevent_until_empty n kq)
    (fun _ w' => armed w' kq p /\ readable w' kq = false /\
       (has_evfilt_user = false -> is_pipe w' p /\ bytes w' p = 0)) w.
Proof.
  intros Hn Ha Hp. destruct n as [|[|n]]; [lia..|].
  cbn [kevent_until_empty]. apply wp_bind, wp_call.
  law (law_drain w kq p Ha (fun H => proj2 (Hp H))) as r w1 (Ha1 & Hr1 & Hp1 & Hb1 & Hok & _).
  assert (has_evfilt_user = false -> is_pipe w1 p /\ bytes w1 p = 0) as Hp1'.
  { intros Eu. destruct (Hp Eu). rewrite Hb1. auto. }
  destruct r as [[|ev l]|]; [by auto| |done]. apply wp_bind, wp_call.
  law (law_drain w1 kq p Ha1 (fun H => proj2 (Hp1' H))) as r w2 (Ha2 & Hr2 & Hp2 & Hb2 & _ & Hlast).
  rewrite (Hlast Hr1). apply wp_ret. split_and!; auto.
  intros Eu. destruct (Hp1' Eu). rewrite Hb2. auto.
Qed.

Lemma read_until_error_spec n kq p w : (2 <= n)%nat -> has_evfilt_user = false ->
  armed w kq p -> is_pipe w p -> 0 <= bytes w p <= 32 ->
  wp (read_until_error n p.1)
    (fun _ w' => armed w' kq p /\ is_pipe w' p /\ bytes w' p = 0) w.
Proof.
  intros Hn Eu Ha Hp Hb. destruct n as [|[|n]]; [lia..|].
  cbn [read_until_error]. apply wp_bind, wp_call.
  law (law_read w p Eu Hp Hb) as [l|] w1 (Hp1 & Ha1 & Hb1 & _); [|wps; auto].
  apply wp_bind, wp_call.
  law (law_read w1 p Eu Hp1 ltac:(lia)) as r w2 (Hp2 & Ha2 & Hb2 & Hr).
  rewrite Hb1 in Hr. destruct r; [done|wps; auto].
Qed.

Lemma event_clear_spec e kq w : (2 <= fuel)%nat -> event_sound e kq w ->
  wp (kqueue_event_clear kq)
    (fun _ s => event_sound s.1 kq s.2 /\ is_triggered_ s.1 = false) (e, w).
Proof.
  intros Hf (Harm & Hread & Hpipe). unfold kqueue_event_clear. wps.
  assert (forall w1, armed w1 kq (self_pipe_ e) ->
    (has_evfilt_user = false -> is_pipe w1 (self_pipe_ e) /\ bytes w1 (self_pipe_ e) = 0) ->
    wp (lift (C := KQueueEvent) (kevent_until_empty fuel kq) ;; self is_triggered_ := false)
      (fun _ s => event_sound s.1 kq s.2 /\ is_triggered_ s.1 = false) (e, w1)) as Hrest.
  { intros w1 Ha1 Hp1. wps.
    eapply wp_mono; [by apply (kevent_until_empty_spec fuel kq (self_pipe_ e))|].
    intros _ w2 (Ha2 & Hr2 & Hp2). wps. unfold event_sound, upd. cbn. auto. }
  destruct has_evfilt_user eqn:Eu; cbn; [by apply Hrest|].
  destruct (Hpipe eq_refl) as [Hp Hb]. wps.
  eapply wp_mono; [apply (read_until_error_spec fuel kq (self_pipe_ e)); auto|].
  { rewrite Hb. destruct (is_triggered_ e); lia. }
  intros _ w1 (Ha1 & Hp1 & Hb1). by apply Hrest.
Qed.

(** The state between initialisation and registration. *)
Definition event_prepared (e : KQueueEvent) (kq : Z) (w : W) (kevs : list kevent) (t : bool) : Prop :=
  unarmed w kq /\ is_triggered_ e = t /\
  if has_evfilt_user then
    let add := EV_SET 0 EVFILT_USER (Z.lor EV_ADD EV_CLEAR) 0 0 0 in
    let fire := EV_SET 0 EVFILT_USER 0 NOTE_TRIGGER 0 0 in
    kevs = if t then [add; fire] else [add]
  else
    kevs = [EV_SET (self_pipe_ e).1 EVFILT_READ (Z.lor EV_ADD EV_CLEAR) 0 0 0] /\
    is_pipe w (self_pipe_ e) /\ bytes w (self_pipe_ e) = if t then 1 else 0.

Lemma event_init_spec e kq w t : unarmed w kq ->
  wp (kqueue_event_init [] t)
    (fun r s => match r with Ok kevs => event_prepared s.1 kq s.2 kevs t | Err _ => True end) (e, w).
Proof.
  intros Hk. unfold kqueue_event_init, event_prepared. wps.
  destruct has_evfilt_user eqn:Eu; [destruct t; wps; auto|]. wps.
  law (law_pipe w kq Eu Hk) as [p|] w1 [Hk1 Hp1]; wps; [|done].
  destruct Hp1 as [Hp1 Hb1]. destruct t; wps; [|by auto].
  unfold kqueue_event_trigger. rewrite Eu. wps. fields. wps.
  law (law_write w1 p Eu Hp1 Hb1) as [l|ec] w2 (Hp2 & Hk2 & _ & Hb2 & Hne); wps.
  - fields. wps. auto.
  - unfold EWOULDBLOCK. destruct (Z.eqb_spec ec EAGAIN) as [->|_]; [done|]. cbn [negb andb]. wps.
    unfold kqueue_event_terminate. rewrite Eu. wps.
    destruct (kernel_step _ w2) as [r3 w3]. wps. destruct (kernel_step _ w3) as [r4 w4]. by wps.
Qed.

Lemma event_register_spec e kq w kevs t : event_prepared e kq w kevs t ->
  let (r, w') := kernel_step (sys_kevent kq kevs 0 None) w in
  is_ok r = true -> event_sound e kq w' /\ is_triggered_ e = t.
Proof.
  intros (Hk & Ht & H'). unfold event_sound. destruct has_evfilt_user eqn:Eu; cbv zeta in H'.
  - subst kevs. law (law_attach_user w kq (self_pipe_ e) t Eu Hk) as r w' L. intros Hr.
    destruct (L Hr) as [Ha Hrd]. split_and!; congruence || auto.
  - destruct H' as (-> & Hp & Hb). law (law_attach_pipe w kq _ Eu Hk Hp) as r w' L. intros Hr.
    destruct (L Hr) as (Ha & Hp' & Hb' & Hrd). rewrite Hrd, Hb', Hb, Ht.
    split_and!; auto; by destruct t.
Qed.

(** The laws give the contract, with two iterations for the draining loops. *)
#[export] Instance self_event (Hf : (2 <= fuel)%nat) : SelfEvent W.
Proof.
  refine {| kq_readable := readable; fresh_kq := unarmed; sound := event_sound;
            prepared := event_prepared |}.
  - intros e kq w (_ & Hr & _). exact Hr.
  - apply event_trigger_spec.
  - intros. by apply event_clear_spec.
  - apply event_init_spec.
  - apply event_register_spec.
Defined.
End Correct.
