(* ===== verification/SimLaws.v ===== *)
(** * The concrete system of [Sim] meets the laws of [KqueueEvent] *)

From S2P Require Import Prelude Kernel Sim KqueueEvent.

Section Laws.
Context `{!Platform}.

Definition self_key (p : Z * Z) : Z * Z :=
  if has_evfilt_user then (0, EVFILT_USER) else (p.1, EVFILT_READ).

(** Registered, and no failure is injected. *)
Definition sim_armed (s : sim) (kq : Z) (p : Z * Z) : Prop :=
  sim_kevent_error s = None /\
  exists a, sim_kqs s !! kq = Some {[ self_key p := {| kn_udata := 0; kn_active := a |} ]}.

Definition sim_unarmed (s : sim) (kq : Z) : Prop := sim_kqs s !! kq = Some ∅.

Definition sim_is_pipe (s : sim) (p : Z * Z) : Prop :=
  p.2 = p.1 + 1 /\ is_Some (sim_pipes s !! p.1).

Definition sim_bytes (s : sim) (p : Z * Z) : Z := default 0 (sim_pipes s !! p.1).

Lemma readable_singleton s kq k a :
  sim_kqs s !! kq = Some {[ k := {| kn_udata := 0; kn_active := a |} ]} -> sim_readable s kq = a.
Proof.
  intros Hs. unfold sim_readable. rewrite Hs, map_to_list_singleton. cbn. by destruct a.
Qed.

Lemma events_singleton k a :
  sim_events {[ k := {| kn_udata := 0; kn_active := a |} ]} =
  if a then [EV_SET k.1 k.2 0 0 0 0] else [].
Proof. unfold sim_events. rewrite map_to_list_singleton. by destruct a. Qed.

(** Name the resulting system. *)
Ltac name_world s' :=
  match goal with |- context [upd sim_kqs ?v ?r] => set (s' := upd sim_kqs v r) end.

Ltac open_law := unfold kernel_step, sim_kernel, sim_kevent, sim_failure; cbn.

#[export] Instance sim_self_event_laws : SelfEventLaws sim.
Proof.
  refine {| readable := sim_readable; unarmed := sim_unarmed; armed := sim_armed;
            is_pipe := sim_is_pipe; bytes := sim_bytes |}.
  - intros w kq p Eu [He [a Ha]]. unfold sim_armed, self_key in *. rewrite Eu in *.
    rewrite (readable_singleton _ _ _ _ Ha). open_law. rewrite Ha, He.
    unfold sim_change. cbn. rewrite lookup_singleton_eq. cbn. rewrite insert_singleton_eq. eval_has.
    name_world s'.
    assert (sim_kqs s' !! kq =
      Some {[(0, EVFILT_USER) := {| kn_udata := 0; kn_active := a || true |}]}) as Hs'
      by (unfold s'; fields; by rewrite lookup_insert_eq).
    split; [eauto|]. rewrite (readable_singleton _ _ _ _ Hs'). by destruct a.
  - intros w kq p t Eu Hk. unfold sim_unarmed, sim_armed, self_key in *. rewrite Eu. open_law.
    rewrite Hk. destruct t; cbn; (destruct (sim_kevent_error w) as [ec|] eqn:He; cbn; [done|]);
      unfold sim_change; cbn; rewrite lookup_empty; eval_has;
      rewrite ?lookup_insert_eq; cbn; rewrite ?insert_insert_eq; intros _;
      (split; [split; [done|]; eexists; fields; rewrite lookup_insert_eq, ?insert_empty; done|]);
      eapply readable_singleton; fields; rewrite lookup_insert_eq, ?insert_empty; done.
  - intros w kq p Eu Hk [Hp [n Hn]]. unfold sim_unarmed, sim_armed, self_key, sim_bytes in *.
    rewrite Eu. open_law. rewrite Hk.
    destruct (sim_kevent_error w) as [ec|] eqn:He; cbn; [done|].
    unfold sim_change; cbn. rewrite lookup_empty. eval_has. intros _.
    name_world s'.
    assert (sim_kqs s' !! kq =
      Some {[(p.1, EVFILT_READ) := {| kn_udata := 0; kn_active := 0 <? n |}]}) as Hs'.
    { unfold s'. fields. rewrite lookup_insert_eq, insert_empty.
      unfold initially_active. cbn. by rewrite Hn. }
    split; [eauto|]. split; [split; [done|]; unfold s'; fields; by rewrite Hn|].
    split; [done|]. rewrite (readable_singleton _ _ _ _ Hs'). by rewrite Hn.
  - intros w kq Eu Hk. unfold sim_unarmed, sim_is_pipe, sim_bytes in *. open_law.
    unfold sim_new_pipe, sim_use. fields. rewrite lookup_insert_eq. eauto.
  - intros w p Eu [Hp [n Hn]]. unfold sim_unarmed, sim_armed, sim_is_pipe, self_key, sim_bytes.
    rewrite Eu, Hn. cbn. intros ->. open_law. unfold sim_write. rewrite Hp.
    replace (p.1 + 1 - 1) with (p.1) by lia. rewrite Hn. cbn.
    name_world s'.
    assert (sim_pipes s' !! p.1 = Some 1) as Hn' by (unfold s'; fields; by rewrite lookup_insert_eq).
    rewrite !Hn'. split; [eauto|]. split; [|split; [|done]].
    + intros kq Hk. unfold s'. fields. rewrite lookup_fmap, Hk. done.
    + intros kq [He [a Ha]].
      assert (sim_kqs s' !! kq =
        Some {[(p.1, EVFILT_READ) := {| kn_udata := 0; kn_active := true |}]}) as Hs'.
      { unfold s'. fields. rewrite lookup_fmap, Ha. cbn. f_equal.
        by rewrite alter_singleton_eq. }
      split; [eauto|]. by rewrite (readable_singleton _ _ _ _ Hs').
  - intros w p Eu [Hp [n Hn]]. unfold sim_armed, sim_is_pipe, self_key, sim_bytes.
    rewrite Eu, Hn. cbn. intros Hb. open_law. unfold sim_read. rewrite Hn.
    destruct (Z.ltb_spec 0 n); fields; [|rewrite Hn; cbn; split_and!; eauto with lia].
    rewrite lookup_insert_eq. cbn. split_and!; eauto with lia.
  - intros w kq p [He [a Ha]] Hb. unfold sim_armed, sim_is_pipe, sim_bytes in *. open_law.
    rewrite (readable_singleton _ _ _ _ Ha), Ha, events_singleton. cbn.
    name_world s'.
    assert (sim_kqs s' !! kq =
      Some {[self_key p := {| kn_udata := 0; kn_active := false |}]}) as Hs'.
    { unfold s'. fields. rewrite lookup_insert_eq. destruct a; [|done]. cbn. unfold report, kev_key. cbn.
      f_equal. destruct (self_key p). change (Z.to_nat 32) with 32%nat. cbn. by rewrite alter_singleton_eq. }
    rewrite (readable_singleton _ _ _ _ Hs').
    split_and!; eauto. by intros ->.
Defined.
End Laws.
