(* ===== verification/SignalfdCtx.v ===== *)
(** * signalfd (src/signalfd_ctx.c)

    The kqueue of a signalfd watches the signals of a set with EVFILT_SIGNAL
    filters.  Such a filter reports the arrival of a signal, not that one is
    pending; a read takes a pending signal off with [sigtimedwait], drains the
    kqueue and, when signals of the set are still pending, makes the kqueue
    readable by hand.  A signal may arrive between any two system calls: the
    property that matters is that none is left pending unnoticed. *)

From S2P Require Import Prelude Kernel KqueueEvent.

(** ** Data *)

Record SignalFDCtx := { sigs : sigset_t; kqueue_event : KQueueEvent }.
#[export] Instance eta_SignalFDCtx : Eta SignalFDCtx := fun r =>
  {| sigs := sigs r; kqueue_event := kqueue_event r |}.

(** [struct signalfd_siginfo]; the padding is left out. *)
Record SignalFDCtxSiginfo := {
  ssi_signo : Z;
  ssi_errno : Z;
  ssi_code : Z;
  ssi_pid : Z;
  ssi_uid : Z;
  ssi_fd : Z;
  ssi_tid : Z;
  ssi_band : Z;
  ssi_overrun : Z;
  ssi_trapno : Z;
  ssi_status : Z;
  ssi_int : Z;
  ssi_ptr : Z;
  ssi_utime : Z;
  ssi_stime : Z;
  ssi_addr : Z;
  ssi_addr_lsb : Z
}.
#[export] Instance eta_SignalFDCtxSiginfo : Eta SignalFDCtxSiginfo := fun r =>
  {| ssi_signo := ssi_signo r; ssi_errno := ssi_errno r; ssi_code := ssi_code r;
     ssi_pid := ssi_pid r; ssi_uid := ssi_uid r; ssi_fd := ssi_fd r; ssi_tid := ssi_tid r;
     ssi_band := ssi_band r; ssi_overrun := ssi_overrun r; ssi_trapno := ssi_trapno r;
     ssi_status := ssi_status r; ssi_int := ssi_int r; ssi_ptr := ssi_ptr r;
     ssi_utime := ssi_utime r; ssi_stime := ssi_stime r; ssi_addr := ssi_addr r;
     ssi_addr_lsb := ssi_addr_lsb r |}.

(** [memset(&siginfo, 0, sizeof(siginfo))] *)
Definition signalfd_siginfo_zero : SignalFDCtxSiginfo :=
  {| ssi_signo := 0; ssi_errno := 0; ssi_code := 0; ssi_pid := 0; ssi_uid := 0; ssi_fd := 0;
     ssi_tid := 0; ssi_band := 0; ssi_overrun := 0; ssi_trapno := 0; ssi_status := 0;
     ssi_int := 0; ssi_ptr := 0; ssi_utime := 0; ssi_stime := 0; ssi_addr := 0;
     ssi_addr_lsb := 0 |}.

(** ** Signal numbers of the system headers *)

Section Numbers.
Context `{!Platform}.

(** FreeBSD and DragonFly define [_SIG_MAXSIG]; elsewhere it is the number of bits of a
    [sigset_t]. *)
Definition SIG_MAXSIG : nat := if is_os OpenBSD || is_os Apple then 32 else 128.

Definition SIGURG : Z := 16.
Definition SIGCONT : Z := 19.
Definition SIGCHLD : Z := 20.
Definition SIGIO : Z := 23.
Definition SIGWINCH : Z := 28.
Definition SIGINFO : Z := 29.
Definition SIGPWR : Z := 32.
Definition SIGTHR : Z := 32.

(** FreeBSD's code of a message queue notification. *)
Definition SI_MESGQ : Z := 0x10005.

(** Signals whose default action is to be ignored. *)
Definition default_ignored (i : Z) : bool :=
  (i =? SIGCHLD) || (i =? SIGURG) || (i =? SIGCONT) || (i =? SIGIO) || (i =? SIGWINCH) ||
  (i =? SIGINFO) || (is_os NetBSD && (i =? SIGPWR)) ||
  ((is_os FreeBSD || is_os OpenBSD || is_os DragonFly) && (i =? SIGTHR)).
End Numbers.

(** [ffsll]: the number of the least bit set, from 1 on; 0 when there is none. *)
Definition ffsll (x : Z) : Z :=
  match List.find (fun i => Z.testbit x (i - 1)) (seqZ 1 64) with Some i => i | None => 0 end.
Definition sigmask (signum : Z) : sigset_t := Z.shiftl 1 (signum - 1).

Definition u64 (z : Z) : Z := z mod 2 ^ 64.

(** [signalfd_signal_handler], which does nothing. *)
Definition signalfd_signal_handler : sighandler := SIG_FUN 0.

(** ** Operations *)

Section Signalfd.
Context {W : Type} `{!Platform, !Kernel W, !Fuel}.

Abbreviation G := (M (SignalFDCtx * W)).

Definition signalfd_has_pending : G (result (bool * sigset_t)) :=
  let* set := getf sigs in
  try* pending_sigs := call sys_sigpending in
  let pending_sigs := sigandset pending_sigs set in
  ret (Ok (negb (sigisemptyset pending_sigs), pending_sigs)).

Definition signalfd_ctx_trigger_manually (kq : Z) : G (result unit) :=
  zoom kqueue_event (kqueue_event_trigger kq).

(** An empty handler for a signal that would be ignored by default. *)
Definition install_handler (i : Z) : M W unit :=
  let* r := call (sys_sigaction_get i) in
  match r with
  | Ok sa =>
      when (negb (sa_siginfo sa) && match sa_handler sa with SIG_DFL => true | _ => false end)
        (call_ (sys_sigaction_set i
           {| sa_handler := signalfd_signal_handler; sa_siginfo := sa_siginfo sa;
              sa_restart := true |}))
  | Err _ => ret tt
  end.

(** The loop over the signal numbers from [i] on; the result is the array of changes. *)
Fixpoint watch_signals (set : sigset_t) (n : nat) (i : Z) (kevs : list kevent) :
    M W (list kevent) :=
  match n with
  | O => ret kevs
  | S n' =>
      if sigismember set i then
        when (default_ignored i) (install_handler i) ;;
        watch_signals set n' (i + 1) (kevs ++ [EV_SET i EVFILT_SIGNAL EV_ADD 0 0 0])
      else watch_signals set n' (i + 1) kevs
  end.

Definition signalfd_ctx_terminate : G (result unit) :=
  let* ec_local := zoom kqueue_event kqueue_event_terminate in
  ret (first_error (Ok tt) ec_local).

Definition signalfd_ctx_init (kq : Z) (set : sigset_t) : G (result unit) :=
  put {| sigs := set; kqueue_event := {| is_triggered_ := false; self_pipe_ := (0, 0) |} |} ;;
  try* kevs := zoom kqueue_event (kqueue_event_init [] false) in
  let* kevs := lift (watch_signals set SIG_MAXSIG 1 kevs) in
  let* ec :=
    try* _ := call (sys_kevent kq kevs 0 None) in
    try* (has_pending, _) := signalfd_has_pending in
    if (has_pending : bool) then signalfd_ctx_trigger_manually kq else ret (Ok tt) in
  match ec with
  | Ok _ => ret (Ok tt)
  | Err ec => let* _ := zoom kqueue_event kqueue_event_terminate in ret (Err ec)
  end.

(** *** Reading *)

(** OpenBSD and macOS: one signal, with the loop around it. *)
Fixpoint grab_signal (n : nat) : G (result siginfo_t) :=
  match n with
  | O => stop_with OutOfFuel
  | S n' =>
      try* (has_pending, pending_sigs) := signalfd_has_pending in
      if negb has_pending then ret (Err EAGAIN)
      else if is_os OpenBSD then
        let* s := call (sys_thrsigdivert (sigmask (ffsll pending_sigs))) in
        match s with
        | Err ec => if (ec =? EINVAL) || (ec =? EAGAIN) then grab_signal n' else ret (Err ec)
        | Ok s => ret (Ok (siginfo_zero <| si_signo := s |>))
        end
      else
        let* set := getf sigs in
        try* s := call (sys_sigwait set) in
        ret (Ok (siginfo_zero <| si_signo := s |>))
  end.

Definition take_signal : G (result siginfo_t) :=
  if is_os OpenBSD || is_os Apple then grab_signal fuel
  else
    let* set := getf sigs in
    try* (s, siginfo) := call (sys_sigtimedwait set) in
    c_assert (si_signo siginfo =? s) ;;
    ret (Ok siginfo).

(** The conversion into the Linux structure [d]. *)
Definition fill_siginfo (siginfo : siginfo_t) (d : SignalFDCtxSiginfo) : SignalFDCtxSiginfo :=
  let d := d <| ssi_signo := u32 (si_signo siginfo) |> <| ssi_code := si_code siginfo |>
    <| ssi_errno := si_errno siginfo |> <| ssi_pid := u32 (si_pid siginfo) |>
    <| ssi_uid := u32 (si_uid siginfo) |> <| ssi_addr := u64 (si_addr siginfo) |>
    <| ssi_status := si_status siginfo |> in
  let d := if is_os OpenBSD then d else d <| ssi_band := u32 (si_band siginfo) |> in
  let d := d <| ssi_int := sival_int siginfo |> <| ssi_ptr := u64 (sival_ptr siginfo) |>
    <| ssi_fd := -1 |> <| ssi_tid := u32 (-1) |> in
  if is_os FreeBSD then
    let d := d <| ssi_trapno := u32 (si_trapno siginfo) |>
      <| ssi_tid := u32 (si_timerid siginfo) |> <| ssi_overrun := u32 (si_overrun siginfo) |> in
    if si_code siginfo =? SI_MESGQ then d <| ssi_fd := si_mqd siginfo |> else d
  else if is_os NetBSD then
    d <| ssi_utime := u64 (si_utime siginfo) |> <| ssi_stime := u64 (si_stime siginfo) |>
      <| ssi_trapno := u32 (si_trap siginfo) |> <| ssi_fd := si_fd siginfo |>
  else d.

Definition signalfd_ctx_read_impl (d : SignalFDCtxSiginfo) : G (result SignalFDCtxSiginfo) :=
  try* siginfo := take_signal in
  ret (Ok (fill_siginfo siginfo d)).

Definition signalfd_ctx_clear_signal (kq : Z) (was_triggered : bool) : G bool :=
  let recheck :=
    zoom kqueue_event (kqueue_event_clear kq) ;;
    let* r := signalfd_has_pending in
    match r with
    | Ok (false, _) => ret false
    | _ => let* _ := signalfd_ctx_trigger_manually kq in ret true
    end in
  if was_triggered then
    let* r := signalfd_has_pending in
    match r with
    | Ok (false, _) => recheck
    | _ => ret true
    end
  else recheck.

Definition signalfd_ctx_read (kq : Z) (d : SignalFDCtxSiginfo) : G (result SignalFDCtxSiginfo) :=
  let* r := signalfd_ctx_read_impl d in
  match r with
  | Err ec =>
      when ((ec =? EAGAIN) || (ec =? EWOULDBLOCK))
        (let* _ := signalfd_ctx_clear_signal kq false in ret tt)
  | Ok _ => let* _ := signalfd_ctx_clear_signal kq false in ret tt
  end ;;
  ret r.

(** [want]: the out parameter [revents] is given. *)
Definition signalfd_ctx_poll (kq : Z) (want : bool) : G (option Z) :=
  let* pending := signalfd_ctx_clear_signal kq want in
  ret (if want then Some (if pending then POLLIN else 0) else None).
End Signalfd.

(** ** What the code relies on of the system

    [watching w kq p set]: the kqueue [kq] has the self-triggered event (with the self pipe
    [p] where there is no [EVFILT_USER]) and an EVFILT_SIGNAL filter for every signal of
    [set].  [noise w kq] bounds how many more times draining reports something: the pending
    events and the arrivals to come. *)

Class SignalWorld (W : Type) := {
  s_pending : W -> sigset_t;
  s_readable : W -> Z -> bool;
  new_kq : W -> Z -> Prop;
  watching : W -> Z -> Z * Z -> sigset_t -> Prop;
  empty_pipe : W -> Z * Z -> Prop;
  noise : W -> Z -> nat
}.

(** No signal of [set] is pending unnoticed. *)
Definition covered {W} `{!SignalWorld W} (w : W) (kq : Z) (set : sigset_t) : Prop :=
  Z.land (s_pending w) set <> 0 -> s_readable w kq = true.

(** What any of these calls leaves alone, whatever signals arrive meanwhile: an arriving
    signal makes the kqueue readable. *)
Record kept {W} `{!SignalWorld W} (kq : Z) (p : Z * Z) (set : sigset_t) (w w' : W) : Prop := {
  k_watching : watching w kq p set -> watching w' kq p set;
  k_covered : covered w kq set -> covered w' kq set;
  k_empty : empty_pipe w p -> empty_pipe w' p;
  k_noise : (noise w' kq <= noise w kq)%nat
}.

Definition passive {A} (c : syscall A) : bool :=
  match c with
  | sys_sigpending | sys_sigtimedwait _ | sys_sigwait _ | sys_thrsigdivert _ => true
  | _ => false
  end.

(** The change that registers the self-triggered event. *)
Definition self_change `{!Platform} (p : Z * Z) : kevent :=
  if has_evfilt_user then EV_SET 0 EVFILT_USER (Z.lor EV_ADD EV_CLEAR) 0 0 0
  else EV_SET p.1 EVFILT_READ (Z.lor EV_ADD EV_CLEAR) 0 0 0.

Definition signal_changes (set : sigset_t) (n : nat) (i : Z) : list kevent :=
  map (fun i => EV_SET i EVFILT_SIGNAL EV_ADD 0 0 0)
    (List.filter (sigismember set) (seqZ i (Z.of_nat n))).

Class SignalLaws (W : Type) `{!Platform, !Kernel W, !SignalWorld W} := {
  law_passive {A} (c : syscall A) w kq p set : passive c = true -> watching w kq p set ->
    let (r, w') := kernel_step c w in kept kq p set w w';
  (** sigpending(2): a signal that is not in the answer came later. *)
  law_sigpending w kq p set : watching w kq p set ->
    let (r, w') := kernel_step sys_sigpending w in
    match r with Ok q => Z.land q set = 0 -> covered w' kq set | Err _ => True end;
  (** sigtimedwait(2), sigwait(2), __thrsigdivert: the signal is one of the given set. *)
  law_sigtimedwait w set :
    let (r, w') := kernel_step (sys_sigtimedwait set) w in
    match r with Ok (s, info) => si_signo info = s /\ sigismember set s = true | Err _ => True end;
  law_sigwait w set :
    let (r, w') := kernel_step (sys_sigwait set) w in
    match r with Ok s => sigismember set s = true | Err _ => True end;
  law_thrsigdivert w set :
    let (r, w') := kernel_step (sys_thrsigdivert set) w in
    match r with Ok s => 1 <= s /\ sigismember set s = true | Err _ => True end;
  (** Another thread took the signal first. *)
  law_stolen w kq p set q : is_os OpenBSD = true -> watching w kq p set ->
    let (r, w') := kernel_step (sys_thrsigdivert q) w in
    r = Err EINVAL \/ r = Err EAGAIN -> (noise w' kq < noise w kq)%nat;
  (** read(2) on the self pipe, which nobody else writes to. *)
  law_empty w kq p set : has_evfilt_user = false -> watching w kq p set ->
    let (r, w') := kernel_step (sys_read p.1 32) w in
    kept kq p set w w' /\
    match r with Ok _ => (noise w' kq < noise w kq)%nat | Err _ => empty_pipe w' p end;
  law_drain_kq w kq p set : watching w kq p set ->
    let (r, w') :=
      kernel_step (sys_kevent kq [] 32 (Some {| tv_sec := 0; tv_nsec := 0 |})) w in
    watching w' kq p set /\ (empty_pipe w p -> empty_pipe w' p) /\ (noise w' kq <= noise w kq)%nat /\
    match r with Ok (_ :: _) => (noise w' kq < noise w kq)%nat | _ => True end;
  (** NOTE_TRIGGER, or a byte in the empty self pipe, makes the kqueue readable. *)
  law_note w kq p set : has_evfilt_user = true -> watching w kq p set ->
    let (r, w') := kernel_step (sys_kevent kq [EV_SET 0 EVFILT_USER 0 NOTE_TRIGGER 0 0] 0 None) w in
    watching w' kq p set /\ (noise w' kq <= S (noise w kq))%nat /\
    (is_ok r = true -> s_readable w' kq = true);
  law_byte w kq p set : has_evfilt_user = false -> watching w kq p set -> empty_pipe w p ->
    let (r, w') := kernel_step (sys_write p.2 [0]) w in
    watching w' kq p set /\ (noise w' kq <= S (noise w kq))%nat /\
    (is_ok r = true -> s_readable w' kq = true) /\ r <> Err EAGAIN;
  (** Creation: pipe2(2), sigaction(2) and the registration. *)
  law_self_pipe w kq : has_evfilt_user = false -> new_kq w kq ->
    let (r, w') := kernel_step (sys_pipe2 (Z.lor O_NONBLOCK O_CLOEXEC)) w in
    new_kq w' kq /\ (noise w' kq <= noise w kq)%nat /\
    match r with Ok p => empty_pipe w' p | Err _ => True end;
  law_sigaction_get w kq i : new_kq w kq ->
    let (r, w') := kernel_step (sys_sigaction_get i) w in
    new_kq w' kq /\ (noise w' kq <= noise w kq)%nat /\ (forall p, empty_pipe w p -> empty_pipe w' p);
  law_sigaction_set w kq i sa : new_kq w kq ->
    let (r, w') := kernel_step (sys_sigaction_set i sa) w in
    new_kq w' kq /\ (noise w' kq <= noise w kq)%nat /\ (forall p, empty_pipe w p -> empty_pipe w' p);
  law_watch w kq p set : new_kq w kq -> (has_evfilt_user = false -> empty_pipe w p) ->
    let (r, w') := kernel_step (sys_kevent kq (self_change p :: signal_changes set SIG_MAXSIG 1) 0 None) w in
    (noise w' kq <= noise w kq)%nat /\
    (is_ok r = true -> watching w' kq p set /\ (has_evfilt_user = false -> empty_pipe w' p))
}.

(** ** No signal is left unnoticed *)

Section Unnoticed.
Context {W : Type} `{!Platform, !Kernel W, !Fuel, !SignalWorld W, !SignalLaws W}.

(** The structure describes its kqueue. *)
Definition signal_ok (kq : Z) (set : sigset_t) (c : SignalFDCtx) (w : W) : Prop :=
  sigs c = set /\ watching w kq (self_pipe_ (kqueue_event c)) set.

(** The self pipe can take a byte. *)
Definition drained (c : SignalFDCtx) (w : W) : Prop :=
  is_triggered_ (kqueue_event c) = false /\
  (has_evfilt_user = false -> empty_pipe w (self_pipe_ (kqueue_event c))).

(** Triggering an event that was not triggered works. *)
Definition triggers_succeed : Prop := forall e kq set (w : W),
  watching w kq (self_pipe_ e) set -> is_triggered_ e = false ->
  (has_evfilt_user = false -> empty_pipe w (self_pipe_ e)) ->
  wp (kqueue_event_trigger kq) (fun r _ => r = Ok tt) (e, w).

Lemma has_pending_spec kq set c w (Q : result (bool * sigset_t) -> SignalFDCtx * W -> Prop) :
  signal_ok kq set c w ->
  (forall r w', kept kq (self_pipe_ (kqueue_event c)) set w w' ->
     match r with
     | Ok (b, q) => q = Z.land q set /\ b = negb (q =? 0) /\ (b = false -> covered w' kq set)
     | Err _ => True
     end -> Q r (c, w')) ->
  wp signalfd_has_pending Q (c, w).
Proof.
  intros [Hs Hw] HQ. unfold signalfd_has_pending. wps.
  pose proof (law_passive sys_sigpending w kq _ set eq_refl Hw) as Hk.
  law (law_sigpending w kq _ set Hw) as [q|ec] w' Hc; wps; [|by apply HQ].
  cbv zeta in Hk. unfold sigandset, sigisemptyset. rewrite Hs. apply HQ; [done|].
  split; [by rewrite <- Z.land_assoc, Z.land_diag|]. split; [done|].
  intros E. apply Hc. by b2p.
Qed.

Lemma trigger_manually_spec kq set c w : signal_ok kq set c w -> drained c w ->
  wp (signalfd_ctx_trigger_manually kq)
    (fun r s => signal_ok kq set s.1 s.2 /\ (noise s.2 kq <= S (noise w kq))%nat /\
       self_pipe_ (kqueue_event s.1) = self_pipe_ (kqueue_event c) /\
       (r = Ok tt -> covered s.2 kq set)) (c, w).
Proof.
  destruct c as [ss [t p]]. intros [Hs Hw] [Ht Hp].
  unfold signalfd_ctx_trigger_manually, kqueue_event_trigger. cbn in *. subst. wps.
  unfold signal_ok, covered. destruct has_evfilt_user eqn:Eu; wps.
  - law (law_note w kq p set Eu Hw) as [l|ec] w' (Hw' & Hn & Hr); wps; fields; split_and!; auto; done.
  - law (law_byte w kq p set Eu Hw (Hp eq_refl)) as [l|ec] w' (Hw' & Hn & Hr & Hne); wps;
      [fields; auto|].
    unfold EWOULDBLOCK. destruct (Z.eqb_spec ec EAGAIN) as [->|_]; [done|]. cbn. wps. fields.
    split_and!; auto; done.
Qed.

Lemma read_pipe_spec n kq p set (w : W) : has_evfilt_user = false -> (noise w kq < n)%nat ->
  watching w kq p set ->
  wp (read_until_error n p.1) (fun _ w' =>
    watching w' kq p set /\ empty_pipe w' p /\ (noise w' kq <= noise w kq)%nat) w.
Proof.
  intros Eu. revert w. induction n as [|n IH]; intros w Hn Hw; [lia|].
  cbn [read_until_error]. apply wp_bind, wp_call.
  law (law_empty w kq p set Eu Hw) as [l|ec] w' [[Hw' _ _ Hle] Hr]; [|by apply wp_ret; auto].
  eapply wp_mono; [apply IH; [lia|auto]|]. intros _ w2 (? & ? & ?). split_and!; auto; lia.
Qed.

Lemma drain_kq_spec n kq p set (w : W) : (noise w kq < n)%nat -> watching w kq p set ->
  (has_evfilt_user = false -> empty_pipe w p) ->
  wp (kevent_until_empty n kq) (fun _ w' =>
    watching w' kq p set /\ (has_evfilt_user = false -> empty_pipe w' p) /\
    (noise w' kq <= noise w kq)%nat) w.
Proof.
  revert w. induction n as [|n IH]; intros w Hn Hw Hp; [lia|].
  cbn [kevent_until_empty]. apply wp_bind, wp_call.
  law (law_drain_kq w kq p set Hw) as r w' (Hw' & Hp' & Hle & Hr).
  destruct r as [[|ev l]|ec]; [by apply wp_ret; auto| |by apply wp_ret; auto].
  eapply wp_mono; [apply IH; [lia|auto..]|]. intros _ w2 (? & ? & ?). split_and!; auto; lia.
Qed.

Lemma clear_event_spec kq set c w (Q : unit -> SignalFDCtx * W -> Prop) :
  (noise w kq < fuel)%nat -> signal_ok kq set c w ->
  (forall c' w', signal_ok kq set c' w' -> drained c' w' -> (noise w' kq <= noise w kq)%nat ->
     self_pipe_ (kqueue_event c') = self_pipe_ (kqueue_event c) -> Q tt (c', w')) ->
  wp (zoom kqueue_event (kqueue_event_clear kq)) Q (c, w).
Proof.
  intros Hf [Hs Hw] HQ. unfold kqueue_event_clear. wps.
  set (p := self_pipe_ (kqueue_event c)) in *.
  assert (forall w1, watching w1 kq p set -> (has_evfilt_user = false -> empty_pipe w1 p) ->
    (noise w1 kq <= noise w kq)%nat ->
    wp (lift (C := KQueueEvent) (kevent_until_empty fuel kq) ;; self is_triggered_ := false)
      (fun a s => Q a (c <| kqueue_event := s.1 |>, s.2)) (kqueue_event c, w1)) as Hrest.
  { intros w1 Hw1 Hp1 Hn1. wps. eapply wp_mono; [apply (drain_kq_spec fuel kq p set); [lia|done..]|].
    intros _ w2 (Hw2 & Hp2 & Hn2). wps. apply HQ; unfold signal_ok, drained; fields; auto. lia. }
  destruct has_evfilt_user eqn:Eu; cbn; [by apply Hrest|]. wps.
  eapply wp_mono; [by apply (read_pipe_spec fuel kq p set)|].
  intros _ w1 (? & ? & ?). by apply Hrest.
Qed.

(** After the kqueue was cleared every signal still pending is signalled again. *)
Lemma clear_signal_spec kq set c w t : triggers_succeed -> (noise w kq < fuel)%nat ->
  signal_ok kq set c w -> (t = true -> covered w kq set) ->
  wp (signalfd_ctx_clear_signal kq t)
    (fun r s => signal_ok kq set s.1 s.2 /\ covered s.2 kq set /\ (noise s.2 kq <= S (noise w kq))%nat)
    (c, w).
Proof.
  intros Htrig Hf Hok Ht. unfold signalfd_ctx_clear_signal. cbv zeta.
  set (recheck := bind (zoom kqueue_event (kqueue_event_clear kq)) _).
  assert (forall w1, signal_ok kq set c w1 -> (noise w1 kq <= noise w kq)%nat ->
    wp recheck (fun r s => signal_ok kq set s.1 s.2 /\ covered s.2 kq set /\
      (noise s.2 kq <= S (noise w kq))%nat) (c, w1)) as Hre.
  { intros w1 Hok1 Hn1. apply wp_bind, (clear_event_spec kq set); [lia|done|].
    intros c2 w2 Hok2 Hd2 Hn2 Hp2. apply wp_bind, (has_pending_spec kq set); [done|].
    intros r w3 [Hw3 Hc3 He3 Hn3] Hr.
    assert (signal_ok kq set c2 w3) as Hok3 by (destruct Hok2; split; auto).
    assert (drained c2 w3) as Hd3 by (destruct Hd2; split; auto).
    assert (forall b : bool, wp (bind (signalfd_ctx_trigger_manually kq) (fun _ => ret b))
      (fun r s => signal_ok kq set s.1 s.2 /\ covered s.2 kq set /\
        (noise s.2 kq <= S (noise w kq))%nat) (c2, w3)) as Hman.
    { intros b. apply wp_bind. eapply wp_mono.
      - eapply (wp_and _ _ _ (fun r _ => r = Ok tt)); [by apply (trigger_manually_spec kq set)|].
        unfold signalfd_ctx_trigger_manually. rewrite wp_zoom.
        apply (Htrig (kqueue_event c2) kq set); apply Hok3 || apply Hd3.
      - cbn. intros r2 [c4 w4] [(? & ? & _ & Hcov) ->]. apply wp_ret. split_and!; auto. cbn in *. lia. }
    destruct r as [[[] q]|ec]; [apply Hman| |apply Hman].
    apply wp_ret. split_and!; [done|by apply Hr|cbn; lia]. }
  destruct t; [|by apply Hre].
  apply wp_bind, (has_pending_spec kq set); [done|]. intros r w1 [Hw1 Hc1 He1 Hn1] _.
  assert (signal_ok kq set c w1) as Hok1 by (destruct Hok; split; auto).
  destruct r as [[[] q]|ec]; [|by apply Hre|]; apply wp_ret; cbn; split_and!; auto; lia.
Qed.

(** *** Taking a signal *)

Lemma kept_trans kq p set (w1 w2 w3 : W) :
  kept kq p set w1 w2 -> kept kq p set w2 w3 -> kept kq p set w1 w3.
Proof. intros [] []. split; auto. lia. Qed.

Lemma ffsll_spec q : 0 < q < 2 ^ 64 -> 1 <= ffsll q <= 64 /\ Z.testbit q (ffsll q - 1) = true.
Proof.
  intros Hq. unfold ffsll. destruct (List.find _ _) as [i|] eqn:E.
  - apply List.find_some in E as [Hi Hb]. apply list_elem_of_In, elem_of_seqZ in Hi. split; [lia|done].
  - enough (q = 0) by lia. apply Z.bits_inj'. intros i Hi. rewrite Z.bits_0.
    destruct (decide (i < 64)) as [Hlt|Hge].
    + pose proof (List.find_none _ _ E (i + 1)) as Hb. cbn in Hb.
      replace (i + 1 - 1) with i in Hb by lia. apply Hb, list_elem_of_In, elem_of_seqZ. lia.
    + apply Z.bits_above_log2; [lia|]. enough (Z.log2 q < 64) by lia. apply Z.log2_lt_pow2; lia.
Qed.

Lemma sigmask_member m s : 1 <= m -> 1 <= s -> sigismember (sigmask m) s = true -> s = m.
Proof.
  unfold sigismember, sigmask. intros Hm Hs. rewrite Z.shiftl_spec by lia.
  intros Hb. destruct (decide (s = m)) as [->|Hne]; [done|].
  assert (s - 1 - (m - 1) <> 0) as Hd by lia.
  destruct (decide (s - 1 - (m - 1) < 0)) as [Hlt|Hge].
  - by rewrite Z.testbit_neg_r in Hb.
  - rewrite Z.bits_above_log2 in Hb; [done|lia|]. change (Z.log2 1) with 0. lia.
Qed.

Lemma grab_signal_spec n kq set c w : 0 <= set < 2 ^ 64 -> (noise w kq < n)%nat ->
  signal_ok kq set c w ->
  wp (grab_signal n) (fun r s =>
    s.1 = c /\ kept kq (self_pipe_ (kqueue_event c)) set w s.2 /\
    match r with Ok info => sigismember set (si_signo info) = true | Err _ => True end) (c, w).
Proof.
  intros Hset. revert w. induction n as [|n IH]; intros w Hn Hok; [lia|]. cbn [grab_signal].
  apply wp_bind_result, (has_pending_spec kq set); [done|]. intros r w1 Hk Hr.
  assert (signal_ok kq set c w1) as Hok1 by (destruct Hok, Hk; split; auto).
  destruct r as [[b q]|ec]; [|by split_and!]. destruct Hr as (Hq & -> & _).
  destruct (Z.eqb_spec q 0) as [->|Hq0]; cbn [negb]; [by apply wp_ret|].
  assert (0 < q < 2 ^ 64) as Hqb.
  { assert (0 <= q) as Hge by (rewrite Hq; apply Z.land_nonneg; lia).
    assert (Z.log2 q <= Z.min (Z.log2 q) (Z.log2 set)) as Hl
      by (rewrite Hq at 1; apply Z.log2_land; lia).
    assert (set <> 0) by (intros ->; by rewrite Z.land_0_r in Hq).
    assert (Z.log2 set < 64) by (apply Z.log2_lt_pow2; lia).
    split; [lia|]. apply Z.log2_lt_pow2; lia. }
  pose proof (ffsll_spec q Hqb) as [Hf Hb].
  assert (sigismember set (ffsll q) = true) as Hmem.
  { unfold sigismember. rewrite Hq in Hb at 1. rewrite Z.land_spec in Hb. by apply andb_true_iff in Hb as [_ ?]. }
  set (p := self_pipe_ (kqueue_event c)) in *. destruct Hok1 as [Hs1 Hw1].
  destruct (is_os OpenBSD) eqn:Eos; wps.
  - pose proof (law_stolen w1 kq p set (sigmask (ffsll q)) Eos Hw1) as Hst.
    pose proof (law_passive (sys_thrsigdivert (sigmask (ffsll q))) w1 kq p set eq_refl Hw1) as Hk2.
    law (law_thrsigdivert w1 (sigmask (ffsll q))) as [s|ec] w2 Hm.
    + wps. split_and!; [done|by eapply kept_trans|]. destruct Hm as [Hs Hm].
      apply sigmask_member in Hm; [by rewrite Hm|lia..].
    + pose proof (kept_trans _ _ _ _ _ _ Hk Hk2) as Hk12. destruct (_ || _) eqn:Ee; wps; [|done].
      eapply wp_mono; [apply IH|].
      * destruct Hk as [_ _ _ Hle]. apply orb_true_iff in Ee.
        rewrite !Z.eqb_eq in Ee. enough (noise w2 kq < noise w1 kq)%nat by lia.
        apply Hst. destruct Ee as [-> | ->]; auto.
      * split; [done|]. by apply Hk2.
      * intros r s (? & ? & ?). split_and!; [done|by eapply kept_trans|done].
  - pose proof (law_passive (sys_sigwait (sigs c)) w1 kq p set eq_refl Hw1) as Hk2.
    law (law_sigwait w1 (sigs c)) as [s|ec] w2 Hm; wps;
      (split_and!; [done|by eapply kept_trans|]); [|done]. by rewrite Hs1 in Hm.
Qed.

Lemma take_signal_spec kq set c w : 0 <= set < 2 ^ 64 -> (noise w kq < fuel)%nat ->
  signal_ok kq set c w ->
  wp take_signal (fun r s =>
    s.1 = c /\ kept kq (self_pipe_ (kqueue_event c)) set w s.2 /\
    match r with Ok info => sigismember set (si_signo info) = true | Err _ => True end) (c, w).
Proof.
  intros Hset Hn Hok. unfold take_signal.
  destruct (is_os OpenBSD || is_os Apple); [by apply grab_signal_spec|]. wps.
  destruct Hok as [Hs Hw].
  pose proof (law_passive (sys_sigtimedwait (sigs c)) w kq _ set eq_refl Hw) as Hk.
  law (law_sigtimedwait w (sigs c)) as [[s info]|ec] w1 Hm; wps; [|by split_and!].
  destruct Hm as [Hm1 Hm2]. rewrite Hm1, Z.eqb_refl. wps. split_and!; [done..|]. by rewrite Hm1, <- Hs.
Qed.

(** *** Whole operations *)

Lemma signal_read_spec kq set d c w : 0 <= set < 2 ^ 64 -> triggers_succeed -> (S (noise w kq) < fuel)%nat ->
  signal_ok kq set c w -> covered w kq set ->
  wp (signalfd_ctx_read kq d) (fun r s =>
    signal_ok kq set s.1 s.2 /\ covered s.2 kq set /\ (noise s.2 kq <= S (noise w kq))%nat /\
    match r with
    | Ok d' => exists info, d' = fill_siginfo info d /\ sigismember set (si_signo info) = true
    | Err _ => True
    end) (c, w).
Proof.
  intros Hset Htrig Hn Hok Hcov. unfold signalfd_ctx_read, signalfd_ctx_read_impl.
  apply wp_bind, wp_bind_result. eapply wp_mono; [apply (take_signal_spec kq set); [done|lia|done]|].
  intros r [c1 w1] (Hc & Hk & Hr). cbn in Hc, Hk. subst c1.
  assert (signal_ok kq set c w1) as Hok1 by (destruct Hok, Hk; split; auto).
  assert (covered w1 kq set) as Hcov1 by (by apply Hk). destruct Hk as [_ _ _ Hle].
  assert (wp (let* _ := signalfd_ctx_clear_signal kq false in ret tt) (fun _ s =>
      signal_ok kq set s.1 s.2 /\ covered s.2 kq set /\ (noise s.2 kq <= S (noise w kq))%nat) (c, w1)) as Hcl.
  { apply wp_bind. eapply wp_mono; [apply (clear_signal_spec kq set); [done|lia|done..]|].
    intros b s (? & ? & ?). apply wp_ret. split_and!; auto. lia. }
  destruct r as [info|ec].
  - apply wp_ret, wp_bind. eapply wp_mono; [exact Hcl|]. intros _ s (? & ? & ?).
    apply wp_ret. split_and!; eauto.
  - apply wp_bind, wp_when. case_goal.
    + eapply wp_mono; [exact Hcl|]. intros _ s (? & ? & ?). apply wp_ret. auto.
    + apply wp_ret. cbn. split_and!; auto; lia.
Qed.

Lemma signal_poll_spec kq set want c w : triggers_succeed -> (S (noise w kq) < fuel)%nat ->
  signal_ok kq set c w -> covered w kq set ->
  wp (signalfd_ctx_poll kq want) (fun r s =>
    signal_ok kq set s.1 s.2 /\ covered s.2 kq set /\ (noise s.2 kq <= S (noise w kq))%nat) (c, w).
Proof.
  intros Htrig Hn Hok Hcov. unfold signalfd_ctx_poll. apply wp_bind.
  eapply wp_mono; [apply (clear_signal_spec kq set); [done|lia|done..]|].
  intros b s Hs. by apply wp_ret.
Qed.

(** *** Creation *)

Lemma watch_signals_spec kq set n i kevs (w : W) : new_kq w kq ->
  wp (watch_signals set n i kevs) (fun r w' =>
    r = kevs ++ signal_changes set n i /\ new_kq w' kq /\ (noise w' kq <= noise w kq)%nat /\
    (forall p, empty_pipe w p -> empty_pipe w' p)) w.
Proof.
  revert i kevs w. induction n as [|n IH]; intros i kevs w Hk.
  { cbn. rewrite app_nil_r. by apply wp_ret. }
  cbn [watch_signals]. unfold signal_changes. rewrite Nat2Z.inj_succ, seqZ_cons by lia. cbn [List.filter].
  rewrite Z.pred_succ. fold (signal_changes set n (Z.succ i)). unfold Z.succ.
  destruct (sigismember set i); [|by apply IH]. cbn [map]. apply wp_bind.
  assert (forall w', new_kq w' kq -> (noise w' kq <= noise w kq)%nat ->
    (forall p, empty_pipe w p -> empty_pipe w' p) ->
    wp (watch_signals set n (i + 1) (kevs ++ [EV_SET i EVFILT_SIGNAL EV_ADD 0 0 0])) (fun r w' =>
      r = kevs ++ EV_SET i EVFILT_SIGNAL EV_ADD 0 0 0 :: signal_changes set n (i + 1) /\
      new_kq w' kq /\ (noise w' kq <= noise w kq)%nat /\
      (forall p, empty_pipe w p -> empty_pipe w' p)) w') as Hgo.
  { intros w' Hk' Hn' Hp'. eapply wp_mono; [by apply IH|]. intros r w2 (-> & ? & ? & ?).
    rewrite <- app_assoc. split_and!; auto. lia. }
  apply wp_when. destruct (default_ignored i); [|by apply Hgo; auto].
  unfold install_handler. apply wp_bind, wp_call.
  law (law_sigaction_get w kq i Hk) as [sa|ec] w1 (Hk1 & Hn1 & Hp1); [|by apply wp_ret, Hgo].
  apply wp_when. case_goal; [|by apply Hgo]. unfold call_. apply wp_bind, wp_call.
  match goal with |- context [sys_sigaction_set i ?sa'] =>
    law (law_sigaction_set w1 kq i sa' Hk1) as r w2 (Hk2 & Hn2 & Hp2) end.
  apply wp_ret, Hgo; [done|lia|auto].
Qed.

Lemma terminate_any (e : KQueueEvent) (w : W) (Q : result unit -> KQueueEvent * W -> Prop) :
  (forall r w', Q r (e, w')) -> wp kqueue_event_terminate Q (e, w).
Proof.
  intros HQ. eapply wp_mono; [apply kqueue_event_terminate_total|]. intros r [e' w']. cbn. by intros ->.
Qed.

Lemma init_ok kq set c w : triggers_succeed -> new_kq w kq ->
  wp (signalfd_ctx_init kq set) (fun r s => r = Ok tt ->
    signal_ok kq set s.1 s.2 /\ covered s.2 kq set /\ (noise s.2 kq <= S (noise w kq))%nat) (c, w).
Proof.
  intros Htrig Hk. unfold signalfd_ctx_init.
  apply wp_bind, wp_put, wp_bind_result, wp_zoom. cbn [fst snd kqueue_event].
  assert (forall p w1, new_kq w1 kq -> (noise w1 kq <= noise w kq)%nat ->
    (has_evfilt_user = false -> empty_pipe w1 p) ->
    wp (let* kevs := lift (watch_signals set SIG_MAXSIG 1 [self_change p]) in
        let* ec :=
          try* _ := call (sys_kevent kq kevs 0 None) in
          try* (has_pending, _) := signalfd_has_pending in
          if (has_pending : bool) then signalfd_ctx_trigger_manually kq else ret (Ok tt) in
        match ec with
        | Ok _ => ret (Ok tt)
        | Err ec => let* _ := zoom kqueue_event kqueue_event_terminate in ret (Err ec)
        end)
      (fun r s => r = Ok tt ->
        signal_ok kq set s.1 s.2 /\ covered s.2 kq set /\ (noise s.2 kq <= S (noise w kq))%nat)
      ({| sigs := set; kqueue_event := {| is_triggered_ := false; self_pipe_ := p |} |}, w1)) as Hgo.
  { intros p w1 Hk1 Hn1 Hp1. set (c1 := {| sigs := set; kqueue_event := _ |}).
    match goal with |- wpg _ _ ?P _ =>
      assert (forall ec c w, wp (let* _ := zoom kqueue_event kqueue_event_terminate in
        ret (Err ec)) P (c, w)) as Hfail end.
    { intros ec c2 w2. apply wp_bind, wp_zoom, terminate_any. intros r w3. by apply wp_ret. }
    apply wp_bind, wp_lift. eapply wp_mono; [by apply watch_signals_spec|].
    intros kevs w2 (-> & Hk2 & Hn2 & Hp2). apply wp_bind, wp_bind_result, wp_call_pair.
    cbn [app]. law (law_watch w2 kq p set Hk2 (fun E => Hp2 _ (Hp1 E))) as [l|ec] w3 (Hn3 & Hw3);
      [|apply Hfail].
    destruct (Hw3 eq_refl) as [Hw3' Hp3]. assert (signal_ok kq set c1 w3) as Hok by done.
    apply wp_bind_result, (has_pending_spec kq set); [done|]. intros r w4 [Hw4 _ He4 Hn4] Hr.
    assert (signal_ok kq set c1 w4) as Hok4 by (split; auto).
    destruct r as [[[] q]|ec];
      [|apply wp_ret, wp_ret; intros _; split_and!; [done|by apply Hr|cbn; lia]
       |apply Hfail].
    eapply wp_mono; [apply (trigger_manually_spec kq set); [done|split; auto]|].
    intros r [c5 w5] (Hok5 & Hn5 & _ & Hcov).
    destruct r as [[]|ec]; [|apply Hfail].
    apply wp_ret. intros _. cbn in *. split_and!; auto. lia. }
  unfold kqueue_event_init. apply wp_bind, wp_put. unfold self_change in Hgo.
  destruct has_evfilt_user eqn:Eu; cbn [app fst snd].
  { apply wp_ret. fields. by apply Hgo. }
  apply wp_bind_result, wp_call_pair.
  law (law_self_pipe w kq Eu Hk) as [p|ec] w1 (Hk1 & Hn1 & Hp1); [|done].
  apply wp_bind, wp_mod_self, wp_ret. fields. by apply Hgo.
Qed.

(** *** The life of a signalfd *)

(** [op_elsewhere f]: what other threads and processes do. *)
Inductive signalfd_op : Type :=
| op_read (d : SignalFDCtxSiginfo)
| op_poll (want : bool)
| op_elsewhere (f : W -> W).

Definition signalfd_step (kq : Z) (o : signalfd_op) : M (SignalFDCtx * W) unit :=
  match o with
  | op_read d => let* _ := signalfd_ctx_read kq d in ret tt
  | op_poll want => let* _ := signalfd_ctx_poll kq want in ret tt
  | op_elsewhere f => lift (modify f)
  end.

Definition signalfd_run (kq : Z) (set : sigset_t) (ops : list signalfd_op) :
    M (SignalFDCtx * W) (result unit) :=
  try* _ := signalfd_ctx_init kq set in
  iterM (signalfd_step kq) ops ;; ret (Ok tt).

(** Other threads leave the kqueue alone; a signal they send is noticed. *)
Definition harmless (kq : Z) (set : sigset_t) (o : signalfd_op) : Prop :=
  match o with op_elsewhere f => forall p w, kept kq p set w (f w) | _ => True end.

Lemma steps_spec kq set ops c w : 0 <= set < 2 ^ 64 -> triggers_succeed ->
  Forall (harmless kq set) ops -> (S (noise w kq + length ops) < fuel)%nat ->
  signal_ok kq set c w -> covered w kq set ->
  wp (iterM (signalfd_step kq) ops) (fun _ s =>
    signal_ok kq set s.1 s.2 /\ covered s.2 kq set) (c, w).
Proof.
  intros Hset Htrig. revert c w. induction ops as [|o ops IH]; intros c w Hops Hf Hok Hcov; [by apply wp_ret|].
  apply Forall_cons in Hops as [Ho Hops]. cbn [iterM length] in *. apply wp_bind.
  assert (forall s, signal_ok kq set s.1 s.2 /\ covered s.2 kq set /\ (noise s.2 kq <= S (noise w kq))%nat ->
    wp (iterM (signalfd_step kq) ops) (fun _ s => signal_ok kq set s.1 s.2 /\ covered s.2 kq set) s)
    as Hnext by (intros [c1 w1] (? & ? & ?); apply IH; cbn in *; auto; lia).
  destruct o as [d|want|f]; cbn [signalfd_step].
  - apply wp_bind. eapply wp_mono; [apply (signal_read_spec kq set); auto; lia|].
    intros r s (? & ? & ? & _). apply wp_ret. auto.
  - apply wp_bind. eapply wp_mono; [apply (signal_poll_spec kq set); auto; lia|].
    intros r s Hs. apply wp_ret. auto.
  - apply wp_lift, wp_modify, Hnext. cbn. destruct (Ho (self_pipe_ (kqueue_event c)) w), Hok.
    split_and!; [split|..]; auto.
Qed.
End Unnoticed.

(** ** Properties *)

(** C27: no signal is left unnoticed.  From the creation of a signalfd on a new kqueue, through
    any sequence of reads and polls interleaved with whatever other threads do, signals
    arriving at any moment: whenever a signal of the set is pending afterwards the kqueue
    is readable.  No assertion fails and every loop ends. *)
Theorem signalfd_never_unnoticed `{!Platform, !Kernel W, !Fuel, !SignalWorld W, !SignalLaws W}
    kq set ops c (w : W) :
  0 <= set < 2 ^ 64 -> triggers_succeed -> Forall (harmless kq set) ops ->
  (S (S (noise w kq + length ops)) < fuel)%nat -> new_kq w kq ->
  wp (signalfd_run kq set ops) (fun r s => r = Ok tt ->
    sigs s.1 = set /\ (Z.land (s_pending s.2) set <> 0 -> s_readable s.2 kq = true)) (c, w).
Proof.
  intros Hset Htrig Hops Hf Hk. apply wp_bind_result.
  eapply wp_mono; [by apply init_ok|]. intros r [c1 w1] Hr. destruct r as [[]|ec]; [|done].
  destruct (Hr eq_refl) as (Hok & Hcov & Hn). apply wp_bind. eapply wp_mono.
  - apply (steps_spec kq set); [done..| |done|done]. cbn in Hn. lia.
  - intros _ s [[Hs _] Hc]. by apply wp_ret.
Qed.

