(* ===== verification/SignalSim.v ===== *)
(** * The concrete system of [Sim] meets the laws of [SignalfdCtx]; witnesses for the theorems
    about signalfd *)

From S2P Require Import Prelude Kernel Sim KqueueEvent SignalfdCtx.

#[local] Existing Instance freebsd.
#[local] Instance fuel8 : Fuel := 8%nat.

(** ** Pending events of a kqueue *)

Definition active (m : gmap (Z * Z) knote) : gmap (Z * Z) knote :=
  filter (fun p => kn_active p.2 = true) m.

Lemma active_report m e : active (report m e) = delete (kev_key e) (active m).
Proof.
  unfold active, report. apply map_eq. intros k.
  destruct (decide (k = kev_key e)) as [->|Hne].
  - rewrite lookup_delete_eq, map_lookup_filter, lookup_alter_eq.
    by destruct (m !! kev_key e).
  - by rewrite lookup_delete_ne, !map_lookup_filter, lookup_alter_ne.
Qed.

Lemma active_reports l m : (size (active (fold_left report l m)) <= size (active m))%nat.
Proof.
  revert m. induction l as [|e l IH]; intros m; cbn [fold_left]; [done|].
  etrans; [apply IH|]. rewrite active_report. destruct (active m !! kev_key e) as [kn|] eqn:E.
  - rewrite map_size_delete_Some by eauto. lia.
  - by rewrite delete_id.
Qed.

Lemma events_active m e : e ∈ sim_events m -> is_Some (active m !! kev_key e).
Proof.
  unfold sim_events. intros (p & -> & Hp)%list_elem_of_fmap.
  apply list_elem_of_In, List.filter_In in Hp as [Hp Ha]. apply list_elem_of_In in Hp.
  destruct p as [[i f] kn]. apply elem_of_map_to_list in Hp. exists kn.
  unfold active. by rewrite map_lookup_filter_Some.
Qed.

Lemma active_insert k kn m : (size (active (<[k := kn]> m)) <= S (size (active m)))%nat.
Proof.
  unfold active. destruct (decide (kn_active kn = true)) as [Ha|Ha].
  - rewrite map_filter_insert_True by done. rewrite map_size_insert. case_match; cbn; lia.
  - rewrite map_filter_insert_False, map_filter_delete by done.
    destruct (filter (fun p : Z * Z * knote => kn_active p.2 = true) m !! k) as [kn'|] eqn:E.
    + rewrite map_size_delete_Some by eauto. lia.
    + rewrite delete_id by done. lia.
Qed.

(** ** The instance *)

#[export] Instance sim_signal_world : SignalWorld sim := {|
  s_pending := sim_pending;
  s_readable := sim_readable;
  new_kq s kq := sim_kqs s !! kq = Some ∅;
  watching s kq p set := sim_kevent_error s = None /\
    exists m, sim_kqs s !! kq = Some m /\ is_Some (m !! (0, EVFILT_USER));
  empty_pipe _ _ := True;
  noise s kq := size (active (default ∅ (sim_kqs s !! kq)))
|}.

(** A call that leaves the kqueues alone and at most takes signals. *)
Lemma kept_same kq p set (w w' : sim) : sim_kqs w' = sim_kqs w ->
  sim_kevent_error w' = sim_kevent_error w ->
  (Z.land (sim_pending w') set <> 0 -> Z.land (sim_pending w) set <> 0) -> kept kq p set w w'.
Proof.
  intros Hk He Hp. split; unfold covered; cbn; unfold sim_readable; rewrite ?Hk, ?He; auto.
Qed.

Lemma land_clearbit x i set : Z.land (Z.clearbit x i) set <> 0 -> Z.land x set <> 0.
Proof.
  intros Hc Hx. apply Hc. rewrite Z.clearbit_spec', Z.ldiff_land, <- Z.land_assoc, (Z.land_comm (Z.lnot _)).
  by rewrite Z.land_assoc, Hx.
Qed.

Lemma report_lookup l m k : is_Some (m !! k) -> is_Some (fold_left report l m !! k).
Proof.
  revert m. induction l as [|e l IH]; intros m Hm; cbn [fold_left]; [done|].
  apply IH. unfold report. by apply lookup_alter_is_Some.
Qed.

(** Registering signals and the event makes nothing pending. *)
Definition additions (l : list kevent) : Prop := Forall (fun c =>
  has (kev_flags c) EV_DELETE = false /\ has (kev_flags c) EV_ADD = true /\
  (kev_filter c =? EVFILT_READ) = false /\
  (kev_filter c =? EVFILT_USER) && has (kev_fflags c) NOTE_TRIGGER = false) l.

Lemma change_addition s m c : additions [c] ->
  let (m', d) := sim_change s m c in
  size (active m') = size (active m) /\ d = 0 /\
  (forall k, is_Some (m !! k) -> is_Some (m' !! k)) /\ is_Some (m' !! kev_key c).
Proof.
  intros (Hd & Ha & Hr & Ht)%Forall_singleton. unfold sim_change, initially_active.
  rewrite Hd, Ha, Hr, Ht. cbn [andb].
  assert (forall kn, is_Some (<[kev_key c := kn]> m !! kev_key c) /\
    forall k, is_Some (m !! k) -> is_Some (<[kev_key c := kn]> m !! k)) as Hin.
  { intros kn. split; [rewrite lookup_insert_eq; eauto|]. intros k Hk. by apply lookup_insert_is_Some'; right. }
  assert (forall kn, kn_active kn = match m !! kev_key c with Some kn => kn_active kn | None => false end ->
    size (active (<[kev_key c := kn]> m)) = size (active m)) as Hsize.
  { intros kn E. unfold active. destruct (kn_active kn) eqn:Ek.
    - destruct (m !! kev_key c) as [kn0|] eqn:Em; [|done].
      rewrite map_filter_insert_True, map_size_insert_Some; [done| |done].
      exists kn0. by rewrite map_lookup_filter_Some.
    - rewrite map_filter_insert_False, map_filter_delete by (cbn; congruence). rewrite delete_id; [done|].
      apply map_lookup_filter_None. destruct (m !! kev_key c) as [kn0|]; [right|by left].
      intros kn1 [= <-]. cbn. congruence. }
  destruct (m !! kev_key c) as [kn|] eqn:Em;
    (split; [apply Hsize; cbn; by rewrite ?orb_false_r|]);
    (split; [done|split; [intros k; apply Hin|apply (proj1 (Hin _))]]).
Qed.

Lemma changes_additions s l : forall m, additions l ->
  let (m', r) := sim_changes s m l in
  size (active m') = size (active m) /\ Forall (fun e => kev_data e = 0) r /\
  (forall k, is_Some (m !! k) -> is_Some (m' !! k)) /\
  (forall c, c ∈ l -> is_Some (m' !! kev_key c)).
Proof.
  induction l as [|c l IH]; intros m Hl; cbn.
  { split_and!; try done. by intros c ?%elem_of_nil. }
  apply Forall_cons in Hl as [Hc Hl].
  pose proof (change_addition s m c (proj2 (Forall_singleton _ _) Hc)) as H1.
  destruct (sim_change s m c) as [m1 d]. destruct H1 as (Hn1 & -> & Hk1 & Hc1).
  specialize (IH m1 Hl). destruct (sim_changes s m1 l) as [m2 r]. destruct IH as (Hn2 & Hr2 & Hk2 & Hc2).
  split_and!; [congruence|by constructor|auto|].
  intros c' [->|Hc']%elem_of_cons; [by apply Hk2|by apply Hc2].
Qed.

Lemma signal_additions p set n i : additions (self_change p :: signal_changes set n i).
Proof.
  constructor; [done|]. unfold signal_changes. apply Forall_map, Forall_forall. by intros.
Qed.

#[export] Instance sim_signal_laws : SignalLaws sim.
Proof.
  split.
  - intros A c w kq p set Hc _. destruct c; try done; unfold kernel_step, sim_kernel;
      try by apply kept_same.
    unfold sim_sigtimedwait. destruct (List.find _ _); apply kept_same; try done.
    fields. apply land_clearbit.
  - intros w kq p set _. unfold kernel_step, sim_kernel. cbn. intros E Hne. by destruct (Hne E).
  - intros w set. unfold kernel_step, sim_kernel, sim_sigtimedwait.
    destruct (List.find _ _) as [i|] eqn:E; [|done]. split; [done|].
    apply List.find_some in E as [_ Hb]. unfold sigismember in *.
    rewrite Z.land_spec in Hb. by apply andb_true_iff in Hb as [_ ?].
  - done.
  - done.
  - done.
  - done.
  - intros w kq p set (He & m & Hm & Hu). unfold kernel_step, sim_kernel, sim_kevent. cbn. rewrite Hm. cbn.
    fields. rewrite lookup_insert_eq. cbn.
    split_and!; [done|eexists; split; [done|by apply report_lookup]|done|apply active_reports|].
    destruct (sim_events m) as [|e l] eqn:Ee; [done|]. cbn [firstn fold_left].
    change (Z.to_nat 32) with 32%nat. cbn [firstn fold_left].
    eapply Nat.le_lt_trans; [apply active_reports|]. rewrite active_report.
    destruct (events_active m e) as [kn Hkn]; [rewrite Ee; by left|].
    rewrite map_size_delete_Some by eauto.
    enough (size (active m) <> 0%nat) by lia. intros E0%map_size_empty_inv. by rewrite E0 in Hkn.
  - intros w kq p set Eu (He & m & Hm & [kn Hu]). unfold kernel_step, sim_kernel, sim_kevent, sim_failure. cbn.
    rewrite Hm, He. unfold sim_change, kev_key. cbn. rewrite Hu. eval_has.
    fields. rewrite lookup_insert_eq. cbn. split_and!; [done| |by apply active_insert|].
    + eexists. split; [done|]. rewrite lookup_insert_eq. eauto.
    + intros _. unfold sim_readable. fields. rewrite lookup_insert_eq.
      apply existsb_exists. eexists ((0, EVFILT_USER), _). split.
      * apply list_elem_of_In, elem_of_map_to_list. by rewrite lookup_insert_eq.
      * cbn. apply orb_true_r.
  - done.
  - done.
  - intros w kq i Hk. unfold kernel_step, sim_kernel. auto.
  - intros w kq i sa Hk. unfold kernel_step, sim_kernel. auto.
  - intros w kq p set Hk _. pose proof (signal_additions p set SIG_MAXSIG 1) as Hadd.
    set (l := self_change p :: _) in *.
    unfold kernel_step, sim_kernel, sim_kevent. cbn in Hk. rewrite Hk.
    assert (forall X, match l with [] => X | _ :: _ => match sim_failure w l with
       | Some ec => (Err ec, w <| sim_kevent_error := None |>)
       | None => let (m', receipts) := sim_changes w ∅ l in
           let s' := w <| sim_kqs := <[kq := m']> (sim_kqs w) |> in
           if 0 <? 0 then (Ok receipts, s')
           else match List.filter (fun r => negb (kev_data r =? 0)) receipts with
                | r :: _ => (Err (kev_data r), s') | [] => (Ok [], s') end end end =
       match sim_failure w l with
       | Some ec => (Err ec, w <| sim_kevent_error := None |>)
       | None => let (m', receipts) := sim_changes w ∅ l in
           let s' := w <| sim_kqs := <[kq := m']> (sim_kqs w) |> in
           if 0 <? 0 then (Ok receipts, s')
           else match List.filter (fun r => negb (kev_data r =? 0)) receipts with
                | r :: _ => (Err (kev_data r), s') | [] => (Ok [], s') end end) as Hl by done.
    rewrite Hl. clear Hl.
    pose proof (changes_additions w l ∅ Hadd) as Hch.
    destruct (sim_failure w l) as [ec|] eqn:Ef; [done|].
    destruct (sim_changes w ∅ l) as [m' r]. destruct Hch as (Hn & Hr & _ & Hin).
    assert (List.filter (fun r => negb (kev_data r =? 0)) r = []) as ->.
    { clear -Hr. induction Hr as [|e r E _ IH]; cbn; [done|]. by rewrite E. }
    cbn. fields. rewrite lookup_insert_eq, Hk. cbn. rewrite Hn. split; [done|]. intros _.
    split; [|done]. split.
    + unfold sim_failure in Ef. destruct (sim_kevent_error w); [|done].
      replace (existsb _ l) with false in Ef; [done|]. symmetry. apply not_true_iff_false.
      rewrite existsb_exists. intros (c & Hc & Hd). apply list_elem_of_In in Hc.
      pose proof (proj1 (Forall_forall _ _) Hadd c Hc) as (E & _). cbn in E. congruence.
    + eexists. split; [done|]. change (0, EVFILT_USER) with (kev_key (self_change p)). apply Hin. by left.
Qed.

(** ** Witnesses *)

Lemma sim_triggers : triggers_succeed (W := sim).
Proof.
  intros e kq set w (He & m & Hm & kn & Hu) Ht _. unfold kqueue_event_trigger. wps. rewrite Ht.
  cbn. wps. unfold kernel_step, sim_kernel, sim_kevent, sim_failure. cbn. rewrite Hm, He.
  unfold sim_change, kev_key. cbn. rewrite Hu. eval_has. by wps.
Qed.

Module Witness.
(** Signals 16 (SIGURG) and 30 (SIGUSR1). *)
Definition set : sigset_t := Z.lor (sigmask 16) (sigmask 30).

(** Signal 30 is pending before the signalfd exists. *)
Definition world : sim := sim_signal 30 (sim_init <| sim_kqs := {[ 3 := ∅ ]} |>).

Definition fresh : SignalFDCtx :=
  {| sigs := 0; kqueue_event := {| is_triggered_ := false; self_pipe_ := (0, 0) |} |}.

Definition created : SignalFDCtx * sim :=
  match signalfd_ctx_init 3 set (fresh, world) with Done _ s => s | Stop _ => (fresh, world) end.
End Witness.

Lemma signalfd_never_unnoticed_witness :
  wp (signalfd_run 3 Witness.set [op_poll true; op_elsewhere (fun w => w); op_read signalfd_siginfo_zero])
    (fun r s => r = Ok tt ->
       sigs s.1 = Witness.set /\
       (Z.land (s_pending s.2) Witness.set <> 0 -> s_readable s.2 3 = true))
    (Witness.fresh, Witness.world).
Proof.
  apply signalfd_never_unnoticed.
  - by vm_compute.
  - exact sim_triggers.
  - constructor; [done|]. constructor; [intros p w; by split|]. by repeat constructor.
  - vm_compute. lia.
  - reflexivity.
Defined.


(** Two signals: the first was pending before the signalfd existed, the second arrives after
    it was read; a poll between them finds nothing. *)
Example signalfd_two_signals :
  match (let* _ := signalfd_ctx_init 3 Witness.set in
         let* r1 := signalfd_ctx_read 3 signalfd_siginfo_zero in
         let* p1 := signalfd_ctx_poll 3 true in
         lift (modify (sim_signal 16)) ;;
         let* p2 := signalfd_ctx_poll 3 true in
         let* r2 := signalfd_ctx_read 3 signalfd_siginfo_zero in
         let* r3 := signalfd_ctx_read 3 signalfd_siginfo_zero in
         let signo r := match r with Ok d => Ok (ssi_signo d) | Err ec => Err ec end in
         ret (signo r1, p1, p2, signo r2, signo r3)) (Witness.fresh, Witness.world) with
  | Done r _ => r = (Ok 30, Some 0, Some POLLIN, Ok 16, Err EAGAIN)
  | Stop _ => False
  end.
Proof. vm_compute. reflexivity. Qed.
