(* ===== verification/Descriptors.v ===== *)
(** * File descriptors of the process

    What code that creates descriptors relies on: the set of open descriptors
    and their flags, and which calls change them.  Descriptors that other
    threads open meanwhile are left out. *)

From S2P Require Import Prelude Kernel.

(** [opened w]: the open descriptors; [status w fd] and [fdflags w fd]: what F_GETFL and
    F_GETFD of fcntl(2) report. *)
Class FdWorld (W : Type) := {
  opened : W -> gset Z;
  status : W -> Z -> Z;
  fdflags : W -> Z -> Z
}.

(** The set and the flags of the open descriptors are unchanged. *)
Record same_fds {W} `{!FdWorld W} (w w' : W) : Prop := {
  sf_opened : opened w' = opened w;
  sf_status fd : fd ∈ opened w -> status w' fd = status w fd;
  sf_fdflags fd : fd ∈ opened w -> fdflags w' fd = fdflags w fd
}.

#[export] Instance same_fds_preorder {W} `{!FdWorld W} : PreOrder (same_fds (W := W)).
Proof.
  split; [by split|]. intros w1 w2 w3 [H1 H2 H3] [H4 H5 H6].
  split; [congruence|intros fd Hfd; rewrite H5, H2|intros fd Hfd; rewrite H6, H3]; congruence.
Qed.

(** [w'] is [w] with the new descriptors [l]. *)
Record added {W} `{!FdWorld W} (l : list Z) (w w' : W) : Prop := {
  ad_opened : opened w' = (opened w ∪ list_to_set l);
  ad_fresh fd : fd ∈ l -> (fd ∉ opened w) /\ 0 <= fd
}.

(** Calls that open and close no descriptor and set no flags. *)
Definition keeps_fds {A} (c : syscall A) : bool :=
  match c with
  | sys_kevent _ _ _ _ | sys_poll _ _ | sys_ppoll _ _ _ | sys_read _ _ | sys_write _ _
  | sys_fcntl _ F_GETFL _ | sys_fcntl _ F_GETFD _ | sys_ioctl_fionread _ | sys_fstat _
  | sys_clock_gettime _ | sys_boottime | sys_clk_tck | sys_malloc _ | sys_realloc _ _ | sys_free _
  | sys_mutex_init | sys_mutex_destroy | sys_cond_init | sys_cond_destroy | sys_sem_init _
  | sys_sem_destroy | sys_sem_wait | sys_sigpending | sys_sigtimedwait _ | sys_sigwait _
  | sys_thrsigdivert _ | sys_sigaction_get _ | sys_sigaction_set _ _ | sys_sigmask_get
  | sys_sigmask_set _ | sys_cap_rights_get _ | sys_pthread_create | sys_nanosleep _ | sys_indeterminate_kevent => true
  | _ => false
  end.

Class FdLaws (W : Type) `{!Kernel W, !FdWorld W} := {
  law_keeps {A} (c : syscall A) w : keeps_fds c = true ->
    let (r, w') := kernel_step c w in same_fds w w';
  (** kqueue(2), socket(2), pipe(2), socketpair(2) *)
  law_kqueue_fd w :
    let (r, w') := kernel_step sys_kqueue w in
    match r with Ok fd => added [fd] w w' | Err _ => same_fds w w' end;
  law_kqueue1_fd w flags :
    let (r, w') := kernel_step (sys_kqueue1 flags) w in
    match r with Ok fd => added [fd] w w' | Err _ => same_fds w w' end;
  law_socket_fd w d t p :
    let (r, w') := kernel_step (sys_socket d t p) w in
    match r with Ok fd => added [fd] w w' | Err _ => same_fds w w' end;
  law_pipe_fd w :
    let (r, w') := kernel_step sys_pipe w in
    match r with Ok (a, b) => added [a; b] w w' /\ a <> b | Err _ => same_fds w w' end;
  law_socketpair_fd w d t p :
    let (r, w') := kernel_step (sys_socketpair d t p) w in
    match r with Ok (a, b) => added [a; b] w w' /\ a <> b | Err _ => same_fds w w' end;
  (** close(2): the descriptor is gone even when an error is reported. *)
  law_close_fd w fd :
    let (r, w') := kernel_step (sys_close fd) w in opened w' = opened w ∖ {[fd]};
  (** fcntl(2) *)
  law_getfl w fd arg :
    let (r, w') := kernel_step (sys_fcntl fd F_GETFL arg) w in
    match r with Ok v => v = status w fd | Err _ => True end;
  law_getfd w fd arg :
    let (r, w') := kernel_step (sys_fcntl fd F_GETFD arg) w in
    match r with Ok v => v = fdflags w fd | Err _ => True end;
  law_setfl w fd v :
    let (r, w') := kernel_step (sys_fcntl fd F_SETFL v) w in
    opened w' = opened w /\ (forall fd', fdflags w' fd' = fdflags w fd') /\
    (forall fd', fd' <> fd -> status w' fd' = status w fd') /\
    status w' fd = (if is_ok r then v else status w fd);
  law_setfd w fd v :
    let (r, w') := kernel_step (sys_fcntl fd F_SETFD v) w in
    opened w' = opened w /\ (forall fd', status w' fd' = status w fd') /\
    (forall fd', fd' <> fd -> fdflags w' fd' = fdflags w fd') /\
    fdflags w' fd = (if is_ok r then v else fdflags w fd)
}.

(** ** Rules *)

(** New descriptors that are all closed again. *)
Lemma closed_one (X : gset Z) fd : fd ∉ X -> (X ∪ list_to_set [fd]) ∖ {[fd]} = X.
Proof.
  intros Hfd. apply leibniz_equiv. intros x.
  rewrite elem_of_difference, elem_of_union, elem_of_list_to_set, list_elem_of_singleton, elem_of_singleton.
  split; [tauto|]. intros Hx. split; [by left|]. by intros ->.
Qed.

Lemma closed_two (X : gset Z) a b : a ∉ X -> b ∉ X ->
  (X ∪ list_to_set [a; b]) ∖ {[a]} ∖ {[b]} = X.
Proof.
  intros Ha Hb. apply leibniz_equiv. intros x.
  rewrite !elem_of_difference, elem_of_union, elem_of_list_to_set, !elem_of_cons, elem_of_nil,
    !elem_of_singleton.
  split; [tauto|]. intros Hx. split_and!; [by left|by intros ->|by intros ->].
Qed.

Section Rules.
Context {W : Type} `{FdLaws W}.

Lemma wp_keeps {A} (o : stop -> Prop) (c : syscall A) (Q : A -> W -> Prop) w :
  keeps_fds c = true -> (forall r w', same_fds w w' -> Q r w') -> wpg o (call c) Q w.
Proof.
  intros Hc HQ. apply wp_call. law (law_keeps c w Hc) as r w' Hs. by apply HQ.
Qed.

Lemma wp_close (o : stop -> Prop) fd (Q : unit -> W -> Prop) w :
  (forall w', opened w' = opened w ∖ {[fd]} -> Q tt w') -> wpg o (call_ (sys_close fd)) Q w.
Proof.
  intros HQ. unfold call_. apply wp_bind, wp_call. law (law_close_fd w fd) as r w' Hs.
  by apply wp_ret, HQ.
Qed.
End Rules.
