(* ===== verification/Compat.v ===== *)
(** * Replacements for system calls that are missing (src/compat_*.c)

    [kqueue1], [pipe2], [socket] and [socketpair] with flags, built from the
    calls without flags and [fcntl]; [sigandset] and [sigisemptyset]; and
    [ppoll], which macOS lacks, built from [poll] and a kqueue that watches
    the signals the mask lets through. *)

From S2P Require Import Prelude Kernel Descriptors.

(** ** Descriptors with flags *)

Section Flags.
Context {W : Type} `{!Platform, !Kernel W}.

(** [(r = fcntl(fd, F_GETFL, 0)) < 0 || fcntl(fd, F_SETFL, r | O_NONBLOCK) < 0] *)
Definition set_nonblock (fd : Z) : M W (result unit) :=
  try* r := call (sys_fcntl fd F_GETFL 0) in
  try* _ := call (sys_fcntl fd F_SETFL (Z.lor r O_NONBLOCK)) in
  ret (Ok tt).

(** [(r = fcntl(fd, F_GETFD, 0)) < 0 || fcntl(fd, F_SETFD, r | FD_CLOEXEC) < 0] *)
Definition set_cloexec (fd : Z) : M W (result unit) :=
  try* r := call (sys_fcntl fd F_GETFD 0) in
  try* _ := call (sys_fcntl fd F_SETFD (Z.lor r FD_CLOEXEC)) in
  ret (Ok tt).

(** The same with [r & ~FD_CLOEXEC]. *)
Definition clear_cloexec (fd : Z) : M W (result unit) :=
  try* r := call (sys_fcntl fd F_GETFD 0) in
  try* _ := call (sys_fcntl fd F_SETFD (Z.land r (Z.lnot FD_CLOEXEC))) in
  ret (Ok tt).

(** A kqueue may refuse F_SETFL with ENOTTY. *)
Definition set_nonblock_kq (fd : Z) : M W (result unit) :=
  try* r := call (sys_fcntl fd F_GETFL 0) in
  let* s := call (sys_fcntl fd F_SETFL (Z.lor r O_NONBLOCK)) in
  match s with
  | Err ec => if negb (ec =? ENOTTY) then ret (Err ec) else ret (Ok tt)
  | Ok _ => ret (Ok tt)
  end.

(** A step that is taken when a flag was asked for. *)
Definition if_flag (b : bool) (m : M W (result unit)) : M W (result unit) :=
  if b then m else ret (Ok tt).

Definition compat_kqueue1 (flags : Z) : M W (result Z) :=
  if negb (Z.land flags (Z.lnot (Z.lor O_CLOEXEC O_NONBLOCK)) =? 0) then ret (Err EINVAL)
  else
    try* fd := call sys_kqueue in
    let* ec :=
      try* _ :=
        if has flags O_CLOEXEC then set_cloexec fd
        else if_flag (is_os Apple) (clear_cloexec fd) in
      if_flag (has flags O_NONBLOCK) (set_nonblock_kq fd) in
    match ec with
    | Ok _ => ret (Ok fd)
    | Err ec => call_ (sys_close fd) ;; ret (Err ec)
    end.

Definition compat_socket (domain type protocol : Z) : M W (result Z) :=
  try* sock := call (sys_socket domain (Z.land type (Z.lnot (Z.lor O_CLOEXEC O_NONBLOCK))) protocol) in
  let* ec :=
    try* _ := if_flag (has type O_NONBLOCK) (set_nonblock sock) in
    if_flag (has type O_CLOEXEC) (set_cloexec sock) in
  match ec with
  | Ok _ => ret (Ok sock)
  | Err ec => call_ (sys_close sock) ;; ret (Err ec)
  end.

(** The flags of both ends of a pipe or a pair. *)
Definition setup_pair (flags : Z) (p : Z * Z) : M W (result unit) :=
  try* _ := if_flag (has flags O_NONBLOCK)
    (try* _ := set_nonblock p.1 in set_nonblock p.2) in
  if_flag (has flags O_CLOEXEC) (try* _ := set_cloexec p.1 in set_cloexec p.2).

Definition close_pair (p : Z * Z) : M W unit := call_ (sys_close p.1) ;; call_ (sys_close p.2).

Definition compat_pipe2 (flags : Z) : M W (result (Z * Z)) :=
  if negb (Z.land flags (Z.lnot (Z.lor O_CLOEXEC O_NONBLOCK)) =? 0) then ret (Err EINVAL)
  else
    try* p := call sys_pipe in
    let* ec := setup_pair flags p in
    match ec with
    | Ok _ => ret (Ok p)
    | Err ec => close_pair p ;; ret (Err ec)
    end.

Definition compat_socketpair (domain type protocol : Z) : M W (result (Z * Z)) :=
  try* p := call
    (sys_socketpair domain (Z.land type (Z.lnot (Z.lor O_CLOEXEC O_NONBLOCK))) protocol) in
  let* ec := setup_pair type p in
  match ec with
  | Ok _ => ret (Ok p)
  | Err ec => close_pair p ;; ret (Err ec)
  end.
End Flags.

(** ** Signal sets (src/compat_sigops.c)

    On OpenBSD and macOS a set is one integer, on the others an array of 32-bit words. *)

Definition compat_sigisemptyset_int (set : Z) : bool := set =? 0.
Definition compat_sigandset_int (left right : Z) : Z := Z.land left right.

Definition compat_sigisemptyset_words (bits : list Z) : bool := forallb (fun w => w =? 0) bits.
Definition compat_sigandset_words (left right : list Z) : list Z := zip_with Z.land left right.

(** The set a list of words stands for. *)
Fixpoint of_words (bits : list Z) : sigset_t :=
  match bits with
  | [] => 0
  | w :: bits' => Z.lor w (Z.shiftl (of_words bits') 32)
  end.

Definition is_word (w : Z) : Prop := 0 <= w < 2 ^ 32.

Lemma word_high w i : is_word w -> 32 <= i -> Z.testbit w i = false.
Proof.
  intros [Hw Hw'] Hi. apply Z.bits_above_log2; [lia|].
  destruct (decide (w = 0)) as [->|]; [cbn; lia|].
  enough (Z.log2 w < 32) by lia. apply Z.log2_lt_pow2; lia.
Qed.

(** A word and the rest of the set do not overlap. *)
Lemma word_and_rest w x : is_word w -> Z.land w (Z.shiftl x 32) = 0.
Proof.
  intros Hw. apply Z.bits_inj'. intros i Hi. rewrite Z.land_spec, Z.shiftl_spec, Z.bits_0 by lia.
  destruct (Z.ltb_spec i 32).
  - rewrite (Z.testbit_neg_r x) by lia. apply andb_false_r.
  - by rewrite word_high.
Qed.

Lemma compat_sigandset_spec left right :
  length left = length right -> Forall is_word left -> Forall is_word right ->
  of_words (compat_sigandset_words left right) = sigandset (of_words left) (of_words right).
Proof.
  unfold compat_sigandset_words, sigandset. intros Hlen Hl. revert right Hlen.
  induction Hl as [|w left Hw Hl IH]; intros [|w' right] Hlen Hr; try done.
  apply Forall_cons in Hr as [Hw' Hr]. cbn. injection Hlen as Hlen.
  rewrite (IH right) by done. apply Z.bits_inj'. intros i Hi.
  rewrite Z.land_spec, !Z.lor_spec, !Z.shiftl_spec, !Z.land_spec by done.
  destruct (Z.ltb_spec i 32).
  - rewrite !(Z.testbit_neg_r _ (i - 32)) by lia. by rewrite !orb_false_r.
  - rewrite !word_high by done. reflexivity.
Qed.

Lemma compat_sigisemptyset_spec bits : Forall is_word bits ->
  compat_sigisemptyset_words bits = sigisemptyset (of_words bits).
Proof.
  unfold compat_sigisemptyset_words, sigisemptyset. intros Hb.
  induction Hb as [|w bits Hw Hb IH]; [done|]. cbn. rewrite IH.
  apply eq_true_iff_eq. rewrite andb_true_iff, !Z.eqb_eq, Z.lor_eq_0_iff, Z.shiftl_eq_0_iff by lia.
  done.
Qed.

(** ** ppoll (src/compat_ppoll.c) *)

Section Ppoll.
Context {W : Type} `{!Platform, !Kernel W}.

Definition SIGKILL : Z := 9.
Definition SIGSTOP : Z := 17.
(** Only macOS compiles this file. *)
Definition NSIG : nat := 32.

(** [timeout_ms] *)
Definition ppoll_timeout_ms (timeout : option timespec) : result Z :=
  match timeout with
  | None => Ok (-1)
  | Some t =>
      if (tv_sec t <? 0) || (tv_nsec t <? 0) || (1000000000 <=? tv_nsec t) then Err EINVAL
      else
        let timeout_ms := Z.quot (tv_nsec t) 1000000 in
        let timeout_ms :=
          if negb (Z.rem (tv_nsec t) 1000000 =? 0) then timeout_ms + 1 else timeout_ms in
        match checked fits_int (tv_sec t * 1000) with
        | None => Ok (-1)
        | Some sec_ms => Ok (default (-1) (checked fits_int (sec_ms + timeout_ms)))
        end
  end.

(** The loop over the signal numbers from [i] on: a signal that is blocked now, not blocked
    by the new mask, and handled by a function that interrupts system calls. *)
Fixpoint interrupting_signals (origmask mask : sigset_t) (n : nat) (i : Z) (kevs : list kevent) :
    M W (result (list kevent)) :=
  match n with
  | O => ret (Ok kevs)
  | S n' =>
      let next := interrupting_signals origmask mask n' (i + 1) in
      if (i =? SIGKILL) || (i =? SIGSTOP) then next kevs
      else if negb (sigismember origmask i) || sigismember mask i then next kevs
      else
        try* act := call (sys_sigaction_get i) in
        if negb (sa_siginfo act) &&
           match sa_handler act with SIG_DFL | SIG_IGN => true | SIG_FUN _ => false end
        then next kevs
        else if sa_restart act then next kevs
        else next (kevs ++ [EV_SET i EVFILT_SIGNAL (Z.lor EV_ADD EV_ONESHOT) 0 0 0])
  end.

(** One of the signals is pending already: make the kqueue readable. *)
Definition announce_pending (kq : Z) (kevs : list kevent) : M W (result unit) :=
  if has_evfilt_user then
    try* pending := call sys_sigpending in
    if existsb (fun k => sigismember pending (kev_ident k)) kevs then
      try* _ := call (sys_kevent kq
        [EV_SET 0 EVFILT_USER (Z.lor EV_ADD EV_ONESHOT) 0 0 0;
         EV_SET 0 EVFILT_USER 0 NOTE_TRIGGER 0 0] 0 None) in
      ret (Ok tt)
    else ret (Ok tt)
  else ret (Ok tt).

(** [poll] under the new mask.  [held]: what the variable [origmask] holds before, if it was
    set; were the mask not exchanged, the variable would keep it. *)
Definition masked_poll (held : option sigset_t) (sigmask : option sigset_t) (fds : list pollfd)
    (timeout_ms : Z) : M W (result (Z * list pollfd)) :=
  match sigmask with
  | None => call (sys_poll fds timeout_ms)
  | Some mask =>
      let* old := call (sys_sigmask_set mask) in
      let* r := call (sys_poll fds timeout_ms) in
      match old, held with
      | Ok origmask, _ | Err _, Some origmask => call_ (sys_sigmask_set origmask)
      | Err _, None => stop_with Unreachable
      end ;;
      ret r
  end.

(** Sizes in bytes: [sizeof(struct pollfd)] is 8. *)
Definition pfds2_size (nfds : Z) : option Z :=
  match checked fits_u64 (nfds + 1) with
  | None => None
  | Some n => checked fits_u64 (n * 8)
  end.

(** With a kqueue [kq] among the polled descriptors; the address of [fds2] comes with the
    result, NULL is 0. *)
Definition poll_with_signals (kq : Z) (kevs : list kevent) (held sigmask : option sigset_t)
    (fds : list pollfd) (timeout_ms : Z) : M W (Z * result (Z * list pollfd)) :=
  let* r :=
    try* _ := call (sys_kevent kq kevs 0 None) in
    try* _ := announce_pending kq kevs in
    match pfds2_size (Z.of_nat (length fds)) with
    | None => ret (Err EINVAL)
    | Some size => call (sys_malloc size)
    end in
  match r with
  | Err ec => ret (0, Err ec)
  | Ok fds2 =>
      let* r := masked_poll held sigmask
        (fds ++ [{| pfd_fd := kq; pfd_events := POLLIN; pfd_revents := 0 |}]) timeout_ms in
      match r with
      | Err ec => ret (fds2, Err ec)
      | Ok (ready, polled) =>
          let signalled :=
            match polled !! length fds with Some p => negb (pfd_revents p =? 0) | None => false end in
          let ready := if signalled then ready - 1 else ready in
          if signalled && (ready =? 0) then ret (fds2, Err EINTR)
          else ret (fds2, Ok (ready, take (length fds) polled))
      end
  end.

(** The result carries [fds] as changed by the call. *)
Definition compat_ppoll (fds : list pollfd) (timeout : option timespec) (sigmask : option sigset_t) :
    M W (result (Z * list pollfd)) :=
  match ppoll_timeout_ms timeout with
  | Err ec => ret (Err ec)
  | Ok timeout_ms =>
      try* (held, kevs) :=
        match sigmask with
        | Some mask =>
            if negb (timeout_ms =? 0) then
              try* origmask := call sys_sigmask_get in
              try* kevs := interrupting_signals origmask mask (Nat.pred NSIG) 1 [] in
              ret (Ok (Some origmask, kevs))
            else ret (Ok (None, []))
        | None => ret (Ok (None, []))
        end in
      match kevs with
      | [] =>
          let* r := masked_poll held sigmask fds timeout_ms in
          call_ (sys_free 0) ;;
          ret r
      | _ :: _ =>
          try* kq := call sys_kqueue in
          let* (fds2, r) := poll_with_signals kq kevs held sigmask fds timeout_ms in
          call_ (sys_free fds2) ;;
          call_ (sys_close kq) ;;
          ret r
      end
  end.
End Ppoll.

(** ** Flags are set and nothing leaks *)

Section FlagsCorrect.
Context {W : Type} `{!Platform, !Kernel W, !FdWorld W, !FdLaws W}.

(** The requested flags are set. *)
Definition configured (flags fd : Z) (w : W) : Prop :=
  (has flags O_NONBLOCK = true -> has (status w fd) O_NONBLOCK = true) /\
  (has flags O_CLOEXEC = true -> has (fdflags w fd) FD_CLOEXEC = true).

(** No descriptor appears or disappears and none loses a flag. *)
Record upgraded (w w' : W) : Prop := {
  up_opened : opened w' = opened w;
  up_status fd : fd ∈ opened w -> has (status w fd) O_NONBLOCK = true ->
    has (status w' fd) O_NONBLOCK = true;
  up_fdflags fd : fd ∈ opened w -> has (fdflags w fd) FD_CLOEXEC = true ->
    has (fdflags w' fd) FD_CLOEXEC = true
}.

#[export] Instance upgraded_preorder : PreOrder upgraded.
Proof.
  split; [by split|]. intros w1 w2 w3 [Ho1 Hs1 Hf1] [Ho2 Hs2 Hf2].
  split; [congruence|..]; intros fd Hfd Hb; [apply Hs2|apply Hf2]; rewrite ?Ho1; auto.
Qed.

Lemma same_upgraded w w' : same_fds w w' -> upgraded w w'.
Proof. intros [Ho Hs Hf]. split; [done|..]; intros fd Hfd; by rewrite ?Hs, ?Hf. Qed.

(** The two steps of [fcntl]. *)
Lemma setfl_upgraded o fd w (Q : result Z -> W -> Prop) :
  (forall r w', upgraded w w' -> (is_ok r = true -> has (status w' fd) O_NONBLOCK = true) -> Q r w') ->
  wpg o (call (sys_fcntl fd F_SETFL (Z.lor (status w fd) O_NONBLOCK))) Q w.
Proof.
  intros HQ. apply wp_call.
  law (law_setfl w fd (Z.lor (status w fd) O_NONBLOCK)) as r w' (Ho & Hf & Hs & Hr).
  apply HQ; [|intros E; by rewrite Hr, E, has_lor, orb_true_r].
  split; [done|intros fd' _|intros fd' _; by rewrite Hf].
  destruct (decide (fd' = fd)) as [->|Hne]; [|by rewrite Hs].
  intros Hb. rewrite Hr. destruct (is_ok r); [|done]. by rewrite has_lor, orb_true_r.
Qed.

Lemma setfd_upgraded o fd w (Q : result Z -> W -> Prop) :
  (forall r w', upgraded w w' -> (is_ok r = true -> has (fdflags w' fd) FD_CLOEXEC = true) -> Q r w') ->
  wpg o (call (sys_fcntl fd F_SETFD (Z.lor (fdflags w fd) FD_CLOEXEC))) Q w.
Proof.
  intros HQ. apply wp_call.
  law (law_setfd w fd (Z.lor (fdflags w fd) FD_CLOEXEC)) as r w' (Ho & Hs & Hf & Hr).
  apply HQ; [|intros E; by rewrite Hr, E, has_lor, orb_true_r].
  split; [done|intros fd' _; by rewrite Hs|intros fd' _].
  destruct (decide (fd' = fd)) as [->|Hne]; [|by rewrite Hf].
  intros Hb. rewrite Hr. destruct (is_ok r); [|done]. by rewrite has_lor, orb_true_r.
Qed.

Lemma getfl_keeps o fd w (Q : result Z -> W -> Prop) :
  (forall w', same_fds w w' -> Q (Ok (status w fd)) w') ->
  (forall ec w', same_fds w w' -> Q (Err ec) w') ->
  wpg o (call (sys_fcntl fd F_GETFL 0)) Q w.
Proof.
  intros HQ HQ'. apply wp_call. pose proof (law_keeps (sys_fcntl fd F_GETFL 0) w eq_refl) as Hk.
  law (law_getfl w fd 0) as [v|ec] w1 Hv; [subst v|]; auto.
Qed.

Lemma getfd_keeps o fd w (Q : result Z -> W -> Prop) :
  (forall w', same_fds w w' -> Q (Ok (fdflags w fd)) w') ->
  (forall ec w', same_fds w w' -> Q (Err ec) w') ->
  wpg o (call (sys_fcntl fd F_GETFD 0)) Q w.
Proof.
  intros HQ HQ'. apply wp_call. pose proof (law_keeps (sys_fcntl fd F_GETFD 0) w eq_refl) as Hk.
  law (law_getfd w fd 0) as [v|ec] w1 Hv; [subst v|]; auto.
Qed.

(** A step on [fd], which may fail. *)
Definition raises (b : bool) (fd : Z) (get : W -> Z -> Z) (bit : Z) (m : M W (result unit)) : Prop :=
  forall o w (Q : result unit -> W -> Prop), fd ∈ opened w ->
  (forall r w', upgraded w w' -> (r = Ok tt -> b = true -> has (get w' fd) bit = true) -> Q r w') ->
  wpg o m Q w.

Lemma set_nonblock_raises fd : raises true fd status O_NONBLOCK (set_nonblock fd).
Proof.
  intros o w Q Hfd HQ. unfold set_nonblock.
  apply wp_bind_result, getfl_keeps; [|intros; by apply HQ; [apply same_upgraded|]].
  intros w1 Hk. rewrite <- (sf_status _ _ Hk) by done.
  apply wp_bind_result, setfl_upgraded. intros [u|ec] w2 Hu Hr;
    [apply wp_ret|]; (apply HQ; [by etrans; [apply same_upgraded|]|]); auto; done.
Qed.

Lemma set_cloexec_raises fd : raises true fd fdflags FD_CLOEXEC (set_cloexec fd).
Proof.
  intros o w Q Hfd HQ. unfold set_cloexec.
  apply wp_bind_result, getfd_keeps; [|intros; by apply HQ; [apply same_upgraded|]].
  intros w1 Hk. rewrite <- (sf_fdflags _ _ Hk) by done.
  apply wp_bind_result, setfd_upgraded. intros [u|ec] w2 Hu Hr;
    [apply wp_ret|]; (apply HQ; [by etrans; [apply same_upgraded|]|]); auto; done.
Qed.

Lemma if_flag_raises b fd get bit m : raises true fd get bit m -> raises b fd get bit (if_flag b m).
Proof.
  intros Hm o w Q Hfd HQ. destruct b; [by apply Hm|]. apply wp_ret, HQ; done.
Qed.

(** All steps for both ends: each is open throughout and keeps what it got. *)
Lemma setup_pair_spec flags p w : p.1 ∈ opened w -> p.2 ∈ opened w ->
  wp (setup_pair flags p) (fun r w' => opened w' = opened w /\
    (r = Ok tt -> configured flags p.1 w' /\ configured flags p.2 w')) w.
Proof.
  intros H1 H2. unfold setup_pair, configured. apply wp_bind_result. unfold if_flag.
  set (Qn := fun r (w' : W) => upgraded w w' /\ (r = Ok tt -> has flags O_NONBLOCK = true ->
    has (status w' p.1) O_NONBLOCK = true /\ has (status w' p.2) O_NONBLOCK = true)).
  assert (wp (if has flags O_NONBLOCK then try* _ := set_nonblock p.1 in set_nonblock p.2 else ret (Ok tt))
    Qn w) as Hn.
  { unfold Qn. destruct (has flags O_NONBLOCK); [|by apply wp_ret].
    apply wp_bind_result, set_nonblock_raises; [done|]. intros [[]|ec] w1 Hu1 Hr1; [|done].
    apply set_nonblock_raises; [by rewrite (up_opened _ _ Hu1)|]. intros r w2 Hu2 Hr2.
    split; [by etrans|]. intros -> _. split; [|by apply Hr2].
    apply (up_status _ _ Hu2); [by rewrite (up_opened _ _ Hu1)|by apply Hr1]. }
  eapply wp_mono; [exact Hn|]. intros r w1 [Hu1 Hr1].
  destruct r as [[]|ec]; [|split; [apply Hu1|done]]. specialize (Hr1 eq_refl).
  assert (p.1 ∈ opened w1 /\ p.2 ∈ opened w1) as [H1' H2'] by (by rewrite (up_opened _ _ Hu1)).
  destruct (has flags O_CLOEXEC) eqn:Ec.
  2: { apply wp_ret. split; [apply Hu1|]. intros _.
       split; (split; [intros E; by apply Hr1|done]). }
  apply wp_bind_result, set_cloexec_raises; [done|]. intros [[]|ec] w2 Hu2 Hr2.
  2: { split; [|done]. by rewrite (up_opened _ _ Hu2), (up_opened _ _ Hu1). }
  assert (p.1 ∈ opened w2 /\ p.2 ∈ opened w2) as [H1'' H2''] by (by rewrite (up_opened _ _ Hu2)).
  apply set_cloexec_raises; [done|]. intros r w3 Hu3 Hr3.
  split; [by rewrite (up_opened _ _ Hu3), (up_opened _ _ Hu2), (up_opened _ _ Hu1)|]. intros ->.
  split; (split; [intros E; destruct (Hr1 E); apply (up_status _ _ Hu3), (up_status _ _ Hu2); auto|intros _]).
  - apply (up_fdflags _ _ Hu3); auto.
  - auto.
Qed.

(** What a call that creates a pair promises. *)
Definition made_pair (flags : Z) (w : W) (r : result (Z * Z)) (w' : W) : Prop :=
  match r with
  | Ok (a, b) =>
      opened w' = opened w ∪ {[a; b]} /\ a <> b /\ (a ∉ opened w) /\ (b ∉ opened w) /\
      configured flags a w' /\ configured flags b w'
  | Err _ => opened w' = opened w
  end.

Lemma finish_pair flags p w w1 : added [p.1; p.2] w w1 -> p.1 <> p.2 ->
  wp (let* ec := setup_pair flags p in
      match ec with Ok _ => ret (Ok p) | Err ec => close_pair p ;; ret (Err ec) end)
    (made_pair flags w) w1.
Proof.
  intros [Ho Hfr] Hne. apply wp_bind. eapply wp_mono.
  - apply setup_pair_spec; rewrite Ho; set_solver.
  - intros r w2 [Ho2 Hr]. rewrite Ho in Ho2. destruct r as [[]|ec].
    + destruct (Hr eq_refl). apply wp_ret. destruct p as [a b]; cbn in *.
      split_and!; try done; [set_solver|apply Hfr; set_solver..].
    + apply wp_bind. unfold close_pair. apply wp_bind, wp_close. intros w3 Ho3. apply wp_close.
      intros w4 Ho4. apply wp_ret. cbn [made_pair]. rewrite Ho4, Ho3, Ho2.
      apply closed_two; apply Hfr; rewrite !elem_of_cons; auto.
Qed.

(** *** One descriptor *)

(** The way out after a failure. *)
Lemma fail_one fd ec (P : Z -> W -> Prop) w w1 w2 : added [fd] w w1 -> opened w2 = opened w1 ->
  wp (call_ (sys_close fd) ;; ret (Err ec))
    (fun r w' => match r with Ok fd => P fd w' | Err _ => opened w' = opened w end) w2.
Proof.
  intros [Ho Hfr] Ho2. apply wp_bind, wp_close. intros w3 Ho3. apply wp_ret.
  rewrite Ho3, Ho2, Ho. apply closed_one, Hfr. by apply list_elem_of_singleton.
Qed.

Lemma set_nonblock_kq_spec fd w (Q : result unit -> W -> Prop) : fd ∈ opened w ->
  (forall r w', opened w' = opened w -> fdflags w' fd = fdflags w fd -> Q r w') ->
  wp (set_nonblock_kq fd) Q w.
Proof.
  intros Hfd HQ. unfold set_nonblock_kq. apply wp_bind_result, getfl_keeps.
  - intros w1 [Ho1 _ Hf1]. apply wp_bind, wp_call.
    law (law_setfl w1 fd (Z.lor (status w fd) O_NONBLOCK)) as r w2 (Ho2 & Hf2 & _ & _).
    assert (forall r, Q r w2) as HQ2 by (intros; apply HQ; [congruence|by rewrite Hf2, Hf1]).
    destruct r as [u|ec]; [by apply wp_ret|]. case_goal; by apply wp_ret.
  - intros ec w1 [Ho1 _ Hf1]. apply HQ; auto.
Qed.

Lemma cloexec_step fd flags w (Q : result unit -> W -> Prop) : fd ∈ opened w ->
  (forall r w', opened w' = opened w ->
     (r = Ok tt -> (has flags O_CLOEXEC = true -> has (fdflags w' fd) FD_CLOEXEC = true) /\
        (is_os Apple = true -> has flags O_CLOEXEC = false ->
           has (fdflags w' fd) FD_CLOEXEC = false)) -> Q r w') ->
  wp (if has flags O_CLOEXEC then set_cloexec fd else if_flag (is_os Apple) (clear_cloexec fd)) Q w.
Proof.
  intros Hfd HQ. destruct (has flags O_CLOEXEC) eqn:Ec.
  - apply set_cloexec_raises; [done|]. intros r w' Hu Hr. apply HQ; [apply Hu|]. intros ->. split; [by auto|done].
  - unfold if_flag. destruct (is_os Apple) eqn:Ea; [|by apply wp_ret, HQ].
    unfold clear_cloexec. apply wp_bind_result, getfd_keeps.
    + intros w1 [Ho1 _ Hf1]. apply wp_bind_result, wp_call.
      law (law_setfd w1 fd (Z.land (fdflags w fd) (Z.lnot FD_CLOEXEC))) as [u|ec] w2 (Ho2 & _ & _ & Hr);
        [apply wp_ret|]; apply HQ; try congruence.
      intros _. split; [done|]. intros _ _. rewrite Hr. unfold has.
      rewrite <- Z.land_assoc, (Z.land_comm (Z.lnot _)), Z.land_lnot_diag, Z.land_0_r. done.
    + intros ec w1 [Ho1 _ _]. by apply HQ.
Qed.
End FlagsCorrect.

(** ** ppoll *)

(** The signal mask of the thread, which only [pthread_sigmask] sets. *)
Definition sets_mask {A} (c : syscall A) : bool :=
  match c with sys_sigmask_set _ => true | _ => false end.

Definition count_ready (fds : list pollfd) : Z :=
  Z.of_nat (length (List.filter (fun p => negb (pfd_revents p =? 0)) fds)).

Class PpollLaws (W : Type) `{!Kernel W} := {
  cur_mask : W -> sigset_t;
  law_mask_kept {A} (c : syscall A) w : sets_mask c = false ->
    let (r, w') := kernel_step c w in cur_mask w' = cur_mask w;
  (** pthread_sigmask(3) with SIG_SETMASK does not fail. *)
  law_sigmask_set w set :
    let (r, w') := kernel_step (sys_sigmask_set set) w in
    r = Ok (cur_mask w) /\ cur_mask w' = set;
  (** poll(2) returns the number of descriptors with a result. *)
  law_poll w fds ms :
    let (r, w') := kernel_step (sys_poll fds ms) w in
    match r with
    | Ok (n, fds') => length fds' = length fds /\ n = count_ready fds'
    | Err _ => True
    end
}.

Section PpollCorrect.
Context {W : Type} `{!Platform, !Kernel W, !FdWorld W, !FdLaws W, !PpollLaws W}.

(** Neither descriptors nor the mask are changed. *)
Definition intact (w w' : W) : Prop := opened w' = opened w /\ cur_mask w' = cur_mask w.

#[local] Instance intact_preorder : PreOrder intact.
Proof. split; [done|]. intros w1 w2 w3 [] []. split; congruence. Qed.

Lemma wp_intact {A} (c : syscall A) (Q : A -> W -> Prop) w :
  keeps_fds c && negb (sets_mask c) = true ->
  (forall r w', intact w w' -> Q r w') -> wp (call c) Q w.
Proof.
  intros [Hf Hm]%andb_true_iff HQ. apply negb_true_iff in Hm. apply wp_call.
  pose proof (law_mask_kept c w Hm) as Hk. law (law_keeps c w Hf) as r w' [Ho _ _].
  by apply HQ.
Qed.

Definition polled (fds : list pollfd) (r : result (Z * list pollfd)) : Prop :=
  match r with
  | Ok (n, fds') => length fds' = length fds /\ n = count_ready fds'
  | Err _ => True
  end.

Lemma real_poll_spec fds ms w (Q : result (Z * list pollfd) -> W -> Prop) :
  (forall r w', intact w w' -> polled fds r -> Q r w') -> wp (call (sys_poll fds ms)) Q w.
Proof.
  intros HQ. apply wp_call. pose proof (law_mask_kept (sys_poll fds ms) w eq_refl) as Hm.
  pose proof (law_keeps (sys_poll fds ms) w eq_refl) as Hf.
  law (law_poll w fds ms) as r w' Hr. apply HQ; [|done]. split; [apply Hf|done].
Qed.

Lemma masked_poll_spec held sigmask fds ms w (Q : result (Z * list pollfd) -> W -> Prop) :
  (forall r w', intact w w' -> polled fds r -> Q r w') -> wp (masked_poll held sigmask fds ms) Q w.
Proof.
  intros HQ. unfold masked_poll. destruct sigmask as [mask|]; [|by apply real_poll_spec].
  apply wp_bind, wp_call. pose proof (law_keeps (sys_sigmask_set mask) w eq_refl) as Hf.
  law (law_sigmask_set w mask) as old w1 [-> Hm]. apply wp_bind, real_poll_spec. intros r w2 [Ho2 Hm2] Hr.
  unfold call_. apply wp_bind, wp_bind, wp_call.
  pose proof (law_keeps (sys_sigmask_set (cur_mask w)) w2 eq_refl) as Hf2.
  law (law_sigmask_set w2 (cur_mask w)) as old w3 [-> Hm3].
  apply wp_ret, wp_ret, HQ; [|done]. split; [|done]. by rewrite (sf_opened _ _ Hf2), Ho2, (sf_opened _ _ Hf).
Qed.

Lemma interrupting_signals_spec origmask mask n i kevs w
    (Q : result (list kevent) -> W -> Prop) :
  (forall r w', intact w w' -> Q r w') ->
  wp (interrupting_signals origmask mask n i kevs) Q w.
Proof.
  intros HQ. apply wp_mono with (Q := fun _ w' => intact w w'); [|auto]. clear Q HQ.
  revert i kevs w. induction n as [|n IH]; intros i kevs w; [by apply wp_ret|]. cbn [interrupting_signals].
  case_goal; [apply IH|]. case_goal; [apply IH|].
  apply wp_bind_result, wp_intact; [done|]. intros [act|ec] w1 H1; [|done].
  repeat case_goal; (eapply wp_mono; [apply IH|]; intros r w2 H2; by etrans).
Qed.

Lemma count_ready_app l p : count_ready (l ++ [p]) =
  count_ready l + if negb (pfd_revents p =? 0) then 1 else 0.
Proof.
  unfold count_ready. rewrite List.filter_app, length_app. cbn.
  destruct (negb (pfd_revents p =? 0)); cbn; lia.
Qed.

(** The kqueue's entry is taken off the answer again. *)
Lemma poll_with_signals_spec kq kevs held sigmask fds ms w
    (Q : Z * result (Z * list pollfd) -> W -> Prop) :
  (forall a r w', intact w w' -> polled fds r -> Q (a, r) w') ->
  wp (poll_with_signals kq kevs held sigmask fds ms) Q w.
Proof.
  intros HQ. unfold poll_with_signals. apply wp_bind.
  apply wp_mono with (Q := fun _ w' => intact w w').
  - apply wp_bind_result, wp_intact; [done|]. intros [l|ec] w1 H1; [|done].
    apply wp_bind_result. apply wp_mono with (Q := fun _ w' => intact w w').
    + unfold announce_pending. destruct has_evfilt_user; [|by apply wp_ret].
      apply wp_bind_result, wp_intact; [done|]. intros [q|ec] w2 H2; [|by etrans].
      case_goal; [|by apply wp_ret; etrans]. apply wp_bind_result, wp_intact; [done|].
      intros [l'|ec] w3 H3; [apply wp_ret|]; (etrans; [exact H1|by etrans]).
    + intros [[]|ec] w2 H2; [|done]. destruct (pfds2_size _); [|by apply wp_ret].
      apply wp_intact; [done|]. intros r w3 H3. by etrans.
  - intros [fds2|ec] w1 H1; [|by apply wp_ret, HQ]. apply wp_bind, masked_poll_spec.
    intros r w2 H2 Hr. assert (intact w w2) as H12 by (by etrans).
    destruct r as [[n l]|ec]; [|by apply wp_ret, HQ]. cbv zeta. destruct Hr as [Hl ->].
    rewrite length_app in Hl. cbn in Hl.
    destruct l as [|p l _] using rev_ind; [cbn in Hl; lia|]. rewrite length_app in Hl. cbn in Hl.
    assert (length l = length fds) as Hl' by lia. rewrite <- Hl', list_lookup_middle, count_ready_app by done.
    rewrite take_app_length. destruct (negb (pfd_revents p =? 0)); cbn [andb].
    + case_goal; apply wp_ret, HQ; try done. split; [done|]. lia.
    + apply wp_ret, HQ; [done|]. split; [done|]. lia.
Qed.
End PpollCorrect.

(** ** Properties *)

(** C36: [pipe2] and [socketpair] built from calls without flags: on success there are exactly
    two new descriptors and both have every flag that was asked for; on every failure,
    of [fcntl] on either end too, no descriptor is left open. *)
Theorem compat_pairs_correct {W} `{!Kernel W, !FdWorld W, !FdLaws W} flags domain protocol (w : W) :
  wp (compat_pipe2 flags) (made_pair flags w) w /\
  wp (compat_socketpair domain flags protocol) (made_pair flags w) w.
Proof.
  split.
  - unfold compat_pipe2. case_goal; [by apply wp_ret|]. apply wp_bind_result, wp_call.
    law (law_pipe_fd w) as [[a b]|ec] w1 Hr; [|apply Hr]. destruct Hr. by apply finish_pair.
  - unfold compat_socketpair. apply wp_bind_result, wp_call.
    law (law_socketpair_fd w domain (Z.land flags (Z.lnot (Z.lor O_CLOEXEC O_NONBLOCK))) protocol)
      as [[a b]|ec] w1 Hr; [|apply Hr]. destruct Hr. by apply finish_pair.
Qed.

(** [kqueue1] and [socket] built from calls without flags: one new descriptor with the
    flags that were asked for (a kqueue may refuse O_NONBLOCK; on macOS FD_CLOEXEC is
    also cleared when it was not asked for), or an error and no descriptor. *)
Theorem compat_singles_correct {W} `{!Platform, !Kernel W, !FdWorld W, !FdLaws W}
    flags domain protocol (w : W) :
  wp (compat_kqueue1 flags) (fun r w' =>
    match r with
    | Ok fd => opened w' = opened w ∪ {[fd]} /\ (fd ∉ opened w) /\
        (has flags O_CLOEXEC = true -> has (fdflags w' fd) FD_CLOEXEC = true) /\
        (is_os Apple = true -> has flags O_CLOEXEC = false -> has (fdflags w' fd) FD_CLOEXEC = false)
    | Err _ => opened w' = opened w
    end) w /\
  wp (compat_socket domain flags protocol) (fun r w' =>
    match r with
    | Ok fd => opened w' = opened w ∪ {[fd]} /\ (fd ∉ opened w) /\ configured flags fd w'
    | Err _ => opened w' = opened w
    end) w.
Proof.
  split.
  - unfold compat_kqueue1. case_goal; [by apply wp_ret|]. apply wp_bind_result, wp_call.
    law (law_kqueue_fd w) as [fd|ec] w1 Ha; [|apply Ha]. pose proof Ha as [Ho Hfr].
    assert (fd ∈ opened w1) as Hfd by (rewrite Ho; set_solver).
    apply wp_bind, wp_bind_result, cloexec_step; [done|]. intros r w2 Ho2 Hr.
    destruct r as [[]|ec]; [|by apply (fail_one fd _ _ w w1)].
    unfold if_flag. destruct (Hr eq_refl) as [Hc1 Hc2].
    assert (forall w3, opened w3 = opened w2 -> fdflags w3 fd = fdflags w2 fd ->
      opened w3 = opened w ∪ {[fd]} /\ (fd ∉ opened w) /\
      (has flags O_CLOEXEC = true -> has (fdflags w3 fd) FD_CLOEXEC = true) /\
      (is_os Apple = true -> has flags O_CLOEXEC = false -> has (fdflags w3 fd) FD_CLOEXEC = false)) as Hok.
    { intros w3 Ho3 Hf3. rewrite Hf3, Ho3, Ho2, Ho. split_and!; auto; [cbn; set_solver|apply Hfr; set_solver]. }
    destruct (has flags O_NONBLOCK); [|by apply wp_ret, wp_ret, Hok].
    apply set_nonblock_kq_spec; [by rewrite Ho2|]. intros r w3 Ho3 Hf3.
    destruct r as [[]|ec]; [by apply wp_ret, Hok|].
    apply (fail_one fd _ _ w w1); congruence.
  - unfold compat_socket. apply wp_bind_result, wp_call.
    law (law_socket_fd w domain (Z.land flags (Z.lnot (Z.lor O_CLOEXEC O_NONBLOCK))) protocol)
      as [fd|ec] w1 Ha; [|apply Ha]. pose proof Ha as [Ho Hfr].
    assert (fd ∈ opened w1) as Hfd by (rewrite Ho; set_solver).
    apply wp_bind, wp_bind_result,
      (if_flag_raises _ fd status O_NONBLOCK _ (set_nonblock_raises fd)); [done|]. intros r w2 Hu2 Hr2.
    destruct r as [[]|ec]; [|by apply (fail_one fd _ _ w w1); [|apply Hu2]].
    apply (if_flag_raises _ fd fdflags FD_CLOEXEC _ (set_cloexec_raises fd));
      [by rewrite (up_opened _ _ Hu2)|]. intros r w3 Hu3 Hr3.
    assert (opened w3 = opened w1) as Ho3 by (by rewrite (up_opened _ _ Hu3), (up_opened _ _ Hu2)).
    destruct r as [[]|ec]; [|by apply (fail_one fd _ _ w w1)].
    apply wp_ret. rewrite Ho3, Ho. split_and!; [cbn; set_solver|apply Hfr; set_solver|].
    split; [|by auto]. intros E. apply (up_status _ _ Hu3); [by rewrite (up_opened _ _ Hu2)|auto].
Qed.

(** C35: [ppoll] on top of [poll]: on every path the signal mask is the one it was and no
    descriptor is left open; the result is the number of the caller's descriptors with
    events, the kqueue that watches the signals not counted. *)
Theorem compat_ppoll_correct {W} `{!Platform, !Kernel W, !FdWorld W, !FdLaws W, !PpollLaws W}
    fds timeout sigmask (w : W) :
  wp (compat_ppoll fds timeout sigmask) (fun r w' =>
    opened w' = opened w /\ cur_mask w' = cur_mask w /\
    match r with
    | Ok (n, fds') => length fds' = length fds /\ n = count_ready fds'
    | Err _ => True
    end) w.
Proof.
  unfold compat_ppoll. destruct (ppoll_timeout_ms timeout) as [ms|ec]; [|by apply wp_ret].
  apply wp_bind_result. apply wp_mono with (Q := fun _ w' => intact w w').
  { destruct sigmask as [mask|]; [|by apply wp_ret]. case_goal; [|by apply wp_ret].
    apply wp_bind_result, wp_intact; [done|]. intros [m|ec] w1 H1; [|done].
    apply wp_bind_result, interrupting_signals_spec. intros [l|ec] w2 [] ; [apply wp_ret|];
      destruct H1; split; congruence. }
  intros [[held kevs]|ec] w1 [Ho1 Hm1]; [|done]. destruct kevs as [|k kevs].
  - apply wp_bind, masked_poll_spec. intros r w2 [Ho2 Hm2] Hr. unfold call_.
    apply wp_bind, wp_bind, wp_intact; [done|]. intros [] w3 [Ho3 Hm3]. apply wp_ret, wp_ret.
    split_and!; congruence || exact Hr.
  - apply wp_bind_result, wp_call. pose proof (law_mask_kept sys_kqueue w1 eq_refl) as Hmk.
    law (law_kqueue_fd w1) as [kq|ec] w2 Ha; [|destruct Ha; split_and!; [congruence..|done]].
    destruct Ha as [Ho2 Hfr]. apply wp_bind, poll_with_signals_spec. intros a r w3 [Ho3 Hm3] Hr.
    unfold call_ at 1. apply wp_bind, wp_bind, wp_intact; [done|]. intros [] w4 [Ho4 Hm4].
    apply wp_ret, wp_bind. unfold call_. apply wp_bind, wp_call.
    pose proof (law_mask_kept (sys_close kq) w4 eq_refl) as Hmc.
    law (law_close_fd w4 kq) as u w5 Ho5. apply wp_ret, wp_ret. split_and!; [|congruence|exact Hr].
    rewrite Ho5, Ho4, Ho3, Ho2, <- Ho1. apply closed_one, Hfr. by apply list_elem_of_singleton.
Qed.

(** C37: the timeout of [poll] is never shorter than the one asked for and longer by less than
    a millisecond; when the milliseconds do not fit into an [int] the call waits for ever.
    An invalid timeout is refused. *)
Theorem ppoll_timeout_correct t :
  match ppoll_timeout_ms (Some t) with
  | Ok ms =>
      0 <= tv_sec t /\ 0 <= tv_nsec t < 1000000000 /\
      let nanos := tv_sec t * 1000000000 + tv_nsec t in
      (0 <= ms <= INT_MAX /\ nanos <= ms * 1000000 < nanos + 1000000) \/
      (ms = -1 /\ INT_MAX * 1000000 < nanos)
  | Err ec => ec = EINVAL /\ ~ (0 <= tv_sec t /\ 0 <= tv_nsec t < 1000000000)
  end.
Proof.
  unfold ppoll_timeout_ms. destruct (_ || _) eqn:E.
  { split; [done|]. intros (Hs & Hn). apply orb_true_iff in E as [E|E]; [apply orb_true_iff in E as [E|E]|]; b2p; lia. }
  b2p. rewrite Z.quot_div_nonneg, Z.rem_mod_nonneg by lia.
  pose proof (Z.div_mod (tv_nsec t) 1000000). pose proof (Z.mod_pos_bound (tv_nsec t) 1000000).
  pose proof (Z.div_pos (tv_nsec t) 1000000).
  set (d := tv_nsec t / 1000000) in *. set (m := tv_nsec t mod 1000000) in *.
  unfold checked, fits_int. unfold INT_MAX.
  assert ((- 2 ^ 31 <=? tv_sec t * 1000) = true) as -> by (apply Z.leb_le; lia).
  destruct (Z.eqb_spec m 0) as [->|Hm]; cbn [negb andb];
    (destruct (Z.leb_spec (tv_sec t * 1000) (2 ^ 31 - 1)); [|split_and!; try lia; right; lia]).
  - assert ((- 2 ^ 31 <=? tv_sec t * 1000 + d) = true) as -> by (apply Z.leb_le; lia). cbn [andb].
    destruct (Z.leb_spec (tv_sec t * 1000 + d) (2 ^ 31 - 1)); cbn; split_and!; lia.
  - assert ((- 2 ^ 31 <=? tv_sec t * 1000 + (d + 1)) = true) as -> by (apply Z.leb_le; lia). cbn [andb].
    destruct (Z.leb_spec (tv_sec t * 1000 + (d + 1)) (2 ^ 31 - 1)); cbn; split_and!; lia.
Qed.
