(* ===== verification/CompatSim.v ===== *)
(** * The concrete system of [Sim] meets the laws of [Descriptors] and [Compat]; witnesses *)

From S2P Require Import Prelude Kernel Sim Descriptors Compat.

#[local] Existing Instance macos.

#[export] Instance sim_fd_world : FdWorld sim := {|
  opened := sim_opened;
  status s fd := default 0 (sim_flags s !! fd);
  fdflags s fd := default 0 (sim_fdflags s !! fd)
|}.

Lemma sim_same s s' : sim_next s' = sim_next s -> sim_open s' = sim_open s ->
  sim_flags s' = sim_flags s -> sim_fdflags s' = sim_fdflags s -> same_fds s s'.
Proof.
  intros Hn Ho Hf Hd. split; cbn; [unfold sim_opened, sim_new; by rewrite Hn, Ho|intros ? _..];
    by rewrite ?Hf, ?Hd.
Qed.

Lemma use_opened fds s : Forall (fun fd => fd < sim_new s + 2) fds ->
  sim_opened (sim_use fds s) = sim_opened s ∪ list_to_set fds.
Proof.
  intros Hf. unfold sim_opened at 1. apply leibniz_equiv. intros fd.
  assert (sim_new (sim_use fds s) = sim_new s + 2) as -> by (unfold sim_use, sim_new; fields; unfold sim_new; lia).
  unfold sim_use. fields. rewrite elem_of_filter, elem_of_union, elem_of_list_to_set.
  split; [tauto|]. intros Hfd. split; [|done]. destruct Hfd as [Hfd|Hfd].
  - apply elem_of_filter in Hfd. lia.
  - by apply (proj1 (Forall_forall _ _) Hf).
Qed.

Lemma use_added fds s s0 : Forall (fun fd => sim_new s <= fd < sim_new s + 2) fds ->
  sim_opened s = sim_opened s0 -> added fds s0 (sim_use fds s).
Proof.
  intros Hf Hs. split; cbn.
  - rewrite use_opened, Hs; [done|]. eapply Forall_impl; [exact Hf|]. cbn. lia.
  - intros fd Hfd. pose proof (proj1 (Forall_forall _ _) Hf fd Hfd) as Hb. cbn in Hb.
    rewrite <- Hs. split; [|unfold sim_new in *; lia]. intros Hin. apply elem_of_filter in Hin. lia.
Qed.

Lemma use_one s s0 : sim_opened s = sim_opened s0 -> added [sim_new s] s0 (sim_use [sim_new s] s).
Proof. apply use_added, Forall_singleton. lia. Qed.

Lemma use_two s s0 : sim_opened s = sim_opened s0 ->
  added [sim_new s; sim_new s + 1] s0 (sim_use [sim_new s; sim_new s + 1] s).
Proof. apply use_added, Forall_cons. split; [lia|]. apply Forall_singleton. lia. Qed.

Lemma use_same s : same_fds s (sim_use [] s).
Proof.
  split; [|done..]. cbn. rewrite use_opened by done. cbn. by rewrite union_empty_r_L.
Qed.

Lemma sim_keeps_kevent kq l n s : same_fds s (sim_kevent kq l n s).2.
Proof.
  unfold sim_kevent. destruct (sim_kqs s !! kq) as [m|]; [|done].
  destruct l as [|c l]; [destruct (0 <? n); by apply sim_same|].
  destruct (sim_failure s (c :: l)); [by apply sim_same|].
  destruct (sim_changes s m (c :: l)) as [m' r]. destruct (0 <? n); [by apply sim_same|].
  destruct (List.filter _ r); by apply sim_same.
Qed.

#[export] Instance sim_fd_laws : FdLaws sim.
Proof.
  split.
  - intros A c w Hc. unfold kernel_step, sim_kernel.
    destruct c; try done; try by apply sim_same.
    + pose proof (sim_keeps_kevent kq changes nevents w) as Hk. by destruct (sim_kevent kq changes nevents w).
    + unfold sim_poll. destruct (_ =? 0); by apply sim_same.
    + unfold sim_poll. destruct (_ =? 0); by apply sim_same.
    + unfold sim_read. destruct (sim_pipes w !! fd) as [z|]; [|done]. destruct (0 <? z); by apply sim_same.
    + unfold sim_write. destruct (sim_pipes w !! (fd - 1)); by apply sim_same.
    + destruct cmd; done.
    + by destruct (sim_kqs w !! fd).
    + destruct (negb _); [done|]. destruct (sim_modes w !! fd); [done|]. by destruct (sim_kqs w !! fd).
    + by destruct clockid.
    + unfold sim_alloc. destruct (sim_malloc_error w); [done|apply use_same].
    + unfold sim_alloc. destruct (sim_malloc_error w); [done|apply use_same].
    + unfold sim_sigtimedwait. destruct (List.find _ _); by apply sim_same.
  - intros w. unfold kernel_step, sim_kernel, sim_new_kq.
    destruct (_ <? _); [by apply sim_same|]. set (s1 := w <| sim_kqs := _ |>). exact (use_one s1 w eq_refl).
  - intros w f. unfold kernel_step, sim_kernel, sim_new_kq.
    destruct (_ <? _); [by apply sim_same|]. set (s1 := w <| sim_kqs := _ |>). exact (use_one s1 w eq_refl).
  - intros w d t p. unfold kernel_step, sim_kernel.
    by apply use_one.
  - intros w. unfold kernel_step, sim_kernel, sim_new_pipe. split; [|lia].
    set (s1 := w <| sim_pipes := _ |>). exact (use_two s1 w eq_refl).
  - intros w d t p. unfold kernel_step, sim_kernel. split; [|lia].
    by apply use_two.
  - intros w fd. unfold kernel_step, sim_kernel. cbn. unfold sim_opened, sim_new. fields.
    apply leibniz_equiv. intros x. rewrite elem_of_difference, !elem_of_filter, elem_of_difference. tauto.
  - done.
  - done.
  - intros w fd v. unfold kernel_step, sim_kernel. cbn. fields. split_and!; try done.
    + intros fd' Hne. by rewrite lookup_insert_ne.
    + by rewrite lookup_insert_eq.
  - intros w fd v. unfold kernel_step, sim_kernel. cbn. fields. split_and!; try done.
    + intros fd' Hne. by rewrite lookup_insert_ne.
    + by rewrite lookup_insert_eq.
Qed.

#[export] Instance sim_ppoll_laws : PpollLaws sim.
Proof.
  refine {| cur_mask := sim_mask |}.
  - intros A c w Hc. unfold kernel_step, sim_kernel.
    destruct c; try done.
    + unfold sim_new_kq. by destruct (_ <? _).
    + unfold sim_new_kq. by destruct (_ <? _).
    + unfold sim_kevent. destruct (sim_kqs w !! kq) as [m|]; [|done].
      destruct changes as [|c l]; [by destruct (0 <? nevents)|].
      destruct (sim_failure w (c :: l)); [done|].
      destruct (sim_changes w m (c :: l)) as [m' r]. destruct (0 <? nevents); [done|].
      by destruct (List.filter _ r).
    + unfold sim_poll. by destruct (_ =? 0).
    + unfold sim_poll. by destruct (_ =? 0).
    + unfold sim_read. destruct (sim_pipes w !! fd) as [z|]; [|done]. by destruct (0 <? z).
    + unfold sim_write. by destruct (sim_pipes w !! (fd - 1)).
    + by destruct cmd.
    + by destruct (sim_kqs w !! fd).
    + destruct (negb _); [done|]. destruct (sim_modes w !! fd); [done|]. by destruct (sim_kqs w !! fd).
    + by destruct clockid.
    + unfold sim_alloc. by destruct (sim_malloc_error w).
    + unfold sim_alloc. by destruct (sim_malloc_error w).
    + unfold sim_sigtimedwait. by destruct (List.find _ _).
  - done.
  - intros w fds ms. unfold kernel_step, sim_kernel, sim_poll. split; [apply length_map|done].
Qed.

(** ** Witnesses *)

Module Witness.
(** One descriptor is open; signal 30 is blocked. *)
Definition world : sim :=
  sim_init <| sim_open := {[0]} |> <| sim_mask := 2 ^ 29 |>.
Definition both : Z := Z.lor O_CLOEXEC O_NONBLOCK.
Definition watched : list pollfd := [{| pfd_fd := 0; pfd_events := POLLIN; pfd_revents := 0 |}].
End Witness.

Lemma compat_pairs_correct_witness :
  wp (compat_pipe2 Witness.both) (made_pair Witness.both Witness.world) Witness.world /\
  (exists w', compat_pipe2 Witness.both Witness.world = Done (Ok (3, 4)) w' /\
     has (status w' 4) O_NONBLOCK = true /\ has (fdflags w' 3) FD_CLOEXEC = true).
Proof.
  split; [apply (compat_pairs_correct Witness.both 0 0 Witness.world)|].
  eexists. vm_compute. auto.
Defined.

Lemma compat_singles_correct_witness :
  wp (compat_socket 1 Witness.both 0) (fun r w' =>
    match r with
    | Ok fd => opened w' = opened Witness.world ∪ {[fd]} /\ (fd ∉ opened Witness.world) /\
        configured Witness.both fd w'
    | Err _ => opened w' = opened Witness.world
    end) Witness.world.
Proof. apply (compat_singles_correct Witness.both 1 0 Witness.world). Defined.

Lemma compat_ppoll_correct_witness :
  wp (compat_ppoll Witness.watched None (Some 0)) (fun r w' =>
    opened w' = opened Witness.world /\ cur_mask w' = cur_mask Witness.world /\
    match r with
    | Ok (n, fds') => length fds' = length Witness.watched /\ n = count_ready fds'
    | Err _ => True
    end) Witness.world.
Proof. apply compat_ppoll_correct. Defined.

(** A timeout of 25 days becomes one without end. *)
Example ppoll_overflow_waits_for_ever :
  ppoll_timeout_ms (Some {| tv_sec := 2147484; tv_nsec := 0 |}) = Ok (-1).
Proof. reflexivity. Qed.
