(* ===== verification/EventfdCtx.v ===== *)
(** * The event counter (src/eventfd_ctx.c)

    The counter of an eventfd, kept next to a self-triggered kqueue whose
    readiness has to follow it.  [EventfdSpec] is the abstract counter of
    eventfd(2); the operations of the file refine it through the interface
    [SelfEvent]. *)

From S2P Require Import Prelude Kernel Timespec KqueueEvent Sim SimLaws.

Definition EVENTFD_CTX_FLAG_SEMAPHORE : Z := Z.shiftl 1 0.

Record EventFDCtx := { flags_ : Z; kqueue_event_ : KQueueEvent; counter_ : Z }.
#[export] Instance eta_EventFDCtx : Eta EventFDCtx := fun r =>
  {| flags_ := flags_ r; kqueue_event_ := kqueue_event_ r; counter_ := counter_ r |}.

Section Ops.
Context {W : Type} `{!Platform, !Kernel W, !Fuel}.

Definition eventfd_ctx_init (kq counter flags : Z) : M (EventFDCtx * W) (result unit) :=
  c_assert (Z.land flags (Z.lnot EVENTFD_CTX_FLAG_SEMAPHORE) =? 0) ;;
  put {| flags_ := flags;
         kqueue_event_ := {| is_triggered_ := false; self_pipe_ := (0, 0) |};
         counter_ := counter |} ;;
  try* kevs := zoom kqueue_event_ (kqueue_event_init [] (0 <? counter)) in
  let* r := call (sys_kevent kq kevs 0 None) in
  match r with
  | Err ec => zoom kqueue_event_ kqueue_event_terminate ;; ret (Err ec)
  | Ok _ => ret (Ok tt)
  end.

Definition eventfd_ctx_terminate : M (EventFDCtx * W) (result unit) :=
  let* ec_local := zoom kqueue_event_ kqueue_event_terminate in
  ret (first_error (Ok tt) ec_local).

Definition eventfd_ctx_write (kq value : Z) : M (EventFDCtx * W) (result unit) :=
  if value =? UINT64_MAX then ret (Err EINVAL)
  else
    let* current_value := getf counter_ in
    match checked fits_u64 (current_value + value) with
    | None => ret (Err EAGAIN)
    | Some new_value =>
        if UINT64_MAX - 1 <? new_value then ret (Err EAGAIN)
        else
          self counter_ := new_value ;;
          try* _ := zoom kqueue_event_ (kqueue_event_trigger kq) in
          ret (Ok tt)
    end.

Definition eventfd_ctx_read (kq : Z) : M (EventFDCtx * W) (result Z) :=
  let* current_value := getf counter_ in
  if current_value =? 0 then ret (Err EAGAIN)
  else
    let* flags := getf flags_ in
    let new_value := if has flags EVENTFD_CTX_FLAG_SEMAPHORE then current_value - 1 else 0 in
    let* triggered := zoom kqueue_event_ kqueue_event_is_triggered in
    when ((new_value =? 0) && triggered) (zoom kqueue_event_ (kqueue_event_clear kq)) ;;
    self counter_ := new_value ;;
    ret (Ok (if has flags EVENTFD_CTX_FLAG_SEMAPHORE then 1 else current_value)).
End Ops.

(** ** The abstract counter *)

Module EventfdSpec.
Definition max_count : Z := 2 ^ 64 - 2.

Definition write (c v : Z) : result Z :=
  if v =? 2 ^ 64 - 1 then Err EINVAL
  else if max_count <? c + v then Err EAGAIN
  else Ok (c + v).

(** The value returned and the new counter. *)
Definition read (semaphore : bool) (c : Z) : result (Z * Z) :=
  if c =? 0 then Err EAGAIN
  else if semaphore then Ok (1, c - 1)
  else Ok (c, 0).

Inductive op : Type := Write (v : Z) | Read.

(** One operation: the value read, 0 for a write, and the new counter. *)
Definition step (semaphore : bool) (c : Z) (o : op) : result Z * Z :=
  match o with
  | Write v => match write c v with Ok c' => (Ok 0, c') | Err ec => (Err ec, c) end
  | Read => match read semaphore c with Ok (v, c') => (Ok v, c') | Err ec => (Err ec, c) end
  end.

Fixpoint run (semaphore : bool) (c : Z) (l : list op) : list (result Z) * Z :=
  match l with
  | [] => ([], c)
  | o :: l' =>
      let (r, c') := step semaphore c o in
      let (rs, c'') := run semaphore c' l' in (r :: rs, c'')
  end.

(** Values a caller can pass. *)
Definition valid (o : op) : Prop :=
  match o with Write v => 0 <= v < 2 ^ 64 | Read => True end.
End EventfdSpec.

(** The same on the implementation. *)
Definition eventfd_step `{!Platform, !Kernel W, !Fuel} (kq : Z) (o : EventfdSpec.op) :
    M (EventFDCtx * W) (result Z) :=
  match o with
  | EventfdSpec.Write v => try* _ := eventfd_ctx_write kq v in ret (Ok 0)
  | EventfdSpec.Read => eventfd_ctx_read kq
  end.

Fixpoint eventfd_run `{!Platform, !Kernel W, !Fuel} (kq : Z) (l : list EventfdSpec.op) :
    M (EventFDCtx * W) (list (result Z)) :=
  match l with
  | [] => ret []
  | o :: l' =>
      let* r := eventfd_step kq o in
      let* rs := eventfd_run kq l' in
      ret (r :: rs)
  end.

(** ** Refinement *)

Section Refinement.
Context {W : Type} `{!Platform, !Kernel W, !Fuel, !SelfEvent W}.

Definition is_semaphore (ctx : EventFDCtx) : bool := has (flags_ ctx) EVENTFD_CTX_FLAG_SEMAPHORE.

(** [ctx] on the kqueue [kq] represents the counter [c]: a positive counter
    has made the kqueue readable. *)
Definition represents (c : Z) (kq : Z) (ctx : EventFDCtx) (w : W) : Prop :=
  counter_ ctx = c /\ 0 <= c <= EventfdSpec.max_count /\
  sound (kqueue_event_ ctx) kq w /\
  (0 < c -> is_triggered_ (kqueue_event_ ctx) = true).

(** Readiness is exact: the kqueue is readable if and only if the counter is positive. *)
Definition ready_exact (ctx : EventFDCtx) : Prop :=
  is_triggered_ (kqueue_event_ ctx) = (0 <? counter_ ctx).

Lemma represents_ready c kq ctx w : represents c kq ctx w -> ready_exact ctx ->
  kq_readable w kq = (0 <? c).
Proof. intros (<- & _ & Hs & _) Hr. by rewrite (sound_readable _ _ _ Hs). Qed.

(** Every branch of the write. *)
Lemma write_cases c kq ctx w v : represents c kq ctx w -> 0 <= v < 2 ^ 64 ->
  wp (eventfd_ctx_write kq v) (fun r s =>
    match EventfdSpec.write c v with
    | Err ec => r = Err ec /\ s = (ctx, w)
    | Ok c' =>
        flags_ s.1 = flags_ ctx /\ counter_ s.1 = c' /\ sound (kqueue_event_ s.1) kq s.2 /\
        match r with
        | Ok _ => is_triggered_ (kqueue_event_ s.1) = true
        | Err _ => c = 0 /\ is_triggered_ (kqueue_event_ s.1) = false
        end
    end) (ctx, w).
Proof.
  intros (Hc & Hb & Hs & Ht) Hv. unfold eventfd_ctx_write, EventfdSpec.write.
  change (2 ^ 64 - 1) with UINT64_MAX.
  destruct (Z.eqb_spec v UINT64_MAX) as [->|Hne]; wps; [done|]. rewrite Hc.
  unfold checked, fits_u64, EventfdSpec.max_count, UINT64_MAX in *.
  destruct (Z.leb_spec 0 (c + v)); [|lia]. cbn [andb].
  destruct (Z.leb_spec (c + v) (2 ^ 64 - 1)); cycle 1.
  { destruct (Z.ltb_spec (2 ^ 64 - 2) (c + v)); [|lia]. by wps. }
  destruct (Z.ltb_spec (2 ^ 64 - 1 - 1) (c + v)), (Z.ltb_spec (2 ^ 64 - 2) (c + v)); try lia; wps;
    [done|].
  eapply wp_mono; [by apply trigger_spec|].
  intros r [e' w'] (Hs' & Ht' & Hok); fields_all. destruct r as [[]|ec]; wps; [done|].
  destruct (is_triggered_ (kqueue_event_ ctx)); [by specialize (Hok eq_refl)|].
  split_and!; auto. destruct (Z.eq_dec c 0); [done|]. discriminate Ht; lia.
Qed.

(** Every branch of the read. *)
Lemma read_cases c kq ctx w : represents c kq ctx w ->
  wp (eventfd_ctx_read kq) (fun r s =>
    match EventfdSpec.read (is_semaphore ctx) c with
    | Err ec => r = Err ec /\ s = (ctx, w)
    | Ok (v, c') =>
        r = Ok v /\ flags_ s.1 = flags_ ctx /\ represents c' kq s.1 s.2 /\ ready_exact s.1
    end) (ctx, w).
Proof.
  intros (Hc & Hb & Hs & Ht). unfold eventfd_ctx_read, EventfdSpec.read. wps. rewrite Hc.
  destruct (Z.eqb_spec c 0) as [->|Hne]; wps; [done|].
  unfold kqueue_event_is_triggered. wps. specialize (Ht ltac:(lia)). fold (is_semaphore ctx).
  unfold represents, ready_exact. rewrite Ht, andb_true_r.
  set (c' := if is_semaphore ctx then c - 1 else 0).
  destruct (Z.eqb_spec c' 0) as [E|E]; wps.
  - eapply wp_mono; [by apply clear_spec|]. intros _ [e' w'] [Hs' Ht']; cbn in *. wps.
    subst c'. destruct (is_semaphore ctx); fields; rewrite ?E; cbn; split_and!; auto; lia.
  - subst c'. destruct (is_semaphore ctx); fields; [|done].
    destruct (Z.ltb_spec 0 (c - 1)); split_and!; auto; lia.
Qed.

Lemma spec_write_bound c v c' : 0 <= c -> 0 <= v ->
  EventfdSpec.write c v = Ok c' -> c' = c + v /\ 0 <= c' <= EventfdSpec.max_count.
Proof.
  unfold EventfdSpec.write. intros. destruct (v =? _); [done|].
  destruct (Z.ltb_spec EventfdSpec.max_count (c + v)); [done|]. simplify_eq. lia.
Qed.

Lemma init_cases kq counter flags ctx w : fresh_kq w kq ->
  0 <= counter <= EventfdSpec.max_count ->
  Z.land flags (Z.lnot EVENTFD_CTX_FLAG_SEMAPHORE) = 0 ->
  wp (eventfd_ctx_init kq counter flags) (fun r s =>
    r = Ok tt -> represents counter kq s.1 s.2 /\ ready_exact s.1 /\ flags_ s.1 = flags) (ctx, w).
Proof.
  intros Hk Hc Hf. unfold eventfd_ctx_init. rewrite Hf. wps. fields.
  eapply wp_mono; [by apply init_spec|]. intros [kevs|ec] [e w1]; cbn; [|by intros _; wps].
  intros Hprep. wps. law (register_spec e kq w1 kevs _ Hprep) as [l|ec] w2 Hreg; wps.
  - intros _. destruct (Hreg eq_refl) as [Hs Ht]. unfold represents, ready_exact. fields.
    split_and!; auto; try lia. rewrite Ht. apply Z.ltb_lt.
  - fields. eapply wp_mono; [apply kqueue_event_terminate_total|]. intros ? [e' w']. by wps.
Qed.

Section Reliable.
(** Triggering the event of a registered kqueue succeeds. *)
Hypothesis trigger_succeeds : forall e kq w, sound e kq w ->
  wp (kqueue_event_trigger kq) (fun r _ => r = Ok tt) (e, w).

Lemma write_succeeds c kq ctx w v : represents c kq ctx w -> 0 <= v < 2 ^ 64 ->
  wp (eventfd_ctx_write kq v)
    (fun r _ => is_ok (EventfdSpec.write c v) = true -> r = Ok tt) (ctx, w).
Proof.
  intros (Hc & Hb & Hs & _) Hv. unfold eventfd_ctx_write, EventfdSpec.write.
  change (2 ^ 64 - 1) with UINT64_MAX. destruct (v =? UINT64_MAX); [done|]. wps. rewrite Hc.
  unfold checked. destruct (fits_u64 (c + v)) eqn:E; wps; cycle 1.
  { unfold fits_u64, UINT64_MAX, EventfdSpec.max_count in *.
    destruct (Z.ltb_spec (2 ^ 64 - 2) (c + v)); [done|]. b2p.
    destruct (Z.leb_spec 0 (c + v)), (Z.leb_spec (c + v) (2 ^ 64 - 1)); cbn in *; done || lia. }
  change (UINT64_MAX - 1) with EventfdSpec.max_count.
  destruct (EventfdSpec.max_count <? c + v); wps; [done|].
  eapply wp_mono; [by apply trigger_succeeds|]. intros r [e' w'] ->. by wps.
Qed.

Lemma step_refines kq o c ctx w : EventfdSpec.valid o -> represents c kq ctx w ->
  wp (eventfd_step kq o) (fun r s =>
    let (r', c') := EventfdSpec.step (is_semaphore ctx) c o in
    r = r' /\ flags_ s.1 = flags_ ctx /\ represents c' kq s.1 s.2 /\
    (o <> EventfdSpec.Write 0 -> ready_exact ctx -> ready_exact s.1)) (ctx, w).
Proof.
  intros Hv Hrep. destruct o as [v|]; cbn in *; wps.
  - eapply wp_mono; [apply wp_and; [by eapply write_cases|by eapply write_succeeds]|].
    intros r [ctx' w']. destruct (EventfdSpec.write c v) as [c'|ec] eqn:Ew; cbn.
    + intros [(Hf & Hc & Hs & Ht) Hr]. rewrite (Hr eq_refl) in *. wps.
      destruct Hrep as (_ & Hb & _). destruct (spec_write_bound c v c'); [lia..|done|].
      unfold represents, ready_exact. rewrite Ht, Hc. split_and!; auto; try lia.
      intros Hnz _. symmetry. apply Z.ltb_lt. enough (v <> 0) by lia. by intros ->.
    + intros [[-> [= -> ->]] _]. wps. auto.
  - eapply wp_mono; [by eapply read_cases|]. intros r [ctx' w'].
    destruct (EventfdSpec.read _ c) as [[v c']|ec]; cbn; [tauto|].
    intros [-> [= -> ->]]. auto.
Qed.

Lemma run_refines kq l c ctx w : Forall EventfdSpec.valid l -> represents c kq ctx w ->
  wp (eventfd_run kq l) (fun rs s =>
    let (rs', c') := EventfdSpec.run (is_semaphore ctx) c l in
    rs = rs' /\ represents c' kq s.1 s.2 /\
    (Forall (fun o => o <> EventfdSpec.Write 0) l -> ready_exact ctx -> ready_exact s.1)) (ctx, w).
Proof.
  revert c ctx w. induction l as [|o l IH]; intros c ctx w Hl Hrep; [by wps; auto|].
  inversion_clear Hl as [|? ? Ho Hl']. cbn [eventfd_run EventfdSpec.run]. wps.
  eapply wp_mono; [by apply (step_refines kq o c)|]. intros r [ctx' w'].
  destruct (EventfdSpec.step _ c o) as [r' c'] eqn:Es. cbn. intros (-> & Hf & Hrep' & Hex'). wps.
  eapply wp_mono; [by apply (IH c')|]. intros rs [ctx'' w''].
  unfold is_semaphore. rewrite Hf.
  destruct (EventfdSpec.run _ c' l) as [rs' c'']. cbn. intros (-> & Hrep'' & Hex''). wps.
  split_and!; [done|done|]. intros Hnz. inversion_clear Hnz. auto.
Qed.
End Reliable.
End Refinement.

(** ** Properties *)

Section Properties.
Context {W : Type} `{!Platform, !Kernel W, !Fuel, !SelfEvent W}.

(** The cases of a write against the abstract counter. *)
Lemma write_spec c kq ctx w v : represents c kq ctx w -> 0 <= v < 2 ^ 64 ->
  wp (eventfd_ctx_write kq v) (fun r s =>
    match EventfdSpec.write c v with
    | Err ec => r = Err ec /\ s = (ctx, w)
    | Ok c' =>
        flags_ s.1 = flags_ ctx /\ counter_ s.1 = c' /\ c' = c + v /\
        match r with
        | Ok _ => represents c' kq s.1 s.2 /\ kq_readable s.2 kq = true
        | Err _ => c = 0 /\ kq_readable s.2 kq = false
        end
    end) (ctx, w).
Proof.
  intros Hrep Hv. eapply wp_mono; [by eapply write_cases|]. intros r [ctx' w'].
  destruct (EventfdSpec.write c v) as [c'|ec] eqn:Ew; [|done]. cbn.
  pose proof Hrep as (_ & Hb & _). destruct (spec_write_bound c v c') as [-> Hb']; [lia..|done|].
  intros (Hf & Hc & Hs & H'). rewrite (sound_readable _ _ _ Hs).
  destruct r as [[]|]; unfold represents; intuition auto.
Qed.

(** C32: [eventfd_ctx_write] refines the abstract write on every branch: an
    invalid or overflowing value gives EINVAL or EAGAIN and changes nothing;
    otherwise the counter becomes the exact sum (at most 2^64 - 2) and, when 0
    is returned, the kqueue is readable.  Another error can only come from
    triggering the kqueue on a counter that was 0. *)
Theorem eventfd_write_refines c kq ctx w v : represents c kq ctx w -> 0 <= v < 2 ^ 64 ->
  wp (eventfd_ctx_write kq v) (fun r s =>
    match EventfdSpec.write c v with
    | Err ec => r = Err ec /\ s = (ctx, w)
    | Ok c' =>
        flags_ s.1 = flags_ ctx /\ counter_ s.1 = c' /\ c' = c + v /\
        match r with
        | Ok _ => represents c' kq s.1 s.2 /\ kq_readable s.2 kq = true
        | Err _ => c = 0 /\ kq_readable s.2 kq = false
        end
    end) (ctx, w).
Proof. exact (write_spec c kq ctx w v). Qed.

(** The cases of a read against the abstract counter. *)
Lemma read_spec c kq ctx w : represents c kq ctx w ->
  wp (eventfd_ctx_read kq) (fun r s =>
    match EventfdSpec.read (is_semaphore ctx) c with
    | Err ec => r = Err ec /\ s = (ctx, w)
    | Ok (v, c') =>
        r = Ok v /\ flags_ s.1 = flags_ ctx /\ represents c' kq s.1 s.2 /\
        kq_readable s.2 kq = (0 <? c')
    end) (ctx, w).
Proof.
  intros Hrep. eapply wp_mono; [by eapply read_cases|]. intros r [ctx' w'].
  destruct (EventfdSpec.read _ c) as [[v c']|]; [|done]. cbn.
  intros (-> & Hf & Hrep' & Hex). by rewrite (represents_ready c' kq ctx' w').
Qed.

(** [eventfd_ctx_read] refines the abstract read: EAGAIN and no change on
    0, else 1 (semaphore) or the whole counter is returned and taken off, and
    afterwards the kqueue is readable exactly when the counter is positive. *)
Theorem eventfd_read_refines c kq ctx w : represents c kq ctx w ->
  wp (eventfd_ctx_read kq) (fun r s =>
    match EventfdSpec.read (is_semaphore ctx) c with
    | Err ec => r = Err ec /\ s = (ctx, w)
    | Ok (v, c') =>
        r = Ok v /\ flags_ s.1 = flags_ ctx /\ represents c' kq s.1 s.2 /\
        kq_readable s.2 kq = (0 <? c')
    end) (ctx, w).
Proof. exact (read_spec c kq ctx w). Qed.

(** [eventfd_ctx_init] on a new kqueue: when it succeeds the descriptor
    represents the initial value and is readable exactly when that is positive. *)
Theorem eventfd_init_represents kq counter flags ctx w : fresh_kq w kq ->
  0 <= counter < 2 ^ 32 ->
  Z.land flags (Z.lnot EVENTFD_CTX_FLAG_SEMAPHORE) = 0 ->
  wp (eventfd_ctx_init kq counter flags) (fun r s => r = Ok tt ->
    represents counter kq s.1 s.2 /\ kq_readable s.2 kq = (0 <? counter) /\
    flags_ s.1 = flags) (ctx, w).
Proof.
  intros Hk Hc Hf. eapply wp_mono; [apply init_cases; auto|].
  { unfold EventfdSpec.max_count. lia. }
  intros r [ctx' w'] H'. cbn. intros Hr. destruct (H' Hr) as (Hrep & Hex & Hfl).
  by rewrite (represents_ready counter kq ctx' w').
Qed.


(** C38: Writing 0 to an eventfd whose counter is 0 makes its kqueue readable
    although the counter stays 0, and a read then returns EAGAIN and leaves it
    readable. *)
Theorem eventfd_write_zero_spurious kq ctx w : represents 0 kq ctx w ->
  wp (let* r := eventfd_ctx_write kq 0 in
      let* r' := eventfd_ctx_read kq in ret (r, r'))
    (fun rr s => rr.1 = Ok tt ->
       rr.2 = Err EAGAIN /\ counter_ s.1 = 0 /\ kq_readable s.2 kq = true) (ctx, w).
Proof.
  intros Hrep. wps. eapply wp_mono; [by apply (write_spec 0)|].
  intros r [ctx' w']. cbn. intros (Hf & Hc & _ & H'). wps.
  destruct r as [[]|ec]; cycle 1.
  { unfold eventfd_ctx_read. wps. rewrite Hc. by wps. }
  destruct H' as [Hrep' Hrd]. eapply wp_mono; [by apply (read_spec 0)|].
  cbn. intros r' s' [-> ->]. by wps.
Qed.
End Properties.


(** ** Witnesses: a FreeBSD eventfd on the kqueue 3 *)

Module Witness.
#[local] Existing Instance freebsd.
#[local] Instance fuel2 : Fuel := 2%nat.
#[local] Instance self2 : SelfEvent sim := self_event (le_n 2).

Definition world (active : bool) : sim :=
  sim_init <| sim_kqs :=
    {[ 3 := {[ (0, EVFILT_USER) := {| kn_udata := 0; kn_active := active |} ]} ]} |>.

Definition efd (flags counter : Z) (triggered : bool) : EventFDCtx :=
  {| flags_ := flags;
     kqueue_event_ := {| is_triggered_ := triggered; self_pipe_ := (-1, -1) |};
     counter_ := counter |}.

Lemma represents_efd flags c t : 0 <= c <= EventfdSpec.max_count -> (0 < c -> t = true) ->
  represents c 3 (efd flags c t) (world t).
Proof.
  intros Hc Ht. split; [done|]. split; [lia|]. split; [|done]. split; [split; [done|by exists t]|]. split; [|done].
  by apply (readable_singleton _ 3 (0, EVFILT_USER) t).
Qed.

Lemma trigger_ok (e : KQueueEvent) kq (w : sim) : sound e kq w ->
  wp (kqueue_event_trigger kq) (fun r _ => r = Ok tt) (e, w).
Proof.
  intros [[He [a Ha]] _]. unfold kqueue_event_trigger. wps.
  destruct (is_triggered_ e); wps; [done|].
  unfold kernel_step, sim_kernel, sim_kevent, sim_failure. cbn. cbn in Ha. rewrite Ha, He.
  unfold sim_change. cbn. rewrite lookup_insert_eq. eval_has. by wps.
Qed.
End Witness.
#[local] Existing Instances freebsd Witness.fuel2 Witness.self2.

Lemma eventfd_write_refines_witness :
  represents 5 3 (Witness.efd 0 5 true) (Witness.world true) /\
  wpg (fun _ => False) (eventfd_ctx_write 3 (2 ^ 64 - 8)) (fun r s =>
    match EventfdSpec.write 5 (2 ^ 64 - 8) with
    | Err ec => r = Err ec /\ s = (Witness.efd 0 5 true, Witness.world true)
    | Ok c' =>
        flags_ s.1 = flags_ (Witness.efd 0 5 true) /\ counter_ s.1 = c' /\ c' = 5 + (2 ^ 64 - 8) /\
        match r with
        | Ok _ => represents c' 3 s.1 s.2 /\ kq_readable s.2 3 = true
        | Err _ => 5 = 0 /\ kq_readable s.2 3 = false
        end
    end) (Witness.efd 0 5 true, Witness.world true).
Proof.
  assert (represents 5 3 (Witness.efd 0 5 true) (Witness.world true)) as H
    by (apply Witness.represents_efd; [unfold EventfdSpec.max_count; lia|done]).
  split; [exact H|]. apply (eventfd_write_refines 5 3 _ _ _ H). lia.
Defined.

Lemma eventfd_read_refines_witness :
  represents 2 3 (Witness.efd 1 2 true) (Witness.world true) /\
  wpg (fun _ => False) (eventfd_ctx_read 3) (fun r s =>
    match EventfdSpec.read (is_semaphore (Witness.efd 1 2 true)) 2 with
    | Err ec => r = Err ec /\ s = (Witness.efd 1 2 true, Witness.world true)
    | Ok (v, c') =>
        r = Ok v /\ flags_ s.1 = flags_ (Witness.efd 1 2 true) /\ represents c' 3 s.1 s.2 /\
        kq_readable s.2 3 = (0 <? c')
    end) (Witness.efd 1 2 true, Witness.world true).
Proof.
  assert (represents 2 3 (Witness.efd 1 2 true) (Witness.world true)) as H
    by (apply Witness.represents_efd; [unfold EventfdSpec.max_count; lia|done]).
  split; [exact H|]. apply (eventfd_read_refines 2 3 _ _ H).
Defined.

Lemma eventfd_init_represents_witness :
  wpg (fun _ => False) (eventfd_ctx_init 3 7 1) (fun r s => r = Ok tt ->
    represents 7 3 s.1 s.2 /\ kq_readable s.2 3 = (0 <? 7) /\ flags_ s.1 = 1)
    (Witness.efd 0 0 false, sim_init <| sim_kqs := {[ 3 := ∅ ]} |>).
Proof.
  apply (eventfd_init_represents 3 7 1); [reflexivity|lia|reflexivity].
Defined.


Lemma eventfd_write_zero_spurious_witness :
  wpg (fun _ => False)
    (let* r := eventfd_ctx_write 3 0 in let* r' := eventfd_ctx_read 3 in ret (r, r'))
    (fun rr s => rr.1 = Ok tt ->
       rr.2 = Err EAGAIN /\ counter_ s.1 = 0 /\ kq_readable s.2 3 = true)
    (Witness.efd 0 0 false, Witness.world false).
Proof.
  apply eventfd_write_zero_spurious.
  apply Witness.represents_efd; [unfold EventfdSpec.max_count; lia|done].
Defined.

(** A write whose trigger fails returns the error of kevent(2) although
    the value has been added: the next read returns it. *)
Example eventfd_write_error_not_atomic :
  wpg (fun _ => False)
    (let* r := eventfd_ctx_write 3 5 in let* r' := eventfd_ctx_read 3 in ret (r, r'))
    (fun rr _ => rr = (Err ENOMEM, Ok 5))
    (Witness.efd 0 0 false, (Witness.world false) <| sim_kevent_error := Some ENOMEM |>).
Proof. vm_compute. reflexivity. Qed.
