(* ===== verification/TimerfdCtx.v ===== *)
(** * timerfd (src/timerfd_ctx.c)

    A timer is the absolute time of its next expiration, its interval and the
    number of expirations that were not read yet.  A one-shot [EVFILT_TIMER]
    makes the kqueue readable at the next expiration; the count itself is
    always computed from the clock, by
    [timerfd_ctx_update_to_current_time]. *)

From S2P Require Import Prelude Kernel Sim Timespec.

Inductive TimerType : Type :=
  TIMER_TYPE_UNSPECIFIED | TIMER_TYPE_RELATIVE | TIMER_TYPE_ABSOLUTE.

#[export] Instance TimerType_eq_dec : EqDecision TimerType.
Proof. solve_decision. Defined.

Record TimerFDCtx := {
  is_abstime : bool;
  clockid : clockid_t;
  timer_type : TimerType;
  is_cancel_on_set : bool;
  force_cancel : bool;
  monotonic_offset : timespec;
  current_itimerspec : itimerspec;
  nr_expirations : Z
}.
#[export] Instance eta_TimerFDCtx : Eta TimerFDCtx := fun r =>
  {| is_abstime := is_abstime r; clockid := clockid r; timer_type := timer_type r;
     is_cancel_on_set := is_cancel_on_set r; force_cancel := force_cancel r;
     monotonic_offset := monotonic_offset r; current_itimerspec := current_itimerspec r;
     nr_expirations := nr_expirations r |}.
#[export] Instance eta_itimerspec : Eta itimerspec := fun r =>
  {| it_interval := it_interval r; it_value := it_value r |}.

Definition ts_zero : timespec := {| tv_sec := 0; tv_nsec := 0 |}.
Definition its_zero : itimerspec := {| it_interval := ts_zero; it_value := ts_zero |}.
Definition ts_is_zero (ts : timespec) : bool := (tv_sec ts =? 0) && (tv_nsec ts =? 0).
Definition ts_differ (a b : timespec) : bool :=
  negb (tv_sec a =? tv_sec b) || negb (tv_nsec a =? tv_nsec b).

(** ** Pure helpers *)

Definition timerfd_ctx_is_disarmed (t : TimerFDCtx) : bool :=
  (tv_sec (it_value (current_itimerspec t)) =? 0) &&
  (tv_nsec (it_value (current_itimerspec t)) =? 0).

Definition timerfd_ctx_is_interval_timer (t : TimerFDCtx) : bool :=
  negb (tv_sec (it_interval (current_itimerspec t)) =? 0) ||
  negb (tv_nsec (it_interval (current_itimerspec t)) =? 0).

Definition timerfd_ctx_disarm (t : TimerFDCtx) : TimerFDCtx :=
  t <| current_itimerspec := (current_itimerspec t) <| it_value := ts_zero |> |>
    <| timer_type := TIMER_TYPE_UNSPECIFIED |>.

(** [None]: EOVERFLOW *)
Definition ts_to_nanos (ts : timespec) : option Z :=
  ts_nanos ← checked fits_i64 (tv_sec ts * 1000000000);
  checked fits_i64 (ts_nanos + tv_nsec ts).

Definition nanos_to_ts (ts_nanos : Z) : timespec :=
  {| tv_sec := Z.quot ts_nanos 1000000000; tv_nsec := Z.rem ts_nanos 1000000000 |}.

Definition timerfd_ctx_can_jump (t : TimerFDCtx) : bool :=
  bool_decide (clockid t = CLOCK_REALTIME) && bool_decide (timer_type t = TIMER_TYPE_ABSOLUTE).

Section Timerfd.
Context {W : Type} `{!Platform, !Kernel W}.

Abbreviation T := (M (TimerFDCtx * W)).

Definition timerfd_ctx_get_clocktime (clockid : clockid_t) (timer_type : TimerType) :
    T (result timespec) :=
  c_assert (negb (bool_decide (timer_type = TIMER_TYPE_UNSPECIFIED))) ;;
  let clockid :=
    if bool_decide (clockid = CLOCK_REALTIME) && bool_decide (timer_type = TIMER_TYPE_RELATIVE)
    then CLOCK_MONOTONIC else clockid in
  call (sys_clock_gettime clockid).

(** [sysctl] of the boot time (of the base time on DragonFly). *)
Definition timerfd_ctx_get_monotonic_offset : M W (result timespec) := call sys_boottime.

(** *** The count of expirations

    The C code jumps to [disarm] from five places; [None] of the inner
    computation is that jump. *)
Definition timerfd_ctx_update_to_current_time (current_time : timespec) : T unit :=
  let disarm := mod_self timerfd_ctx_disarm in
  let* t := get in
  if timerfd_ctx_is_disarmed t then ret tt
  else
    let value := it_value (current_itimerspec t) in
    let not_yet :=
      let* t := get in
      c_assert (timespeccmp current_time (it_value (current_itimerspec t)) Z.ltb) in
    if timerfd_ctx_is_interval_timer t then
      let* d := timespecsub_safe current_time value in
      match d with
      | None => disarm
      | Some diff_time =>
          if 0 <=? tv_sec diff_time then
            match ts_to_nanos diff_time, ts_to_nanos (it_interval (current_itimerspec t)) with
            | Some diff_nanos, Some interval_nanos =>
                let expirations := Z.quot diff_nanos interval_nanos in
                if expirations =? INT64_MAX then disarm
                else
                  let expirations := expirations + 1 in
                  match checked fits_i64 (expirations * interval_nanos) with
                  | None => disarm
                  | Some nanos_to_add =>
                      let* n := timespecadd_safe (nanos_to_ts nanos_to_add) value in
                      match n with
                      | None => disarm
                      | Some next_ts =>
                          c_assert (0 <=? expirations) ;;
                          self nr_expirations := ((nr_expirations t + expirations) mod 2 ^ 64) ;;
                          mod_self (fun t => t <| current_itimerspec :=
                            (current_itimerspec t) <| it_value := next_ts |> |>) ;;
                          not_yet
                      end
                  end
            | _, _ => disarm
            end
          else not_yet
      end
    else if timespeccmp current_time value Z.geb then
      self nr_expirations := ((nr_expirations t + 1) mod 2 ^ 64) ;;
      disarm
    else not_yet.

(** *** The kernel timer *)

(** Only on NetBSD before 9.99.91; [None]: return value [false]. *)
Definition round_up_millis (millis : Z) : M W (option Z) :=
  let* ticks := call sys_clk_tck in
  if ticks <=? 0 then ret None
  else
    let ms_per_tick :=
      u32 (Z.quot 1000 ticks + if negb (Z.rem 1000 ticks =? 0) then 1 else 0) in
    let ms := u32 millis in
    let fixed_ms := u32 (ms / ms_per_tick * ms_per_tick) in
    let fixed_ms := if fixed_ms <? ms then u32 (fixed_ms + ms_per_tick) else fixed_ms in
    let fixed_ms := u32 (fixed_ms + ms_per_tick) in
    let fixed_ms :=
      if (0x20000 <=? fixed_ms) && negb (fixed_ms mod 1000 =? 0)
      then u32 (fixed_ms + 1000) else fixed_ms in
    ret (Some fixed_ms).

(** The timer change [kev[1]] for a distance in time; [None]: [kev_is_set] stays
    [false]. *)
Definition timer_change (diff_time : timespec) : M W (option kevent) :=
  let add fflags data :=
    EV_SET 0 EVFILT_TIMER (Z.lor (Z.lor EV_ADD EV_ONESHOT) EV_RECEIPT) fflags data 0 in
  let never_zero data := if quirk_oneshot_timeout_zero && (data =? 0) then 1 else data in
  if 315360000 <=? tv_sec diff_time then ret None
  else
    let micros := tv_sec diff_time * 1000000 + Z.quot (tv_nsec diff_time) 1000 in
    let micros := if negb (Z.rem (tv_nsec diff_time) 1000 =? 0) then micros + 1 else micros in
    if has_note_useconds && fits_i64 micros then
      ret (Some (add NOTE_USECONDS (never_zero micros)))
    else if quirky_evfilt_timer && (4233600 <=? tv_sec diff_time) then ret None
    else
      let millis := tv_sec diff_time * 1000 + Z.quot (tv_nsec diff_time) 1000000 in
      let millis := if negb (Z.rem (tv_nsec diff_time) 1000000 =? 0) then millis + 1 else millis in
      let* r :=
        if quirky_evfilt_timer && negb (millis =? 0) then round_up_millis millis
        else ret (Some millis) in
      match r with
      | None => ret None
      | Some millis =>
          if fits_i64 millis then ret (Some (add 0 (never_zero millis))) else ret None
      end.

Definition timerfd_ctx_register_event (kq : Z) (new current_time : timespec) : T (result unit) :=
  c_assert (negb (tv_sec new =? 0) || negb (tv_nsec new =? 0)) ;;
  let* d := timespecsub_safe new current_time in
  let diff_time :=
    match d with
    | Some d => if tv_sec d <? 0 then ts_zero else d
    | None => ts_zero
    end in
  let* kev1 := lift (timer_change diff_time) in
  let kev0 := EV_SET 0 EVFILT_TIMER (Z.lor EV_DELETE EV_RECEIPT) 0 0 0 in
  let kev := match kev1 with Some k => [kev0; k] | None => [kev0] end in
  let kev_size := Z.of_nat (length kev) in
  try* r := call (sys_kevent kq kev kev_size None) in
  c_assert (Z.of_nat (length r) =? kev_size) ;;
  match r with
  | k0 :: k1 :: _ =>
      c_assert (has (kev_flags k0) EV_ERROR) ;;
      c_assert (has (kev_flags k1) EV_ERROR) ;;
      ret (of_errno (kev_data k1))
  | [k0] =>
      c_assert (has (kev_flags k0) EV_ERROR) ;;
      ret (Ok tt)
  | [] => stop_with Unreachable
  end.

(** [EV_SET(&kev, ident, EVFILT_TIMER, EV_DELETE, ...); (void)kevent(kq, &kev, 1, NULL, 0, NULL)] *)
Definition delete_timer (kq ident : Z) : T unit :=
  call_ (sys_kevent kq [EV_SET ident EVFILT_TIMER EV_DELETE 0 0 0] 0 None).

Definition timerfd_ctx_rearm_kevent (kq : Z) (current_time : timespec)
    (need_kevent_delete_on_disarmed_timer : bool) : T unit :=
  let* t := get in
  if negb (timerfd_ctx_is_disarmed t) then
    let* r := timerfd_ctx_register_event kq (it_value (current_itimerspec t)) current_time in
    when (negb (is_ok r)) (mod_self timerfd_ctx_disarm)
  else when need_kevent_delete_on_disarmed_timer (delete_timer kq 0).

(** *** Steps of the real-time clock *)

Definition timerfd_ctx_realtime_change (kq : Z) : T unit :=
  let* t := get in
  if negb (timerfd_ctx_can_jump t) then ret tt
  else
    let* r := lift timerfd_ctx_get_monotonic_offset in
    match r with
    | Err _ => ret tt
    | Ok offset =>
        if negb (ts_differ (monotonic_offset t) offset) then ret tt
        else
          self monotonic_offset := offset ;;
          if negb (is_cancel_on_set t) then
            let* n := call (sys_poll [{| pfd_fd := kq; pfd_events := POLLIN; pfd_revents := 0 |}] 0) in
            match n with
            | Ok (0, _) =>
                let* c := timerfd_ctx_get_clocktime (clockid t) (timer_type t) in
                match c with
                | Err _ => ret tt
                | Ok current_time => timerfd_ctx_rearm_kevent kq current_time true
                end
            | _ => ret tt
            end
          else
            self force_cancel := true ;;
            let kev0 := EV_SET 1 EVFILT_TIMER (Z.lor EV_DELETE EV_RECEIPT) 0 0 0 in
            let flags := Z.lor (Z.lor EV_ADD EV_ONESHOT) EV_RECEIPT in
            let kev1 :=
              if has_note_useconds then EV_SET 1 EVFILT_TIMER flags NOTE_USECONDS 0 0
              else EV_SET 1 EVFILT_TIMER flags 0 (if quirk_oneshot_timeout_zero then 1 else 0) 0 in
            call_ (sys_kevent kq [kev0; kev1] 2 None)
    end.

Definition timerfd_ctx_clear_force_cancel (kq : Z) : T unit :=
  let* f := getf force_cancel in
  when f (delete_timer kq 1) ;;
  self force_cancel := false.

Definition timerfd_ctx_check_for_cancel (kq : Z) : T bool :=
  let* t := get in
  if negb (bool_decide (clockid t = CLOCK_REALTIME)) then ret false
  else
    let* is_stepped :=
      if timerfd_ctx_can_jump t then
        let* r := lift timerfd_ctx_get_monotonic_offset in
        let offset := match r with Ok o => o | Err _ => monotonic_offset t end in
        self monotonic_offset := offset ;;
        ret (force_cancel t || ts_differ (monotonic_offset t) offset)
      else ret false in
    timerfd_ctx_clear_force_cancel kq ;;
    ret (is_stepped && is_cancel_on_set t).

(** *** Operations *)

(** The C function asserts that [clockid] is one of the two clocks. *)
Definition timerfd_ctx_init (clockid : Z) : T (result unit) :=
  match clockid_of_int clockid with
  | None => stop_with AssertFailed
  | Some c =>
      put {| is_abstime := false; clockid := c; timer_type := TIMER_TYPE_UNSPECIFIED;
             is_cancel_on_set := false; force_cancel := false; monotonic_offset := ts_zero;
             current_itimerspec := its_zero; nr_expirations := 0 |} ;;
      ret (Ok tt)
  end.

Definition timerfd_ctx_terminate : T (result unit) := ret (Ok tt).

Definition timerfd_ctx_gettime_impl (current_time : option timespec) : T itimerspec :=
  match current_time with
  | None => getf current_itimerspec
  | Some now =>
      timerfd_ctx_update_to_current_time now ;;
      let* t := get in
      let cur := current_itimerspec t in
      if negb (timerfd_ctx_is_disarmed t) then
        c_assert (timespeccmp now (it_value cur) Z.ltb) ;;
        ret (cur <| it_value := timespecsub (it_value cur) now |>)
      else ret cur
  end.

(** [want_old] is [old != NULL]; the second component of the result is what was
    stored through [old], if anything. *)
Definition timerfd_ctx_settime (kq : Z) (is_abstime' is_cancel_on_set' : bool)
    (new : itimerspec) (want_old : bool) : T (result unit * option itimerspec) :=
  if negb (itimerspec_is_valid new) then ret (Err EINVAL, None)
  else
    let* old_is_cancel_on_set := getf is_cancel_on_set in
    let* r :=
      if want_old then
        let* ty := getf timer_type in
        if bool_decide (ty = TIMER_TYPE_UNSPECIFIED) then
          let* old := timerfd_ctx_gettime_impl None in
          ret (Ok (None, Some old))
        else
          let* t := get in
          try* current_time := timerfd_ctx_get_clocktime (clockid t) (timer_type t) in
          let* old := timerfd_ctx_gettime_impl (Some current_time) in
          ret (Ok (Some current_time, Some old))
      else ret (Ok (None, None)) in
    match r with
    | Err ec => ret (Err ec, None)
    | Ok (current_time, old) =>
        let* ec :=
          if ts_is_zero (it_value new) then
            delete_timer kq 0 ;;
            mod_self timerfd_ctx_disarm ;;
            self is_cancel_on_set := false ;;
            self is_abstime := false ;;
            ret (Ok tt)
          else
            let new_timer_type :=
              if is_abstime' then TIMER_TYPE_ABSOLUTE else TIMER_TYPE_RELATIVE in
            let* t := get in
            try* current_time :=
              match current_time with
              | Some now =>
                  if bool_decide (timer_type t = new_timer_type) then ret (Ok now)
                  else timerfd_ctx_get_clocktime (clockid t) new_timer_type
              | None => timerfd_ctx_get_clocktime (clockid t) new_timer_type
              end in
            try* new_absolute :=
              if is_abstime' then ret (Ok new)
              else
                let* v := timespecadd_safe current_time (it_value new) in
                match v with
                | None => ret (Err EINVAL)
                | Some v => ret (Ok {| it_interval := it_interval new; it_value := v |})
                end in
            try* _ := timerfd_ctx_register_event kq (it_value new_absolute) current_time in
            self current_itimerspec := new_absolute ;;
            self timer_type := new_timer_type ;;
            mod_self (fun t => t <| is_cancel_on_set :=
              is_cancel_on_set' && bool_decide (clockid t = CLOCK_REALTIME) &&
              bool_decide (timer_type t = TIMER_TYPE_ABSOLUTE) |>) ;;
            mod_self (fun t => t <| is_abstime := bool_decide (timer_type t = TIMER_TYPE_ABSOLUTE) |>) ;;
            ret (Ok tt) in
        match ec with
        | Err ec => ret (Err ec, old)
        | Ok _ =>
            self nr_expirations := 0 ;;
            let* cancelled := timerfd_ctx_check_for_cancel kq in
            ret (if cancelled && old_is_cancel_on_set then Err ECANCELED else Ok tt, old)
        end
    end.

Definition timerfd_ctx_gettime : T (result itimerspec) :=
  let* t := get in
  if bool_decide (timer_type t = TIMER_TYPE_UNSPECIFIED) then
    let* cur := timerfd_ctx_gettime_impl None in ret (Ok cur)
  else
    try* current_time := timerfd_ctx_get_clocktime (clockid t) (timer_type t) in
    let* cur := timerfd_ctx_gettime_impl (Some current_time) in
    ret (Ok cur).

(** The loop over the events: [None] is [!got_kevent], else [event_ident]. *)
Fixpoint read_events (kevs : list kevent) (event_ident : option Z) : T (option Z) :=
  match kevs with
  | [] => ret event_ident
  | k :: kevs' =>
      c_assert (kev_filter k =? EVFILT_TIMER) ;;
      read_events kevs'
        (match event_ident with
         | None => Some (kev_ident k)
         | Some i => Some (if kev_ident k =? 0 then 0 else i)
         end)
  end.

Definition timerfd_ctx_read (kq : Z) : T (result Z) :=
  let* ty := getf timer_type in
  if bool_decide (ty = TIMER_TYPE_UNSPECIFIED) then ret (Err EAGAIN)
  else
    try* kevs := call (sys_kevent kq [] 3 (Some ts_zero)) in
    let* event_ident := read_events kevs None in
    let got_kevent := bool_decide (is_Some event_ident) in
    let ident_is_0 := bool_decide (event_ident = Some 0) in
    let* is_cancelled := timerfd_ctx_check_for_cancel kq in
    if is_cancelled && got_kevent && ident_is_0 then ret (Err ECANCELED)
    else
      c_assert (negb is_cancelled || negb got_kevent || (got_kevent && negb ident_is_0)) ;;
      let* t := get in
      let* c := timerfd_ctx_get_clocktime (clockid t) (timer_type t) in
      match c with
      | Err ec => ret (Err (if is_cancelled then ECANCELED else ec))
      | Ok current_time =>
          try* (is_cancelled, nr) :=
            if is_cancelled then ret (Ok (true, 0))
            else
              timerfd_ctx_update_to_current_time current_time ;;
              let* nr := getf nr_expirations in
              self nr_expirations := 0 ;;
              if nr =? 0 then
                if negb got_kevent then ret (Err EAGAIN)
                else
                  c_assert ident_is_0 ;;
                  let* t := get in
                  c_assert (timerfd_ctx_can_jump t) ;;
                  if is_cancel_on_set t then ret (Ok (true, nr))
                  else if negb (timerfd_ctx_is_interval_timer t) then
                    mod_self timerfd_ctx_disarm ;; ret (Ok (false, 1))
                  else ret (Ok (false, nr))
              else ret (Ok (false, nr)) in
          let* t := get in
          c_assert (is_cancelled || (0 <? nr) ||
            (timerfd_ctx_can_jump t && timerfd_ctx_is_interval_timer t &&
             negb (is_cancel_on_set t))) ;;
          timerfd_ctx_rearm_kevent kq current_time (negb got_kevent || negb ident_is_0) ;;
          if is_cancelled then ret (Err ECANCELED) else ret (Ok nr)
      end.

(** [want_revents] is [revents != NULL]; the result is what is stored there. *)
Definition timerfd_ctx_poll (kq : Z) (want_revents : bool) : T (option Z) :=
  if want_revents then ret (Some POLLIN)
  else timerfd_ctx_realtime_change kq ;; ret None.
End Timerfd.

(** ** The abstract timer

    A deadline and an interval in nanoseconds and the count of expirations not
    yet read.  [elapse now] is what happens until [now]. *)

Record Timer := { deadline : option Z; interval : Z; count : Z }.

Definition elapse (now : Z) (a : Timer) : Timer :=
  match deadline a with
  | None => a
  | Some v =>
      if now <? v then a
      else if interval a =? 0 then
        {| deadline := None; interval := 0; count := (count a + 1) mod 2 ^ 64 |}
      else
        let n := (now - v) / interval a + 1 in
        {| deadline := Some (v + n * interval a); interval := interval a;
           count := (count a + n) mod 2 ^ 64 |}
  end.

Definition abs_timer (t : TimerFDCtx) : Timer :=
  {| deadline :=
       if timerfd_ctx_is_disarmed t then None else Some (nanos (it_value (current_itimerspec t)));
     interval := nanos (it_interval (current_itimerspec t));
     count := nr_expirations t |}.

(** The representation invariant. *)
Definition timer_wf (t : TimerFDCtx) : Prop :=
  timespec_ok (it_value (current_itimerspec t)) /\
  timespec_ok (it_interval (current_itimerspec t)) /\
  (timer_type t = TIMER_TYPE_UNSPECIFIED <-> timerfd_ctx_is_disarmed t = true) /\
  0 <= nr_expirations t < 2 ^ 64.

(** ** Lemmas *)

Lemma ts_is_zero_nanos ts : timespec_ok ts -> ts_is_zero ts = (nanos ts =? 0).
Proof.
  intros Hok. apply timespec_ok_spec in Hok. unfold nanos, nsec_ok, NSEC_PER_SEC, ts_is_zero in *.
  apply eq_true_iff_eq. rewrite andb_true_iff, !Z.eqb_eq. lia.
Qed.

Lemma is_disarmed_nanos t : timer_wf t ->
  timerfd_ctx_is_disarmed t = (nanos (it_value (current_itimerspec t)) =? 0).
Proof. intros (Hv & _). by apply ts_is_zero_nanos. Qed.

Lemma is_interval_nanos t : timer_wf t ->
  timerfd_ctx_is_interval_timer t = negb (nanos (it_interval (current_itimerspec t)) =? 0).
Proof.
  intros (_ & Hi & _). rewrite <- ts_is_zero_nanos by done.
  unfold timerfd_ctx_is_interval_timer, ts_is_zero. by rewrite negb_andb.
Qed.

Lemma ts_to_nanos_spec ts : 0 <= tv_sec ts -> nsec_ok ts ->
  ts_to_nanos ts = if nanos ts <=? INT64_MAX then Some (nanos ts) else None.
Proof.
  unfold ts_to_nanos, nsec_ok, nanos, NSEC_PER_SEC, checked. intros Hs Hn. cbn.
  destruct (fits_i64 (tv_sec ts * 1000000000)) eqn:E; cbn.
  - apply fits_i64_spec in E. unfold fits_i64, INT64_MIN, INT64_MAX in *.
    rewrite (proj2 (Z.leb_le (- 2 ^ 63) _)) by lia. done.
  - apply fits_i64_false in E. unfold INT64_MIN, INT64_MAX in *.
    by rewrite (proj2 (Z.leb_gt _ _)) by lia.
Qed.

Lemma nanos_to_ts_spec n : 0 <= n <= INT64_MAX ->
  timespec_ok (nanos_to_ts n) /\ nanos (nanos_to_ts n) = n.
Proof.
  intros Hn. rewrite timespec_ok_spec. unfold nanos_to_ts, nsec_ok, nanos, NSEC_PER_SEC, INT64_MAX in *.
  cbn. rewrite Z.quot_div_nonneg, Z.rem_mod_nonneg by lia.
  pose proof (Z.div_mod n 1000000000). pose proof (Z.mod_pos_bound n 1000000000). lia.
Qed.

(** What an update of the timer may change. *)
Definition same_settings (t t' : TimerFDCtx) : Prop :=
  is_abstime t' = is_abstime t /\ clockid t' = clockid t /\
  is_cancel_on_set t' = is_cancel_on_set t /\ force_cancel t' = force_cancel t /\
  monotonic_offset t' = monotonic_offset t /\
  it_interval (current_itimerspec t') = it_interval (current_itimerspec t) /\
  timer_type t' = if timerfd_ctx_is_disarmed t' then TIMER_TYPE_UNSPECIFIED else timer_type t.

(** The outcome of an update at [now]: what elapsed, or a timer that had to be disarmed
    because its next expiration is not representable. *)
Definition ticked (now : timespec) (t t' : TimerFDCtx) : Prop :=
  timer_wf t' /\ same_settings t t' /\
  (abs_timer t' = elapse (nanos now) (abs_timer t) \/
   t' = timerfd_ctx_disarm t /\
   INT64_MAX < nanos now + nanos (it_interval (current_itimerspec t))).

Lemma disarm_wf t : timer_wf t -> timer_wf (timerfd_ctx_disarm t) /\ same_settings t (timerfd_ctx_disarm t).
Proof.
  intros (Hv & Hi & Ht & Hn). unfold timer_wf, same_settings, timerfd_ctx_disarm. fields.
  split_and!; try done; lia.
Qed.

Lemma ticked_unchanged now t : timer_wf t ->
  (timerfd_ctx_is_disarmed t = false -> nanos now < nanos (it_value (current_itimerspec t))) ->
  ticked now t t.
Proof.
  intros Hwf Hlt. split; [done|]. split.
  - unfold same_settings. split_and!; try done.
    destruct Hwf as (_ & _ & Ht & _). destruct (timerfd_ctx_is_disarmed t); [by apply Ht|done].
  - left. unfold elapse, abs_timer. cbn. destruct (timerfd_ctx_is_disarmed t); [done|].
    by rewrite (proj2 (Z.ltb_lt _ _)) by auto.
Qed.

Lemma next_deadline_bounds d i : 0 <= d -> 0 < i -> d < (d / i + 1) * i <= d + i.
Proof. intros. pose proof (Z.div_mod d i). pose proof (Z.mod_pos_bound d i). nia. Qed.

(** The two ways an armed timer expires. *)
Lemma ticked_interval now t next :
  let v := nanos (it_value (current_itimerspec t)) in
  let i := nanos (it_interval (current_itimerspec t)) in
  let n := (nanos now - v) / i + 1 in
  timer_wf t -> timerfd_ctx_is_disarmed t = false -> v <= nanos now -> 0 < i ->
  timespec_ok next -> nanos next = n * i + v ->
  let t' := (t <| nr_expirations := (nr_expirations t + n) mod 2 ^ 64 |>)
    <| current_itimerspec := (current_itimerspec t) <| it_value := next |> |> in
  ticked now t t' /\ nanos now < nanos next.
Proof.
  intros v i n Hwf Hd Hv Hi Hok Hn t'.
  pose proof (next_deadline_bounds (nanos now - v) i ltac:(lia) Hi) as Hb. fold n in Hb.
  assert (timerfd_ctx_is_disarmed t' = false) as Hd'.
  { change (ts_is_zero next = false). rewrite ts_is_zero_nanos by done. rewrite Hn.
    pose proof (timespec_ok_nonneg _ (proj1 Hwf)). apply Z.eqb_neq. fold v in H. lia. }
  destruct Hwf as (Hv1 & Hi1 & Ht & Hc).
  assert (timer_wf t') as Hwf'.
  { split; [done|]. split; [done|]. split; [by rewrite Hd', <- Hd|].
    unfold t'. fields. apply Z.mod_pos_bound. lia. }
  split; [|lia]. split; [done|split].
  - unfold same_settings. rewrite Hd'. by split_and!.
  - left. unfold elapse, abs_timer. rewrite Hd', Hd. cbn [deadline interval count].
    fold v i. rewrite (proj2 (Z.ltb_ge _ _)), (proj2 (Z.eqb_neq i 0)) by lia.
    f_equal. f_equal. change (nanos next = v + n * i). lia.
Qed.

Lemma ticked_oneshot now t :
  timer_wf t -> timerfd_ctx_is_disarmed t = false ->
  nanos (it_value (current_itimerspec t)) <= nanos now ->
  nanos (it_interval (current_itimerspec t)) = 0 ->
  ticked now t (timerfd_ctx_disarm (t <| nr_expirations := (nr_expirations t + 1) mod 2 ^ 64 |>)).
Proof.
  intros Hwf Hd Hv Hi.
  assert (timer_wf (t <| nr_expirations := (nr_expirations t + 1) mod 2 ^ 64 |>)) as Hwf1.
  { destruct Hwf as (? & ? & ? & ?). split; [done|]. split; [done|]. split; [done|].
    fields. apply Z.mod_pos_bound. lia. }
  destruct (disarm_wf _ Hwf1) as [Hwf2 Hs]. split; [done|split; [exact Hs|left]].
  unfold elapse, abs_timer. rewrite Hd. cbn [deadline interval count].
  rewrite (proj2 (Z.ltb_ge _ _)), (proj2 (Z.eqb_eq _ _)) by lia.
  unfold timerfd_ctx_disarm. fields. by rewrite Hi.
Qed.

Section Update.
Context {W : Type} (o : stop -> Prop).

Lemma wp_not_yet now t (w : W) (Q : unit -> TimerFDCtx * W -> Prop) :
  timer_wf t -> timespec_ok now ->
  nanos now < nanos (it_value (current_itimerspec t)) ->
  Q tt (t, w) ->
  wpg o (let* t := get in c_assert (timespeccmp now (it_value (current_itimerspec t)) Z.ltb)) Q (t, w).
Proof.
  intros (Hv & _) Hnow Hlt HQ. unfold get. wps.
  rewrite timespeccmp_ltb, (proj2 (Z.ltb_lt _ _)) by eauto using timespec_ok_nsec. done.
Qed.

Lemma wp_disarm_overflow now t (w : W) : timer_wf t ->
  INT64_MAX < nanos now + nanos (it_interval (current_itimerspec t)) ->
  wpg o (mod_self timerfd_ctx_disarm) (fun _ s => ticked now t s.1 /\ s.2 = w) (t, w).
Proof.
  intros Hwf Hov. wps. destruct (disarm_wf _ Hwf). split; [|done]. split; [done|]. split; [done|].
  by right.
Qed.

Lemma wp_timespecadd a b Q (s : TimerFDCtx * W) : timespec_ok a -> timespec_ok b ->
  (forall r,
    match r with
    | Some c => timespec_ok c /\ nanos c = nanos a + nanos b
    | None => (INT64_MAX + 1) * NSEC_PER_SEC <= nanos a + nanos b
    end -> Q r s) ->
  wpg o (timespecadd_safe a b) Q s.
Proof.
  intros Ha Hb HQ. destruct (timespecadd_safe_run a b s Ha Hb) as (r & Hr & Hspec).
  unfold wpg. rewrite Hr. auto.
Qed.

Lemma wp_timespecsub a b Q (s : TimerFDCtx * W) : timespec_ok a -> timespec_ok b ->
  Q (Some (timespecsub a b)) s -> wpg o (timespecsub_safe a b) Q s.
Proof. intros Ha Hb HQ. unfold wpg. by rewrite timespecsub_safe_run. Qed.

(** The whole update. *)
Lemma update_spec now t (w : W) : timer_wf t -> timespec_ok now ->
  wpg o (timerfd_ctx_update_to_current_time now)
    (fun _ s => ticked now t s.1 /\ s.2 = w) (t, w).
Proof.
  intros Hwf Hnow. pose proof Hwf as (Hv & Hi & _).
  unfold timerfd_ctx_update_to_current_time, get at 1. wps.
  destruct (timerfd_ctx_is_disarmed t) eqn:Hd.
  { wps. split; [|done]. by apply ticked_unchanged; [|rewrite Hd]. }
  rewrite (is_interval_nanos t Hwf).
  pose proof (timespec_ok_nonneg _ Hv) as Hv0. pose proof (timespec_ok_nonneg _ Hi) as Hi0.
  pose proof (timespec_ok_nonneg _ Hnow) as Hn0.
  destruct (Z.eqb_spec (nanos (it_interval (current_itimerspec t))) 0) as [Ei|Ei]; cbn [negb].
  - rewrite timespeccmp_geb by eauto using timespec_ok_nsec.
    destruct (Z.leb_spec (nanos (it_value (current_itimerspec t))) (nanos now)).
    + wps. split; [|done]. by apply ticked_oneshot.
    + apply wp_not_yet; try done. split; [|done]. by apply ticked_unchanged.
  - wps. apply wp_timespecsub; [done..|].
    destruct (timespecsub_nanos now (it_value (current_itimerspec t))) as [Hdn Hds];
      [by apply timespec_ok_nsec..|].
    set (d := timespecsub now (it_value (current_itimerspec t))) in *.
    destruct (Z.leb_spec 0 (tv_sec d)) as [Hsec|Hsec]; cycle 1.
    { assert (nanos now < nanos (it_value (current_itimerspec t))) as Hlt.
      { assert (nanos d < 0) by (unfold nsec_ok, nanos, NSEC_PER_SEC in *; lia). lia. }
      apply wp_not_yet; try done. split; [|done]. by apply ticked_unchanged. }
    rewrite !ts_to_nanos_spec by (try done; by apply timespec_ok_spec in Hi as [[? ?] ?]).
    assert (0 <= nanos d) by (unfold nsec_ok, nanos, NSEC_PER_SEC in *; lia).
    destruct (Z.leb_spec (nanos d) INT64_MAX); [|by apply wp_disarm_overflow; [|lia]].
    destruct (Z.leb_spec (nanos (it_interval (current_itimerspec t))) INT64_MAX);
      [|by apply wp_disarm_overflow; [|lia]].
    rewrite Z.quot_div_nonneg by lia.
    set (i := nanos (it_interval (current_itimerspec t))) in *.
    pose proof (next_deadline_bounds (nanos d) i ltac:(lia) ltac:(lia)) as Hb.
    destruct (Z.eqb_spec (nanos d / i) INT64_MAX) as [Eq|Eq].
    { apply wp_disarm_overflow; [done|]. fold i. rewrite Eq in Hb. nia. }
    set (n := nanos d / i + 1) in *.
    unfold checked. destruct (fits_i64 (n * i)) eqn:Ef; cycle 1.
    { apply fits_i64_false in Ef. unfold INT64_MIN in Ef.
      apply wp_disarm_overflow; [done|]. fold i. lia. }
    apply fits_i64_spec in Ef. wps.
    destruct (nanos_to_ts_spec (n * i)) as [Hok Hval]; [lia|].
    apply wp_timespecadd; [done..|]. intros [next|] Hnext; cycle 1.
    { apply wp_disarm_overflow; [done|]. fold i. rewrite Hval in Hnext. unfold NSEC_PER_SEC, INT64_MAX in *. lia. }
    destruct Hnext as [Hnok Hnn]. rewrite Hval in Hnn.
    assert (0 <= nanos d / i) by (apply Z.div_pos; lia).
    wps. rewrite (proj2 (Z.leb_le 0 n)) by lia. wps.
    unfold i, n in *. rewrite Hds in *.
    destruct (ticked_interval now t next) as [Ht Hlt]; try done; try lia.
    apply (wp_not_yet now); try done. apply Ht.
Qed.
End Update.

(** ** Algebra of [elapse] *)

Definition armed_wf (a : Timer) : Prop := 0 <= interval a.

Lemma wf_armed t : timer_wf t -> armed_wf (abs_timer t).
Proof. intros (_ & Hi & _). by apply timespec_ok_nonneg. Qed.

(** Looking at the timer in between changes nothing. *)
Lemma elapse_elapse now1 now2 a : armed_wf a -> now1 <= now2 ->
  elapse now2 (elapse now1 a) = elapse now2 a.
Proof.
  intros Ha Hle. unfold elapse at 2 3. destruct (deadline a) as [v|] eqn:Ed.
  2: by unfold elapse; rewrite Ed.
  destruct (Z.ltb_spec now1 v); [by unfold elapse; rewrite Ed|].
  rewrite (proj2 (Z.ltb_ge now2 v)) by lia.
  destruct (Z.eqb_spec (interval a) 0); [done|].
  unfold elapse. cbn [deadline interval count].
  set (i := interval a) in *. unfold armed_wf in Ha. fold i in Ha.
  set (n1 := (now1 - v) / i + 1).
  assert (0 < i) by lia.
  destruct (Z.ltb_spec now2 (v + n1 * i)).
  - assert ((now2 - v) / i + 1 = n1) as ->; [|done].
    unfold n1. pose proof (Z.div_mod (now2 - v) i). pose proof (Z.mod_pos_bound (now2 - v) i).
    pose proof (Z.div_mod (now1 - v) i). pose proof (Z.mod_pos_bound (now1 - v) i). nia.
  - rewrite (proj2 (Z.eqb_neq i 0)) by lia.
    assert ((now2 - (v + n1 * i)) / i + 1 + n1 = (now2 - v) / i + 1) as <-.
    { replace (now2 - v) with ((now2 - (v + n1 * i)) + n1 * i) by lia.
      rewrite Z.div_add by lia. lia. }
    set (n2 := (now2 - (v + n1 * i)) / i + 1). f_equal.
    + f_equal. lia.
    + rewrite Zplus_mod_idemp_l. f_equal. lia.
Qed.

(** The count is the number of expiration times [v, v + i, v + 2 i, ...] up to [now]. *)
Lemma elapse_counts now a v k :
  armed_wf a -> deadline a = Some v -> 0 < interval a -> v <= now -> 0 <= k ->
  (v + k * interval a <= now <-> k < (now - v) / interval a + 1).
Proof.
  intros _ _ Hi Hv Hk. pose proof (Z.div_mod (now - v) (interval a)).
  pose proof (Z.mod_pos_bound (now - v) (interval a)). nia.
Qed.

(** ** Laws of the kernel timer *)

Definition has_receipt (k : kevent) : Prop := has (kev_flags k) EV_RECEIPT = true.

Class TimerLaws (W : Type) `{!Kernel W} := {
  (** kevent(2): with EV_RECEIPT every change is answered by an event with EV_ERROR. *)
  law_receipts w kq changes : changes <> [] -> Forall has_receipt changes ->
    let (r, w') := kernel_step (sys_kevent kq changes (Z.of_nat (length changes)) None) w in
    match r with
    | Ok l => length l = length changes /\ Forall (fun k => has (kev_flags k) EV_ERROR = true) l
    | Err _ => True
    end
}.

(** ** The kernel timer never fires early *)

Section Change.
Context {W : Type} `{!Platform, !Kernel W}.

(** What the change [k] asks for, for a distance [d] in time. *)
Definition timer_unit (k : kevent) : Z := if kev_fflags k =? NOTE_USECONDS then 1000 else 1000000.

Definition covers (d : timespec) (k : kevent) : Prop :=
  kev_ident k = 0 /\ kev_filter k = EVFILT_TIMER /\ has_receipt k /\
  nanos d <= kev_data k * timer_unit k /\
  (quirky_evfilt_timer = false -> (kev_data k - 1) * timer_unit k < Z.max 1 (nanos d)).

(** Rounding a distance up to a unit. *)
Lemma ceil_units d u : (u | NSEC_PER_SEC) -> 0 < u -> 0 <= tv_sec d -> nsec_ok d ->
  let c := tv_sec d * (NSEC_PER_SEC / u) + Z.quot (tv_nsec d) u in
  let c := if negb (Z.rem (tv_nsec d) u =? 0) then c + 1 else c in
  nanos d <= c * u /\ (c - 1) * u < Z.max 1 (nanos d) /\ 0 <= c <= (tv_sec d + 1) * (NSEC_PER_SEC / u).
Proof.
  intros [q Hq] Hu Hs Hn c0 c.
  assert (NSEC_PER_SEC / u = q) as Eq by (rewrite Hq; apply Z.div_mul; lia).
  unfold c, c0. rewrite Eq. unfold nsec_ok, nanos in *. rewrite Hq in *.
  rewrite Z.quot_div_nonneg, Z.rem_mod_nonneg by lia.
  pose proof (Z.div_mod (tv_nsec d) u). pose proof (Z.mod_pos_bound (tv_nsec d) u).
  pose proof (Z.div_pos (tv_nsec d) u).
  destruct (Z.eqb_spec (tv_nsec d mod u) 0); cbn; split_and!; nia.
Qed.

(** The tick length in milliseconds, rounded up. *)
Lemma ms_per_tick_bounds ticks : 0 < ticks ->
  1 <= u32 (Z.quot 1000 ticks + if negb (Z.rem 1000 ticks =? 0) then 1 else 0) <= 1000.
Proof.
  intros Ht. rewrite Z.quot_div_nonneg, Z.rem_mod_nonneg by lia.
  pose proof (Z.div_mod 1000 ticks). pose proof (Z.mod_pos_bound 1000 ticks Ht).
  pose proof (Z.div_pos 1000 ticks). rewrite u32_small; destruct (Z.eqb_spec (1000 mod ticks) 0); cbn; nia.
Qed.

Lemma round_up_millis_spec (o : stop -> Prop) ms (w : W) : 0 <= ms <= 4233600000 ->
  wpg o (round_up_millis ms) (fun r _ => match r with Some m => ms <= m < 2 ^ 32 | None => True end) w.
Proof.
  intros Hms. unfold round_up_millis. apply wp_bind, wp_call.
  destruct (kernel_step sys_clk_tck w) as [ticks w1].
  destruct (Z.leb_spec ticks 0); [done|].
  pose proof (ms_per_tick_bounds ticks ltac:(lia)) as Hp.
  set (p := u32 _) in *. rewrite (u32_small ms) by lia.
  assert (ms - p < ms / p * p <= ms /\ 0 <= ms / p * p) as Hq.
  { pose proof (Z.div_pos ms p). pose proof (Z.div_mod ms p). pose proof (Z.mod_pos_bound ms p). nia. }
  cbv zeta. rewrite (u32_small (ms / p * p)) by lia.
  set (q := ms / p * p) in *. apply wp_ret.
  set (f1 := if q <? ms then u32 (q + p) else q).
  assert (ms <= f1 <= ms + p) as Hf1.
  { unfold f1. destruct (Z.ltb_spec q ms); rewrite ?u32_small; lia. }
  rewrite (u32_small (f1 + p)) by lia.
  case_goal; rewrite ?u32_small; lia.
Qed.

(** What the timer is set to, by cases on the precision of the kernel. *)
Lemma timer_change_spec d (w : W) : 0 <= tv_sec d -> nsec_ok d ->
  wp (timer_change d)
    (fun r _ => match r with
     | Some k => covers d k
     | None => 315360000 <= tv_sec d \/ quirky_evfilt_timer = true
     end) w.
Proof.
  intros Hs Hn. unfold timer_change.
  destruct (Z.leb_spec 315360000 (tv_sec d)); [by apply wp_ret; left|].
  pose proof (ceil_units d 1000 ltac:(by exists 1000000) ltac:(lia) Hs Hn) as Hus.
  pose proof (ceil_units d 1000000 ltac:(by exists 1000) ltac:(lia) Hs Hn) as Hms.
  cbv zeta in Hus, Hms |- *.
  change (NSEC_PER_SEC / 1000) with 1000000 in Hus. change (NSEC_PER_SEC / 1000000) with 1000 in Hms.
  set (us := if negb (Z.rem (tv_nsec d) 1000 =? 0) then _ else _) in *.
  set (ms := if negb (Z.rem (tv_nsec d) 1000000 =? 0) then _ else _) in *.
  assert (fits_i64 us = true) as Eus by (apply fits_i64_spec; unfold INT64_MIN, INT64_MAX; lia).
  rewrite Eus, andb_true_r.
  destruct has_note_useconds.
  { apply wp_ret. unfold covers, timer_unit. cbn.
    destruct (Z.eqb_spec us 0); destruct quirk_oneshot_timeout_zero; cbn; split_and!; try done; lia. }
  destruct (quirky_evfilt_timer && (4233600 <=? tv_sec d)) eqn:Eq; [apply wp_ret; b2p; by right|].
  apply wp_bind.
  assert (forall m (w' : W), (quirky_evfilt_timer = false -> m = ms) -> ms <= m < 2 ^ 62 ->
    wp (if fits_i64 m then ret (Some (EV_SET 0 EVFILT_TIMER (Z.lor (Z.lor EV_ADD EV_ONESHOT) EV_RECEIPT)
          0 (if quirk_oneshot_timeout_zero && (m =? 0) then 1 else m) 0)) else ret None)
      (fun r _ => match r with
       | Some k => covers d k
       | None => 315360000 <= tv_sec d \/ quirky_evfilt_timer = true
       end) w') as Hfin.
  { intros m w' Hm Hle.
    assert (fits_i64 m = true) as -> by (apply fits_i64_spec; unfold INT64_MIN, INT64_MAX; lia).
    apply wp_ret. unfold covers, timer_unit. cbn.
    destruct (Z.eqb_spec m 0); destruct quirk_oneshot_timeout_zero; cbn; split_and!; try done;
      try lia; intros Hqk; specialize (Hm Hqk); lia. }
  destruct quirky_evfilt_timer eqn:Ek; cbn [andb] in Eq |- *; [|by apply wp_ret, Hfin; [|lia]].
  b2p. destruct (negb (ms =? 0)); [|by apply wp_ret, Hfin; [|lia]].
  eapply wp_mono; [apply round_up_millis_spec; lia|].
  intros [m|] w' Hm; [by apply Hfin; [|lia]|]. apply wp_ret. by right.
Qed.

End Change.

(** ** The operations *)

Section Operations.
Context {W : Type} `{!Platform, !Kernel W, !TimerLaws W}.

Lemma of_errno_ok ec : (exists r, of_errno ec = r /\ (r = Ok tt \/ r = Err ec)).
Proof. unfold of_errno. destruct (ec =? 0); eauto. Qed.

(** Registering the kernel timer fails no assertion and leaves the structure alone. *)
Lemma register_event_spec kq new now t (w : W) : timespec_ok new -> timespec_ok now ->
  ts_is_zero new = false ->
  wp (timerfd_ctx_register_event kq new now) (fun _ s => s.1 = t) (t, w).
Proof.
  intros Hnew Hnow Hz. unfold timerfd_ctx_register_event. wps.
  assert (negb (tv_sec new =? 0) || negb (tv_nsec new =? 0) = true) as ->.
  { unfold ts_is_zero in Hz. by rewrite <- negb_andb, Hz. }
  wps. apply wp_timespecsub; [done..|]. wps.
  set (d := if tv_sec (timespecsub new now) <? 0 then ts_zero else timespecsub new now).
  assert (0 <= tv_sec d /\ nsec_ok d) as [Hs Hn].
  { unfold d. destruct (Z.ltb_spec (tv_sec (timespecsub new now)) 0); [by split|].
    split; [lia|]. apply timespecsub_nanos; by apply timespec_ok_nsec. }
  eapply wp_mono; [by apply timer_change_spec|]. intros k w1 Hk. wps.
  set (kev := match k with Some k => _ | None => _ end).
  assert (kev <> [] /\ Forall has_receipt kev) as [Hne Hrc].
  { unfold kev. destruct k as [k|]; (split; [done|]); repeat constructor; apply Hk. }
  law (law_receipts w1 kq kev Hne Hrc) as [l|ec] w2 Hl; wps; [|done].
  destruct Hl as [Hlen Herr]. rewrite Hlen, Z.eqb_refl. wps.
  destruct l as [|k0 [|k1 l]]; inversion Herr as [|? ? E0 E1]; subst.
  - by destruct kev.
  - rewrite E0. by wps.
  - inversion E1 as [|? ? E2 _]; subst. wps. rewrite E0. wps. rewrite E2. by wps.
Qed.

(** A rearm at worst disarms. *)
Lemma rearm_spec kq now b t (w : W) : timer_wf t -> timespec_ok now ->
  wp (timerfd_ctx_rearm_kevent kq now b)
    (fun _ s => s.1 = t \/ s.1 = timerfd_ctx_disarm t) (t, w).
Proof.
  intros (Hv & _) Hnow. unfold timerfd_ctx_rearm_kevent, get. wps.
  destruct (timerfd_ctx_is_disarmed t) eqn:Ed; cbn [negb].
  - wps. destruct b; wps; [|by left]. unfold delete_timer, call_. wps.
    destruct (kernel_step _ w). wps. by left.
  - wps. eapply wp_mono; [by apply register_event_spec|].
    intros r [t' w'] Ht; cbn in Ht; subst t'. wps. destruct (is_ok r); wps; auto.
Qed.

Lemma get_clocktime_spec c ty t (w : W) now w' :
  let c' := if bool_decide (c = CLOCK_REALTIME) && bool_decide (ty = TIMER_TYPE_RELATIVE)
    then CLOCK_MONOTONIC else c in
  ty <> TIMER_TYPE_UNSPECIFIED -> kernel_step (sys_clock_gettime c') w = (Ok now, w') ->
  forall Q, Q (Ok now) (t, w') -> wp (timerfd_ctx_get_clocktime c ty) Q (t, w).
Proof.
  intros c' Hty Hc Q HQ. unfold timerfd_ctx_get_clocktime. wps.
  rewrite bool_decide_eq_false_2 by done. fold c'. cbn. wps. by rewrite Hc.
Qed.

(** A timer that cannot jump is never cancelled. *)
Lemma check_for_cancel_no_jump kq t (w : W) :
  timerfd_ctx_can_jump t = false -> force_cancel t = false ->
  wp (timerfd_ctx_check_for_cancel kq) (fun r s => r = false /\ s = (t, w)) (t, w).
Proof.
  intros Hj Hf. unfold timerfd_ctx_check_for_cancel, get. wps.
  destruct (bool_decide (clockid t = CLOCK_REALTIME)); cbn [negb]; [|by wps].
  rewrite Hj. wps. unfold timerfd_ctx_clear_force_cancel. wps. rewrite Hf. wps.
  fields. split; [done|]. rewrite <- Hf at 1. by destruct t.
Qed.

(** The clock a timer reads. *)
Definition clock_of (t : TimerFDCtx) : clockid_t :=
  if bool_decide (clockid t = CLOCK_REALTIME) && bool_decide (timer_type t = TIMER_TYPE_RELATIVE)
  then CLOCK_MONOTONIC else clockid t.

(** Until [now] plus one interval is out of the 64-bit range the update is exact. *)
Definition in_range (now : timespec) (t : TimerFDCtx) : Prop :=
  nanos now + nanos (it_interval (current_itimerspec t)) <= INT64_MAX.

Lemma update_exact o now t (w : W) Q : timer_wf t -> timespec_ok now -> in_range now t ->
  (forall t', timer_wf t' -> same_settings t t' ->
     abs_timer t' = elapse (nanos now) (abs_timer t) -> Q tt (t', w)) ->
  wpg o (timerfd_ctx_update_to_current_time now) Q (t, w).
Proof.
  intros Hwf Hnow Hr HQ. eapply wp_mono; [by apply update_spec|].
  intros [] [t' w'] [(Hwf' & Hs & Hel) Hw]. cbn in *. subst w'.
  apply HQ; [done..|]. destruct Hel as [|[_ ?]]; [done|]. unfold in_range in Hr. lia.
Qed.

(** After an update at [now] an armed timer expires strictly later. *)
Lemma elapse_deadline now a v : armed_wf a -> deadline (elapse now a) = Some v -> now < v.
Proof.
  intros Ha. unfold elapse. destruct (deadline a) as [v0|] eqn:E; [|congruence].
  destruct (Z.ltb_spec now v0); [rewrite E; intros [= <-]; lia|].
  destruct (Z.eqb_spec (interval a) 0); [done|]. cbn. intros [= <-].
  unfold armed_wf in Ha. pose proof (next_deadline_bounds (now - v0) (interval a)). lia.
Qed.

(** C31: reading the time left.  [timerfd_ctx_gettime] at [now] fails no assertion; it
    reports the interval and the time from [now] to the next expiration (zero when there is
    none), and accounts for everything that elapsed until [now]. *)
Theorem timerfd_gettime_correct t (w : W) now w' :
  timer_wf t -> timer_type t <> TIMER_TYPE_UNSPECIFIED ->
  kernel_step (sys_clock_gettime (clock_of t)) w = (Ok now, w') ->
  timespec_ok now -> in_range now t ->
  wp timerfd_ctx_gettime
    (fun r s =>
       let a := elapse (nanos now) (abs_timer t) in
       timer_wf s.1 /\ abs_timer s.1 = a /\
       exists cur, r = Ok cur /\
         nanos (it_interval cur) = interval a /\
         nanos (it_value cur) = match deadline a with Some v => v - nanos now | None => 0 end) (t, w).
Proof.
  intros Hwf Hty Hclk Hnow Hr. unfold timerfd_ctx_gettime, get. wps.
  rewrite bool_decide_eq_false_2 by done. wps.
  apply (get_clocktime_spec (clockid t) (timer_type t) t w now w' Hty Hclk). wps.
  apply update_exact; [done..|]. intros t' Hwf' _ Ha. unfold get. wps.
  assert (deadline (abs_timer t') = if timerfd_ctx_is_disarmed t' then None
    else Some (nanos (it_value (current_itimerspec t')))) as Hdl by done.
  destruct (timerfd_ctx_is_disarmed t') eqn:Ed; cbn [negb]; wps.
  - rewrite <- Ha, Hdl. split_and!; [done..|]. eexists. split_and!; [done..|].
    rewrite is_disarmed_nanos in Ed by done. by apply Z.eqb_eq.
  - assert (nanos now < nanos (it_value (current_itimerspec t'))) as Hlt.
    { apply (elapse_deadline (nanos now) (abs_timer t)); [by apply wf_armed|]. by rewrite <- Ha, Hdl. }
    pose proof Hwf' as (Hv' & _).
    rewrite timespeccmp_ltb by (by apply timespec_ok_nsec).
    rewrite (proj2 (Z.ltb_lt _ _)) by done. wps. rewrite <- Ha, Hdl.
    split_and!; [done..|]. eexists. split_and!; [done..|]. fields.
    apply timespecsub_nanos; by apply timespec_ok_nsec.
Qed.

(** A state with everything read. *)
Definition drained (a : Timer) : Timer :=
  {| deadline := deadline a; interval := interval a; count := 0 |}.

(** The answer of a read is the count, at the latest after a rearm. *)
Lemma read_events_timer kevs i t (w : W) : Forall (fun k => kev_filter k = EVFILT_TIMER /\ kev_ident k = 0) kevs ->
  (i = None \/ i = Some 0) ->
  wp (read_events kevs i) (fun r s => s = (t, w) /\
    r = match kevs with [] => i | _ => Some 0 end) (t, w).
Proof.
  intros Hall. revert i. induction Hall as [|k kevs [Hf Hid] Hall IH]; intros i Hi; cbn [read_events].
  - by wps.
  - wps. rewrite Hf. cbn. wps.
    rewrite Hid. cbn.
    assert (match i with Some _ => Some 0 | None => Some 0 end = Some 0) as -> by (by destruct i).
    eapply wp_mono; [by apply IH; right|]. intros r s [-> ->]. split; [done|]. by destruct kevs.
Qed.


(** Checking for a step of the clock touches only the record of the clock. *)
Definition same_timer (t t' : TimerFDCtx) : Prop :=
  exists off fc, t' = (t <| monotonic_offset := off |>) <| force_cancel := fc |>.

Lemma same_timer_wf t t' : same_timer t t' -> timer_wf t -> timer_wf t'.
Proof. intros (off & fc & ->). done. Qed.

Lemma same_timer_abs t t' : same_timer t t' -> abs_timer t' = abs_timer t.
Proof. intros (off & fc & ->). done. Qed.

Lemma delete_timer_spec o kq i t (w : W) Q :
  (forall w', Q tt (t, w')) -> wpg o (delete_timer kq i) Q (t, w).
Proof. intros HQ. unfold delete_timer, call_. wps. destruct (kernel_step _ w). wps. apply HQ. Qed.

Lemma clear_force_cancel_spec o kq t (w : W) Q :
  (forall w', Q tt (t <| force_cancel := false |>, w')) ->
  wpg o (timerfd_ctx_clear_force_cancel kq) Q (t, w).
Proof.
  intros HQ. unfold timerfd_ctx_clear_force_cancel. wps.
  destruct (force_cancel t); wps; [apply delete_timer_spec; intros; wps|]; apply HQ.
Qed.

Lemma check_for_cancel_spec kq t (w : W) :
  wp (timerfd_ctx_check_for_cancel kq) (fun _ s => same_timer t s.1) (t, w).
Proof.
  unfold timerfd_ctx_check_for_cancel, get, timerfd_ctx_get_monotonic_offset. wps.
  case_goal; wps; [by exists (monotonic_offset t), (force_cancel t); destruct t|].
  destruct (timerfd_ctx_can_jump t); wps.
  - apply wp_call. destruct (kernel_step sys_boottime w) as [r w1]. wps.
    apply clear_force_cancel_spec. intros w2. wps. by eexists _, false.
  - apply clear_force_cancel_spec. intros w2. wps.
    exists (monotonic_offset t), false. by destruct t.
Qed.

(** Settings that fit the types of the interface. *)
Definition itimerspec_fits (its : itimerspec) : Prop :=
  tv_sec (it_value its) <= INT64_MAX /\ tv_sec (it_interval its) <= INT64_MAX.

Lemma itimerspec_valid_ok its : itimerspec_is_valid its = true -> itimerspec_fits its ->
  timespec_ok (it_value its) /\ timespec_ok (it_interval its).
Proof. unfold itimerspec_is_valid. intros [? ?]%andb_true_iff [? ?]. done. Qed.

(** The timer a successful call sets. *)
Definition set_timer (ab : bool) (now : Z) (new : itimerspec) (t : TimerFDCtx) : Timer :=
  if ts_is_zero (it_value new) then
    {| deadline := None; interval := nanos (it_interval (current_itimerspec t)); count := 0 |}
  else
    {| deadline := Some (nanos (it_value new) + if ab then 0 else now);
       interval := nanos (it_interval new); count := 0 |}.

(** The end of a call that set the timer to [t1]. *)
Lemma settime_end kq t1 (w : W) (b : bool) a (old : option itimerspec)
    (Q : result unit * option itimerspec -> TimerFDCtx * W -> Prop) :
  timer_wf t1 -> abs_timer t1 = a ->
  (forall r s, timer_wf s.1 -> abs_timer s.1 = a ->
     r = Ok tt \/ r = Err ECANCELED /\ b = true -> Q (r, old) s) ->
  wp (timerfd_ctx_check_for_cancel kq)
    (fun c s => wp (ret (if c && b then Err ECANCELED else Ok tt, old)) Q s) (t1, w).
Proof.
  intros Hwf <- HQ. eapply wp_mono; [apply check_for_cancel_spec|]. intros c s Hs.
  apply wp_ret, HQ; [by apply (same_timer_wf t1)|by apply same_timer_abs|].
  destruct c, b; cbn; auto.
Qed.



(** The expiration of a one-shot timer is lost when the time left is queried before
    the expiration is read: the timer counts one expiration, and [timerfd_ctx_read]
    answers EAGAIN without looking at the count. *)
Theorem timerfd_gettime_loses_oneshot kq t (w : W) now w' :
  timer_wf t -> timer_type t <> TIMER_TYPE_UNSPECIFIED -> nr_expirations t = 0 ->
  nanos (it_interval (current_itimerspec t)) = 0 ->
  nanos (it_value (current_itimerspec t)) <= nanos now <= INT64_MAX ->
  kernel_step (sys_clock_gettime (clock_of t)) w = (Ok now, w') -> timespec_ok now ->
  wp (timerfd_ctx_gettime ;; timerfd_ctx_read kq)
    (fun r s => r = Err EAGAIN /\ nr_expirations s.1 = 1 /\ s.2 = w') (t, w).
Proof.
  intros Hwf Hty Hnr Hi Hle Hclk Hnow. unfold timerfd_ctx_gettime, get. wps.
  rewrite bool_decide_eq_false_2 by done. wps.
  apply (get_clocktime_spec (clockid t) (timer_type t) t w now w' Hty Hclk). wps.
  apply update_exact; [done..|unfold in_range; lia|]. intros t1 Hwf1 Hs Ha. unfold get. wps.
  assert (timerfd_ctx_is_disarmed t = false) as Hd.
  { destruct (timerfd_ctx_is_disarmed t) eqn:E; [|done]. by apply Hwf in E. }
  unfold elapse, abs_timer in Ha. rewrite Hd in Ha. cbn [deadline interval count] in Ha.
  rewrite (proj2 (Z.ltb_ge _ _)), (proj2 (Z.eqb_eq _ _)), Hnr in Ha by lia.
  destruct (timerfd_ctx_is_disarmed t1) eqn:Ed; [|done]. injection Ha as _ Hc. cbn. wps.
  unfold timerfd_ctx_read. wps. rewrite bool_decide_eq_true_2 by (by apply Hwf1).
  by wps.
Qed.
End Operations.

(** ** Witnesses: a monotonic timer on the kqueue 3 *)

#[export] Instance sim_timer_laws : TimerLaws sim.
Proof.
  constructor. intros w kq changes Hne _. unfold kernel_step, sim_kernel, sim_kevent.
  destruct (sim_kqs w !! kq) as [m|]; [|done]. destruct changes as [|c changes]; [done|].
  destruct (sim_failure w (c :: changes)); [done|].
  assert (forall l m0, length (sim_changes w m0 l).2 = length l /\
    Forall (fun k => has (kev_flags k) EV_ERROR = true) (sim_changes w m0 l).2) as Hrec.
  { induction l as [|k l IH]; intros m0; cbn [sim_changes]; [by split; [|constructor]|].
    destruct (sim_change w m0 k) as [m1 d]. specialize (IH m1).
    destruct (sim_changes w m1 l) as [m2 r]. destruct IH as [Hl Hf]. cbn in *.
    split; [by rewrite Hl|]. constructor; [|done]. cbn. rewrite has_lor. apply orb_true_r. }
  destruct (Hrec (c :: changes) m) as [Hl Hf].
  destruct (sim_changes w m (c :: changes)) as [m' r]. cbn [snd] in *.
  rewrite (proj2 (Z.ltb_lt 0 _)) by (cbn; lia). done.
Qed.

Module Witness.
#[local] Existing Instance freebsd.

Definition secs (s : Z) : timespec := {| tv_sec := s; tv_nsec := 0 |}.

(** Armed at 1001 s, with an interval of [i] seconds. *)
Definition timer (i : Z) : TimerFDCtx :=
  {| is_abstime := false; clockid := CLOCK_MONOTONIC; timer_type := TIMER_TYPE_RELATIVE;
     is_cancel_on_set := false; force_cancel := false; monotonic_offset := ts_zero;
     current_itimerspec := {| it_interval := secs i; it_value := secs 1001 |};
     nr_expirations := 0 |}.

Definition world : sim :=
  sim_init <| sim_kqs :=
    {[ 3 := {[ (0, EVFILT_TIMER) := {| kn_udata := 0; kn_active := false |} ]} ]} |>.

Lemma timer_is_wf i : 0 <= i <= INT64_MAX -> timer_wf (timer i).
Proof.
  intros Hi. unfold timer_wf, timer. cbn. rewrite !timespec_ok_spec. unfold nsec_ok, NSEC_PER_SEC, INT64_MAX in *.
  cbn. split_and!; done || lia.
Qed.
End Witness.
#[local] Existing Instance freebsd.


Lemma timerfd_gettime_correct_witness :
  wpg (fun _ => False) timerfd_ctx_gettime
    (fun r s => abs_timer s.1 =
       {| deadline := Some (1006 * NSEC_PER_SEC); interval := NSEC_PER_SEC; count := 5 |})
    (Witness.timer 1, sim_sleep 5 Witness.world).
Proof.
  eapply wp_mono;
    [apply (timerfd_gettime_correct (Witness.timer 1) (sim_sleep 5 Witness.world) (Witness.secs 1005)
       (sim_sleep 5 Witness.world))|].
  - by apply Witness.timer_is_wf.
  - done.
  - reflexivity.
  - by split.
  - by vm_compute.
  - intros r s (_ & Ha & _). rewrite Ha. reflexivity.
Defined.




Lemma timerfd_gettime_loses_oneshot_witness :
  wpg (fun _ => False) (timerfd_ctx_gettime ;; timerfd_ctx_read 3)
    (fun r s => r = Err EAGAIN /\ sim_readable s.2 3 = true)
    (Witness.timer 0, sim_sleep 5 Witness.world).
Proof.
  eapply wp_mono;
    [eapply (timerfd_gettime_loses_oneshot 3 (Witness.timer 0) (sim_sleep 5 Witness.world)
       (Witness.secs 1005) (sim_sleep 5 Witness.world))|].
  - by apply Witness.timer_is_wf.
  - done.
  - done.
  - done.
  - by vm_compute.
  - reflexivity.
  - by split.
  - intros r s (Hr & _ & Hw). rewrite Hw. split; [done|by vm_compute].
Defined.

