(* ===== verification/EpollNode.v ===== *)
(** * A file descriptor registered with an epoll instance
    (src/epollfd_ctx.c, the [registered_fds_node_*] functions;
    src/pollable_desc.h)

    A node remembers the events the user asked for, the kqueue filters that
    are registered for them and the events collected so far.
    [get_needed_filters] translates the former into filters,
    [registered_fds_node_feed_event] translates a kevent back. *)

From S2P Require Import Prelude Kernel KqueueEvent.

(** ** <sys/epoll.h> *)

Definition EPOLLIN : Z := 0x1.
Definition EPOLLPRI : Z := 0x2.
Definition EPOLLOUT : Z := 0x4.
Definition EPOLLERR : Z := 0x8.
Definition EPOLLHUP : Z := 0x10.
Definition EPOLLRDHUP `{Platform} : Z := POLLRDHUP_VALUE.
Definition EPOLLONESHOT : Z := Z.shiftl 1 30.
Definition EPOLLET : Z := Z.shiftl 1 31.

Definition EPOLL_CTL_ADD : Z := 1.
Definition EPOLL_CTL_DEL : Z := 2.
Definition EPOLL_CTL_MOD : Z := 3.

(** The union [epoll_data_t] is its 64 bits. *)
Record epoll_event := { ev_events : Z; ev_data : Z }.

(** ** Types *)

Definition EOF_STATE_READ_EOF : Z := 0x1.
Definition EOF_STATE_WRITE_EOF : Z := 0x2.
Definition EOF_STATE_BOTH : Z := Z.lor EOF_STATE_READ_EOF EOF_STATE_WRITE_EOF.

(** [NODE_TYPE_UNSET] is the value 0 a node is created with. *)
Inductive NodeType : Type :=
| NODE_TYPE_UNSET
| NODE_TYPE_FIFO
| NODE_TYPE_SOCKET
| NODE_TYPE_KQUEUE
| NODE_TYPE_OTHER
| NODE_TYPE_POLL.

#[export] Instance NodeType_eq_dec : EqDecision NodeType.
Proof. solve_decision. Defined.

(** A pollable descriptor is a pointer to a file description, or NULL; there is one
    vtable. *)
Abbreviation PollableDesc := (option Z) (only parsing).

(** The union [node_data]; zeroed, it is a FIFO without access. *)
Inductive NodeData : Type :=
| fifo (readable writable : bool)
| kqueue_data (pollable_desc : PollableDesc).

Record RegisteredFDsNode := {
  fd : Z;
  data : Z;
  is_registered : bool;
  has_evfilt_read : bool;
  has_evfilt_write : bool;
  has_evfilt_except_ : bool;
  got_evfilt_read : bool;
  got_evfilt_write : bool;
  got_evfilt_except : bool;
  node_type : NodeType;
  node_data : NodeData;
  eof_state : Z;
  pollpri_active : bool;
  events : Z;
  needs_rdhup_translation : bool;
  revents : Z;
  is_edge_triggered : bool;
  is_oneshot : bool;
  is_on_pollfd_list : bool;
  node_self_pipe : Z * Z
}.
#[export] Instance eta_node : Eta RegisteredFDsNode := fun n =>
  {| fd := fd n; data := data n; is_registered := is_registered n;
     has_evfilt_read := has_evfilt_read n; has_evfilt_write := has_evfilt_write n;
     has_evfilt_except_ := has_evfilt_except_ n; got_evfilt_read := got_evfilt_read n;
     got_evfilt_write := got_evfilt_write n; got_evfilt_except := got_evfilt_except n;
     node_type := node_type n; node_data := node_data n; eof_state := eof_state n;
     pollpri_active := pollpri_active n; events := events n;
     needs_rdhup_translation := needs_rdhup_translation n; revents := revents n;
     is_edge_triggered := is_edge_triggered n; is_oneshot := is_oneshot n;
     is_on_pollfd_list := is_on_pollfd_list n; node_self_pipe := node_self_pipe n |}.

Definition readable (n : RegisteredFDsNode) : bool :=
  match node_data n with fifo r _ => r | kqueue_data _ => false end.
Definition writable (n : RegisteredFDsNode) : bool :=
  match node_data n with fifo _ w => w | kqueue_data _ => false end.
Definition pollable_desc (n : RegisteredFDsNode) : PollableDesc :=
  match node_data n with fifo _ _ => None | kqueue_data p => p end.

Definition is_type (t : NodeType) (n : RegisteredFDsNode) : bool := bool_decide (node_type n = t).

(** ** Pollable descriptors

    What an epoll instance may ask of a file description it watches.
    [poll_fun d fd revents]: [revents] is the pointer argument with the value
    it points to, [None] for NULL; the result is the value stored there. *)
Class Pollable (W : Type) := {
  poll_fun : Z -> Z -> option Z -> M W (option Z);
  ref_fun : Z -> M W unit;
  unref_fun : Z -> M W unit
}.

(** Memory of the caller next to the world: the callees leave it alone. *)
#[export] Instance pollable_prod {C W} `{!Pollable W} : Pollable (C * W) := {
  poll_fun d fd r := lift (poll_fun d fd r);
  ref_fun d := lift (ref_fun d);
  unref_fun d := lift (unref_fun d)
}.

Section PollableDesc.
Context {W : Type} `{!Pollable W}.

Definition pollable_desc_poll (p : PollableDesc) (fd : Z) (revents : option Z) : M W (option Z) :=
  match p with
  | None => ret revents
  | Some d => poll_fun d fd revents
  end.

Definition pollable_desc_ref (p : PollableDesc) : M W unit :=
  match p with None => ret tt | Some d => ref_fun d end.

Definition pollable_desc_unref (p : PollableDesc) : M W unit :=
  match p with None => ret tt | Some d => unref_fun d end.
End PollableDesc.

(** ** Filters *)

Record NeededFilters := { evfilt_read : Z; evfilt_write : Z; evfilt_except : Z }.
#[export] Instance eta_NeededFilters : Eta NeededFilters := fun n =>
  {| evfilt_read := evfilt_read n; evfilt_write := evfilt_write n;
     evfilt_except := evfilt_except n |}.

(** [!!(x)] of a flag test. *)
Definition bang (b : bool) : Z := if b then 1 else 0.

Section Node.
Context {W : Type} `{!Platform, !Kernel W, !Fuel, !Pollable W}.

Abbreviation N := (M (RegisteredFDsNode * W)).

(** [evfilt_read] of a socket, from the requested events alone. *)
Definition socket_read_filter (n : RegisteredFDsNode) : Z :=
  let r := bang (has (events n) EPOLLIN) in
  let r :=
    if (r =? 0) && has (events n) EPOLLRDHUP
    then (if has (eof_state n) EOF_STATE_READ_EOF then 1 else EV_CLEAR) else r in
  if negb has_evfilt_except && (r =? 0) && has (events n) EPOLLPRI
  then (if pollpri_active n then 1 else EV_CLEAR) else r.

(** [evfilt_read] and [evfilt_write] of a socket, once the end-of-file state [eof] is taken
    into account. *)
Definition socket_eof_filters (eof r w : Z) : Z * Z :=
  let r := if (eof =? EOF_STATE_BOTH) && negb (r =? 1) && negb (w =? 1) then 1 else r in
  let w := if (eof =? EOF_STATE_BOTH) && negb (r =? 0) then 0 else w in
  let r := if (eof =? 0) && (r =? 0) && (w =? 0) then EV_CLEAR else r in
  let w := if (eof =? EOF_STATE_READ_EOF) && (w =? 0) then EV_CLEAR else w in
  let r := if (eof =? EOF_STATE_WRITE_EOF) && (r =? 0) then EV_CLEAR else r in
  (r, w).

(** The part of [get_needed_filters] before the label [out]; [inl] is the
    [__builtin_unreachable ()] of a FIFO that is neither readable nor writable,
    or the failed assertion about a kqueue. *)
Definition filters_by_type (n : RegisteredFDsNode) : stop + NeededFilters :=
  let on := fun mask => has (events n) mask in
  let mk r w e := {| evfilt_read := r; evfilt_write := w; evfilt_except := e |} in
  let if_eof := if negb (eof_state n =? 0) then 1 else EV_CLEAR in
  match node_type n with
  | NODE_TYPE_FIFO =>
      if readable n && writable n then
        let r := bang (on EPOLLIN) in
        let w := bang (on EPOLLOUT) in
        inr (mk (if events n =? 0 then if_eof else r) w 0)
      else if readable n then
        let r := bang (on EPOLLIN) in
        inr (mk (if r =? 0 then if_eof else r) 0 0)
      else if writable n then
        let w := bang (on EPOLLOUT) in
        inr (mk 0 (if w =? 0 then if_eof else w) 0)
      else inl Unreachable
  | NODE_TYPE_KQUEUE =>
      let r := bang (on EPOLLIN) in
      if eof_state n =? 0 then inr (mk (if r =? 0 then EV_CLEAR else r) 0 0)
      else inl AssertFailed
  | NODE_TYPE_SOCKET =>
      let e := if has_evfilt_except then bang (on EPOLLPRI) else 0 in
      let (r, w) := socket_eof_filters (eof_state n) (socket_read_filter n) (bang (on EPOLLOUT)) in
      inr (mk r w e)
  | _ =>
      let r := bang (on EPOLLIN) in
      let w := bang (on EPOLLOUT) in
      inr (mk (if events n =? 0 then if_eof else r) w 0)
  end.

Definition edge (f : Z) : Z := if f =? 0 then 0 else EV_CLEAR.
Definition filter_ok (f : Z) : bool := (f =? 0) || (f =? 1) || (f =? EV_CLEAR).

Definition get_needed_filters (n : RegisteredFDsNode) : stop + NeededFilters :=
  match filters_by_type n with
  | inl why => inl why
  | inr f =>
      let f :=
        if is_edge_triggered n then
          {| evfilt_read := edge (evfilt_read f); evfilt_write := edge (evfilt_write f);
             evfilt_except := edge (evfilt_except f) |}
        else f in
      if (negb (evfilt_read f =? 0) || negb (evfilt_write f =? 0)) &&
         filter_ok (evfilt_read f) && filter_ok (evfilt_write f) && filter_ok (evfilt_except f)
      then inr f
      else inl AssertFailed
  end.

Definition needed_filters : N NeededFilters :=
  let* n := get in
  match get_needed_filters n with
  | inl why => stop_with why
  | inr f => ret f
  end.

(** ** Life of a node *)

(** [*node = (RegisteredFDsNode) { .fd = fd, .self_pipe = { -1, -1 } }] *)
Definition node_zero (fd : Z) : RegisteredFDsNode :=
  {| fd := fd; data := 0; is_registered := false;
     has_evfilt_read := false; has_evfilt_write := false; has_evfilt_except_ := false;
     got_evfilt_read := false; got_evfilt_write := false; got_evfilt_except := false;
     node_type := NODE_TYPE_UNSET; node_data := fifo false false; eof_state := 0;
     pollpri_active := false; events := 0; needs_rdhup_translation := false; revents := 0;
     is_edge_triggered := false; is_oneshot := false; is_on_pollfd_list := false;
     node_self_pipe := (-1, -1) |}.

Definition registered_fds_node_create (fd : Z) : M W (option (Z * RegisteredFDsNode)) :=
  let* r := call (sys_malloc 216) in
  match r with
  | Err _ => ret None
  | Ok p => ret (Some (p, node_zero fd))
  end.

(** The node at address [ptr]; the caller drops it from its heap. *)
Definition registered_fds_node_destroy (ptr : Z) (n : RegisteredFDsNode) : M W unit :=
  when (is_type NODE_TYPE_KQUEUE n) (pollable_desc_unref (pollable_desc n)) ;;
  let p := node_self_pipe n in
  when ((0 <=? p.1) && (0 <=? p.2))
    (call_ (sys_close p.1) ;; call_ (sys_close p.2)) ;;
  call_ (sys_free ptr).

Definition registered_fds_node_update_flags_from_epoll_event (ev : epoll_event) : N unit :=
  self events := u16 (Z.land (ev_events ev)
    (Z.lor (Z.lor EPOLLIN EPOLLPRI) (Z.lor EPOLLRDHUP EPOLLOUT))) ;;
  (if negb (EPOLLRDHUP =? 0x2000) && has (ev_events ev) 0x2000 then
     c_assert (negb (has (ev_events ev) EPOLLRDHUP)) ;;
     mod_self (fun n => n <| events := u16 (Z.lor (events n) EPOLLRDHUP) |>) ;;
     self needs_rdhup_translation := true
   else self needs_rdhup_translation := false) ;;
  self data := ev_data ev ;;
  self is_edge_triggered := has (ev_events ev) EPOLLET ;;
  self is_oneshot := has (ev_events ev) EPOLLONESHOT ;;
  let* o := getf is_oneshot in
  when o (self is_edge_triggered := true).

(** ** The trigger of a node *)

Definition registered_fds_node_add_self_trigger (ptr kq : Z) : N (result unit) :=
  try* change :=
    if has_evfilt_user then
      ret (Ok (EV_SET ptr EVFILT_USER (Z.lor EV_ADD EV_CLEAR) 0 0 ptr))
    else
      let* p := getf node_self_pipe in
      try* _ :=
        if (p.1 <? 0) && (p.2 <? 0) then
          let* r := call (sys_pipe2 (Z.lor O_NONBLOCK O_CLOEXEC)) in
          match r with
          | Err ec => self node_self_pipe := (-1, -1) ;; ret (Err ec)
          | Ok p =>
              self node_self_pipe := p ;;
              c_assert (0 <=? p.1) ;;
              c_assert (0 <=? p.2) ;;
              ret (Ok tt)
          end
        else ret (Ok tt) in
      let* p := getf node_self_pipe in
      ret (Ok (EV_SET (u32 p.1) EVFILT_READ (Z.lor EV_ADD EV_CLEAR) 0 0 ptr)) in
  let* r := call (sys_kevent kq [change] 0 None) in
  match r with
  | Err ec => ret (Err ec)
  | Ok _ => ret (Ok tt)
  end.

Definition registered_fds_node_trigger_self (ptr kq : Z) : N unit :=
  if has_evfilt_user then
    call_ (sys_kevent kq [EV_SET ptr EVFILT_USER 0 NOTE_TRIGGER 0 ptr] 0 None)
  else
    let* p := getf node_self_pipe in
    c_assert (0 <=? p.2) ;;
    call_ (sys_write p.2 [0]).

(** ** Translation of a kevent *)

(** [real_poll(&pfd, 1, 0)] for one descriptor: [None] is a negative result. *)
Definition poll1 (fd events : Z) : N (option (Z * Z)) :=
  let* r := call (sys_poll [{| pfd_fd := fd; pfd_events := events; pfd_revents := 0 |}] 0) in
  match r with
  | Ok (n, p :: _) => ret (Some (n, pfd_revents p))
  | _ => ret None
  end.

(** The label [maybe_translate_rdhup]. *)
Definition maybe_translate_rdhup : N unit :=
  let* n := get in
  when (has (revents n) EPOLLRDHUP && needs_rdhup_translation n)
    (self revents := Z.lor (Z.ldiff (revents n) EPOLLRDHUP) 0x2000).

(** What [revents] may contain. *)
Definition reportable (n : RegisteredFDsNode) : Z := Z.lor (events n) (Z.lor EPOLLHUP EPOLLERR).

(** Which filter reported. *)
Definition note_event (kev : kevent) : N unit :=
  let* n := get in
  when (negb (revents n =? 0) && (fd n =? kev_ident kev))
    (if kev_filter kev =? EVFILT_READ then self got_evfilt_read := true
     else if kev_filter kev =? EVFILT_WRITE then self got_evfilt_write := true
     else when (has_evfilt_except && (kev_filter kev =? EVFILT_EXCEPT))
       (self got_evfilt_except := true)).

(** A descriptor of this library has the last word. *)
Definition ask_pollable : N unit :=
  let* n := get in
  when (is_type NODE_TYPE_KQUEUE n)
    (let* r := lift (pollable_desc_poll (pollable_desc n) (fd n) (Some (revents n))) in
     self revents := default (revents n) r ;;
     mod_self (fun n => n <| revents := Z.land (revents n) (reportable n) |>)).

(** The label [out]. *)
Definition feed_out (kev : kevent) (revs : Z) : N unit :=
  mod_self (fun n => n <| revents := Z.land (Z.lor (revents n) revs) (reportable n) |>) ;;
  note_event kev ;;
  ask_pollable ;;
  maybe_translate_rdhup.

(** A descriptor that is only polled. *)
Definition feed_poll (kev : kevent) : N unit :=
  let* n := get in
  c_assert (revents n =? 0) ;;
  (if has_evfilt_user then c_assert (kev_filter kev =? EVFILT_USER)
   else lift (read_until_error fuel (node_self_pipe n).1)) ;;
  let* r := poll1 (fd n) (events n) in
  let revs := match r with None => EPOLLERR | Some (_, revs) => revs end in
  let revs := if has revs POLLNVAL then 0 else revs in
  self revents := revs ;;
  c_assert (Z.ldiff revs (Z.lor (Z.lor POLLIN POLLOUT) (Z.lor POLLERR
    (Z.lor POLLHUP (if has_pollrdhup then EPOLLRDHUP else 0)))) =? 0) ;;
  maybe_translate_rdhup.

(** A FIFO whose write side had no reader when it was registered. *)
Definition feed_fifo_self (ptr kq : Z) (kev : kevent) : N unit :=
  let* n := get in
  c_assert (revents n =? 0) ;;
  c_assert (negb (has_evfilt_read n)) ;;
  c_assert (negb (has_evfilt_write n)) ;;
  c_assert (negb (has_evfilt_except_ n)) ;;
  let* f := needed_filters in
  c_assert (negb (evfilt_write f =? 0)) ;;
  let nkev := EV_SET (u32 (fd n)) EVFILT_WRITE
    (Z.lor (Z.lor EV_ADD (Z.land (evfilt_write f) EV_CLEAR)) EV_RECEIPT) 0 0 ptr in
  let* r := call (sys_kevent kq [nkev] 1 None) in
  let registered := match r with Ok [k] => kev_data k =? 0 | _ => false end in
  if negb registered then
    when (negb (is_edge_triggered n)) (registered_fds_node_trigger_self ptr kq) ;;
    feed_out kev (Z.lor EPOLLERR EPOLLOUT)
  else
    self has_evfilt_write := true ;;
    maybe_translate_rdhup.

(** [EVFILT_EXCEPT]: out-of-band data.  macOS may report it although there is none;
    it is looked up in a kqueue of its own there. *)
Definition feed_except (ptr kq : Z) (kev : kevent) : N Z :=
  let* n := get in
  if is_os Apple then
    if has (kev_fflags kev) NOTE_OOB then
      let* t := call sys_kqueue in
      match t with
      | Err _ => ret 0
      | Ok tmp_kq =>
          let probe := EV_SET (fd n) EVFILT_EXCEPT (Z.lor EV_ADD EV_ONESHOT) NOTE_OOB 0 ptr in
          let* r1 := call (sys_kevent tmp_kq [probe] 0 None) in
          let* active :=
            if is_ok r1 then
              let* r2 := call (sys_kevent tmp_kq [] 1 (Some {| tv_sec := 0; tv_nsec := 0 |})) in
              ret (match r2 with Ok [k] => has (kev_fflags k) NOTE_OOB | _ => false end)
            else ret false in
          let* need_reset :=
            if active then
              let* f := needed_filters in
              ret (negb (evfilt_except f =? 0) && negb (has (evfilt_except f) EV_CLEAR))
            else ret true in
          call_ (sys_close tmp_kq) ;;
          when need_reset
            (call_ (sys_kevent kq [EV_SET (fd n) EVFILT_EXCEPT EV_DELETE 0 0 0] 0 None) ;;
             call_ (sys_kevent kq
               [EV_SET (fd n) EVFILT_EXCEPT (Z.lor EV_ADD EV_CLEAR) NOTE_OOB 0 ptr] 0 None)) ;;
          ret (if active then EPOLLPRI else 0)
      end
    else ret 0
  else
    c_assert (has (kev_fflags kev) NOTE_OOB) ;;
    ret EPOLLPRI.

(** The end-of-file state after a kevent. *)
Definition next_eof_state (n : RegisteredFDsNode) (kev : kevent) : Z :=
  let eof := has (kev_flags kev) EV_EOF in
  if is_type NODE_TYPE_SOCKET n then
    if kev_filter kev =? EVFILT_READ then
      if eof then Z.lor (eof_state n) EOF_STATE_READ_EOF
      else Z.ldiff (eof_state n) EOF_STATE_READ_EOF
    else if kev_filter kev =? EVFILT_WRITE then
      if eof then Z.lor (eof_state n) EOF_STATE_WRITE_EOF
      else Z.ldiff (eof_state n) EOF_STATE_WRITE_EOF
    else eof_state n
  else if (kev_filter kev =? EVFILT_READ) || (kev_filter kev =? EVFILT_WRITE) then
    if eof then EOF_STATE_BOTH else 0
  else eof_state n.

Definition PIPE_BUF : Z := 512.

(** The events of a node at end of file, given the events [revs] so far; [None] is the
    jump to [maybe_translate_rdhup]. *)
Definition eof_events (kev : kevent) (revs : Z) : N (option Z) :=
  let* n := get in
  match node_type n with
  | NODE_TYPE_FIFO =>
      if kev_filter kev =? EVFILT_READ then
        ret (Some (Z.lor (if kev_data kev =? 0 then Z.ldiff revs EPOLLIN else revs) EPOLLHUP))
      else if kev_filter kev =? EVFILT_WRITE then
        if has_evfilt_read n then
          c_assert (readable n) ;;
          c_assert (writable n) ;;
          when (negb (revents n =? 0)) (self revents := Z.lor (revents n) POLLHUP) ;;
          ret None
        else
          ret (Some (Z.lor (if kev_data kev <? PIPE_BUF then Z.ldiff revs EPOLLOUT else revs) EPOLLERR))
      else stop_with Unreachable
  | NODE_TYPE_SOCKET =>
      let eof := eof_state n in
      let e := if has eof EOF_STATE_READ_EOF then Z.lor EPOLLIN EPOLLRDHUP else 0 in
      let e := if has eof EOF_STATE_WRITE_EOF then Z.lor e EPOLLOUT else e in
      let e := if eof =? EOF_STATE_BOTH then Z.lor e EPOLLHUP else e in
      ret (Some (Z.lor revs e))
  | _ => ret (Some (Z.lor revs EPOLLHUP))
  end.

(** The events of EVFILT_READ and EVFILT_WRITE themselves; without EVFILT_EXCEPT a poll
    tells whether there is urgent data. *)
Definition filter_events (kev : kevent) : N Z :=
  let* n := get in
  if kev_filter kev =? EVFILT_READ then
    if negb has_evfilt_except && has (events n) EPOLLPRI then
      let* r := poll1 (fd n) POLLPRI in
      let pri := match r with Some (1, revs) => has revs POLLPRI | _ => false end in
      self pollpri_active := pri ;;
      ret (if pri then Z.lor EPOLLIN EPOLLPRI else EPOLLIN)
    else ret EPOLLIN
  else ret EPOLLOUT.

(** An event of one of the filters of the descriptor. *)
Definition feed_filter (ptr kq : Z) (kev : kevent) : N unit :=
  let* n := get in
  c_assert ((kev_filter kev =? EVFILT_READ) || (kev_filter kev =? EVFILT_WRITE) ||
    (has_evfilt_except && (kev_filter kev =? EVFILT_EXCEPT))) ;;
  c_assert (kev_ident kev =? fd n) ;;
  if has_evfilt_except && (kev_filter kev =? EVFILT_EXCEPT) then
    let* revs := feed_except ptr kq kev in
    feed_out kev revs
  else
    let* revs := filter_events kev in
    mod_self (fun n => n <| eof_state := next_eof_state n kev |>) ;;
    let revs := if has (kev_flags kev) EV_ERROR then Z.lor revs EPOLLERR else revs in
    let revs :=
      if has (kev_flags kev) EV_EOF && negb (kev_fflags kev =? 0)
      then Z.lor revs EPOLLERR else revs in
    let* n := get in
    if negb (eof_state n =? 0) then
      let* r := eof_events kev revs in
      match r with
      | None => maybe_translate_rdhup
      | Some revs => feed_out kev revs
      end
    else feed_out kev revs.

(** The event of the node's own trigger. *)
Definition is_self_event (n : RegisteredFDsNode) (kev : kevent) : bool :=
  if has_evfilt_user then kev_filter kev =? EVFILT_USER
  else (0 <=? (node_self_pipe n).1) && (kev_ident kev =? (node_self_pipe n).1).

Definition registered_fds_node_feed_event (ptr kq : Z) (kev : kevent) : N unit :=
  let* n := get in
  if is_type NODE_TYPE_POLL n then feed_poll kev
  else if is_type NODE_TYPE_FIFO n && is_self_event n kev then feed_fifo_self ptr kq kev
  else feed_filter ptr kq kev.

(** The changes that move the filters without an event to a completion kqueue. *)
Definition completion_changes (ptr : Z) (n : RegisteredFDsNode) : list kevent :=
  let add filter fflags :=
    EV_SET (u32 (fd n)) filter (Z.lor (Z.lor EV_ADD EV_ONESHOT) EV_RECEIPT) fflags 0 ptr in
  (if has_evfilt_read n && negb (got_evfilt_read n) then [add EVFILT_READ 0] else []) ++
  (if has_evfilt_write n && negb (got_evfilt_write n) then [add EVFILT_WRITE 0] else []) ++
  (if has_evfilt_except_ n && negb (got_evfilt_except n) then [add EVFILT_EXCEPT NOTE_OOB] else []).

(** The result is [*kq]. *)
Definition registered_fds_node_register_for_completion (kq ptr : Z) : N Z :=
  let* n := get in
  c_assert (has_evfilt_except || negb (has_evfilt_except_ n && negb (got_evfilt_except n))) ;;
  match completion_changes ptr n with
  | [] => ret kq
  | kev =>
      let* kq :=
        if kq <? 0 then
          let* r := call (sys_kqueue1 O_CLOEXEC) in
          ret (match r with Ok k => k | Err _ => -1 end)
        else ret kq in
      when (0 <=? kq) (call_ (sys_kevent kq kev (Z.of_nat (length kev)) None)) ;;
      ret kq
  end.
End Node.

(** ** Properties of the filters *)

(** The node describes a descriptor [get_needed_filters] can serve: what the rest of the code
    keeps true of every node. *)
Record filterable `{Platform} (n : RegisteredFDsNode) : Prop := {
  f_type : node_type n <> NODE_TYPE_UNSET;
  f_fifo : node_type n = NODE_TYPE_FIFO -> readable n || writable n = true;
  f_eof : eof_state n = 0 \/ eof_state n = EOF_STATE_BOTH \/
    node_type n = NODE_TYPE_SOCKET /\
    (eof_state n = EOF_STATE_READ_EOF \/ eof_state n = EOF_STATE_WRITE_EOF);
  f_other : node_type n <> NODE_TYPE_SOCKET -> Z.ldiff (events n) (Z.lor EPOLLIN EPOLLOUT) = 0
}.

(** A kqueue has no end of file. *)
Definition kqueue_quiet (n : RegisteredFDsNode) : Prop :=
  node_type n = NODE_TYPE_KQUEUE -> eof_state n = 0.

(** A set of flags inside [a] or [b] that has neither is empty. *)
Lemma no_flags x a b : Z.ldiff x (Z.lor a b) = 0 -> has x a = false -> has x b = false -> x = 0.
Proof.
  unfold has. intros Hd Ha Hb. b2p. apply Z.bits_inj'. intros i Hi. rewrite Z.bits_0.
  assert (Z.testbit (Z.ldiff x (Z.lor a b)) i = false) as E1 by (by rewrite Hd, Z.bits_0).
  assert (Z.testbit (Z.land x a) i = false) as E2 by (by rewrite Ha, Z.bits_0).
  assert (Z.testbit (Z.land x b) i = false) as E3 by (by rewrite Hb, Z.bits_0).
  rewrite Z.ldiff_spec, Z.lor_spec in E1. rewrite Z.land_spec in E2, E3.
  destruct (Z.testbit x i), (Z.testbit a i), (Z.testbit b i); cbn in *; congruence.
Qed.

(** The level of a filter that is to report as long as the condition holds. *)
Definition level (n : RegisteredFDsNode) : Z := if is_edge_triggered n then EV_CLEAR else 1.

(** The filters without EPOLLET. *)
Record level_filters `{Platform} (n : RegisteredFDsNode) (f : NeededFilters) : Prop := {
  l_some : evfilt_read f <> 0 \/ evfilt_write f <> 0;
  l_ok : filter_ok (evfilt_read f) && filter_ok (evfilt_write f) && filter_ok (evfilt_except f) = true;
  l_in : has (events n) EPOLLIN = true ->
    (node_type n = NODE_TYPE_FIFO -> readable n = true) -> evfilt_read f = 1;
  l_out : has (events n) EPOLLOUT = true -> node_type n <> NODE_TYPE_KQUEUE ->
    (node_type n = NODE_TYPE_FIFO -> writable n = true) ->
    (node_type n = NODE_TYPE_SOCKET -> eof_state n <> EOF_STATE_BOTH) -> evfilt_write f = 1;
  l_except : has_evfilt_except = false -> evfilt_except f = 0
}.

Ltac use_refl :=
  repeat match goal with
  | H : ?x = ?x -> _ |- _ => specialize (H eq_refl)
  | E : ?x = ?t, H : ?x = ?t -> _ |- _ => specialize (H E)
  end.

Ltac level_filters :=
  eexists; split; [reflexivity|]; split;
    try done; first [by left | by right | by intros; use_refl; cbn in *; congruence].

Lemma socket_read_filter_cases `{Platform} n :
  filter_ok (socket_read_filter n) = true /\
  (has (events n) EPOLLIN = true -> socket_read_filter n = 1).
Proof.
  unfold socket_read_filter. destruct (has (events n) EPOLLIN); cbn [bang Z.eqb andb negb].
  - by rewrite andb_false_r.
  - split; [|done]. repeat case_goal; done.
Qed.

Lemma filter_ok_cases f : filter_ok f = true -> f = 0 \/ f = 1 \/ f = EV_CLEAR.
Proof. unfold filter_ok. rewrite !orb_true_iff, !Z.eqb_eq. tauto. Qed.

Lemma filters_by_type_level `{Platform} n : filterable n -> kqueue_quiet n ->
  exists f, filters_by_type n = inr f /\ level_filters n f.
Proof.
  intros [Ht Hf He Ho] Hk. unfold filters_by_type, kqueue_quiet in *.
  assert (node_type n <> NODE_TYPE_SOCKET -> events n <> 0 -> has (events n) EPOLLIN = false ->
    has (events n) EPOLLOUT = false -> False) as Hnone.
  { intros Hs Hne Hi Hout. by apply Hne, (no_flags _ EPOLLIN EPOLLOUT); [apply Ho|..]. }
  assert (events n = 0 -> forall m, has (events n) m = false) as Hzero by (by intros ->).
  pose proof (socket_read_filter_cases n) as [Hr Hrin].
  destruct (node_type n) eqn:Et; try done.
  - specialize (Hf eq_refl). specialize (Hnone ltac:(done)).
    destruct (Z.eqb_spec (events n) 0) as [Ez|Ez]; [rewrite ?(Hzero Ez)|];
      (destruct He as [-> | [-> | [? _]]]; [..|done]);
      destruct (has (events n) EPOLLIN) eqn:E1, (has (events n) EPOLLOUT) eqn:E2;
      destruct (readable n) eqn:E3, (writable n) eqn:E4; try done; try (by destruct Hnone);
      try (by rewrite (Hzero Ez) in *).
    all: level_filters.
  - destruct (socket_eof_filters _ _ _) as [r w] eqn:Esw. eexists; split; [reflexivity|].
    assert (filter_ok r = true /\ filter_ok w = true /\ (r <> 0 \/ w <> 0) /\
      (socket_read_filter n = 1 -> r = 1) /\
      (bang (has (events n) EPOLLOUT) = 1 -> eof_state n <> EOF_STATE_BOTH -> w = 1))
      as (Hor & How & Hsome & Hri & Hwo).
    { apply filter_ok_cases in Hr. revert Esw.
      generalize (socket_read_filter n) Hr. intros r0 Hr0.
      destruct He as [-> | [-> | [_ [-> | ->]]]], Hr0 as [-> | [-> | ->]],
        (has (events n) EPOLLOUT); intros [= <- <-]; split_and!; try done; (by left) || (by right). }
    split; cbn [evfilt_read evfilt_write evfilt_except]; try done.
    + rewrite Hor, How. destruct has_evfilt_except, (has (events n) EPOLLPRI); done.
    + by auto.
    + intros Ho1 _ _ Hne. apply Hwo; [by rewrite Ho1|]. by apply Hne.
    + by intros ->.
  - rewrite (Hk eq_refl). destruct (has (events n) EPOLLIN) eqn:E1; level_filters.
  - specialize (Hnone ltac:(done)).
    destruct (Z.eqb_spec (events n) 0) as [Ez|Ez]; [rewrite ?(Hzero Ez)|];
      (destruct He as [He | [He | [? _]]]; [..|done]); rewrite ?He;
      destruct (has (events n) EPOLLIN) eqn:E1, (has (events n) EPOLLOUT) eqn:E2;
      try done; try (by destruct Hnone); try (by rewrite (Hzero Ez) in *).
    all: level_filters.
  - specialize (Hnone ltac:(done)).
    destruct (Z.eqb_spec (events n) 0) as [Ez|Ez]; [rewrite ?(Hzero Ez)|];
      (destruct He as [He | [He | [? _]]]; [..|done]); rewrite ?He;
      destruct (has (events n) EPOLLIN) eqn:E1, (has (events n) EPOLLOUT) eqn:E2;
      try done; try (by destruct Hnone); try (by rewrite (Hzero Ez) in *).
    all: level_filters.
Qed.

(** Filters on their edge. *)
Lemma edge_ne_1 f : edge f <> 1.
Proof. unfold edge. by destruct (f =? 0). Qed.

Lemma edge_ok f : filter_ok (edge f) = true.
Proof. unfold edge. by destruct (f =? 0). Qed.

Lemma edge_nonzero f : f <> 0 -> edge f = EV_CLEAR.
Proof. intros Hf. unfold edge. by rewrite (proj2 (Z.eqb_neq f 0)). Qed.

(** The filters with EPOLLET taken into account. *)
Definition edged (n : RegisteredFDsNode) (f : NeededFilters) : NeededFilters :=
  if is_edge_triggered n then
    {| evfilt_read := edge (evfilt_read f); evfilt_write := edge (evfilt_write f);
       evfilt_except := edge (evfilt_except f) |}
  else f.

Lemma edged_some n f : evfilt_read f <> 0 \/ evfilt_write f <> 0 ->
  evfilt_read (edged n f) <> 0 \/ evfilt_write (edged n f) <> 0.
Proof.
  unfold edged. destruct (is_edge_triggered n); [|done]. cbn.
  intros [Hr|Hw]; [left|right]; by rewrite edge_nonzero.
Qed.

Lemma get_needed_filters_run `{Platform} n : filterable n -> kqueue_quiet n ->
  exists f, level_filters n f /\ get_needed_filters n = inr (edged n f).
Proof.
  intros Hn Hk. destruct (filters_by_type_level n Hn Hk) as (f & Hf & Hl).
  exists f. split; [done|]. unfold get_needed_filters. rewrite Hf. fold (edged n f).
  destruct Hl as [Hsome Hok _ _ _]. pose proof (edged_some n f Hsome) as Hs.
  assert (negb (evfilt_read (edged n f) =? 0) || negb (evfilt_write (edged n f) =? 0) = true) as ->.
  { rewrite orb_true_iff, !negb_true_iff, !Z.eqb_neq. done. }
  revert Hok. unfold edged. destruct (is_edge_triggered n); cbn; [by rewrite !edge_ok|].
  by intros ->.
Qed.

(** [needed_filters] does not fail on such a node. *)
Lemma wp_needed_filters {W : Type} `{Platform} o (n : RegisteredFDsNode) (w : W) Q :
  filterable n -> kqueue_quiet n ->
  (forall f, get_needed_filters n = inr f -> evfilt_read f <> 0 \/ evfilt_write f <> 0 ->
     (has_evfilt_except = false -> evfilt_except f = 0) -> Q f (n, w)) ->
  wpg o needed_filters Q (n, w).
Proof.
  intros Hn Hk HQ. destruct (get_needed_filters_run n Hn Hk) as (f & [Hs _ _ _ He] & Hf).
  unfold needed_filters, get. wps. rewrite Hf. apply wp_ret, HQ; [done|by apply edged_some|].
  intros E. specialize (He E). unfold edged. destruct (is_edge_triggered n); [|done].
  cbn. by rewrite He.
Qed.

(** C29: the filters of a node that can be served.  No assertion fails and some filter is
    registered, so that a hang-up is noticed even when no event was asked for.  A
    requested EPOLLIN is watched with EVFILT_READ and a requested EPOLLOUT with
    EVFILT_WRITE (unless the descriptor cannot become so or is at end of file in both
    directions), level triggered, or edge triggered when EPOLLET or EPOLLONESHOT was
    given; an edge-triggered node has no level-triggered filter. *)
Theorem get_needed_filters_correct `{Platform} n : filterable n -> kqueue_quiet n ->
  exists f, get_needed_filters n = inr f /\
    (evfilt_read f <> 0 \/ evfilt_write f <> 0) /\
    (has (events n) EPOLLIN = true ->
     (node_type n = NODE_TYPE_FIFO -> readable n = true) -> evfilt_read f = level n) /\
    (has (events n) EPOLLOUT = true -> node_type n <> NODE_TYPE_KQUEUE ->
     (node_type n = NODE_TYPE_FIFO -> writable n = true) ->
     (node_type n = NODE_TYPE_SOCKET -> eof_state n <> EOF_STATE_BOTH) ->
     evfilt_write f = level n) /\
    (is_edge_triggered n = true ->
     evfilt_read f <> 1 /\ evfilt_write f <> 1 /\ evfilt_except f <> 1) /\
    (has_evfilt_except = false -> evfilt_except f = 0).
Proof.
  intros Hn Hk. destruct (get_needed_filters_run n Hn Hk) as (f & [Hs _ Hin Hout He] & Hf).
  exists (edged n f). split; [done|]. split; [by apply edged_some|].
  unfold edged, level. destruct (is_edge_triggered n); cbn; split_and!; auto using edge_ne_1.
  - intros H1 H2. by rewrite (Hin H1 H2).
  - intros H1 H2 H3 H4. by rewrite (Hout H1 H2 H3 H4).
  - intros E. by rewrite (He E).
Qed.

