(* ===== verification/EpollLaws.v ===== *)
(** * What the epoll code relies on

    The documented behaviour of the system calls, as seen by code whose memory
    is referenced by the kernel: which user data the filters of a kqueue carry
    ([knote]) and which addresses are in use ([allocated]). *)

From S2P Require Import Prelude Kernel KqueueEvent EpollNode.

(** Identifier and filter of a change or an event. *)
Definition key_of (k : kevent) : Z * Z := (kev_ident k, kev_filter k).

(** Calls that neither register filters nor manage memory. *)
Definition quiet {A} (c : syscall A) : bool :=
  match c with
  | sys_kevent _ (_ :: _) _ _ => false
  | sys_malloc _ | sys_realloc _ _ | sys_free _ => false
  | _ => true
  end.

Definition is_delete (k : kevent) : Prop := has (kev_flags k) EV_DELETE = true.
Definition wants_receipt (k : kevent) : Prop := has (kev_flags k) EV_RECEIPT = true.

Class EpollLaws (W : Type) `{!Platform, !Kernel W, !Fuel} := {
  knote : W -> Z -> Z * Z -> option Z;
  allocated : W -> Z -> Prop;
  (** A quiet call creates no filter and frees no memory. *)
  law_quiet_knote A (c : syscall A) w kq key u : quiet c = true ->
    knote (kernel_step c w).2 kq key = Some u -> knote w kq key = Some u;
  law_quiet_allocated A (c : syscall A) w p : quiet c = true ->
    allocated w p -> allocated (kernel_step c w).2 p;
  (** malloc(3), realloc(3), free(3) *)
  law_memory_knote w kq key u :
    (forall n, knote (kernel_step (sys_malloc n) w).2 kq key = Some u -> knote w kq key = Some u) /\
    (forall p n, knote (kernel_step (sys_realloc p n) w).2 kq key = Some u -> knote w kq key = Some u) /\
    (forall p, knote (kernel_step (sys_free p) w).2 kq key = Some u -> knote w kq key = Some u);
  law_malloc w n :
    let (r, w') := kernel_step (sys_malloc n) w in
    (forall p, allocated w p -> allocated w' p) /\
    match r with Ok p => p <> 0 /\ ~ allocated w p /\ allocated w' p | Err _ => True end;
  law_realloc w q n :
    let (r, w') := kernel_step (sys_realloc q n) w in
    (forall p, p <> q -> allocated w p -> allocated w' p) /\
    match r with
    | Ok p => p <> 0 /\ (p = q \/ ~ allocated w p) /\ allocated w' p
    | Err _ => allocated w q -> allocated w' q
    end;
  law_free w q p : p <> q -> allocated w p -> allocated (kernel_step (sys_free q) w).2 p;
  (** kevent(2): a filter gets its user data from a change that does not delete it. *)
  law_changes_allocated w kq changes n t p :
    allocated w p -> allocated (kernel_step (sys_kevent kq changes n t) w).2 p;
  law_changes w kq changes n t kq' key u :
    knote (kernel_step (sys_kevent kq changes n t) w).2 kq' key = Some u ->
    knote w kq' key = Some u \/
    kq' = kq /\ exists k, k ∈ changes /\ has (kev_flags k) EV_DELETE = false /\
      key_of k = key /\ kev_udata k = u;
  (** EV_DELETE: the filter is gone, whether it existed or not; with EV_RECEIPT the changes
      after a failed one are still made. *)
  law_delete w kq changes n t k :
    Forall is_delete changes -> length changes = 1%nat \/ Forall wants_receipt changes ->
    k ∈ changes -> knote (kernel_step (sys_kevent kq changes n t) w).2 kq (key_of k) = None;
  (** EV_RECEIPT: every change is answered by an event with EV_ERROR. *)
  law_receipt w kq changes : changes <> [] -> Forall wants_receipt changes ->
    let (r, w') := kernel_step (sys_kevent kq changes (Z.of_nat (length changes)) None) w in
    match r with
    | Ok l => length l = length changes /\ Forall (fun k => has (kev_flags k) EV_ERROR = true) l /\
        (* ENODEV: the descriptor supports no filter *)
        (forall k0 l', l = k0 :: l' -> kev_data k0 = ENODEV ->
         forall k, k ∈ changes -> knote w' kq (key_of k) = None)
    | Err _ => True
    end;
  (** Events: at most as many as asked for, of filters that are registered. *)
  law_events w kq n t :
    let (r, w') := kernel_step (sys_kevent kq [] n t) w in
    match r with
    | Ok l => Z.of_nat (length l) <= Z.max 0 n /\ NoDup (key_of <$> l) /\
        forall e, e ∈ l -> knote w kq (key_of e) = Some (kev_udata e)
    | Err _ => True
    end;
  (** Descriptors are not negative and fit an [int]; a new kqueue is empty. *)
  law_fstat w fd : is_ok (kernel_step (sys_fstat fd) w).1 = true -> 0 <= fd <= INT_MAX;
  law_pipe_fds w fl :
    match (kernel_step (sys_pipe2 fl) w).1 with Ok p => 0 <= p.1 /\ 0 <= p.2 | Err _ => True end;
  law_new_kqueue w fl :
    let (r, w') := kernel_step (sys_kqueue1 fl) w in
    match r with Ok k => 0 <= k /\ forall key, knote w' k key = None | Err _ => True end;
  (** A non-blocking pipe can be read empty. *)
  law_read_ends w fd : has_evfilt_user = false ->
    exists w', read_until_error fuel fd w = Done tt w'
}.

(** [calm w w']: no new filter, and all memory still in use. *)
Definition calm {W} `{EpollLaws W} (w w' : W) : Prop :=
  (forall kq key u, knote w' kq key = Some u -> knote w kq key = Some u) /\
  (forall p, allocated w p -> allocated w' p).

#[export] Instance calm_preorder {W} `{EpollLaws W} : PreOrder calm.
Proof.
  split; [by intros w|]. intros w1 w2 w3 [] []. split; auto.
Qed.

(** What a file description does for an epoll instance that watches it. *)
Class PollableLaws (W : Type) `{EpollLaws W, !Pollable W} := {
  law_poll_fun d fd r w : wp (poll_fun d fd r) (fun _ w' => calm w w') w;
  law_ref_fun d w : wp (ref_fun d) (fun _ w' => calm w w') w;
  law_unref_fun d w : wp (unref_fun d) (fun _ w' => calm w w') w
}.

Section Calls.
Context {W : Type} `{EpollLaws W, !Pollable W, !PollableLaws W} (o : stop -> Prop).

Lemma calm_step {A} (c : syscall A) w : quiet c = true -> calm w (kernel_step c w).2.
Proof. intros Hq. split; intros; [by eapply law_quiet_knote|by apply law_quiet_allocated]. Qed.

(** A quiet call, from a structure in memory. *)
Lemma wp_quiet {C A} (c : syscall A) (x : C) w Q : quiet c = true ->
  (forall r w', calm w w' -> Q r (x, w')) -> wpg o (call c) Q (x, w).
Proof.
  intros Hq HQ. wps. pose proof (calm_step c w Hq).
  destruct (kernel_step c w) as [r w']. by apply HQ.
Qed.

Lemma wp_quiet_ {C A} (c : syscall A) (x : C) w Q : quiet c = true ->
  (forall w', calm w w' -> Q tt (x, w')) -> wpg o (call_ c) Q (x, w).
Proof. intros Hq HQ. unfold call_. apply wp_bind, wp_quiet; [done|]. intros r w1 Hc. by apply wp_ret, HQ. Qed.

Lemma wp_pollable_poll p fd r w (Q : option Z -> W -> Prop) :
  (forall a w', calm w w' -> Q a w') -> wpg o (pollable_desc_poll p fd r) Q w.
Proof.
  intros HQ. destruct p as [d|]; cbn; [|by apply wp_ret, HQ].
  pose proof (law_poll_fun d fd r w) as Hp. unfold wpg in *. destruct (poll_fun d fd r w); [auto|done].
Qed.

Lemma wp_pollable_ref p w (Q : unit -> W -> Prop) :
  (forall w', calm w w' -> Q tt w') -> wpg o (pollable_desc_ref p) Q w.
Proof.
  intros HQ. destruct p as [d|]; cbn; [|by apply wp_ret, HQ].
  pose proof (law_ref_fun d w) as Hp. unfold wpg in *. destruct (ref_fun d w) as [[]|]; [auto|done].
Qed.

Lemma wp_pollable_unref p w (Q : unit -> W -> Prop) :
  (forall w', calm w w' -> Q tt w') -> wpg o (pollable_desc_unref p) Q w.
Proof.
  intros HQ. destruct p as [d|]; cbn; [|by apply wp_ret, HQ].
  pose proof (law_unref_fun d w) as Hp. unfold wpg in *. destruct (unref_fun d w) as [[]|]; [auto|done].
Qed.

(** Draining a self pipe. *)
Lemma read_until_error_calm n fd w w' : read_until_error n fd w = Done tt w' -> calm w w'.
Proof.
  revert w. induction n as [|n IH]; intros w; cbn; [done|]. unfold bind, call.
  pose proof (calm_step (sys_read fd 32) w eq_refl) as Hc.
  destruct (kernel_step (sys_read fd 32) w) as [[l|ec] w1]; cbn in Hc.
  - intros Hr. etrans; [exact Hc|by apply IH].
  - by intros [= <-].
Qed.

Lemma wp_drain fd w (Q : unit -> W -> Prop) : has_evfilt_user = false ->
  (forall w', calm w w' -> Q tt w') -> wpg o (read_until_error fuel fd) Q w.
Proof.
  intros Hu HQ. destruct (law_read_ends w fd Hu) as [w' Hr]. unfold wpg. rewrite Hr.
  apply HQ. by eapply read_until_error_calm.
Qed.
End Calls.

(** [quiet_call as r w' Hc]: the answer of the quiet call the goal makes next. *)
Tactic Notation "quiet_call" "as" simple_intropattern(r) ident(w') ident(Hc) :=
  match goal with
  | |- context [kernel_step ?c ?w] =>
      pose proof (calm_step c w eq_refl) as Hc;
      destruct (kernel_step c w) as [r w']; cbn [snd] in Hc
  end.
