(* ===== verification/EpollFeed.v ===== *)
(** * Lemmas about the operations of a node

    What [registered_fds_node_feed_event] and the triggers of a node change,
    in the node and in the kernel. *)

From S2P Require Import Prelude Kernel KqueueEvent EpollNode EpollLaws.

(** ** Sets of flags *)

(** [x] has no flag outside [a]. *)
Definition within (x a : Z) : Prop := Z.ldiff x a = 0.

Lemma within_spec x a : within x a <-> forall i, 0 <= i -> Z.testbit x i = true -> Z.testbit a i = true.
Proof.
  unfold within. split.
  - intros Hw i Hi Hx. assert (Z.testbit (Z.ldiff x a) i = false) as Hb by (by rewrite Hw, Z.bits_0).
    rewrite Z.ldiff_spec, Hx in Hb. by destruct (Z.testbit a i).
  - intros Hb. apply Z.bits_inj'. intros i Hi. rewrite Z.ldiff_spec, Z.bits_0.
    specialize (Hb i Hi). destruct (Z.testbit x i), (Z.testbit a i); try done. by specialize (Hb eq_refl).
Qed.

Ltac bitwise :=
  rewrite ?within_spec in *; intros i Hi;
  repeat match goal with H : forall j, 0 <= j -> _ |- _ => specialize (H i Hi) end;
  repeat first [rewrite Z.lor_spec | rewrite Z.land_spec | rewrite Z.ldiff_spec];
  rewrite ?Z.lor_spec, ?Z.land_spec, ?Z.ldiff_spec in *;
  repeat match goal with
  | |- context [Z.testbit ?x i] => destruct (Z.testbit x i)
  | H : context [Z.testbit ?x i] |- _ => destruct (Z.testbit x i)
  end; cbn in *; try done; auto.

Lemma within_land x y a : within (Z.land x y) a <-> within (Z.land y x) a.
Proof. by rewrite Z.land_comm. Qed.

Lemma within_land_r x a b : within a b -> within (Z.land x a) b.
Proof. intros Ha. bitwise. Qed.

Lemma within_lor_r x a b : within x a -> within x (Z.lor a b).
Proof. intros Hx. bitwise. Qed.

Lemma within_lor x y a : within x a -> within y a -> within (Z.lor x y) a.
Proof. intros Hx Hy. bitwise. Qed.

Lemma within_ldiff x y a : within x a -> within (Z.ldiff x y) a.
Proof. intros Hx. bitwise. Qed.

Lemma within_0 a : within 0 a.
Proof. unfold within. apply Z.ldiff_0_l. Qed.

Lemma within_refl a : within a a.
Proof. bitwise. Qed.

(** ** What changes in a node *)

(** The events collected, the end-of-file state and the filters may change. *)
Record same_node (n n' : RegisteredFDsNode) : Prop := {
  s_fd : fd n' = fd n;
  s_data : data n' = data n;
  s_registered : is_registered n' = is_registered n;
  s_type : node_type n' = node_type n;
  s_node_data : node_data n' = node_data n;
  s_events : events n' = events n;
  s_rdhup : needs_rdhup_translation n' = needs_rdhup_translation n;
  s_edge : is_edge_triggered n' = is_edge_triggered n;
  s_oneshot : is_oneshot n' = is_oneshot n;
  s_list : is_on_pollfd_list n' = is_on_pollfd_list n;
  s_pipe : node_self_pipe n' = node_self_pipe n;
  s_filters : node_type n = NODE_TYPE_POLL ->
    has_evfilt_read n' = has_evfilt_read n /\ has_evfilt_write n' = has_evfilt_write n
}.

#[export] Instance same_node_preorder : PreOrder same_node.
Proof.
  split; [by intros n; split|]. intros n1 n2 n3 [] []. split; try congruence.
  intros E. destruct (s_filters0 E) as [<- <-]. apply s_filters1. congruence.
Qed.

(** The flags a node may report: the requested ones, and the two that need no request;
    the user's value of EPOLLRDHUP where it differs. *)
Definition allowed `{Platform} (n : RegisteredFDsNode) : Z :=
  Z.lor (reportable n) (if needs_rdhup_translation n then 0x2000 else 0).

Lemma same_node_allowed `{Platform} n n' : same_node n n' -> allowed n' = allowed n.
Proof. intros Hs. unfold allowed, reportable. by rewrite (s_events _ _ Hs), (s_rdhup _ _ Hs). Qed.

Section Feed.
Context {W : Type} `{EpollLaws W, !Pollable W, !PollableLaws W} (o : stop -> Prop).

(** The state after an event: the node is the same but for what it collected, and
    reports only what was asked for. *)
Definition fed (n n' : RegisteredFDsNode) : Prop :=
  same_node n n' /\ (within (revents n) (allowed n) -> within (revents n') (allowed n)).

Lemma fed_refl n : fed n n.
Proof. split; done. Qed.

Lemma fed_trans n1 n2 n3 : fed n1 n2 -> fed n2 n3 -> fed n1 n3.
Proof.
  intros [Hs1 Hr1] [Hs2 Hr2]. split; [by etrans|].
  rewrite (same_node_allowed n1 n2 Hs1) in Hr2. auto.
Qed.

Lemma translate_fed n (w : W) Q :
  (forall n', fed n n' -> eof_state n' = eof_state n -> Q tt (n', w)) ->
  wpg o maybe_translate_rdhup Q (n, w).
Proof.
  intros HQ. unfold maybe_translate_rdhup, get. wps.
  destruct (has (revents n) EPOLLRDHUP && needs_rdhup_translation n) eqn:E; wps.
  - apply HQ; [|done]. split.
    + by split.
    + intros Hr. fields. apply within_lor; [by apply within_ldiff|].
      apply andb_true_iff in E as [_ E]. unfold allowed. rewrite E. bitwise.
  - apply HQ; [apply fed_refl|done].
Qed.

Lemma note_event_same kev n w (Q : unit -> RegisteredFDsNode * W -> Prop) :
  (forall n', same_node n n' -> revents n' = revents n -> eof_state n' = eof_state n ->
     Q tt (n', w)) ->
  wpg o (note_event kev) Q (n, w).
Proof.
  intros HQ. unfold note_event, get. wps. repeat (case_goal; wps); by apply HQ.
Qed.

(** What is masked with the reportable flags is allowed. *)
Lemma reportable_allowed n x : within (Z.land x (reportable n)) (allowed n).
Proof. apply within_land_r. unfold allowed. apply within_lor_r, within_refl. Qed.

Lemma ask_pollable_fed n w (Q : unit -> RegisteredFDsNode * W -> Prop) :
  (forall n' w', fed n n' -> eof_state n' = eof_state n -> calm w w' -> Q tt (n', w')) ->
  wpg o ask_pollable Q (n, w).
Proof.
  intros HQ. unfold ask_pollable, get. wps. destruct (is_type NODE_TYPE_KQUEUE n); wps.
  - apply wp_pollable_poll. intros r w' Hc. wps. apply HQ; [|done..].
    split; [by split|]. intros _. exact (reportable_allowed n _).
  - by apply HQ; [apply fed_refl|..].
Qed.

Lemma feed_out_fed kev revs n w (Q : unit -> RegisteredFDsNode * W -> Prop) :
  (forall n' w', fed n n' -> eof_state n' = eof_state n -> calm w w' -> Q tt (n', w')) ->
  wpg o (feed_out kev revs) Q (n, w).
Proof.
  intros HQ. unfold feed_out. wps.
  apply note_event_same. intros n1 Hs1 Hr1 He1.
  assert (fed n n1) as Hf1.
  { split; [by etrans; [|exact Hs1]|]. intros _. rewrite Hr1. exact (reportable_allowed n _). }
  wps. apply ask_pollable_fed. intros n2 w2 Hf2 He2 Hc. wps. apply translate_fed. intros n3 Hf3 He3.
  apply HQ; [|etrans; [exact He3|]; etrans; [exact He2|exact He1]|done].
  by eapply fed_trans; [exact Hf1|]; eapply fed_trans.
Qed.

(** [real_poll] on one descriptor. *)
Lemma wp_poll1 fd ev n w (Q : option (Z * Z) -> RegisteredFDsNode * W -> Prop) :
  (forall r w', calm w w' -> Q r (n, w')) -> wpg o (poll1 fd ev) Q (n, w).
Proof.
  intros HQ. unfold poll1. wps. quiet_call as r w' Hc.
  destruct r as [[k [|p l]]|]; wps; by apply HQ.
Qed.

Lemma filter_events_fed kev n w (Q : Z -> RegisteredFDsNode * W -> Prop) :
  (forall r p w', calm w w' -> Q r (n <| pollpri_active := p |>, w')) ->
  wpg o (filter_events kev) Q (n, w).
Proof.
  intros HQ. unfold filter_events, get. wps.
  assert (forall r w', calm w w' -> Q r (n, w')) as HQ'.
  { intros r w' Hc. specialize (HQ r (pollpri_active n) w' Hc). by destruct n. }
  destruct (kev_filter kev =? EVFILT_READ); wps; [|by apply HQ'].
  destruct (negb has_evfilt_except && has (events n) EPOLLPRI); wps; [|by apply HQ'].
  apply wp_poll1. intros r w' Hc. wps. by apply HQ.
Qed.

(** The end-of-file events of a node; the only assertion is about FIFOs. *)
Definition eof_normal (n : RegisteredFDsNode) (kev : kevent) : Prop :=
  node_type n = NODE_TYPE_FIFO ->
  kev_filter kev = EVFILT_READ \/
  kev_filter kev = EVFILT_WRITE /\ (has_evfilt_read n = true -> readable n && writable n = true).

Lemma eof_events_fed kev revs n w (Q : option Z -> RegisteredFDsNode * W -> Prop) :
  eof_normal n kev \/ o AssertFailed /\ o Unreachable ->
  (forall r n', fed n n' -> eof_state n' = eof_state n -> Q r (n', w)) ->
  wpg o (eof_events kev revs) Q (n, w).
Proof.
  intros Hnorm HQ. unfold eof_events, get. wps.
  destruct (node_type n) eqn:Et; wps; try (by apply HQ; [apply fed_refl|]).
  destruct (kev_filter kev =? EVFILT_READ) eqn:Er; wps; [by apply HQ; [apply fed_refl|]|].
  destruct (kev_filter kev =? EVFILT_WRITE) eqn:Ew; wps; cycle 1.
  { destruct Hnorm as [Hn|[_ ?]]; [|done]. b2p. destruct (Hn Et) as [?|[? _]]; congruence. }
  destruct (has_evfilt_read n) eqn:Eh; wps; [|by apply HQ; [apply fed_refl|]].
  assert (readable n && writable n = true \/ o AssertFailed) as Ha.
  { destruct Hnorm as [Hn|[? _]]; [|by right]. left. b2p.
    destruct (Hn Et) as [?|[_ Hrw]]; [congruence|by apply Hrw]. }
  destruct (readable n); wps; [|by destruct Ha].
  destruct (writable n); wps; [|by destruct Ha].
  destruct (negb (revents n =? 0)); wps; apply HQ; try apply fed_refl; try done.
  split; [by split|]. intros Hr. fields. apply within_lor; [done|].
  unfold allowed, reportable. change POLLHUP with EPOLLHUP. bitwise.
Qed.

(** [filterable] survives an event: the end-of-file state stays one of its type. *)
Lemma next_eof_state_legal n kev : filterable n ->
  let e := next_eof_state n kev in
  e = 0 \/ e = EOF_STATE_BOTH \/
  node_type n = NODE_TYPE_SOCKET /\ (e = EOF_STATE_READ_EOF \/ e = EOF_STATE_WRITE_EOF).
Proof.
  intros [_ _ He _]. unfold next_eof_state, is_type. cbn zeta.
  destruct (bool_decide_reflect (node_type n = NODE_TYPE_SOCKET)) as [Es|Es].
  - destruct He as [-> | [-> | [_ [-> | ->]]]]; repeat case_goal; auto.
  - repeat case_goal; auto.
Qed.

Lemma same_filterable n n' : same_node n n' ->
  eof_state n' = eof_state n -> filterable n -> filterable n'.
Proof.
  intros [] He [Ht Hf Heo Ho]. unfold readable, writable in *.
  split; unfold readable, writable; congruence || (rewrite ?He, ?s_type0, ?s_node_data0, ?s_events0; done).
Qed.

(** An event of a filter of the descriptor, on a system without EVFILT_EXCEPT. *)
Definition filter_event (n : RegisteredFDsNode) (kev : kevent) : Prop :=
  (kev_filter kev = EVFILT_READ \/ kev_filter kev = EVFILT_WRITE) /\
  kev_ident kev = fd n /\ eof_normal n kev.

Lemma feed_filter_fed ptr kq kev n w (Q : unit -> RegisteredFDsNode * W -> Prop) :
  has_evfilt_except = false ->
  filter_event n kev \/ o AssertFailed /\ o Unreachable ->
  (forall n' w', fed n n' -> eof_state n' = next_eof_state n kev -> calm w w' -> Q tt (n', w')) ->
  wpg o (feed_filter ptr kq kev) Q (n, w).
Proof.
  intros Hex Hev HQ. unfold feed_filter, get. wps. rewrite Hex. cbn [andb]. rewrite orb_false_r.
  destruct ((kev_filter kev =? EVFILT_READ) || (kev_filter kev =? EVFILT_WRITE)) eqn:Ef; wps.
  2: { destruct Hev as [([Hf|Hf] & _)|[? _]]; [..|done];
       apply orb_false_iff in Ef as [E1 E2]; b2p; congruence. }
  destruct (kev_ident kev =? fd n) eqn:Ei; wps.
  2: { destruct Hev as [(_ & Hi & _)|[? _]]; [|done]. b2p. congruence. }
  apply filter_events_fed. intros revs p w1 Hc1. wps.
  set (n1 := n <| pollpri_active := p |>
    <| eof_state := next_eof_state (n <| pollpri_active := p |>) kev |>).
  set (revs1 := if has (kev_flags kev) EV_EOF && negb (kev_fflags kev =? 0) then _ else _).
  assert (fed n n1) as Hf1 by (split; [by split|done]).
  destruct (negb (eof_state n1 =? 0)); wps.
  - apply eof_events_fed.
    { destruct Hev as [(_ & _ & Hn)|?]; [left|by right]. exact Hn. }
    intros r n2 Hf2 He2. destruct r as [revs2|]; wps.
    + apply feed_out_fed. intros n3 w3 Hf3 He3 Hc3.
      apply HQ; [by eapply fed_trans; [exact Hf1|]; eapply fed_trans| |by etrans].
      etrans; [exact He3|exact He2].
    + apply translate_fed. intros n3 Hf3 He3.
      apply HQ; [by eapply fed_trans; [exact Hf1|]; eapply fed_trans| |done].
      etrans; [exact He3|exact He2].
  - apply feed_out_fed. intros n3 w3 Hf3 He3 Hc3.
    apply HQ; [by eapply fed_trans| |by etrans]. exact He3.
Qed.
End Feed.

(** ** What is reported *)

Section Reports.
Context {W : Type} `{EpollLaws W, !Pollable W, !PollableLaws W}.


(** The platform's EPOLLRDHUP is one of the known values. *)
Definition known_rdhup : Prop := POLLRDHUP_VALUE = 0x2000 \/ POLLRDHUP_VALUE = 0x4000.

Lemma filter_events_exact o kev n (w : W) (Q : Z -> RegisteredFDsNode * W -> Prop) :
  kev_filter kev = EVFILT_READ \/ kev_filter kev = EVFILT_WRITE ->
  (forall r p w',
     kev_filter kev = EVFILT_READ /\ (r = EPOLLIN \/ r = Z.lor EPOLLIN EPOLLPRI) \/
     kev_filter kev = EVFILT_WRITE /\ r = EPOLLOUT -> Q r (n <| pollpri_active := p |>, w')) ->
  wpg o (filter_events kev) Q (n, w).
Proof.
  intros Hf HQ. unfold filter_events, get. wps.
  assert (forall r w', kev_filter kev = EVFILT_READ /\ (r = EPOLLIN \/ r = Z.lor EPOLLIN EPOLLPRI) \/
     kev_filter kev = EVFILT_WRITE /\ r = EPOLLOUT -> Q r (n, w')) as HQ'.
  { intros r w' Hr. specialize (HQ r (pollpri_active n) w' Hr). by destruct n. }
  destruct Hf as [Hf|Hf]; rewrite Hf; cbn; wps; [|by apply HQ'; right].
  destruct (negb has_evfilt_except && has (events n) EPOLLPRI); wps; [|by apply HQ'; left; auto].
  apply wp_poll1. intros r w' _. wps. apply HQ. left. split; [done|]. case_goal; auto.
Qed.

Lemma feed_out_exact o kev revs n (w : W) (Q : unit -> RegisteredFDsNode * W -> Prop) :
  node_type n <> NODE_TYPE_KQUEUE -> needs_rdhup_translation n = false ->
  (forall n', revents n' = Z.land (Z.lor (revents n) revs) (reportable n) -> Q tt (n', w)) ->
  wpg o (feed_out kev revs) Q (n, w).
Proof.
  intros Hk Hr HQ. unfold feed_out. wps. apply note_event_same. intros n1 Hs1 Hr1 _. wps.
  unfold ask_pollable, maybe_translate_rdhup, get, is_type. wps.
  rewrite (s_type _ _ Hs1), bool_decide_eq_false_2 by done. wps.
  rewrite (s_rdhup _ _ Hs1). fields. rewrite Hr, andb_false_r. wps. by apply HQ.
Qed.

(** The direction of [filter] is at end of file: what the event says when it is one of that
    filter, else what was known. *)
Definition at_eof (n : RegisteredFDsNode) (kev : kevent) (filter state : Z) : bool :=
  if kev_filter kev =? filter then has (kev_flags kev) EV_EOF else has (eof_state n) state.

(** What happened on a socket, by the flag that tells of it. *)
Definition socket_condition (n : RegisteredFDsNode) (kev : kevent) (m : Z) : bool :=
  let read_eof := at_eof n kev EVFILT_READ EOF_STATE_READ_EOF in
  let write_eof := at_eof n kev EVFILT_WRITE EOF_STATE_WRITE_EOF in
  if m =? EPOLLIN then (kev_filter kev =? EVFILT_READ) || read_eof
  else if m =? EPOLLOUT then (kev_filter kev =? EVFILT_WRITE) || write_eof
  else if m =? EPOLLHUP then read_eof && write_eof
  else if m =? EPOLLERR then
    has (kev_flags kev) EV_ERROR || has (kev_flags kev) EV_EOF && negb (kev_fflags kev =? 0)
  else read_eof.

Lemma next_eof_state_socket n kev : filterable n -> node_type n = NODE_TYPE_SOCKET ->
  kev_filter kev = EVFILT_READ \/ kev_filter kev = EVFILT_WRITE ->
  let eof := next_eof_state n kev in
  has eof EOF_STATE_READ_EOF = at_eof n kev EVFILT_READ EOF_STATE_READ_EOF /\
  has eof EOF_STATE_WRITE_EOF = at_eof n kev EVFILT_WRITE EOF_STATE_WRITE_EOF /\
  (eof =? EOF_STATE_BOTH) = has eof EOF_STATE_READ_EOF && has eof EOF_STATE_WRITE_EOF.
Proof.
  intros [_ _ He _] Ht Hf. unfold next_eof_state, at_eof, is_type.
  rewrite bool_decide_eq_true_2 by done.
  destruct Hf as [-> | ->], (has (kev_flags kev) EV_EOF);
    destruct He as [-> | [-> | [_ [-> | ->]]]]; by vm_compute.
Qed.

Definition socket_flags : list Z := [EPOLLIN; EPOLLOUT; EPOLLHUP; EPOLLERR; EPOLLRDHUP].

Lemma socket_flag m : known_rdhup -> m ∈ socket_flags -> is_flag m.
Proof.
  unfold known_rdhup, socket_flags, EPOLLRDHUP. intros Hr Hm.
  repeat (apply elem_of_cons in Hm as [->|Hm]); [by exists 0|by exists 2|by exists 4|by exists 3| |].
  - destruct Hr as [-> | ->]; [by exists 13|by exists 14].
  - by apply elem_of_nil in Hm.
Qed.

(** The events of a filter and the end-of-file events together are the conditions. *)
Lemma socket_events n kev r0 m : filterable n -> node_type n = NODE_TYPE_SOCKET ->
  known_rdhup -> m ∈ socket_flags ->
  kev_filter kev = EVFILT_READ /\ (r0 = EPOLLIN \/ r0 = Z.lor EPOLLIN EPOLLPRI) \/
  kev_filter kev = EVFILT_WRITE /\ r0 = EPOLLOUT ->
  let eof := next_eof_state n kev in
  let e := if has eof EOF_STATE_READ_EOF then Z.lor EPOLLIN EPOLLRDHUP else 0 in
  let e := if has eof EOF_STATE_WRITE_EOF then Z.lor e EPOLLOUT else e in
  let e := if eof =? EOF_STATE_BOTH then Z.lor e EPOLLHUP else e in
  let r1 := if has (kev_flags kev) EV_ERROR then Z.lor r0 EPOLLERR else r0 in
  let r1 := if has (kev_flags kev) EV_EOF && negb (kev_fflags kev =? 0)
    then Z.lor r1 EPOLLERR else r1 in
  has (Z.lor r1 e) m = socket_condition n kev m.
Proof.
  unfold known_rdhup, socket_flags, socket_condition, EPOLLRDHUP. intros Hn Ht Hr Hm Hf.
  destruct (next_eof_state_socket n kev Hn Ht ltac:(tauto)) as (<- & <- & ->). cbv zeta.
  rewrite has_lor. generalize (next_eof_state n kev). intros eof.
  destruct Hr as [Hr|Hr]; repeat (apply elem_of_cons in Hm as [->|Hm]);
    try (by apply elem_of_nil in Hm); rewrite ?Hr.
  all: destruct Hf as [[-> [-> | ->]] | [-> ->]];
    destruct (has (kev_flags kev) EV_ERROR), (has (kev_flags kev) EV_EOF && negb (kev_fflags kev =? 0)),
      (has eof EOF_STATE_READ_EOF), (has eof EOF_STATE_WRITE_EOF);
    reflexivity.
Qed.

(** C28: the events of a socket.  After an event of one of its filters the node reports
    EPOLLIN, EPOLLOUT, EPOLLHUP, EPOLLERR and EPOLLRDHUP exactly when the flag was asked
    for (EPOLLHUP and EPOLLERR always) and was reported before or stands for what
    happened: readiness, an error, or the end of file of one or both directions, which
    is remembered from event to event. *)
Theorem feed_event_socket ptr kq kev n (w : W) m :
  has_evfilt_except = false -> known_rdhup -> filterable n -> node_type n = NODE_TYPE_SOCKET ->
  needs_rdhup_translation n = false -> filter_event n kev -> m ∈ socket_flags ->
  wp (registered_fds_node_feed_event ptr kq kev)
    (fun _ s => has (revents s.1) m =
       has (reportable n) m && (has (revents n) m || socket_condition n kev m)) (n, w).
Proof.
  intros Hex Hrd Hn Ht Htr (Hf & Hid & _) Hm. unfold registered_fds_node_feed_event, get. wps.
  unfold is_type. rewrite Ht, !bool_decide_eq_false_2 by done. cbn [andb].
  unfold feed_filter, get. wps. rewrite Hex. cbn [andb].
  assert ((kev_filter kev =? EVFILT_READ) || (kev_filter kev =? EVFILT_WRITE) || false = true) as ->.
  { destruct Hf as [-> | ->]; reflexivity. }
  wps. rewrite Hid, Z.eqb_refl. wps. apply filter_events_exact; [done|]. intros r0 p w1 Hr0. wps.
  set (n1 := n <| pollpri_active := p |>
    <| eof_state := next_eof_state (n <| pollpri_active := p |>) kev |>).
  assert (forall revs, (forall m, m ∈ socket_flags -> has revs m = socket_condition n kev m) ->
    wp (feed_out kev revs) (fun _ s => has (revents s.1) m =
       has (reportable n) m && (has (revents n) m || socket_condition n kev m)) (n1, w1)) as Hout.
  { intros revs Hrevs. apply feed_out_exact; [by unfold n1; fields; rewrite Ht|done|].
    intros n2 Hn2. cbn. rewrite Hn2, has_flag_land by (by apply socket_flag).
    rewrite has_lor, Hrevs by done. rewrite andb_comm. reflexivity. }
  pose proof (fun m Hm => socket_events n kev r0 m Hn Ht Hrd Hm Hr0) as Hev. cbv zeta in Hev.
  destruct (Z.eqb_spec (eof_state n1) 0) as [E0|E0]; cbn [negb].
  - apply Hout. intros m' Hm'. rewrite <- Hev by done.
    change (eof_state n1) with (next_eof_state n kev) in E0. rewrite E0. cbn. by rewrite Z.lor_0_r.
  - unfold eof_events, get. wps. unfold n1 at 1. fields. rewrite Ht. wps. by apply Hout.
Qed.
End Reports.
