(* ===== verification/EpollCtx.v ===== *)
(** * An epoll instance (src/epollfd_ctx.c, the [epollfd_ctx_*] functions)

    The nodes live in a heap of their own, [nodes]: the kernel holds their
    addresses as user data of the kqueue filters, the set of registered
    descriptors and the list of polled ones refer to them by address.  An
    access through an address that is not in the heap stops the program with
    [DanglingPointer]. *)

From S2P Require Import Prelude Kernel KqueueEvent EpollNode.

Record EpollFDCtx := {
  nodes : gmap Z RegisteredFDsNode;
  poll_fds : list Z;
  poll_fds_size : Z;
  registered_fds : gmap Z Z;
  registered_fds_size : Z;
  kevs : Z;
  kevs_length : Z;
  pfds : Z;
  pfds_length : Z;
  nr_polling_threads : Z;
  ctx_self_pipe : Z * Z
}.
#[export] Instance eta_EpollFDCtx : Eta EpollFDCtx := fun c =>
  {| nodes := nodes c; poll_fds := poll_fds c; poll_fds_size := poll_fds_size c;
     registered_fds := registered_fds c; registered_fds_size := registered_fds_size c;
     kevs := kevs c; kevs_length := kevs_length c; pfds := pfds c;
     pfds_length := pfds_length c; nr_polling_threads := nr_polling_threads c;
     ctx_self_pipe := ctx_self_pipe c |}.

(** sizeof (struct kevent), sizeof (struct pollfd) *)
Definition SIZEOF_KEVENT : Z := 64.
Definition SIZEOF_POLLFD : Z := 8.

Section Epoll.
Context {W : Type} `{!Platform, !Kernel W, !Fuel, !Pollable W}.

Abbreviation E := (M (EpollFDCtx * W)).

(** ** The heap *)

(** Run code on the node at [ptr]. *)
Definition on_node {A} (ptr : Z) (m : M (RegisteredFDsNode * W) A) : E A := fun s =>
  match nodes (fst s) !! ptr with
  | None => Stop DanglingPointer
  | Some n =>
      match m (n, snd s) with
      | Done a (n', w) => Done a ((fst s) <| nodes := <[ptr := n']> (nodes (fst s)) |>, w)
      | Stop why => Stop why
      end
  end.

Definition the_node (ptr : Z) : E RegisteredFDsNode := on_node ptr get.
Definition set_node (ptr : Z) (f : RegisteredFDsNode -> RegisteredFDsNode) : E unit :=
  on_node ptr (mod_self f).

(** [registered_fds_node_destroy] and the end of the node's life. *)
Definition destroy_node (ptr : Z) : E unit :=
  let* n := the_node ptr in
  lift (registered_fds_node_destroy ptr n) ;;
  mod_self (fun c => c <| nodes := delete ptr (nodes c) |>).

(** [RB_FIND] *)
Definition find_node (fd2 : Z) : E (option Z) := getf (fun c => registered_fds c !! fd2).

(** ** Creation *)

Definition epollfd_ctx_init : E (result unit) :=
  put {| nodes := ∅; poll_fds := []; poll_fds_size := 0; registered_fds := ∅;
         registered_fds_size := 0; kevs := 0; kevs_length := 0; pfds := 0; pfds_length := 0;
         nr_polling_threads := 0; ctx_self_pipe := (-1, -1) |} ;;
  try* _ := call sys_mutex_init in
  let* r := call sys_cond_init in
  match r with
  | Err ec => call_ sys_mutex_destroy ;; ret (Err ec)
  | Ok _ => ret (Ok tt)
  end.

Definition epollfd_ctx_terminate : E (result unit) :=
  let* r1 := call sys_cond_destroy in
  let* r2 := call sys_mutex_destroy in
  let ec := first_error (first_error (Ok tt) r1) r2 in
  let* fds := getf (fun c => in_order (registered_fds c)) in
  iterM (fun p =>
    mod_self (fun c => c <| registered_fds := delete p.1 (registered_fds c) |>) ;;
    destroy_node p.2) fds ;;
  let* c := get in
  call_ (sys_free (kevs c)) ;;
  call_ (sys_free (pfds c)) ;;
  when ((0 <=? (ctx_self_pipe c).1) && (0 <=? (ctx_self_pipe c).2))
    (call_ (sys_close (ctx_self_pipe c).1) ;; call_ (sys_close (ctx_self_pipe c).2)) ;;
  ret ec.

(** ** Buffers *)

Definition epollfd_ctx_make_kevs_space (cnt : Z) : E (result unit) :=
  c_assert (0 <? cnt) ;;
  let* c := get in
  if cnt <=? kevs_length c then ret (Ok tt)
  else
    match checked fits_u64 (cnt * SIZEOF_KEVENT) with
    | None => ret (Err ENOMEM)
    | Some size =>
        try* new_kevs := call (sys_realloc (kevs c) size) in
        self kevs := new_kevs ;;
        self kevs_length := cnt ;;
        ret (Ok tt)
    end.

Definition epollfd_ctx_make_pfds_space : E (result unit) :=
  let* c := get in
  let cnt := 1 + poll_fds_size c in
  if cnt <=? pfds_length c then ret (Ok tt)
  else
    match checked fits_u64 (cnt * SIZEOF_POLLFD) with
    | None => ret (Err ENOMEM)
    | Some size =>
        try* new_pfds := call (sys_realloc (pfds c) size) in
        self pfds := new_pfds ;;
        self pfds_length := cnt ;;
        ret (Ok tt)
    end.

(** ** Waking up the threads inside poll *)

Definition epollfd_ctx__add_self_trigger (kq : Z) : E (result unit) :=
  try* change :=
    if has_evfilt_user then
      ret (Ok (EV_SET 0 EVFILT_USER (Z.lor EV_ADD EV_CLEAR) 0 0 0))
    else
      let* p := getf ctx_self_pipe in
      try* _ :=
        if (p.1 <? 0) && (p.2 <? 0) then
          let* r := call (sys_pipe2 (Z.lor O_NONBLOCK O_CLOEXEC)) in
          match r with
          | Err ec => self ctx_self_pipe := (-1, -1) ;; ret (Err ec)
          | Ok p =>
              self ctx_self_pipe := p ;;
              c_assert (0 <=? p.1) ;;
              c_assert (0 <=? p.2) ;;
              ret (Ok tt)
          end
        else ret (Ok tt) in
      let* p := getf ctx_self_pipe in
      ret (Ok (EV_SET (u32 p.1) EVFILT_READ (Z.lor EV_ADD EV_CLEAR) 0 0 0)) in
  let* r := call (sys_kevent kq [change] 0 None) in
  match r with
  | Err ec => ret (Err ec)
  | Ok _ => ret (Ok tt)
  end.

Definition epollfd_ctx__trigger_self (kq : Z) : E unit :=
  if has_evfilt_user then
    call_ (sys_kevent kq [EV_SET 0 EVFILT_USER 0 NOTE_TRIGGER 0 0] 0 None)
  else
    let* p := getf ctx_self_pipe in
    c_assert (0 <=? p.1) ;;
    c_assert (0 <=? p.2) ;;
    call_ (sys_write p.2 [0]).

(** The wait on the condition variable ends when the last of the other threads has left
    [real_ppoll] and the counter is zero. *)
Definition epollfd_ctx__trigger_repoll (kq : Z) : E unit :=
  let* n := getf nr_polling_threads in
  if n =? 0 then ret tt
  else
    epollfd_ctx__trigger_self kq ;;
    self nr_polling_threads := 0 ;;
    let* p := getf ctx_self_pipe in
    when (negb has_evfilt_user) (lift (read_until_error fuel p.1)).

(** ** Filters of a node *)

Definition epollfd_ctx__remove_node_from_kq (kq ptr : Z) : E unit :=
  let* n := the_node ptr in
  when (is_on_pollfd_list n)
    (mod_self (fun c => c <| poll_fds := filter (fun p => p <> ptr) (poll_fds c) |>) ;;
     set_node ptr (fun n => n <| is_on_pollfd_list := false |>) ;;
     let* size := getf poll_fds_size in
     c_assert (negb (size =? 0)) ;;
     self poll_fds_size := (size - 1) ;;
     epollfd_ctx__trigger_repoll kq) ;;
  when (0 <=? (node_self_pipe n).1)
    (call_ (sys_kevent kq
       [EV_SET (u32 (node_self_pipe n).1) EVFILT_READ EV_DELETE 0 0 0] 0 None) ;;
     lift (read_until_error fuel (node_self_pipe n).1)) ;;
  if is_type NODE_TYPE_POLL n then
    when has_evfilt_user
      (call_ (sys_kevent kq [EV_SET ptr EVFILT_USER EV_DELETE 0 0 0] 0 None))
  else
    let del ident filter := EV_SET ident filter (Z.lor EV_DELETE EV_RECEIPT) 0 0 0 in
    (* without EVFILT_USER the third change is uninitialised memory *)
    let* third :=
      if has_evfilt_user then ret (del ptr EVFILT_USER) else call sys_indeterminate_kevent in
    call_ (sys_kevent kq
      [del (u32 (fd n)) EVFILT_READ; del (u32 (fd n)) EVFILT_WRITE; third] 3 None) ;;
    set_node ptr (fun n => n <| has_evfilt_read := false |> <| has_evfilt_write := false |>
      <| has_evfilt_except_ := false |>).

(** The changes for the needed filters, in the order of the array; all carry EV_RECEIPT. *)
Definition filter_changes (ptr fd2 : Z) (f : NeededFilters) : list kevent :=
  let add filter flags fflags :=
    EV_SET (u32 fd2) filter (Z.lor (Z.lor EV_ADD flags) EV_RECEIPT) fflags 0 ptr in
  (if evfilt_read f =? 0 then []
   else [add EVFILT_READ (Z.land (evfilt_read f) EV_CLEAR) 0]) ++
  (if evfilt_write f =? 0 then []
   else [add EVFILT_WRITE (Z.land (evfilt_write f) EV_CLEAR) 0]) ++
  (if evfilt_except f =? 0 then []
   else [add EVFILT_EXCEPT
          (if is_os Apple then EV_CLEAR else Z.land (evfilt_except f) EV_CLEAR) NOTE_OOB]).

(** [ec] of the receipt [k] at index [i], and the self trigger of a FIFO without reader. *)
Definition check_receipt (kq ptr : Z) (f : NeededFilters) (i : Z) (k : kevent) : E (result unit) :=
  let evfilt_read_index := if evfilt_read f =? 0 then -1 else 0 in
  let evfilt_write_index :=
    if evfilt_write f =? 0 then -1 else if evfilt_read f =? 0 then 0 else 1 in
  if kev_data k =? 0 then ret (Ok tt)
  else
    let* n := the_node ptr in
    if ((kev_data k =? EPIPE) || (is_os NetBSD && (kev_data k =? EBADF))) &&
       (i =? evfilt_write_index) && is_type NODE_TYPE_FIFO n then
      set_node ptr (fun n => n <| eof_state := EOF_STATE_BOTH |> <| has_evfilt_write := false |>) ;;
      if evfilt_read_index <? 0 then
        try* _ := on_node ptr (registered_fds_node_add_self_trigger ptr kq) in
        on_node ptr (registered_fds_node_trigger_self ptr kq) ;;
        ret (Ok tt)
      else ret (Ok tt)
    else ret (Err (kev_data k)).

Fixpoint check_receipts (kq ptr : Z) (f : NeededFilters) (i : Z) (l : list kevent) :
    E (result unit) :=
  match l with
  | [] => ret (Ok tt)
  | k :: l' =>
      try* _ := check_receipt kq ptr f i k in
      check_receipts kq ptr f (i + 1) l'
  end.

(** A descriptor that only supports poll. *)
Definition register_poll_only (kq ptr : Z) : E (result unit) :=
  let* n := the_node ptr in
  c_assert (Z.ldiff (events n) (Z.lor EPOLLIN EPOLLOUT) =? 0) ;;
  c_assert (is_registered n || is_type NODE_TYPE_OTHER n) ;;
  set_node ptr (fun n => n <| has_evfilt_read := false |> <| has_evfilt_write := false |>
    <| has_evfilt_except_ := false |> <| node_type := NODE_TYPE_POLL |>) ;;
  try* _ := on_node ptr (registered_fds_node_add_self_trigger ptr kq) in
  let* n := the_node ptr in
  try* _ :=
    if negb (is_on_pollfd_list n) then
      try* _ := epollfd_ctx__add_self_trigger kq in
      mod_self (fun c => c <| poll_fds := poll_fds c ++ [ptr] |>) ;;
      set_node ptr (fun n => n <| is_on_pollfd_list := true |>) ;;
      mod_self (fun c => c <| poll_fds_size := poll_fds_size c + 1 |>) ;;
      ret (Ok tt)
    else ret (Ok tt) in
  epollfd_ctx__trigger_repoll kq ;;
  ret (Ok tt).

(** The filters of a node that has none. *)
Definition register_filters (kq ptr : Z) : E (result unit) :=
  let* n := the_node ptr in
  c_assert (negb (has_evfilt_read n)) ;;
  c_assert (negb (has_evfilt_write n)) ;;
  c_assert (negb (has_evfilt_except_ n)) ;;
  let* f := on_node ptr needed_filters in
  set_node ptr (fun n => n <| has_evfilt_read := negb (evfilt_read f =? 0) |>
    <| has_evfilt_write := negb (evfilt_write f =? 0) |>) ;;
  c_assert (negb (evfilt_read f =? 0) || negb (evfilt_write f =? 0)) ;;
  c_assert (has_evfilt_except || (evfilt_except f =? 0)) ;;
  set_node ptr (fun n => n <| has_evfilt_except_ := negb (evfilt_except f =? 0) |>) ;;
  let kev := filter_changes ptr (fd n) f in
  try* receipts := call (sys_kevent kq kev (Z.of_nat (length kev)) None) in
  c_assert (Nat.eqb (length receipts) (length kev)) ;;
  c_assert (forallb (fun k => has (kev_flags k) EV_ERROR) receipts) ;;
  let* n := the_node ptr in
  if is_type NODE_TYPE_OTHER n &&
     match receipts with k :: _ => kev_data k =? ENODEV | [] => false end
  then register_poll_only kq ptr
  else check_receipts kq ptr f 0 receipts.

Definition epollfd_ctx__register_events (kq ptr : Z) : E (result unit) :=
  let* n := the_node ptr in
  when (negb (is_type NODE_TYPE_SOCKET n))
    (set_node ptr (fun n =>
       n <| events := u16 (Z.ldiff (Z.ldiff (events n) EPOLLRDHUP) EPOLLPRI) |>)) ;;
  c_assert (0 <=? fd n) ;;
  if is_type NODE_TYPE_POLL n then register_poll_only kq ptr
  else
    when (is_registered n) (epollfd_ctx__remove_node_from_kq kq ptr) ;;
    register_filters kq ptr.

(** ** Adding, changing and removing a node *)

Definition epollfd_ctx_remove_node (kq ptr : Z) : E unit :=
  epollfd_ctx__remove_node_from_kq kq ptr ;;
  let* n := the_node ptr in
  mod_self (fun c => c <| registered_fds := delete (fd n) (registered_fds c) |>) ;;
  let* size := getf registered_fds_size in
  c_assert (0 <? size) ;;
  self registered_fds_size := (size - 1) ;;
  destroy_node ptr.

(** FreeBSD only. *)
Definition modify_fifo_rights_from_capabilities (ptr : Z) : E unit :=
  let* n := the_node ptr in
  c_assert (readable n) ;;
  c_assert (writable n) ;;
  let* r := call (sys_cap_rights_get (fd n)) in
  match r with
  | Ok (has_read_rights, has_write_rights) =>
      when (negb (eqb has_read_rights has_write_rights))
        (set_node ptr (fun n => n <| node_data := fifo has_read_rights has_write_rights |>))
  | Err _ => ret tt
  end.

(** The type of the new node, from the result of [fstat]. *)
Definition classify_node (ptr fd2 : Z) (pollable_desc : PollableDesc) (mode : Z) : E (result unit) :=
  let set_type t := set_node ptr (fun n => n <| node_type := t |>) in
  if S_ISFIFO mode then
    let* r := call (sys_ioctl_fionread fd2) in
    if match r with Err ec => ec =? ENOTTY | Ok _ => false end then
      (if is_os FreeBSD then
         let* k := call (sys_kevent fd2 [] 0 (Some {| tv_sec := 0; tv_nsec := 0 |})) in
         set_type (match k with Ok [] => NODE_TYPE_KQUEUE | _ => NODE_TYPE_OTHER end)
       else set_type NODE_TYPE_KQUEUE) ;;
      let* n := the_node ptr in
      when (is_type NODE_TYPE_KQUEUE n)
        (set_node ptr (fun n => n <| node_data := kqueue_data pollable_desc |>) ;;
         lift (pollable_desc_ref pollable_desc) ;;
         let* _ := lift (pollable_desc_poll pollable_desc fd2 None) in ret tt) ;;
      ret (Ok tt)
    else
      set_type NODE_TYPE_FIFO ;;
      let* fl := call (sys_fcntl fd2 F_GETFL 0) in
      match fl with
      | Err ec => destroy_node ptr ;; ret (Err ec)
      | Ok fl =>
          let fl := Z.land fl O_ACCMODE in
          if fl =? O_RDWR then
            set_node ptr (fun n => n <| node_data := fifo true true |>) ;;
            when (is_os FreeBSD) (modify_fifo_rights_from_capabilities ptr) ;;
            ret (Ok tt)
          else if fl =? O_WRONLY then
            set_node ptr (fun n => n <| node_data := fifo false true |>) ;; ret (Ok tt)
          else if fl =? O_RDONLY then
            set_node ptr (fun n => n <| node_data := fifo true false |>) ;; ret (Ok tt)
          else destroy_node ptr ;; ret (Err EINVAL)
      end
  else
    set_type (if S_ISSOCK mode then NODE_TYPE_SOCKET else NODE_TYPE_OTHER) ;;
    ret (Ok tt).

Definition epollfd_ctx_add_node (kq fd2 : Z) (pollable_desc : PollableDesc) (ev : epoll_event)
    (mode : Z) : E (result unit) :=
  let* r := lift (registered_fds_node_create fd2) in
  match r with
  | None => ret (Err ENOMEM)
  | Some (ptr, node) =>
      mod_self (fun c => c <| nodes := <[ptr := node]> (nodes c) |>) ;;
      try* _ := classify_node ptr fd2 pollable_desc mode in
      on_node ptr (registered_fds_node_update_flags_from_epoll_event ev) ;;
      let* colliding_node := find_node fd2 in
      c_assert (match colliding_node with None => true | Some _ => false end) ;;
      mod_self (fun c => c <| registered_fds := <[fd2 := ptr]> (registered_fds c) |>) ;;
      mod_self (fun c => c <| registered_fds_size := registered_fds_size c + 1 |>) ;;
      let* ec := epollfd_ctx__register_events kq ptr in
      match ec with
      | Err ec => epollfd_ctx_remove_node kq ptr ;; ret (Err ec)
      | Ok _ => set_node ptr (fun n => n <| is_registered := true |>) ;; ret (Ok tt)
      end
  end.

Definition epollfd_ctx_modify_node (kq ptr : Z) (ev : epoll_event) : E (result unit) :=
  on_node ptr (registered_fds_node_update_flags_from_epoll_event ev) ;;
  let* n := the_node ptr in
  c_assert (is_registered n) ;;
  let* ec := epollfd_ctx__register_events kq ptr in
  match ec with
  | Err ec => epollfd_ctx_remove_node kq ptr ;; ret (Err ec)
  | Ok _ => ret (Ok tt)
  end.

(** Called on [close()] of [fd2]. *)
Definition epollfd_ctx_remove_fd (kq fd2 : Z) : E unit :=
  let* n := find_node fd2 in
  match n with
  | Some ptr => epollfd_ctx_remove_node kq ptr
  | None => ret tt
  end.

(** The flags [epoll_ctl] accepts. *)
Definition VALID_EVENTS : Z :=
  Z.lor (Z.lor (Z.lor EPOLLIN EPOLLOUT) (Z.lor EPOLLRDHUP 0x2000))
    (Z.lor (Z.lor EPOLLPRI (Z.lor EPOLLHUP EPOLLERR)) (Z.lor EPOLLET EPOLLONESHOT)).

Definition invalid_events (e : Z) : bool :=
  negb (Z.ldiff e VALID_EVENTS =? 0) ||
  (negb (EPOLLRDHUP =? 0x2000) && has e EPOLLRDHUP && has e 0x2000).

(** [ev] is not NULL, or the operation is EPOLL_CTL_DEL. *)
Definition epollfd_ctx_ctl (kq op fd2 : Z) (pollable_desc : PollableDesc)
    (ev : option epoll_event) : E (result unit) :=
  c_assert ((op =? EPOLL_CTL_DEL) || bool_decide (is_Some ev)) ;;
  let ev := default {| ev_events := 0; ev_data := 0 |} ev in
  if kq =? fd2 then ret (Err EINVAL)
  else if negb (op =? EPOLL_CTL_DEL) && invalid_events (ev_events ev) then ret (Err EINVAL)
  else
    let* fd2_node := find_node fd2 in
    let* st := call (sys_fstat fd2) in
    match st with
    | Err ec =>
        match fd2_node with
        | Some ptr => epollfd_ctx_remove_node kq ptr
        | None => ret tt
        end ;;
        ret (Err ec)
    | Ok mode =>
        if op =? EPOLL_CTL_ADD then
          match fd2_node with
          | Some _ => ret (Err EEXIST)
          | None => epollfd_ctx_add_node kq fd2 pollable_desc ev mode
          end
        else if op =? EPOLL_CTL_DEL then
          match fd2_node with
          | None => ret (Err ENOENT)
          | Some ptr => epollfd_ctx_remove_node kq ptr ;; ret (Ok tt)
          end
        else if op =? EPOLL_CTL_MOD then
          match fd2_node with
          | None => ret (Err ENOENT)
          | Some ptr => epollfd_ctx_modify_node kq ptr ev
          end
        else ret (Err EINVAL)
    end.

(** ** Waiting *)

Fixpoint poll_entries (l : list Z) : E (list pollfd) :=
  match l with
  | [] => ret []
  | ptr :: l' =>
      let* n := the_node ptr in
      let* r := poll_entries l' in
      ret ({| pfd_fd := fd n;
              pfd_events := if is_type NODE_TYPE_POLL n then events n else POLLPRI;
              pfd_revents := 0 |} :: r)
  end.

(** [pfds[0 .. poll_fds_size]] *)
Definition epollfd_ctx_fill_pollfds (kq : Z) : E (list pollfd) :=
  let* fds := getf poll_fds in
  let* rest := poll_entries fds in
  ret ({| pfd_fd := kq; pfd_events := POLLIN; pfd_revents := 0 |} :: rest).

(** The descriptors that are only polled: gone ones are removed, ready ones trigger
    themselves. *)
Fixpoint dispatch_polled (kq : Z) (l : list (Z * pollfd)) : E unit :=
  match l with
  | [] => ret tt
  | (ptr, pfd) :: l' =>
      (if has (pfd_revents pfd) POLLNVAL then epollfd_ctx_remove_node kq ptr
       else when (negb (pfd_revents pfd =? 0))
         (on_node ptr (registered_fds_node_trigger_self ptr kq))) ;;
      dispatch_polled kq l'
  end.

(** Register again when the needed filters changed. *)
Definition update_filters (kq ptr : Z) (old : NeededFilters) : E unit :=
  let* n := the_node ptr in
  when (negb (is_type NODE_TYPE_POLL n) &&
        negb (is_edge_triggered n && (eof_state n =? EOF_STATE_BOTH) &&
              negb (is_type NODE_TYPE_FIFO n)))
    (let* f := on_node ptr needed_filters in
     when (negb (evfilt_read old =? evfilt_read f) || negb (evfilt_write old =? evfilt_write f))
       (let* ec := epollfd_ctx__register_events kq ptr in
        when (negb (is_ok ec)) (epollfd_ctx__remove_node_from_kq kq ptr))).

(** One kevent; the result says whether the node became ready by it. *)
Definition process_event (kq : Z) (kev : kevent) : E (option Z) :=
  let ptr := kev_udata kev in
  if ptr =? 0 then
    c_assert (kev_filter kev =? (if has_evfilt_user then EVFILT_USER else EVFILT_READ)) ;;
    ret None
  else
    let* old := the_node ptr in
    let* old_needed_filters := on_node ptr needed_filters in
    on_node ptr (registered_fds_node_feed_event ptr kq kev) ;;
    update_filters kq ptr old_needed_filters ;;
    let* n := the_node ptr in
    ret (if negb (revents n =? 0) && (revents old =? 0) then Some ptr else None).

Fixpoint process_events (kq : Z) (l : list kevent) : E (list Z) :=
  match l with
  | [] => ret []
  | kev :: l' =>
      let* p := process_event kq kev in
      let* r := process_events kq l' in
      ret (match p with Some ptr => ptr :: r | None => r end)
  end.

(** [registered_fds_node_complete] *)
Fixpoint drain_completion (n : nat) (kq : Z) : E unit :=
  match n with
  | O => stop_with OutOfFuel
  | S n' =>
      let* r := call (sys_kevent kq [] 32 (Some {| tv_sec := 0; tv_nsec := 0 |})) in
      match r with
      | Ok (k :: l) =>
          iterM (fun kev => on_node (kev_udata kev)
            (registered_fds_node_feed_event (kev_udata kev) (-1) kev)) (k :: l) ;;
          drain_completion n' kq
      | _ => ret tt
      end
  end.

Definition registered_fds_node_complete (kq : Z) : E unit :=
  if kq <? 0 then ret tt
  else drain_completion fuel kq ;; call_ (sys_close kq).

Fixpoint register_completions (full : bool) (completion_kq : Z) (l : list Z) : E Z :=
  match l with
  | [] => ret completion_kq
  | ptr :: l' =>
      let* n := the_node ptr in
      let* completion_kq :=
        if full || is_edge_triggered n
        then on_node ptr (registered_fds_node_register_for_completion completion_kq ptr)
        else ret completion_kq in
      register_completions full completion_kq l'
  end.

(** The events of the ready nodes are handed out and cleared. *)
Fixpoint collect_events (kq : Z) (l : list Z) : E (list epoll_event) :=
  match l with
  | [] => ret []
  | ptr :: l' =>
      let* n := the_node ptr in
      set_node ptr (fun n => n <| revents := 0 |> <| got_evfilt_read := false |>
        <| got_evfilt_write := false |> <| got_evfilt_except := false |>) ;;
      when (is_oneshot n) (epollfd_ctx__remove_node_from_kq kq ptr) ;;
      let* r := collect_events kq l' in
      ret ({| ev_events := revents n; ev_data := data n |} :: r)
  end.

(** From the label [again]. *)
Fixpoint wait_again (n : nat) (kq cnt : Z) : E (result (list epoll_event)) :=
  match n with
  | O => stop_with OutOfFuel
  | S n' =>
      let* k := getf kevs in
      c_assert (negb (k =? 0)) ;;
      try* l := call (sys_kevent kq [] cnt (Some {| tv_sec := 0; tv_nsec := 0 |})) in
      let* ready := process_events kq l in
      let* completion_kq :=
        register_completions (Z.of_nat (length l) =? cnt) (-1) ready in
      registered_fds_node_complete completion_kq ;;
      let* evs := collect_events kq ready in
      match l, evs with
      | _ :: _, [] => wait_again n' kq cnt
      | _, _ => ret (Ok evs)
      end
  end.

(** The number of kevents asked for. *)
Definition kevs_wanted (cnt registered : Z) : result Z :=
  if registered <=? cnt then
    match checked fits_int (cnt + 1) with
    | None => Err ENOMEM
    | Some cnt =>
        match checked fits_int (cnt * 3) with
        | None => Err ENOMEM
        | Some cnt => Ok cnt
        end
    end
  else Ok cnt.

Definition epollfd_ctx_wait (kq cnt : Z) : E (result (list epoll_event)) :=
  c_assert (1 <=? cnt) ;;
  try* _ := epollfd_ctx_make_pfds_space in
  let* pfds := epollfd_ctx_fill_pollfds kq in
  try* polled := call (sys_poll pfds 0) in
  let (n, pfds) := polled in
  if n =? 0 then ret (Ok [])
  else
    let* fds := getf poll_fds in
    dispatch_polled kq (zip fds (tail pfds)) ;;
    let* size := getf registered_fds_size in
    match kevs_wanted cnt size with
    | Err ec => ret (Err ec)
    | Ok cnt =>
        try* _ := epollfd_ctx_make_kevs_space cnt in
        wait_again fuel kq cnt
    end.
End Epoll.
