(* ===== verification/EpollInv.v ===== *)
(** * The invariant of an epoll instance

    The set of registered descriptors and the heap of nodes are two views of
    one map, the list of polled descriptors is the set of the nodes marked as
    being on it, the sizes are those of the collections, and every user data
    the kqueue holds is the address of a live node. *)

From S2P Require Import Prelude Kernel KqueueEvent EpollNode EpollLaws EpollFeed EpollCtx.

Section Invariant.
Context {W : Type} `{EpollLaws W}.

(** Where the filters of a node are known: with EVFILT_USER and without EVFILT_EXCEPT. *)
Definition tracked : bool := has_evfilt_user && negb has_evfilt_except.

(** The filters a node may have in the kqueue. *)
Definition key_ok (ptr : Z) (n : RegisteredFDsNode) (key : Z * Z) : Prop :=
  key = (ptr, EVFILT_USER) \/
  node_type n <> NODE_TYPE_POLL /\ key.1 = fd n /\ (key.2 = EVFILT_READ \/ key.2 = EVFILT_WRITE).

(** The user data [u] of a filter: NULL for the wake-up event, else a live node. *)
Definition owned (m : gmap Z RegisteredFDsNode) (key : Z * Z) (u : Z) : Prop :=
  u = 0 /\ key.2 = EVFILT_USER \/
  exists n, m !! u = Some n /\ key_ok u n key.

(** A node at any time. *)
Record node_ok (strict : bool) (n : RegisteredFDsNode) : Prop := {
  n_type : node_type n <> NODE_TYPE_UNSET;
  n_fifo : node_type n = NODE_TYPE_FIFO -> readable n || writable n = true;
  n_eof : eof_state n = 0 \/ eof_state n = EOF_STATE_BOTH \/
    node_type n = NODE_TYPE_SOCKET /\
    (eof_state n = EOF_STATE_READ_EOF \/ eof_state n = EOF_STATE_WRITE_EOF);
  n_quiet : strict = true -> kqueue_quiet n;
  n_fd : 0 <= fd n <= INT_MAX;
  n_list : is_on_pollfd_list n = true ->
    node_type n = NODE_TYPE_POLL /\ (has_evfilt_user = true \/ 0 <= (node_self_pipe n).2);
  n_pipe : node_self_pipe n = (-1, -1) \/
    has_evfilt_user = false /\ 0 <= (node_self_pipe n).1 /\ 0 <= (node_self_pipe n).2;
  n_filters : node_type n = NODE_TYPE_POLL ->
    has_evfilt_read n = false /\ has_evfilt_write n = false
}.

(** Only sockets know of EPOLLRDHUP and EPOLLPRI. *)
Definition masked (n : RegisteredFDsNode) : Prop :=
  node_type n <> NODE_TYPE_SOCKET -> Z.ldiff (events n) (Z.lor EPOLLIN EPOLLOUT) = 0.

(** A node between two calls. *)
Definition stable (strict : bool) (n : RegisteredFDsNode) : Prop :=
  node_ok strict n /\ masked n /\ is_registered n = true.

(** The invariant; the node at [ex], if any, may be in the middle of a change. *)
Record shape (strict : bool) (ex : Z) (c : EpollFDCtx) : Prop := {
  i_node p n : nodes c !! p = Some n -> p <> 0 /\ registered_fds c !! fd n = Some p;
  i_registered d p : registered_fds c !! d = Some p -> exists n, nodes c !! p = Some n /\ fd n = d;
  i_stable p n : nodes c !! p = Some n -> p <> ex -> stable strict n;
  i_size : registered_fds_size c = Z.of_nat (size (registered_fds c));
  i_nodup : NoDup (poll_fds c);
  i_list p : p ∈ poll_fds c <-> exists n, nodes c !! p = Some n /\ is_on_pollfd_list n = true;
  i_list_size : poll_fds_size c = Z.of_nat (length (poll_fds c));
  i_trigger : poll_fds c <> [] ->
    has_evfilt_user = true \/ 0 <= (ctx_self_pipe c).1 /\ 0 <= (ctx_self_pipe c).2;
  i_pipe : ctx_self_pipe c = (-1, -1) \/ 0 <= (ctx_self_pipe c).1 /\ 0 <= (ctx_self_pipe c).2;
  i_kevs : nodes c !! kevs c = None;
  i_pfds : nodes c !! pfds c = None;
  i_distinct : kevs c = pfds c -> kevs c = 0
}.

(** A pointer that is NULL or to memory in use. *)
Definition valid (w : W) (p : Z) : Prop := p = 0 \/ allocated w p.

Record inv (strict : bool) (ex kq : Z) (c : EpollFDCtx) (w : W) : Prop := {
  i_shape : shape strict ex c;
  i_allocated p n : nodes c !! p = Some n -> allocated w p;
  i_buffers : valid w (kevs c) /\ valid w (pfds c);
  i_knotes key u : tracked = true -> knote w kq key = Some u -> owned (nodes c) key u
}.

(** Everything but the node at [p] and the bookkeeping of polling is the same. *)
Record frame (p : Z) (c c' : EpollFDCtx) : Prop := {
  fr_nodes q : q <> p -> nodes c' !! q = nodes c !! q;
  fr_registered : registered_fds c' = registered_fds c;
  fr_size : registered_fds_size c' = registered_fds_size c
}.

#[export] Instance frame_preorder p : PreOrder (frame p).
Proof.
  split; [by intros c; split|]. intros c1 c2 c3 [] []. split; try congruence.
  intros q Hq. rewrite fr_nodes1 by done. auto.
Qed.

(** ** Moving the invariant along *)

Lemma valid_mono w w' p : (forall q, allocated w q -> allocated w' q) -> valid w p -> valid w' p.
Proof. intros Ha [?|?]; [by left|right; auto]. Qed.

Lemma inv_calm st ex kq c w w' : inv st ex kq c w -> calm w w' -> inv st ex kq c w'.
Proof. intros [Hs Ha Hb Hk] [Hck Hca]. split; eauto. destruct Hb. eauto using valid_mono. Qed.

Lemma inv_focus st p kq c w : inv st 0 kq c w -> inv st p kq c w.
Proof.
  intros [Hs Ha Hb Hk]. split; [|done..]. destruct Hs. split; try done.
  intros q n Hq _. eapply i_stable0; [done|]. by eapply i_node0.
Qed.

Lemma inv_unfocus st p kq c w :
  inv st p kq c w -> (forall n, nodes c !! p = Some n -> stable st n) -> inv st 0 kq c w.
Proof.
  intros [Hs Ha Hb Hk] Hn. split; [|done..]. destruct Hs. split; try done.
  intros q n Hq _. destruct (decide (q = p)) as [->|]; eauto.
Qed.

(** Replacing the node in focus. *)
Lemma inv_set_node st p kq c w n n' :
  inv st p kq c w -> nodes c !! p = Some n -> fd n' = fd n ->
  is_on_pollfd_list n' = is_on_pollfd_list n ->
  (tracked = true -> forall key, knote w kq key = Some p -> key_ok p n key -> key_ok p n' key) ->
  inv st p kq (c <| nodes := <[p := n']> (nodes c) |>) w.
Proof.
  intros [Hs Ha Hb Hk] Hn Hfd Hl Hkey. destruct Hs. split; fields.
  - split; fields; try done.
    + intros q m. destruct (decide (q = p)) as [->|Hq].
      * rewrite lookup_insert_eq. intros [= <-]. rewrite Hfd. eauto.
      * rewrite lookup_insert_ne by done. eauto.
    + intros d q Hq. destruct (i_registered0 d q Hq) as (m & Hm & Hd).
      destruct (decide (q = p)) as [->|Hne].
      * exists n'. rewrite lookup_insert_eq. split; [done|]. congruence.
      * exists m. by rewrite lookup_insert_ne.
    + intros q m. destruct (decide (q = p)) as [->|Hq]; [done|].
      rewrite lookup_insert_ne by done. eauto.
    + intros q. rewrite i_list0. destruct (decide (q = p)) as [->|Hq].
      * rewrite lookup_insert_eq, Hn. split; intros (m & [= <-] & Hm).
        -- exists n'. by rewrite Hl.
        -- exists n. by rewrite <- Hl.
      * by rewrite lookup_insert_ne.
    + rewrite lookup_insert_ne; [done|]. intros E. congruence.
    + rewrite lookup_insert_ne; [done|]. intros E. congruence.
  - intros q m. destruct (decide (q = p)) as [->|Hq].
    + rewrite lookup_insert_eq. intros _. eauto.
    + rewrite lookup_insert_ne by done. eauto.
  - done.
  - intros key u Ht Hu. destruct (Hk key u Ht Hu) as [?|(m & Hm & Hok)]; [by left|right].
    destruct (decide (u = p)) as [->|Hq].
    + exists n'. rewrite lookup_insert_eq. split; [done|]. apply (Hkey Ht key Hu). congruence.
    + exists m. by rewrite lookup_insert_ne.
Qed.

Lemma frame_set_node p c n' : frame p c (c <| nodes := <[p := n']> (nodes c) |>).
Proof. split; fields; try done. intros q Hq. by rewrite lookup_insert_ne. Qed.

(** [w'] has no filters for the node at [p] that [w] did not have, but proper ones. *)
Definition grows (p kq : Z) (n : RegisteredFDsNode) (w w' : W) : Prop :=
  (forall q, allocated w q -> allocated w' q) /\
  (forall key u, knote w' kq key = Some u ->
     knote w kq key = Some u \/ u = p /\ (tracked = true -> key_ok p n key)).

Lemma inv_grows st p kq c w w' n :
  inv st p kq c w -> nodes c !! p = Some n -> grows p kq n w w' -> inv st p kq c w'.
Proof.
  intros [Hs Ha Hb Hk] Hn [Hg Hw]. split; [done|by eauto|destruct Hb; eauto using valid_mono|].
  intros key u Ht Hu. destruct (Hw key u Hu) as [?|[-> Hkey]]; [by auto|].
  right. exists n. auto.
Qed.

Lemma grows_calm p kq n w w' : calm w w' -> grows p kq n w w'.
Proof. intros [? ?]. split; auto. Qed.

Lemma grows_trans p kq n w1 w2 w3 : grows p kq n w1 w2 -> grows p kq n w2 w3 -> grows p kq n w1 w3.
Proof.
  intros [? Hw] [? Hw']. split; auto. intros key u Hu. destruct (Hw' key u Hu); auto.
Qed.

(** Neither in any other kqueue. *)
Definition fed_world (p : Z) (n : RegisteredFDsNode) (w w' : W) : Prop :=
  forall kq, grows p kq n w w'.

Lemma fed_world_calm p n w w' : calm w w' -> fed_world p n w w'.
Proof. intros Hc kq. by apply grows_calm. Qed.

Lemma fed_world_trans p n w1 w2 w3 : fed_world p n w1 w2 -> fed_world p n w2 w3 -> fed_world p n w1 w3.
Proof. intros H12 H23 kq. by eapply grows_trans. Qed.

(** A kevent call whose filters are those of the node. *)
Lemma fed_world_kevent p kq n w changes m t :
  (forall k, k ∈ changes -> has (kev_flags k) EV_DELETE = false ->
     kev_udata k = p /\ (tracked = true -> key_ok p n (key_of k))) ->
  fed_world p n w (kernel_step (sys_kevent kq changes m t) w).2.
Proof.
  intros Hc kq'. split; [intros q; apply law_changes_allocated|].
  intros key u Hu. destruct (law_changes w kq changes m t kq' key u Hu) as [?|(_ & k & Hk & Ha & <- & <-)];
    [by left|right]. by apply Hc.
Qed.

(** A kevent call about the wake-up event, whose user data is NULL. *)
Lemma inv_wake st ex kq c w kq' k m t :
  inv st ex kq c w -> kev_udata k = 0 -> (tracked = true -> kev_filter k = EVFILT_USER) ->
  inv st ex kq c (kernel_step (sys_kevent kq' [k] m t) w).2.
Proof.
  intros [Hs Ha Hb Hk] Hu Hf.
  assert (forall q, allocated w q -> allocated (kernel_step (sys_kevent kq' [k] m t) w).2 q)
    as Hal by (intros q; apply law_changes_allocated).
  split; [done|by eauto|destruct Hb; eauto using valid_mono|].
  intros key u Ht Hku. destruct (law_changes w kq' [k] m t kq key u Hku)
    as [?|(_ & k' & Hk' & _ & <- & <-)]; [by auto|].
  apply list_elem_of_singleton in Hk' as ->. left. split; [done|by apply Hf].
Qed.
End Invariant.
