(* ===== verification/EpollOps.v ===== *)
(** * The operations of an epoll instance keep its invariant *)

From S2P Require Import Prelude Kernel KqueueEvent EpollNode EpollLaws EpollFeed EpollCtx EpollInv.

Section Ops.
Context {W : Type} `{EpollLaws W, !Pollable W, !PollableLaws W}.
Context (o : stop -> Prop) (st : bool) (Hst : st = true \/ o AssertFailed).

(** ** Access to nodes *)

Lemma wp_on_node {A} p (m : M (RegisteredFDsNode * W) A) c (w : W) n Q :
  nodes c !! p = Some n ->
  wpg o m (fun a s => Q a (c <| nodes := <[p := s.1]> (nodes c) |>, s.2)) (n, w) ->
  wpg o (on_node p m) Q (c, w).
Proof.
  intros Hn Hm. unfold wpg, on_node in *. cbn. rewrite Hn. destruct (m (n, w)) as [a [n' w']|]; done.
Qed.

Lemma nodes_self c p n : nodes c !! p = Some n -> c <| nodes := <[p := n]> (nodes c) |> = c.
Proof. intros Hn. destruct c. fields_all. by rewrite insert_id. Qed.

Lemma wp_the_node p c (w : W) n (Q : RegisteredFDsNode -> EpollFDCtx * W -> Prop) :
  nodes c !! p = Some n -> Q n (c, w) -> wpg o (the_node p) Q (c, w).
Proof.
  intros Hn HQ. apply (wp_on_node _ _ _ _ n); [done|]. unfold get. wps.
  rewrite (nodes_self _ _ _ Hn). done.
Qed.

(** Changes of a node that keep its place in the lists and its filters. *)
Definition same_place (n n' : RegisteredFDsNode) : Prop :=
  fd n' = fd n /\ is_on_pollfd_list n' = is_on_pollfd_list n /\
  (node_type n' = NODE_TYPE_POLL -> node_type n = NODE_TYPE_POLL).

Lemma same_place_key p n n' key : same_place n n' -> key_ok p n key -> key_ok p n' key.
Proof.
  intros (Hfd & _ & Ht) [?|(Hp & Hk & Hf)]; [by left|right]. rewrite Hfd. auto.
Qed.

(** The polling state of the instance. *)
Record same_polling (c c' : EpollFDCtx) : Prop := {
  sp_fds : poll_fds c' = poll_fds c;
  sp_size : poll_fds_size c' = poll_fds_size c;
  sp_pipe : ctx_self_pipe c' = ctx_self_pipe c
}.

Lemma wp_set_node p f kq c (w : W) n (Q : unit -> EpollFDCtx * W -> Prop) :
  inv st p kq c w -> nodes c !! p = Some n -> same_place n (f n) ->
  (forall c', inv st p kq c' w -> nodes c' !! p = Some (f n) -> frame p c c' ->
     same_polling c c' -> Q tt (c', w)) ->
  wpg o (set_node p f) Q (c, w).
Proof.
  intros Hi Hn Hp HQ. apply (wp_on_node _ _ _ _ n); [done|]. wps. apply HQ.
  - apply (inv_set_node st p kq c w n); try done; try apply Hp.
    intros _ key _. by apply same_place_key.
  - fields. apply lookup_insert_eq.
  - apply frame_set_node.
  - by split.
Qed.

(** An operation of the node in focus that changes it in place and may add proper filters. *)
Lemma wp_node_op {A} p kq (m : M (RegisteredFDsNode * W) A) c (w : W) n Q :
  inv st p kq c w -> nodes c !! p = Some n ->
  wpg o m (fun a s => same_place n s.1 /\ grows p kq n w s.2 /\
    forall c', inv st p kq c' s.2 -> nodes c' !! p = Some s.1 -> frame p c c' ->
      same_polling c c' -> Q a (c', s.2)) (n, w) ->
  wpg o (on_node p m) Q (c, w).
Proof.
  intros Hi Hn Hm. apply (wp_on_node _ _ _ _ n); [done|].
  eapply wp_mono; [exact Hm|]. intros a [n' w'] (Hp & Hg & HQ). cbn in *. apply HQ.
  - apply (inv_set_node st p kq c w' n); try done; try apply Hp.
    + by eapply inv_grows.
    + intros _ key _. by apply same_place_key.
  - fields. apply lookup_insert_eq.
  - apply frame_set_node.
  - by split.
Qed.

(** ** Triggers *)

Lemma user_key p n : key_ok p n (p, EVFILT_USER).
Proof. by left. Qed.

Lemma not_tracked : has_evfilt_user = false -> tracked = true -> False.
Proof. unfold tracked. by intros ->. Qed.

(** kevent with deletions only. *)
Lemma calm_kevent kq changes w n t :
  (forall k, k ∈ changes -> is_delete k) ->
  calm w (kernel_step (sys_kevent kq changes n t) w).2.
Proof.
  intros Hc. split; [|intros q; apply law_changes_allocated].
  intros kq' key u Hu. destruct (law_changes w kq changes n t kq' key u Hu)
    as [?|(_ & k & Hk & Ha & _)]; [done|]. specialize (Hc k Hk). unfold is_delete in Hc. congruence.
Qed.

Lemma wp_kevent_calm {C} kq changes n t (x : C) w Q :
  (forall k, k ∈ changes -> is_delete k) ->
  (forall w', calm w w' -> Q tt (x, w')) ->
  wpg o (call_ (sys_kevent kq changes n t)) Q (x, w).
Proof.
  intros Hc HQ. pose proof (calm_kevent kq changes w n t Hc) as Hcalm.
  unfold call_. wps. destruct (kernel_step _ w) as [r w']. wps. by apply HQ.
Qed.

Lemma delete_1 k : is_delete k ->
  forall k', k' ∈ [k] -> is_delete k'.
Proof. intros Hk k' ->%list_elem_of_singleton. done. Qed.

Lemma trigger_self_spec p kq n w (Q : unit -> RegisteredFDsNode * W -> Prop) :
  has_evfilt_user = true \/ 0 <= (node_self_pipe n).2 ->
  (forall w', fed_world p n w w' -> Q tt (n, w')) ->
  wpg o (registered_fds_node_trigger_self p kq) Q (n, w).
Proof.
  intros Hp HQ. unfold registered_fds_node_trigger_self. destruct has_evfilt_user.
  - unfold call_. apply wp_bind, wp_call_pair.
    pose proof (fed_world_kevent p kq n w [EV_SET p EVFILT_USER 0 NOTE_TRIGGER 0 p] 0 None) as Hg.
    destruct (kernel_step _ w) as [r w']. apply wp_ret, HQ, Hg.
    intros k ->%list_elem_of_singleton _. split; [done|]. intros _. apply user_key.
  - wps. destruct Hp as [?|Hp]; [done|]. rewrite (proj2 (Z.leb_le 0 _) Hp). wps.
    apply wp_quiet_; [done|]. intros w' Hc. by apply HQ, fed_world_calm.
Qed.

(** The node after its trigger was added. *)
Definition triggerable (n n' : RegisteredFDsNode) : Prop :=
  exists q, n' = n <| node_self_pipe := q |> /\
    (q = (-1, -1) \/ has_evfilt_user = false /\ 0 <= q.1 /\ 0 <= q.2) /\
    (0 <= (node_self_pipe n).2 -> 0 <= q.2).

Definition pipe_ok (n : RegisteredFDsNode) : Prop :=
  node_self_pipe n = (-1, -1) \/
  has_evfilt_user = false /\ 0 <= (node_self_pipe n).1 /\ 0 <= (node_self_pipe n).2.

Lemma triggerable_refl n : pipe_ok n ->
  triggerable n n.
Proof. intros Hp. exists (node_self_pipe n). split; [by destruct n|done]. Qed.

Lemma grows_add1 p kq n w k m t : kev_udata k = p -> (tracked = true -> key_ok p n (key_of k)) ->
  grows p kq n w (kernel_step (sys_kevent kq [k] m t) w).2.
Proof. intros. apply fed_world_kevent. intros k' ->%list_elem_of_singleton. done. Qed.

Lemma add_self_trigger_spec p kq n w (Q : result unit -> RegisteredFDsNode * W -> Prop) :
  pipe_ok n ->
  (forall r n' w', triggerable n n' -> grows p kq n w w' ->
     (r = Ok tt -> has_evfilt_user = true \/ 0 <= (node_self_pipe n').2) -> Q r (n', w')) ->
  wpg o (registered_fds_node_add_self_trigger p kq) Q (n, w).
Proof.
  intros Hp HQ. unfold registered_fds_node_add_self_trigger.
  destruct has_evfilt_user eqn:Eu.
  { wps. pose proof (grows_add1 p kq n w (EV_SET p EVFILT_USER (Z.lor EV_ADD EV_CLEAR) 0 0 p) 0 None
      eq_refl (fun _ => user_key p n)) as Hg.
    destruct (kernel_step _ w) as [[r|ec] w']; wps; apply HQ; auto using triggerable_refl. }
  assert (forall n1 w1, triggerable n n1 -> calm w w1 -> 0 <= (node_self_pipe n1).2 ->
    wpg o (let* p0 := getf node_self_pipe in
           let* r := call (sys_kevent kq [EV_SET (u32 p0.1) EVFILT_READ (Z.lor EV_ADD EV_CLEAR) 0 0 p] 0 None) in
           match r with Ok _ => ret (Ok tt) | Err ec => ret (Err ec) end) Q (n1, w1)) as Hadd.
  { intros n1 w1 Ht Hc Hp1. wps.
    set (k := EV_SET (u32 (node_self_pipe n1).1) EVFILT_READ (Z.lor EV_ADD EV_CLEAR) 0 0 p).
    assert (grows p kq n w1 (kernel_step (sys_kevent kq [k] 0 None) w1).2) as Hg.
    { apply grows_add1; [done|]. intros Ht'. by destruct (not_tracked Eu Ht'). }
    destruct (kernel_step _ w1) as [[r|ec] w']; wps; apply HQ; auto;
      (eapply grows_trans; [by apply grows_calm|done]). }
  wps. destruct ((_ <? 0) && (_ <? 0)) eqn:En; wps.
  - pose proof (law_pipe_fds w (Z.lor O_NONBLOCK O_CLOEXEC)) as Hfds.
    quiet_call as r w1 Hc. destruct r as [[r1 r2]|ec]; wps.
    + destruct Hfds as [H1' H2']. cbn in H1', H2'.
      rewrite (proj2 (Z.leb_le 0 r1) H1'). wps. rewrite (proj2 (Z.leb_le 0 r2) H2'). wps.
      specialize (Hadd (n <| node_self_pipe := (r1, r2) |>) w1). revert Hadd. wps. intros Hadd.
      apply Hadd; [by exists (r1, r2); split_and!; auto|done|done].
    + apply HQ; [|by apply grows_calm|done].
      exists (-1, -1). split_and!; auto. apply andb_true_iff in En as [_ En]. b2p. lia.
  - destruct Hp as [E|(_ & H1' & H2')]; [by rewrite E in En|].
    specialize (Hadd n w). revert Hadd. wps. intros Hadd.
    apply Hadd; [by apply triggerable_refl; right; split_and!|done|done].
Qed.

(** ** Waking the threads that poll *)

(** Bookkeeping that touches no node keeps the invariant. *)
Lemma inv_nr_polling ex kq c w k :
  inv st ex kq c w -> inv st ex kq (c <| nr_polling_threads := k |>) w.
Proof. intros [[] Ha Hb Hk]. split; [split|..]; done. Qed.

Lemma trigger_repoll_spec kq ex c w (Q : unit -> EpollFDCtx * W -> Prop) :
  inv st ex kq c w ->
  has_evfilt_user = true \/ 0 <= (ctx_self_pipe c).1 /\ 0 <= (ctx_self_pipe c).2 ->
  (forall k w', let c' := c <| nr_polling_threads := k |> in inv st ex kq c' w' -> Q tt (c', w')) ->
  wpg o (epollfd_ctx__trigger_repoll kq) Q (c, w).
Proof.
  intros Hi Hp HQ. unfold epollfd_ctx__trigger_repoll, epollfd_ctx__trigger_self. wps.
  destruct (nr_polling_threads c =? 0); wps.
  { specialize (HQ (nr_polling_threads c) w). cbn zeta in HQ.
    assert (c <| nr_polling_threads := nr_polling_threads c |> = c) as E by (by destruct c).
    rewrite E in HQ. by apply HQ. }
  destruct has_evfilt_user eqn:Eu; wps.
  - unfold call_. wps.
    pose proof (inv_wake st ex kq c w kq (EV_SET 0 EVFILT_USER 0 NOTE_TRIGGER 0 0) 0 None Hi eq_refl
      (fun _ => eq_refl)) as Hi'.
    destruct (kernel_step _ w) as [r w']. wps. by apply HQ, inv_nr_polling.
  - destruct Hp as [?|[H1' H2']]; [done|].
    rewrite (proj2 (Z.leb_le 0 _) H1'). wps. rewrite (proj2 (Z.leb_le 0 _) H2'). wps.
    apply wp_quiet_; [done|]. intros w1 Hc1. wps.
    apply wp_drain; [done|]. intros w2 Hc2. apply HQ, inv_nr_polling.
    eapply inv_calm; [exact Hi|by etrans].
Qed.

(** ** Taking a node out of the kqueue *)

(** The instance without the node at [p] on the list of polled descriptors. *)
Definition unlisted (p : Z) (n : RegisteredFDsNode) (c : EpollFDCtx) : EpollFDCtx :=
  c <| poll_fds := filter (fun q => q <> p) (poll_fds c) |>
    <| nodes := <[p := n <| is_on_pollfd_list := false |>]> (nodes c) |>
    <| poll_fds_size := poll_fds_size c - 1 |>.

Lemma inv_unlisted p kq c w n :
  inv st p kq c w -> nodes c !! p = Some n -> is_on_pollfd_list n = true ->
  inv st p kq (unlisted p n c) w /\ nodes (unlisted p n c) !! p = Some (n <| is_on_pollfd_list := false |>) /\
  frame p c (unlisted p n c) /\ poll_fds_size c <> 0.
Proof.
  intros Hi Hn Hl. pose proof Hi as [Hs Ha Hb Hk]. destruct Hs.
  assert (p ∈ poll_fds c) as Hin by (apply i_list; eauto).
  assert (inv st p kq (c <| nodes := <[p := n]> (nodes c) |>) w) as Hi' by (by rewrite nodes_self).
  unfold unlisted. split_and!; fields.
  - split; fields; [split; fields; try done|..].
    + intros q m. destruct (decide (q = p)) as [->|Hq].
      * rewrite lookup_insert_eq. intros [= <-]. fields. by eapply i_node.
      * rewrite lookup_insert_ne by done. apply i_node.
    + intros d q Hq. destruct (i_registered d q Hq) as (m & Hm & Hd).
      destruct (decide (q = p)) as [->|Hne].
      * eexists. rewrite lookup_insert_eq. split; [done|]. fields. congruence.
      * exists m. by rewrite lookup_insert_ne.
    + intros q m. destruct (decide (q = p)) as [->|Hq]; [done|].
      rewrite lookup_insert_ne by done. apply i_stable.
    + by apply NoDup_filter.
    + intros q. rewrite list_elem_of_filter, i_list. destruct (decide (q = p)) as [->|Hq].
      * rewrite lookup_insert_eq. split; [by intros [? _]|]. by intros (m & [= <-] & Hm).
      * rewrite lookup_insert_ne by done. split; [by intros [_ ?]|done].
    + rewrite length_filter_ne by done. lia.
    + intros _. apply i_trigger. intros E. rewrite E in Hin. by apply elem_of_nil in Hin.
    + rewrite lookup_insert_ne; [done|]. intros E. congruence.
    + rewrite lookup_insert_ne; [done|]. intros E. congruence.
    + intros q m. destruct (decide (q = p)) as [->|Hq]; [intros _; by eapply Ha|].
      rewrite lookup_insert_ne by done. apply Ha.
    + done.
    + intros key u Ht Hu. destruct (Hk key u Ht Hu) as [?|(m & Hm & Hok)]; [by left|right].
      destruct (decide (u = p)) as [->|Hq].
      * eexists. rewrite lookup_insert_eq. split; [done|]. by simplify_eq.
      * exists m. by rewrite lookup_insert_ne.
  - apply lookup_insert_eq.
  - split; fields; try done. intros q Hq. by rewrite lookup_insert_ne.
  - rewrite i_list_size. destruct (poll_fds c); [by apply elem_of_nil in Hin|]. cbn. lia.
Qed.

(** The node once its filters are gone. *)
Definition removed (n n' : RegisteredFDsNode) : Prop :=
  exists r x e, n' = n <| is_on_pollfd_list := false |> <| has_evfilt_read := r |>
      <| has_evfilt_write := x |> <| has_evfilt_except_ := e |> /\
    (node_type n <> NODE_TYPE_POLL -> r = false /\ x = false /\ e = false) /\
    (node_type n = NODE_TYPE_POLL -> r = has_evfilt_read n /\ x = has_evfilt_write n).

(** The kqueue holds no reference to the node at [p]. *)
Definition forgotten (p kq : Z) (w : W) : Prop :=
  tracked = true -> forall key, knote w kq key <> Some p.

(** The first part: off the list. *)
Lemma unlist_spec p kq c w n (Q : unit -> EpollFDCtx * W -> Prop) :
  inv st p kq c w -> nodes c !! p = Some n ->
  (forall c' w', inv st p kq c' w' -> nodes c' !! p = Some (n <| is_on_pollfd_list := false |>) ->
     frame p c c' -> Q tt (c', w')) ->
  wpg o (when (is_on_pollfd_list n)
    (mod_self (fun c => c <| poll_fds := filter (fun q => q <> p) (poll_fds c) |>) ;;
     set_node p (fun n => n <| is_on_pollfd_list := false |>) ;;
     let* size := getf poll_fds_size in
     c_assert (negb (size =? 0)) ;;
     self poll_fds_size := (size - 1) ;;
     epollfd_ctx__trigger_repoll kq)) Q (c, w).
Proof.
  intros Hi Hn HQ. wps. destruct (is_on_pollfd_list n) eqn:El; wps.
  2: { apply HQ; [done| |done]. rewrite Hn. f_equal. destruct n. fields_all. by rewrite El. }
  destruct (inv_unlisted p kq c w n Hi Hn El) as (Hi' & Hn' & Hf & Hs).
  apply (wp_on_node _ _ _ _ n); [done|]. wps. fields.
  rewrite (proj2 (Z.eqb_neq _ 0) Hs). wps.
  apply (trigger_repoll_spec kq p (unlisted p n c)); [done| |].
  - destruct Hi as [Hsh _ _ _]. destruct Hsh. apply i_trigger. intros E.
    assert (p ∈ poll_fds c) as Hin by (apply i_list; eauto). rewrite E in Hin.
    by apply elem_of_nil in Hin.
  - intros k w' c' Hi1. apply HQ; [done|done|]. etrans; [exact Hf|]. by split.
Qed.

(** The second part: the self pipe is deregistered and emptied. *)
Lemma quiet_pipe_spec kq n c w (Q : unit -> EpollFDCtx * W -> Prop) :
  pipe_ok n -> (forall w', calm w w' -> Q tt (c, w')) ->
  wpg o (when (0 <=? (node_self_pipe n).1)
    (call_ (sys_kevent kq
       [EV_SET (u32 (node_self_pipe n).1) EVFILT_READ EV_DELETE 0 0 0] 0 None) ;;
     lift (read_until_error fuel (node_self_pipe n).1))) Q (c, w).
Proof.
  intros Hp HQ. wps. destruct (0 <=? (node_self_pipe n).1) eqn:E; wps; [|by apply HQ].
  destruct Hp as [Hp|(Hu & _)]; [by rewrite Hp in E|].
  apply wp_kevent_calm; [by apply delete_1|]. intros w1 Hc1. wps.
  apply wp_drain; [done|]. intros w2 Hc2. apply HQ. by etrans.
Qed.

(** After EV_DELETE of all the filters a node may have, it is forgotten. *)
Lemma deleted_forgotten ex kq c w p n changes m t :
  inv st ex kq c w -> nodes c !! p = Some n ->
  (forall k, k ∈ changes -> is_delete k) ->
  length changes = 1%nat \/ Forall wants_receipt changes ->
  (forall key, key_ok p n key -> exists k, k ∈ changes /\ key_of k = key) ->
  let w' := (kernel_step (sys_kevent kq changes m t) w).2 in
  calm w w' /\ forgotten p kq w'.
Proof.
  intros Hi Hn Hc Hr Hall w'.
  assert (calm w w') as Hcalm by (apply calm_kevent; intros k Hk; by apply Hc).
  split; [done|]. intros Ht key Hkey.
  assert (knote w kq key = Some p) as Hold by (by apply Hcalm).
  destruct Hi as [Hs _ _ Hk]. destruct (Hk key p Ht Hold) as [[-> _]|(n' & Hn' & Hok)].
  - by destruct (i_node _ _ _ Hs 0 n Hn) as [? _].
  - simplify_eq. destruct (Hall key Hok) as (k & Hk' & <-).
    unfold w' in Hkey. rewrite law_delete in Hkey; [done| |done|done].
    apply Forall_forall. intros k' Hk''. by apply Hc.
Qed.

Lemma wp_kevent_any {C} kq changes n t (x : C) w Q :
  Q tt (x, (kernel_step (sys_kevent kq changes n t) w).2) ->
  wpg o (call_ (sys_kevent kq changes n t)) Q (x, w).
Proof. intros HQ. unfold call_. wps. destruct (kernel_step _ w) as [r w']. by wps. Qed.

(** The deletions of a node that is not only polled. *)
Definition node_deletions (p fd2 : Z) (third : kevent) : list kevent :=
  let del ident filter := EV_SET ident filter (Z.lor EV_DELETE EV_RECEIPT) 0 0 0 in
  [del (u32 fd2) EVFILT_READ; del (u32 fd2) EVFILT_WRITE; third].

Lemma u32_fd n : 0 <= fd n <= INT_MAX -> u32 (fd n) = fd n.
Proof. intros Hf. apply u32_small. unfold INT_MAX in Hf. lia. Qed.

Lemma node_deletions_forget ex kq c w p n m t :
  inv st ex kq c w -> nodes c !! p = Some n -> 0 <= fd n <= INT_MAX ->
  let third := EV_SET p EVFILT_USER (Z.lor EV_DELETE EV_RECEIPT) 0 0 0 in
  let w' := (kernel_step (sys_kevent kq (node_deletions p (fd n) third) m t) w).2 in
  calm w w' /\ forgotten p kq w'.
Proof.
  intros Hi Hn Hf third w'. apply (deleted_forgotten ex kq c w p n); try done.
  - intros k Hk. unfold node_deletions in Hk.
    repeat (apply elem_of_cons in Hk as [->|Hk]; [done|]). by apply elem_of_nil in Hk.
  - right. by repeat constructor.
  - intros key Hok. unfold node_deletions. rewrite u32_fd by done.
    destruct Hok as [->|(_ & Hid & Hfl)].
    + exists third. split; [set_solver|done].
    + destruct key as [i f]. cbn in *. subst i.
      destruct Hfl as [-> | ->];
        [exists (EV_SET (fd n) EVFILT_READ (Z.lor EV_DELETE EV_RECEIPT) 0 0 0)
        |exists (EV_SET (fd n) EVFILT_WRITE (Z.lor EV_DELETE EV_RECEIPT) 0 0 0)];
        (split; [set_solver|done]).
Qed.

Lemma remove_from_kq_spec p kq c w n (Q : unit -> EpollFDCtx * W -> Prop) :
  inv st p kq c w -> nodes c !! p = Some n -> pipe_ok n -> 0 <= fd n <= INT_MAX ->
  (forall c' w' n', inv st p kq c' w' -> nodes c' !! p = Some n' -> frame p c c' ->
     removed n n' -> forgotten p kq w' -> Q tt (c', w')) ->
  wpg o (epollfd_ctx__remove_node_from_kq kq p) Q (c, w).
Proof.
  intros Hi Hn Hok Hfdn HQ. unfold epollfd_ctx__remove_node_from_kq. apply wp_bind.
  apply (wp_the_node _ _ _ n); [done|]. apply wp_bind.
  apply (unlist_spec p kq c w n); [done..|]. intros c1 w1 Hi1 Hn1 Hf1. apply wp_bind.
  set (n1 := n <| is_on_pollfd_list := false |>) in *.
  apply quiet_pipe_spec; [done|]. intros w2 Hc2.
  pose proof (inv_calm _ _ _ _ _ _ Hi1 Hc2) as Hi2.
  unfold is_type. destruct (bool_decide_reflect (node_type n = NODE_TYPE_POLL)) as [Ht|Ht].
  - assert (removed n n1) as Hrm.
    { exists (has_evfilt_read n), (has_evfilt_write n), (has_evfilt_except_ n).
      split; [by destruct n|by split]. }
    wps. destruct has_evfilt_user eqn:Eu.
    + apply wp_kevent_any.
      set (k := EV_SET p EVFILT_USER EV_DELETE 0 0 0).
      destruct (deleted_forgotten p kq c1 w2 p n1 [k] 0 None) as [Hc3 Hfg]; try done.
      * by intros k' ->%list_elem_of_singleton.
      * by left.
      * intros key [->|[Hp _]]; [|by destruct Hp]. exists k. split; [set_solver|done].
      * eapply HQ; [by eapply inv_calm|done..].
    + wps. eapply HQ; try done. intros Ht'. by destruct (not_tracked Eu Ht').
  - assert (forall w3, inv st p kq c1 w3 -> forgotten p kq w3 ->
      wpg o (set_node p (fun n => n <| has_evfilt_read := false |> <| has_evfilt_write := false |>
               <| has_evfilt_except_ := false |>)) Q (c1, w3)) as Hset.
    { intros w3 Hi3 Hfg. eapply wp_set_node; [done|exact Hn1|by split_and!|].
      intros c4 Hi4 Hn4 Hf4 _. eapply HQ; [done|exact Hn4|by etrans| |done].
      exists false, false, false. done. }
    destruct has_evfilt_user eqn:Eu; wps.
    + apply wp_kevent_any.
      destruct (node_deletions_forget p kq c1 w2 p n1 3 None) as [Hc3 Hfg]; [done..|].
      apply Hset; [|exact Hfg]. by eapply inv_calm; [|exact Hc3].
    + quiet_call as third w3 Hc3. wps. apply wp_kevent_any.
      apply Hset; [|intros Ht'; by destruct (not_tracked Eu Ht')].
      destruct Hi2 as [Hs2 Ha2 Hb2 _]. split; [done| |destruct Hb2; split;
          (eapply valid_mono; [intros b Hbb; by apply law_changes_allocated, Hc3|done])|
        intros ?? Ht'; by destruct (not_tracked Eu Ht')].
      intros q m Hq. apply law_changes_allocated, Hc3. by eapply Ha2.
Qed.

(** ** Removing a node *)

Lemma forgotten_calm p kq w w' : forgotten p kq w -> calm w w' -> forgotten p kq w'.
Proof. intros Hf [Hk _] Ht key E. by apply (Hf Ht key), Hk. Qed.

(** The instance without the node at [p]. *)
Definition dropped (p : Z) (n : RegisteredFDsNode) (c : EpollFDCtx) : EpollFDCtx :=
  c <| registered_fds := delete (fd n) (registered_fds c) |>
    <| registered_fds_size := registered_fds_size c - 1 |>
    <| nodes := delete p (nodes c) |>.

Lemma registered_size ex kq c w d q : inv st ex kq c w -> registered_fds c !! d = Some q ->
  registered_fds_size c = Z.of_nat (size (delete d (registered_fds c))) + 1 /\
  0 < registered_fds_size c.
Proof.
  intros [Hs _ _ _] Hd. rewrite (i_size _ _ _ Hs).
  rewrite map_size_delete_Some by eauto.
  assert (size (registered_fds c) <> 0%nat).
  { rewrite map_size_ne_0_lookup. eauto. }
  lia.
Qed.

Lemma inv_dropped p kq c w w' n :
  inv st p kq c w -> nodes c !! p = Some n -> is_on_pollfd_list n = false ->
  forgotten p kq w' -> (forall q, q <> p -> allocated w q -> allocated w' q) ->
  (forall key u, knote w' kq key = Some u -> knote w kq key = Some u) ->
  inv st 0 kq (dropped p n c) w'.
Proof.
  intros Hi Hn Hl Hf Ha' Hk'. pose proof Hi as [Hs Ha Hb Hk].
  destruct (i_node _ _ _ Hs p n Hn) as [_ Hreg].
  destruct (registered_size p kq c w (fd n) p Hi Hreg) as [Hsz _].
  destruct Hs. unfold dropped. split; fields; [split; fields; try done|..].
  - intros q m Hq. apply lookup_delete_Some in Hq as [Hq Hm].
    destruct (i_node q m Hm) as [? Hm']. split; [done|].
    rewrite lookup_delete_ne; [done|]. intros E. congruence.
  - intros d q Hq. apply lookup_delete_Some in Hq as [Hq Hd].
    destruct (i_registered d q Hd) as (m & Hm & Hmd). exists m. split; [|done].
    rewrite lookup_delete_ne; [done|]. intros ->. congruence.
  - intros q m Hq _. apply lookup_delete_Some in Hq as [Hq Hm]. by apply (i_stable q).
  - lia.
  - intros q. rewrite i_list. split; intros (m & Hm & Hml); exists m; (split; [|done]).
    + rewrite lookup_delete_ne; [done|]. intros ->. congruence.
    + by apply lookup_delete_Some in Hm as [? Hm].
  - by apply lookup_delete_None; right.
  - by apply lookup_delete_None; right.
  - intros q m Hq. apply lookup_delete_Some in Hq as [Hq Hm]. apply Ha'; [done|]. by eapply Ha.
  - assert (forall b, nodes c !! b = None -> valid w b -> valid w' b) as Hv.
    { intros b Hb' [?|?]; [by left|right]. apply Ha'; [|done]. intros ->. congruence. }
    destruct Hb. auto.
  - intros key u Ht Hu. destruct (Hk key u Ht (Hk' key u Hu)) as [?|(m & Hm & Hok)]; [by left|right].
    exists m. split; [|done]. rewrite lookup_delete_ne; [done|]. intros ->. by apply (Hf Ht key).
Qed.

Lemma wp_free p kq w (Q : unit -> W -> Prop) :
  forgotten p kq w ->
  (forall w', forgotten p kq w' -> (forall q, q <> p -> allocated w q -> allocated w' q) ->
     (forall key u, knote w' kq key = Some u -> knote w kq key = Some u) -> Q tt w') ->
  wpg o (call_ (sys_free p)) Q w.
Proof.
  intros Hf HQ. unfold call_. wps. unfold call, wpg.
  pose proof (law_free w p) as Ha.
  assert (forall key u, knote (kernel_step (sys_free p) w).2 kq key = Some u -> knote w kq key = Some u)
    as Hk by (intros key u; by apply law_memory_knote).
  destruct (kernel_step _ w) as [[] w']. apply HQ; [|by auto|done].
  intros Ht key E. by apply (Hf Ht key), Hk.
Qed.

Lemma wp_close_end fd w (Q : unit -> W -> Prop) :
  (forall w', calm w w' -> Q tt w') -> wpg o (call_ (sys_close fd)) Q w.
Proof.
  intros HQ. unfold call_. wps. unfold call, wpg. quiet_call as r w1 Hc. by apply HQ.
Qed.

Lemma destroy_calls_spec p n w (Q : unit -> W -> Prop) :
  (forall w', calm w w' -> wpg o (call_ (sys_free p)) Q w') ->
  wpg o (registered_fds_node_destroy p n) Q w.
Proof.
  intros HQ. unfold registered_fds_node_destroy. wps.
  assert (forall w1, calm w w1 -> wpg o (when ((0 <=? (node_self_pipe n).1) && (0 <=? (node_self_pipe n).2))
    (call_ (sys_close (node_self_pipe n).1) ;; call_ (sys_close (node_self_pipe n).2)) ;;
    call_ (sys_free p)) Q w1) as Hrest.
  { intros w1 Hc1. wps. destruct (_ && _); wps; [|by apply HQ].
    apply wp_close_end. intros w2 Hc2. apply wp_close_end. intros w3 Hc3.
    apply HQ. by etrans; [|etrans]. }
  destruct (is_type NODE_TYPE_KQUEUE n); [|by apply Hrest].
  apply wp_pollable_unref. intros w1 Hc1. by apply Hrest.
Qed.

(** What removing the node of [d] does to the instance. *)
Record gone (p d : Z) (c c' : EpollFDCtx) : Prop := {
  g_nodes q : q <> p -> nodes c' !! q = nodes c !! q;
  g_registered : registered_fds c' = delete d (registered_fds c)
}.

Lemma remove_node_spec p kq c w n (Q : unit -> EpollFDCtx * W -> Prop) :
  inv st p kq c w -> nodes c !! p = Some n -> pipe_ok n -> 0 <= fd n <= INT_MAX ->
  (forall c' w', inv st 0 kq c' w' -> gone p (fd n) c c' -> Q tt (c', w')) ->
  wpg o (epollfd_ctx_remove_node kq p) Q (c, w).
Proof.
  intros Hi Hn Hok Hfdn HQ. unfold epollfd_ctx_remove_node. apply wp_bind.
  apply (remove_from_kq_spec p kq c w n); [done..|].
  intros c1 w1 n1 Hi1 Hn1 Hf1 (r & x & e & -> & _) Hfg. apply wp_bind.
  eapply wp_the_node; [exact Hn1|].
  set (n1 := n <| is_on_pollfd_list := false |> <| has_evfilt_read := r |>
      <| has_evfilt_write := x |> <| has_evfilt_except_ := e |>) in *.
  destruct (i_node _ _ _ (i_shape _ _ _ _ _ Hi1) p n1 Hn1) as [_ Hreg].
  destruct (registered_size p kq c1 w1 (fd n1) p Hi1 Hreg) as [_ Hsz].
  wps. fields. rewrite (proj2 (Z.ltb_lt 0 _) Hsz). wps. unfold destroy_node. apply wp_bind.
  eapply wp_the_node; [exact Hn1|]. wps. apply destroy_calls_spec. intros w2 Hc2.
  apply (wp_free p kq); [by eapply forgotten_calm|]. intros w3 Hf3 Ha3 Hk3. wps.
  apply HQ.
  - apply (inv_dropped p kq c1 w2 w3 n1); try done. by eapply inv_calm.
  - split; fields.
    + intros q Hq. rewrite lookup_delete_ne by done. by apply (fr_nodes _ _ _ Hf1).
    + by rewrite (fr_registered _ _ _ Hf1).
Qed.
End Ops.
