(* ===== verification/EpollRegister.v ===== *)
(** * Registration of a node keeps the invariant *)

From S2P Require Import Prelude Kernel KqueueEvent EpollNode EpollLaws EpollFeed EpollCtx EpollInv EpollOps.

(** What registration may change in a node. *)
Record touched (n n' : RegisteredFDsNode) : Prop := {
  t_fd : fd n' = fd n;
  t_data : data n' = data n;
  t_registered : is_registered n' = is_registered n;
  t_node_data : node_data n' = node_data n;
  t_events : events n' = events n;
  t_revents : revents n' = revents n;
  t_rdhup : needs_rdhup_translation n' = needs_rdhup_translation n;
  t_edge : is_edge_triggered n' = is_edge_triggered n;
  t_oneshot : is_oneshot n' = is_oneshot n;
  t_type : node_type n' = node_type n \/
    node_type n = NODE_TYPE_OTHER /\ node_type n' = NODE_TYPE_POLL;
  t_eof : eof_state n' = eof_state n \/
    node_type n = NODE_TYPE_FIFO /\ eof_state n' = EOF_STATE_BOTH
}.

#[export] Instance touched_preorder : PreOrder touched.
Proof.
  split; [by intros n; split; auto|]. intros n1 n2 n3 [] []. split; try congruence.
  - intuition congruence.
  - intuition congruence.
Qed.

Section Register.
Context {W : Type} `{EpollLaws W, !Pollable W, !PollableLaws W}.
Context (o : stop -> Prop) (st : bool) (Hst : st = true \/ o AssertFailed).

(** The polled descriptors and their triggers. *)
Definition list_ok (n : RegisteredFDsNode) : Prop := is_on_pollfd_list n = true ->
  node_type n = NODE_TYPE_POLL /\ (has_evfilt_user = true \/ 0 <= (node_self_pipe n).2).

Definition filters_ok (n : RegisteredFDsNode) : Prop := node_type n = NODE_TYPE_POLL ->
  has_evfilt_read n = false /\ has_evfilt_write n = false.

Lemma touched_ok n n' : node_ok st n -> touched n n' -> pipe_ok n' -> list_ok n' ->
  filters_ok n' -> node_ok st n'.
Proof.
  intros [] [] Hp Hl Hf. unfold kqueue_quiet, readable, writable in *.
  split; try done.
  - destruct t_type0 as [->|[_ ->]]; done.
  - unfold readable, writable. rewrite t_node_data0. destruct t_type0 as [->|[_ ->]]; done.
  - destruct t_eof0 as [->|[_ ->]]; [|by auto].
    destruct t_type0 as [->|[E ->]]; [done|]. rewrite E in *.
    destruct n_eof as [?|[?|[? _]]]; auto. done.
  - unfold kqueue_quiet. intros E Ht.
    destruct t_type0 as [E'|[_ E']], t_eof0 as [->|[E'' _]]; rewrite ?E' in *; auto; congruence.
  - by rewrite t_fd0.
Qed.

Lemma not_poll n : node_type n <> NODE_TYPE_POLL -> filters_ok n.
Proof. by intros ? ?. Qed.

(** The triggers of the instance. *)
Lemma ctx_add_self_trigger_spec p kq c w (Q : result unit -> EpollFDCtx * W -> Prop) :
  inv st p kq c w ->
  (forall r q w', let c' := c <| ctx_self_pipe := q |> in inv st p kq c' w' ->
     (r = Ok tt -> has_evfilt_user = true \/ 0 <= q.1 /\ 0 <= q.2) -> Q r (c', w')) ->
  wpg o (epollfd_ctx__add_self_trigger kq) Q (c, w).
Proof.
  intros Hi HQ. unfold epollfd_ctx__add_self_trigger.
  assert (c <| ctx_self_pipe := ctx_self_pipe c |> = c) as Hself by (by destruct c).
  destruct has_evfilt_user eqn:Eu.
  { wps. pose proof (inv_wake st p kq c w kq (EV_SET 0 EVFILT_USER (Z.lor EV_ADD EV_CLEAR) 0 0 0) 0 None Hi
      eq_refl (fun _ => eq_refl)) as Hi'.
    rewrite <- Hself. destruct (kernel_step _ w) as [[r|ec] w']; wps; apply HQ; rewrite ?Hself; auto. }
  assert (forall q w1, let c1 := c <| ctx_self_pipe := q |> in inv st p kq c1 w1 ->
    0 <= q.1 /\ 0 <= q.2 ->
    wpg o (let* p0 := getf ctx_self_pipe in
           let* r := call (sys_kevent kq [EV_SET (u32 p0.1) EVFILT_READ (Z.lor EV_ADD EV_CLEAR) 0 0 0] 0 None) in
           match r with Ok _ => ret (Ok tt) | Err ec => ret (Err ec) end) Q (c1, w1)) as Hadd.
  { intros q w1 c1 Hi1 Hq. wps.
    pose proof (inv_wake st p kq c1 w1 kq (EV_SET (u32 (ctx_self_pipe c1).1) EVFILT_READ
      (Z.lor EV_ADD EV_CLEAR) 0 0 0) 0 None Hi1 eq_refl (fun Ht => match not_tracked Eu Ht with end)) as Hi'.
    destruct (kernel_step _ w1) as [[r|ec] w']; wps; apply HQ; auto. }
  wps. pose proof (i_pipe _ _ _ (i_shape _ _ _ _ _ Hi)) as Hp.
  destruct ((_ <? 0) && (_ <? 0)) eqn:En; wps.
  - assert (forall q w1, calm w w1 -> (q = (-1, -1) /\ poll_fds c = [] \/ 0 <= q.1 /\ 0 <= q.2) ->
      inv st p kq (c <| ctx_self_pipe := q |>) w1) as Hset.
    { intros q w1 Hc Hq. eapply inv_calm in Hi; [|exact Hc]. destruct Hi as [[] ? ? ?].
      split; [split|..]; fields; try done; intuition. }
    assert (poll_fds c = []) as Hnil.
    { destruct (poll_fds c) as [|q l] eqn:El; [done|].
      destruct (i_trigger _ _ _ (i_shape _ _ _ _ _ Hi)) as [?|[Hp1 _]]; [by rewrite El|congruence|].
      apply andb_true_iff in En as [En _]. b2p. lia. }
    pose proof (law_pipe_fds w (Z.lor O_NONBLOCK O_CLOEXEC)) as Hfds.
    quiet_call as r w1 Hc. destruct r as [[r1 r2]|ec]; wps.
    + destruct Hfds as [H1' H2']. cbn in H1', H2'.
      rewrite (proj2 (Z.leb_le 0 r1) H1'). wps. rewrite (proj2 (Z.leb_le 0 r2) H2'). wps.
      specialize (Hadd (r1, r2) w1). revert Hadd. cbn zeta. wps. intros Hadd.
      apply Hadd; [|done]. by apply Hset; auto.
    + apply HQ; [|done]. by apply Hset; auto.
  - destruct Hp as [E|Hp]; [by rewrite E in En|].
    specialize (Hadd (ctx_self_pipe c) w). revert Hadd. cbn zeta. rewrite Hself. wps. intros Hadd.
    by apply Hadd.
Qed.

(** The instance with the node at [p] on the list of polled descriptors. *)
Definition listed (p : Z) (n : RegisteredFDsNode) (c : EpollFDCtx) : EpollFDCtx :=
  c <| poll_fds := poll_fds c ++ [p] |>
    <| nodes := <[p := n <| is_on_pollfd_list := true |>]> (nodes c) |>
    <| poll_fds_size := poll_fds_size c + 1 |>.

Lemma inv_listed p kq c w n :
  inv st p kq c w -> nodes c !! p = Some n -> is_on_pollfd_list n = false ->
  has_evfilt_user = true \/ 0 <= (ctx_self_pipe c).1 /\ 0 <= (ctx_self_pipe c).2 ->
  inv st p kq (listed p n c) w.
Proof.
  intros Hi Hn Hl Hp. pose proof Hi as [Hs Ha Hb Hk]. destruct Hs.
  assert (p ∉ poll_fds c) as Hnin by (rewrite i_list; intros (m & Hm & ?); congruence).
  unfold listed. split; fields; [split; fields; try done|..].
  - intros q m. destruct (decide (q = p)) as [->|Hq].
    + rewrite lookup_insert_eq. intros [= <-]. fields. by eapply i_node.
    + rewrite lookup_insert_ne by done. apply i_node.
  - intros d q Hq. destruct (i_registered d q Hq) as (m & Hm & Hd).
    destruct (decide (q = p)) as [->|Hne].
    + eexists. rewrite lookup_insert_eq. split; [done|]. fields. congruence.
    + exists m. by rewrite lookup_insert_ne.
  - intros q m. destruct (decide (q = p)) as [->|Hq]; [done|].
    rewrite lookup_insert_ne by done. apply i_stable.
  - apply NoDup_app. split_and!; [done| |apply NoDup_singleton].
    intros q Hq ->%list_elem_of_singleton. done.
  - intros q. rewrite elem_of_app, list_elem_of_singleton, i_list.
    destruct (decide (q = p)) as [->|Hq].
    + rewrite lookup_insert_eq. split; [|by right]. intros _. by eexists.
    + rewrite lookup_insert_ne by done. split; [by intros [?|]|by left].
  - rewrite i_list_size, length_app. cbn. lia.
  - rewrite lookup_insert_ne; [done|]. intros E. congruence.
  - rewrite lookup_insert_ne; [done|]. intros E. congruence.
  - intros q m. destruct (decide (q = p)) as [->|Hq]; [intros _; by eapply Ha|].
    rewrite lookup_insert_ne by done. apply Ha.
  - done.
  - intros key u Ht Hu. destruct (Hk key u Ht Hu) as [?|(m & Hm & Hok)]; [by left|right].
    destruct (decide (u = p)) as [->|Hq].
    + eexists. rewrite lookup_insert_eq. split; [done|]. by simplify_eq.
    + exists m. by rewrite lookup_insert_ne.
Qed.

(** The only filter of the node at [p] is its trigger. *)
Definition only_trigger (p kq : Z) (w : W) : Prop :=
  tracked = true -> forall key, knote w kq key = Some p -> key = (p, EVFILT_USER).

(** The result of a registration. *)
Definition registers (p kq : Z) (c : EpollFDCtx) (n : RegisteredFDsNode)
    (Q : result unit -> EpollFDCtx * W -> Prop) : Prop :=
  forall r c' w' n', inv st p kq c' w' -> nodes c' !! p = Some n' -> frame p c c' ->
    touched n n' -> node_ok st n' -> Q r (c', w').

Lemma triggerable_touched n n' : triggerable n n' -> touched n n'.
Proof. intros (q & -> & _). by split; auto. Qed.

Lemma register_poll_only_spec p kq c w n Q :
  inv st p kq c w -> nodes c !! p = Some n -> node_ok st n ->
  Z.ldiff (events n) (Z.lor EPOLLIN EPOLLOUT) = 0 ->
  node_type n = NODE_TYPE_POLL /\ is_registered n = true \/
  node_type n = NODE_TYPE_OTHER /\ only_trigger p kq w ->
  registers p kq c n Q ->
  wpg o (register_poll_only kq p) Q (c, w).
Proof.
  intros Hi Hn Hok Hev Ht HQ. unfold register_poll_only. apply wp_bind.
  apply (wp_the_node _ _ _ _ n); [done|]. wps. rewrite (proj2 (Z.eqb_eq _ 0) Hev). wps.
  assert (is_registered n || is_type NODE_TYPE_OTHER n = true) as ->.
  { unfold is_type. destruct Ht as [[_ ->]|[-> _]]; [done|]. by rewrite orb_true_r. }
  set (n1 := n <| has_evfilt_read := false |> <| has_evfilt_write := false |>
    <| has_evfilt_except_ := false |> <| node_type := NODE_TYPE_POLL |>).
  assert (touched n n1) as Ht1 by (split; cbn; try done; [destruct Ht as [[-> _]|[-> _]]|]; auto).
  assert (list_ok n1) as Hl1 by (intros E; split; [done|by apply Hok]).
  wps. apply (wp_on_node _ _ _ _ _ n); [done|]. wps.
  set (c1 := c <| nodes := <[p := n1]> (nodes c) |>).
  assert (inv st p kq c1 w) as Hi1.
  { apply (inv_set_node st p kq c w n); try done. intros Htr key Hkey Hko.
    destruct Ht as [[E _]|[E Hot]]; [|left; by apply (Hot Htr)].
    destruct Hko as [?|[? _]]; [by left|done]. }
  assert (nodes c1 !! p = Some n1) as Hn1 by (apply lookup_insert_eq).
  apply (wp_node_op o st p kq _ c1 w n1); [done..|].
  apply add_self_trigger_spec; [by apply Hok|].
  intros r n2 w2 Htr Hg Hr. split; [|split; [done|]].
  { by destruct Htr as (q & -> & _). }
  cbn [fst snd]. intros c2 Hi2 Hn2 Hf2 Hsp.
  assert (pipe_ok n2) as Hp2 by (by destruct Htr as (q & -> & [->|?] & _); [left|right]).
  assert (touched n n2) as Ht2 by (etrans; [exact Ht1|by apply triggerable_touched]).
  assert (frame p c c2) as Hf by (etrans; [apply frame_set_node|exact Hf2]).
  assert (node_type n2 = NODE_TYPE_POLL) as Hty by (by destruct Htr as (q & -> & _)).
  assert (list_ok n2) as Hl2.
  { intros E. split; [done|]. destruct Htr as (q & -> & _ & Hq).
    destruct (Hl1 E) as [_ [?|Hp]]; [by left|right; by apply Hq]. }
  assert (filters_ok n2) as Hfl2 by (by destruct Htr as (q & -> & _)).
  destruct r as [[]|ec]; wps.
  2: { eapply HQ; [exact Hi2|exact Hn2|done..|]. by eapply touched_ok. }
  apply (wp_the_node _ _ _ _ n2); [done|].
  destruct (is_on_pollfd_list n2) eqn:El; wps.
  - apply (trigger_repoll_spec o st kq p); [done| |].
    + destruct (i_shape _ _ _ _ _ Hi2). apply i_trigger. intros E.
      assert (p ∈ poll_fds c2) as Hin by (apply i_list; eauto). rewrite E in Hin.
      by apply elem_of_nil in Hin.
    + intros k w3 c3 Hi3. wps. eapply HQ; [exact Hi3|exact Hn2|..].
      * etrans; [exact Hf|by split].
      * done.
      * by eapply touched_ok.
  - apply (ctx_add_self_trigger_spec p); [done|]. intros r q w3 c3 Hi3 Hr3.
    assert (frame p c c3) as Hf3 by (etrans; [exact Hf|by split]).
    destruct r as [[]|ec]; wps; [|eapply HQ; [exact Hi3|exact Hn2|done..|by eapply touched_ok]].
    specialize (Hr3 eq_refl). apply (wp_on_node _ _ _ _ _ n2); [done|]. wps.
    apply (trigger_repoll_spec o st kq p (listed p n2 c3)); [by apply inv_listed|done|].
    intros k w4 c4 Hi4. wps. eapply HQ.
    + exact Hi4.
    + apply lookup_insert_eq.
    + etrans; [exact Hf3|]. unfold c4, listed. split; fields; try done. intros q' Hq'. by rewrite lookup_insert_ne.
    + etrans; [exact Ht2|]. by split; auto.
    + eapply touched_ok; [done|etrans; [exact Ht2|]; by split; auto|done| |exact Hfl2].
      intros _. split; [done|]. by apply Hr.
Qed.

(** ** The receipts of the changes *)

Lemma registers_trans p kq c1 c2 n1 n2 Q :
  registers p kq c1 n1 Q -> frame p c1 c2 -> touched n1 n2 -> registers p kq c2 n2 Q.
Proof.
  intros HQ Hf Ht r c' w' n' Hi Hn' Hf' Ht' Hok. eapply HQ; [done|exact Hn'|by etrans|by etrans|done].
Qed.

Lemma check_receipt_spec p kq f i k c w n Q :
  inv st p kq c w -> nodes c !! p = Some n -> node_ok st n -> registers p kq c n Q ->
  wpg o (check_receipt kq p f i k) Q (c, w).
Proof.
  intros Hi Hn Hok HQ. unfold check_receipt. destruct (kev_data k =? 0); [by apply wp_ret, (HQ _ c w n)|].
  apply wp_bind. apply (wp_the_node _ _ _ _ n); [done|].
  destruct (_ && _) eqn:E; [|by apply wp_ret, (HQ _ c w n)].
  apply andb_true_iff in E as [_ E]. unfold is_type in E. apply bool_decide_eq_true in E.
  set (n1 := n <| eof_state := EOF_STATE_BOTH |> <| has_evfilt_write := false |>).
  assert (touched n n1) as Ht1 by (split; cbn; auto).
  assert (node_ok st n1) as Hok1 by (exact (touched_ok n n1 Hok Ht1 (n_pipe _ _ Hok) (n_list _ _ Hok) (not_poll n1 ltac:(change (node_type n <> NODE_TYPE_POLL); congruence)))).

  apply wp_bind. apply (wp_set_node o st p _ kq c w n); [done..|by split_and!|].
  intros c1 Hi1 Hn1 Hf1 _. fold n1 in Hn1.
  destruct (_ <? 0); [|by apply wp_ret, (HQ _ c1 w n1)].
  wps. apply (wp_node_op o st p kq _ c1 w n1); [done..|].
  apply add_self_trigger_spec; [apply Hok1|].
  intros r n2 w2 Htr Hg Hr. cbn [fst snd]. split; [by destruct Htr as (q & -> & _)|split; [done|]].
  intros c2 Hi2 Hn2 Hf2 _.
  assert (touched n n2) as Ht2 by (etrans; [exact Ht1|by apply triggerable_touched]).
  assert (node_ok st n2) as Hok2.
  { eapply (touched_ok n1); [done|by apply triggerable_touched|..].
    - destruct Htr as (q & -> & Hq & _). exact Hq.
    - intros El. destruct Htr as (q & -> & _). destruct (n_list _ _ Hok1 El) as [Et _].
      change (node_type n = NODE_TYPE_POLL) in Et. congruence.
    - destruct Htr as (q & -> & _). exact (n_filters _ _ Hok1). }
  assert (frame p c c2) as Hf by (by etrans).
  destruct r as [[]|ec]; wps; [|by apply (HQ _ c2 w2 n2)].
  apply (wp_node_op o st p kq _ c2 w2 n2); [done..|].
  apply trigger_self_spec; [by apply Hr|]. intros w3 Hc3. cbn [fst snd].
  split; [done|split; [by apply Hc3|]]. intros c3 Hi3 Hn3 Hf3 _. wps.
  eapply HQ; [done|exact Hn3|by etrans|done..].
Qed.

Lemma check_receipts_spec p kq f l i c w n Q :
  inv st p kq c w -> nodes c !! p = Some n -> node_ok st n -> registers p kq c n Q ->
  wpg o (check_receipts kq p f i l) Q (c, w).
Proof.
  revert i c w n. induction l as [|k l IH]; intros i c w n Hi Hn Hok HQ; cbn [check_receipts].
  { by apply wp_ret, (HQ _ c w n). }
  apply wp_bind. apply (check_receipt_spec _ _ _ _ _ _ _ n); [done..|].
  intros r c1 w1 n1 Hi1 Hn1 Hf1 Ht1 Hok1. destruct r as [[]|ec].
  - eapply IH; [done|exact Hn1|done|]. by eapply registers_trans.
  - apply wp_ret. by eapply HQ.
Qed.

(** ** The needed filters *)

Lemma ok_filterable n : node_ok st n -> masked n -> filterable n.
Proof. intros [] Hm. by split. Qed.

Lemma wp_filters n w (Q : NeededFilters -> RegisteredFDsNode * W -> Prop) :
  node_ok st n -> masked n ->
  (forall f, get_needed_filters n = inr f -> evfilt_read f <> 0 \/ evfilt_write f <> 0 ->
     (has_evfilt_except = false -> evfilt_except f = 0) -> Q f (n, w)) ->
  wpg o needed_filters Q (n, w).
Proof.
  intros Hok Hm HQ.
  destruct (decide (node_type n = NODE_TYPE_KQUEUE /\ eof_state n <> 0)) as [[Et Ee]|Hq].
  - destruct Hst as [->|Ho]; [by destruct (Ee (n_quiet _ _ Hok eq_refl Et))|].
    unfold needed_filters, get. wps. unfold get_needed_filters, filters_by_type. rewrite Et.
    rewrite (proj2 (Z.eqb_neq _ 0) Ee). by wps.
  - apply wp_needed_filters; [by apply ok_filterable| |done].
    intros Et. destruct (decide (eof_state n = 0)); [done|]. by destruct Hq.
Qed.

Definition is_filter (k : kevent) : Prop := kev_filter k = EVFILT_READ \/ kev_filter k = EVFILT_WRITE.

Lemma filter_changes_spec p d f k : k ∈ filter_changes p d f ->
  has (kev_flags k) EV_RECEIPT = true /\ kev_udata k = p /\ kev_ident k = u32 d /\
  (evfilt_except f = 0 -> is_filter k).
Proof.
  unfold filter_changes. intros Hk.
  repeat (apply elem_of_app in Hk as [Hk|Hk]);
    match type of Hk with context [if ?b then _ else _] => destruct b eqn:E end;
    try (by apply elem_of_nil in Hk); apply list_elem_of_singleton in Hk as ->; cbn;
    rewrite !has_lor; (split_and!; [by rewrite orb_true_r|done|done|]); unfold is_filter; cbn; auto.
  intros E'. rewrite E' in E. done.
Qed.

Lemma filter_changes_nil p d f : evfilt_read f <> 0 \/ evfilt_write f <> 0 -> filter_changes p d f <> [].
Proof.
  unfold filter_changes. intros [Hr|Hr]; rewrite (proj2 (Z.eqb_neq _ 0) Hr); [done|].
  by destruct (evfilt_read f =? 0).
Qed.

Lemma forallb_errors l : Forall (fun k => has (kev_flags k) EV_ERROR = true) l ->
  forallb (fun k => has (kev_flags k) EV_ERROR) l = true.
Proof. induction 1 as [|k l Hk _ IH]; cbn; [done|]. by rewrite Hk. Qed.

(** The filters of a node that has none. *)
Lemma register_filters_spec p kq c w n Q :
  inv st p kq c w -> nodes c !! p = Some n -> node_ok st n -> masked n ->
  node_type n <> NODE_TYPE_POLL ->
  has_evfilt_read n = false -> has_evfilt_write n = false -> has_evfilt_except_ n = false ->
  forgotten p kq w -> registers p kq c n Q ->
  wpg o (register_filters kq p) Q (c, w).
Proof.
  intros Hi Hn Hok Hm Ht Hr Hw He Hfg HQ. unfold register_filters. apply wp_bind.
  apply (wp_the_node _ _ _ _ n); [done|]. rewrite Hr, Hw, He. wps.
  apply (wp_on_node _ _ _ _ _ n); [done|]. apply wp_filters; [done..|]. intros f _ Hsome Hex.
  cbn [fst snd]. rewrite nodes_self by done. wps.
  set (n1 := n <| has_evfilt_read := negb (evfilt_read f =? 0) |>
    <| has_evfilt_write := negb (evfilt_write f =? 0) |>).
  apply (wp_set_node o st p _ kq c w n); [done..|]. intros c1 Hi1 Hn1 Hf1 _. fold n1 in Hn1.
  assert (negb (evfilt_read f =? 0) || negb (evfilt_write f =? 0) = true) as ->.
  { rewrite orb_true_iff, !negb_true_iff, !Z.eqb_neq. done. }
  wps. assert (has_evfilt_except || (evfilt_except f =? 0) = true) as ->.
  { destruct has_evfilt_except; [done|]. by rewrite Hex. }
  wps. set (n2 := n1 <| has_evfilt_except_ := negb (evfilt_except f =? 0) |>).
  apply (wp_set_node o st p _ kq c1 w n1); [done..|]. intros c2 Hi2 Hn2 Hf2 _. fold n2 in Hn2.
  set (kev := filter_changes p (fd n) f).
  assert (forall k, k ∈ kev -> wants_receipt k) as Hrec by (intros k Hk; by apply filter_changes_spec in Hk as [? _]).
  pose proof (law_receipt w kq kev (filter_changes_nil p (fd n) f Hsome)
    (proj2 (Forall_forall _ _) Hrec)) as Hlaw.
  pose proof (law_changes w kq kev (Z.of_nat (length kev)) None kq) as Hch.
  assert (grows p kq n2 w (kernel_step (sys_kevent kq kev (Z.of_nat (length kev)) None) w).2) as Hg.
  { apply fed_world_kevent. intros k Hk _. apply filter_changes_spec in Hk as (_ & Hu & Hid & Hfl).
    split; [done|]. intros Htr. right. unfold key_of. cbn. split; [done|].
    rewrite Hid, u32_fd by apply Hok. split; [done|]. apply Hfl, Hex.
    unfold tracked in Htr. destruct has_evfilt_except; [|done]. by rewrite andb_false_r in Htr. }
  wps. destruct (kernel_step _ w) as [r w3]; cbn [snd] in *.
  assert (inv st p kq c2 w3) as Hi3 by (by eapply inv_grows).
  assert (touched n n2) as Ht2 by (by split; auto).
  assert (node_ok st n2) as Hok2 by (exact (touched_ok n n2 Hok Ht2 (n_pipe _ _ Hok) (n_list _ _ Hok) (not_poll n2 Ht))).
  assert (registers p kq c2 n2 Q) as HQ2 by (eapply registers_trans; [exact HQ|by etrans|done]).
  destruct r as [l|ec]; wps; [|by apply (HQ2 _ c2 w3 n2)].
  destruct Hlaw as (Hlen & Hfl & Hnodev).
  rewrite (proj2 (Nat.eqb_eq _ _) Hlen). wps. rewrite forallb_errors by done. wps.
  apply (wp_the_node _ _ _ _ n2); [done|].
  destruct (_ && _) eqn:E; [|by apply (check_receipts_spec _ _ _ _ _ _ _ n2)].
  apply andb_true_iff in E as [E El]. unfold is_type in E. apply bool_decide_eq_true in E.
  apply (register_poll_only_spec p kq c2 w3 n2); [done..| |right; split; [done|]|done].
  { apply Hm. change (node_type n <> NODE_TYPE_SOCKET). change (node_type n = NODE_TYPE_OTHER) in E.
    congruence. }
  intros Htr key Hkey. exfalso. destruct l as [|k0 l']; [done|]. b2p.
  destruct (Hch key p Hkey) as [Hold|(_ & k & Hk & _ & Hkk & _)]; [by apply (Hfg Htr key)|].
  rewrite <- Hkk in Hkey. by rewrite (Hnodev k0 l' eq_refl El k Hk) in Hkey.
Qed.

(** ** [epollfd_ctx__register_events] *)

(** The node with the events its descriptor cannot have taken out. *)
Definition mask (n : RegisteredFDsNode) : RegisteredFDsNode :=
  if is_type NODE_TYPE_SOCKET n then n
  else n <| events := u16 (Z.ldiff (Z.ldiff (events n) EPOLLRDHUP) EPOLLPRI) |>.

(** The node is registered already, or it is new and has no filter. *)
Definition fresh_or_registered (p kq : Z) (n : RegisteredFDsNode) (w : W) : Prop :=
  is_registered n = true \/
  node_type n <> NODE_TYPE_POLL /\ has_evfilt_read n = false /\ has_evfilt_write n = false /\
  has_evfilt_except_ n = false /\ forgotten p kq w.

Lemma mask_same n : fd (mask n) = fd n /\ is_registered (mask n) = is_registered n /\
  node_type (mask n) = node_type n /\ has_evfilt_read (mask n) = has_evfilt_read n /\
  has_evfilt_write (mask n) = has_evfilt_write n /\
  has_evfilt_except_ (mask n) = has_evfilt_except_ n.
Proof. unfold mask. by destruct (is_type _ n). Qed.

Lemma mask_ok n : node_ok st n -> node_ok st (mask n).
Proof. intros []. unfold mask. destruct (is_type _ n); by split. Qed.

(** Setting the masked events. *)
Lemma set_mask_spec p kq c w n (Q : unit -> EpollFDCtx * W -> Prop) :
  inv st p kq c w -> nodes c !! p = Some n ->
  (forall c', inv st p kq c' w -> nodes c' !! p = Some (mask n) -> frame p c c' -> Q tt (c', w)) ->
  wpg o (when (negb (is_type NODE_TYPE_SOCKET n))
    (set_node p (fun n =>
       n <| events := u16 (Z.ldiff (Z.ldiff (events n) EPOLLRDHUP) EPOLLPRI) |>))) Q (c, w).
Proof.
  intros Hi Hn HQ. wps. unfold mask in HQ. destruct (is_type NODE_TYPE_SOCKET n); cbn [negb].
  - by apply HQ.
  - apply (wp_set_node o st p _ kq c w n); [done..|]. intros c' ? ? ? _. by apply HQ.
Qed.

(** The filters the node had are removed first. *)
Lemma remove_old_spec p kq c w n (Q : unit -> EpollFDCtx * W -> Prop) :
  inv st p kq c w -> nodes c !! p = Some n -> node_ok st n -> node_type n <> NODE_TYPE_POLL ->
  fresh_or_registered p kq n w ->
  (forall c' w' n', inv st p kq c' w' -> nodes c' !! p = Some n' -> frame p c c' ->
     touched n n' -> node_ok st n' -> has_evfilt_read n' = false -> has_evfilt_write n' = false ->
     has_evfilt_except_ n' = false -> node_type n' = node_type n -> forgotten p kq w' ->
     Q tt (c', w')) ->
  wpg o (when (is_registered n) (epollfd_ctx__remove_node_from_kq kq p)) Q (c, w).
Proof.
  intros Hi Hn Hok Ht Hfr HQ. wps. destruct (is_registered n) eqn:Er; wps.
  - apply (remove_from_kq_spec o st Hst p kq c w n); [done..|apply Hok|apply Hok|].
    intros c1 w1 n1 Hi1 Hn1 Hf1 (r & x & e & -> & Hrm & _) Hfg. destruct (Hrm Ht) as (-> & -> & ->).
    eapply HQ; [done|exact Hn1|done| | |done..].
    + by split; auto.
    + eapply touched_ok; [done|by split; auto|apply Hok|done|done].
  - destruct Hfr as [Hr|(_ & ? & ? & ? & ?)]; [congruence|]. by eapply HQ.
Qed.

Lemma register_events_spec p kq c w n Q :
  inv st p kq c w -> nodes c !! p = Some n -> node_ok st n -> masked (mask n) ->
  fresh_or_registered p kq n w -> registers p kq c (mask n) Q ->
  wpg o (epollfd_ctx__register_events kq p) Q (c, w).
Proof.
  intros Hi Hn Hok Hm Hfr HQ. unfold epollfd_ctx__register_events. apply wp_bind.
  apply (wp_the_node _ _ _ _ n); [done|]. apply wp_bind.
  apply (set_mask_spec p kq c w n); [done..|]. intros c1 Hi1 Hn1 Hf1.
  pose proof (mask_same n) as (Efd & Er & Et & Ehr & Ehw & Ehe).
  pose proof (mask_ok n Hok) as Hok1.
  assert (fresh_or_registered p kq (mask n) w) as Hfr1.
  { unfold fresh_or_registered. by rewrite Er, Et, Ehr, Ehw, Ehe. }
  assert (registers p kq c1 (mask n) Q) as HQ1 by (by eapply registers_trans).
  wps. rewrite (proj2 (Z.leb_le 0 (fd n)) (proj1 (n_fd _ _ Hok))). wps. rewrite <- Er.
  replace (is_type NODE_TYPE_POLL n) with (is_type NODE_TYPE_POLL (mask n)) by (unfold is_type; by rewrite Et).
  unfold is_type. case_bool_decide as Hp.
  - apply (register_poll_only_spec p kq c1 w (mask n)); [done..| |left|done].
    + apply Hm. by rewrite Hp.
    + split; [done|]. by destruct Hfr1 as [?|[? _]].
  - apply wp_bind. eapply (remove_old_spec p kq c1 w (mask n)); [done..|].
    intros c2 w2 n2 Hi2 Hn2 Hf2 Ht2 Hok2 Hr2 Hw2 He2 Et2 Hfg2.
    apply (register_filters_spec p kq c2 w2 n2); try done.
    + intros E. rewrite (t_events _ _ Ht2). apply Hm. by rewrite <- Et2.
    + by rewrite Et2.
    + by eapply registers_trans.
Qed.
End Register.
