(* ===== verification/EpollCtl.v ===== *)
(** * Adding, changing and removing descriptors of an epoll instance *)

From S2P Require Import Prelude Kernel KqueueEvent EpollNode EpollLaws EpollFeed EpollCtx EpollInv EpollOps EpollRegister.

(** ** The requested events *)

(** What [registered_fds_node_update_flags_from_epoll_event] makes of [events]. *)
Definition requested_events `{Platform} (ev : epoll_event) : Z :=
  let e := u16 (Z.land (ev_events ev)
    (Z.lor (Z.lor EPOLLIN EPOLLPRI) (Z.lor EPOLLRDHUP EPOLLOUT))) in
  if negb (EPOLLRDHUP =? 0x2000) && has (ev_events ev) 0x2000 then u16 (Z.lor e EPOLLRDHUP) else e.

Definition updated `{Platform} (ev : epoll_event) (n : RegisteredFDsNode) : RegisteredFDsNode :=
  n <| events := requested_events ev |>
    <| needs_rdhup_translation := negb (EPOLLRDHUP =? 0x2000) && has (ev_events ev) 0x2000 |>
    <| data := ev_data ev |>
    <| is_edge_triggered := has (ev_events ev) EPOLLET || has (ev_events ev) EPOLLONESHOT |>
    <| is_oneshot := has (ev_events ev) EPOLLONESHOT |>.

(** The events of a descriptor that is not a socket. *)
Lemma requested_within `{Platform} ev :
  within (u16 (Z.ldiff (Z.ldiff (requested_events ev) EPOLLRDHUP) EPOLLPRI)) (Z.lor EPOLLIN EPOLLOUT).
Proof. unfold requested_events, u16. destruct (_ && _); bitwise. Qed.

Lemma updated_masked `{Platform} ev n : masked (mask (updated ev n)).
Proof.
  unfold masked. intros Hs. destruct (mask_same (updated ev n)) as (_ & _ & Et & _).
  rewrite Et in Hs. unfold mask, is_type. rewrite bool_decide_eq_false_2 by done.
  apply requested_within.
Qed.

Section Ctl.
Context {W : Type} `{EpollLaws W, !Pollable W, !PollableLaws W}.
Context (o : stop -> Prop) (st : bool) (Hst : st = true \/ o AssertFailed).

Lemma update_flags_spec ev n (w : W) (Q : unit -> RegisteredFDsNode * W -> Prop) :
  invalid_events (ev_events ev) = false -> Q tt (updated ev n, w) ->
  wpg o (registered_fds_node_update_flags_from_epoll_event ev) Q (n, w).
Proof.
  intros Hv HQ. unfold registered_fds_node_update_flags_from_epoll_event. wps.
  unfold updated, requested_events in HQ. unfold invalid_events in Hv.
  apply orb_false_iff in Hv as [_ Hv].
  destruct (negb (EPOLLRDHUP =? 0x2000)); cbn [andb] in *;
    [destruct (has (ev_events ev) 0x2000)|]; wps; rewrite ?andb_true_r in Hv; rewrite ?Hv; wps;
    destruct (has (ev_events ev) EPOLLONESHOT); wps; rewrite ?orb_true_r, ?orb_false_r in HQ;
    done.
Qed.

Lemma updated_ok ev n : node_ok st n -> node_ok st (updated ev n).
Proof. intros []. by split. Qed.

(** ** The type of a new node *)

(** The same but for the node at [p]. *)
Definition beside (p : Z) (c c' : EpollFDCtx) : Prop :=
  c' <| nodes := delete p (nodes c') |> = c <| nodes := delete p (nodes c) |>.

Lemma beside_trans p c1 c2 c3 : beside p c1 c2 -> beside p c2 c3 -> beside p c1 c3.
Proof. unfold beside. congruence. Qed.

Lemma beside_insert p c n : beside p c (c <| nodes := <[p := n]> (nodes c) |>).
Proof. unfold beside. fields. by rewrite delete_insert_eq. Qed.

Lemma beside_delete p c : beside p c (c <| nodes := delete p (nodes c) |>).
Proof. unfold beside. fields. by rewrite delete_delete_eq. Qed.

Lemma beside_fields p c c' : beside p c c' ->
  (forall q, q <> p -> nodes c' !! q = nodes c !! q) /\
  registered_fds c' = registered_fds c /\ registered_fds_size c' = registered_fds_size c /\
  c' = c <| nodes := nodes c' |>.
Proof.
  intros E. split_and!.
  - intros q Hq. assert (delete p (nodes c') = delete p (nodes c)) as E' by exact (f_equal nodes E).
    rewrite <- (lookup_delete_ne (nodes c') p q), <- (lookup_delete_ne (nodes c) p q) by done.
    by rewrite E'.
  - exact (f_equal registered_fds E).
  - exact (f_equal registered_fds_size E).
  - unfold beside in E. destruct c, c'. fields_all. injection E. intros. by subst.
Qed.

Lemma beside_put p c c' n m : beside p c c' -> nodes c' !! p = Some n ->
  c' <| nodes := <[p := m]> (nodes c') |> = c <| nodes := <[p := m]> (nodes c) |>.
Proof.
  intros Hb Hn. destruct (beside_fields p c c' Hb) as (Hq & _ & _ & ->). fields. f_equal.
  apply map_eq. intros q. destruct (decide (q = p)) as [->|Hqp].
  - by rewrite !lookup_insert_eq.
  - rewrite !lookup_insert_ne by done. by apply Hq.
Qed.

Lemma beside_back p c c' : beside p c c' -> nodes c !! p = None -> nodes c' !! p = None -> c' = c.
Proof.
  intros Hb Hn Hn'. destruct (beside_fields p c c' Hb) as (Hq & _ & _ & ->).
  assert (nodes c' = nodes c) as ->; [|by destruct c].
  apply map_eq. intros q. destruct (decide (q = p)) as [->|Hqp]; [congruence|by apply Hq].
Qed.

(** Only the memory of the node at [p] is given back. *)
Definition shed (p : Z) (w w' : W) : Prop :=
  (forall q, q <> p -> allocated w q -> allocated w' q) /\
  (forall kq key u, knote w' kq key = Some u -> knote w kq key = Some u).

Lemma wp_set_beside p f c (w : W) n (Q : unit -> EpollFDCtx * W -> Prop) :
  nodes c !! p = Some n ->
  (forall c', beside p c c' -> nodes c' !! p = Some (f n) -> Q tt (c', w)) ->
  wpg o (set_node p f) Q (c, w).
Proof.
  intros Hn HQ. apply (wp_on_node _ _ _ _ _ n); [done|]. wps. apply HQ.
  - apply beside_insert.
  - fields. apply lookup_insert_eq.
Qed.

Lemma destroy_spec p c w n (Q : unit -> EpollFDCtx * W -> Prop) :
  nodes c !! p = Some n ->
  (forall c' w', beside p c c' -> nodes c' !! p = None -> shed p w w' -> Q tt (c', w')) ->
  wpg o (destroy_node p) Q (c, w).
Proof.
  intros Hn HQ. unfold destroy_node. apply wp_bind. apply (wp_the_node _ _ _ _ n); [done|]. wps.
  apply destroy_calls_spec. intros w1 [Hk1 Ha1]. unfold call_. wps. unfold call, wpg.
  pose proof (law_free w1 p) as Ha.
  assert (forall kq key u, knote (kernel_step (sys_free p) w1).2 kq key = Some u ->
    knote w1 kq key = Some u) as Hk by (intros kq key u; by apply law_memory_knote).
  destruct (kernel_step _ w1) as [[] w']. cbn in *. wps. apply HQ.
  - apply beside_delete.
  - fields. apply lookup_delete_eq.
  - split; eauto.
Qed.

(** What [classify_node] makes of a fresh node. *)
Definition classified (d : Z) (n : RegisteredFDsNode) : Prop :=
  exists t x, n = (node_zero d) <| node_type := t |> <| node_data := x |> /\
    t <> NODE_TYPE_UNSET /\ t <> NODE_TYPE_POLL /\
    (t = NODE_TYPE_FIFO -> readable n || writable n = true).

(** The outcomes of [classify_node]. *)
Definition classifies (p d : Z) (c : EpollFDCtx) (w : W)
    (Q : result unit -> EpollFDCtx * W -> Prop) : Prop :=
  (forall c' w' n', beside p c c' -> calm w w' -> nodes c' !! p = Some n' -> classified d n' ->
     Q (Ok tt) (c', w')) /\
  (forall ec c' w', beside p c c' -> nodes c' !! p = None -> shed p w w' -> Q (Err ec) (c', w')).

Lemma classifies_step p d c c' w w' Q :
  classifies p d c w Q -> beside p c c' -> calm w w' -> classifies p d c' w' Q.
Proof.
  intros [HO HE] Hb Hc. split.
  - intros c2 w2 n2 Hb2 Hc2. apply HO; [by eapply beside_trans|by etrans].
  - intros ec c2 w2 Hb2 Hn2 [Ha Hk]. apply HE; [by eapply beside_trans|done|].
    destruct Hc as [Hck Hca]. split; eauto.
Qed.

(** The rights of a FIFO opened for reading and writing. *)
Lemma modify_rights_spec p d c w n (Q : unit -> EpollFDCtx * W -> Prop) :
  nodes c !! p = Some n ->
  n = (node_zero d) <| node_type := NODE_TYPE_FIFO |> <| node_data := fifo true true |> ->
  (forall c' w' n', beside p c c' -> calm w w' -> nodes c' !! p = Some n' -> classified d n' ->
     Q tt (c', w')) ->
  wpg o (modify_fifo_rights_from_capabilities p) Q (c, w).
Proof.
  intros Hn -> HQ. unfold modify_fifo_rights_from_capabilities. apply wp_bind.
  eapply wp_the_node; [exact Hn|]. apply wp_bind, wp_assert. cbn [readable node_data].
  apply wp_bind, wp_assert. apply wp_bind, wp_quiet; [done|]. intros r w1 Hc.
  assert (forall x y, x || y = true ->
    classified d ((node_zero d) <| node_type := NODE_TYPE_FIFO |> <| node_data := fifo x y |>)) as Hcl.
  { intros x y Hxy. by exists NODE_TYPE_FIFO, (fifo x y). }
  destruct r as [[x y]|ec]; wps.
  - destruct (eqb x y) eqn:E; cbn [negb].
    + eapply HQ; [done|done|exact Hn|by apply Hcl].
    + eapply wp_set_beside; [exact Hn|]. intros c' Hb Hn'. eapply HQ; [done|done|exact Hn'|].
      apply (Hcl x y). by destruct x, y.
  - eapply HQ; [done|done|exact Hn|by apply Hcl].
Qed.

(** The access mode of a FIFO. *)
Lemma classify_fifo_spec p d c w n (fl : result Z) Q :
  nodes c !! p = Some n -> n = (node_zero d) <| node_type := NODE_TYPE_FIFO |> ->
  classifies p d c w Q ->
  wpg o (match fl with
      | Err ec => destroy_node p ;; ret (Err ec)
      | Ok fl =>
          let fl := Z.land fl O_ACCMODE in
          if fl =? O_RDWR then
            set_node p (fun n => n <| node_data := fifo true true |>) ;;
            when (is_os FreeBSD) (modify_fifo_rights_from_capabilities p) ;;
            ret (Ok tt)
          else if fl =? O_WRONLY then
            set_node p (fun n => n <| node_data := fifo false true |>) ;; ret (Ok tt)
          else if fl =? O_RDONLY then
            set_node p (fun n => n <| node_data := fifo true false |>) ;; ret (Ok tt)
          else destroy_node p ;; ret (Err EINVAL)
      end) Q (c, w).
Proof.
  intros Hn En [HO HE].
  assert (forall ec, wpg o (destroy_node p ;; ret (Err ec)) Q (c, w)) as Hd.
  { intros ec. apply wp_bind. apply (destroy_spec p c w n); [done|]. intros. apply wp_ret. by apply HE. }
  assert (forall x y, x || y = true -> wpg o (set_node p (fun n => n <| node_data := fifo x y |>) ;;
    ret (Ok tt)) Q (c, w)) as Hs.
  { intros x y Hxy. apply wp_bind. apply (wp_set_beside p _ c w n); [done|]. intros c' Hb Hn'.
    apply wp_ret. eapply HO; [done|done|exact Hn'|]. subst n. by exists NODE_TYPE_FIFO, (fifo x y). }
  destruct fl as [fl|ec]; [|apply Hd]. cbn zeta. destruct (_ =? O_RDWR).
  - apply wp_bind. apply (wp_set_beside p _ c w n); [done|]. intros c1 Hb1 Hn1. apply wp_bind, wp_when.
    destruct (is_os FreeBSD).
    + eapply modify_rights_spec; [exact Hn1|by subst n|]. intros. apply wp_ret.
      eapply HO; [by eapply beside_trans|done|eassumption|done].
    + apply wp_ret. eapply HO; [done|done|exact Hn1|]. subst n. by exists NODE_TYPE_FIFO, (fifo true true).
  - destruct (_ =? O_WRONLY); [by apply Hs|]. destruct (_ =? O_RDONLY); [by apply Hs|apply Hd].
Qed.

Lemma classify_spec p d pd mode c w Q :
  nodes c !! p = Some (node_zero d) -> classifies p d c w Q ->
  wpg o (classify_node p d pd mode) Q (c, w).
Proof.
  intros Hn HQ. unfold classify_node. destruct (S_ISFIFO mode).
  2: { apply wp_bind. eapply wp_set_beside; [exact Hn|]. intros c1 Hb1 Hn1. apply wp_ret.
    eapply HQ; [done|done|exact Hn1|].
    exists (if S_ISSOCK mode then NODE_TYPE_SOCKET else NODE_TYPE_OTHER), (fifo false false).
    by destruct (S_ISSOCK mode). }
  apply wp_bind. apply wp_quiet; [done|]. intros r w1 Hc1.
  destruct (match r with Err ec => ec =? ENOTTY | Ok _ => false end).
  - assert (forall t w2, t = NODE_TYPE_KQUEUE \/ t = NODE_TYPE_OTHER -> calm w w2 ->
      wpg o (set_node p (fun n => n <| node_type := t |>) ;;
        let* n := the_node p in
        when (is_type NODE_TYPE_KQUEUE n)
          (set_node p (fun n => n <| node_data := kqueue_data pd |>) ;;
           lift (pollable_desc_ref pd) ;;
           let* _ := lift (pollable_desc_poll pd d None) in ret tt) ;;
        ret (Ok tt)) Q (c, w2)) as Hk.
    { intros t w2 Ht Hc2. apply wp_bind. eapply wp_set_beside; [exact Hn|]. intros c1 Hb1 Hn1.
      apply wp_bind. eapply wp_the_node; [exact Hn1|]. apply wp_bind, wp_when.
      assert (classified d ((node_zero d) <| node_type := t |>)) as Hcl.
      { exists t, (fifo false false). destruct Ht as [-> | ->]; done. }
      unfold is_type. case_bool_decide as E.
      - apply wp_bind. eapply wp_set_beside; [exact Hn1|]. intros c2 Hb2 Hn2. wps.
        apply wp_pollable_ref. intros w3 Hc3. wps. apply wp_pollable_poll. intros a w4 Hc4.
        eapply HQ; [by eapply beside_trans|by etrans; [|etrans]|exact Hn2|].
        exists t, (kqueue_data pd). destruct Ht as [-> | ->]; done.
      - apply wp_ret. by eapply HQ; [| |exact Hn1|]. }
    apply wp_bind. destruct (is_os FreeBSD).
    + apply wp_bind, wp_quiet; [done|]. intros k w2 Hc2.
      specialize (Hk (match k with Ok [] => NODE_TYPE_KQUEUE | _ => NODE_TYPE_OTHER end) w2).
      apply wp_bind in Hk; [exact Hk| |by etrans]. destruct k as [[|]|]; auto.
    + specialize (Hk NODE_TYPE_KQUEUE w1). apply wp_bind in Hk; [exact Hk|by auto|done].
  - apply wp_bind. eapply wp_set_beside; [exact Hn|]. intros c1 Hb1 Hn1.
    apply wp_bind. apply wp_quiet; [done|]. intros fl w2 Hc2.
    eapply classify_fifo_spec; [exact Hn1|done|]. by eapply classifies_step; [|exact Hb1|etrans].
Qed.

(** ** A new node *)

(** The instance with a new node at [p] for [d]. *)
Definition entered (p d : Z) (n : RegisteredFDsNode) (c : EpollFDCtx) : EpollFDCtx :=
  c <| nodes := <[p := n]> (nodes c) |>
    <| registered_fds := <[d := p]> (registered_fds c) |>
    <| registered_fds_size := registered_fds_size c + 1 |>.

Lemma fresh_unknown kq c w p : inv st 0 kq c w -> p <> 0 -> ~ allocated w p ->
  nodes c !! p = None /\ kevs c <> p /\ pfds c <> p /\ forgotten p kq w.
Proof.
  intros [Hs Ha Hb Hk] H0' Hp.
  assert (nodes c !! p = None) as Hn.
  { destruct (nodes c !! p) as [m|] eqn:E; [|done]. by destruct (Hp (Ha p m E)). }
  split_and!; [done|..].
  - intros <-. by destruct Hb as [[?|?] _].
  - intros <-. by destruct Hb as [_ [?|?]].
  - intros Ht key Hkey. destruct (Hk key p Ht Hkey) as [[? _]|(m & Hm & _)]; congruence.
Qed.

Lemma inv_entered kq c w w' p d n :
  inv st 0 kq c w -> p <> 0 -> ~ allocated w p -> allocated w' p ->
  (forall q, allocated w q -> allocated w' q) ->
  (forall key u, knote w' kq key = Some u -> knote w kq key = Some u) ->
  registered_fds c !! d = None -> fd n = d -> is_on_pollfd_list n = false ->
  inv st p kq (entered p d n c) w'.
Proof.
  intros Hi H0' Hp Hp' Ha' Hk' Hd Hfd Hl.
  destruct (fresh_unknown kq c w p Hi H0' Hp) as (Hn & Hkv & Hpf & _).
  destruct Hi as [Hs Ha Hb Hk]. destruct Hs. unfold entered.
  assert (forall q m, nodes c !! q = Some m -> q <> p) as Hne by congruence.
  split; fields; [split; fields; try done|..].
  - intros q m Hq. destruct (decide (q = p)) as [->|Hqp].
    + rewrite lookup_insert_eq in Hq. injection Hq as <-. split; [done|].
      rewrite Hfd. apply lookup_insert_eq.
    + rewrite lookup_insert_ne in Hq by done. destruct (i_node q m Hq) as [? Hm]. split; [done|].
      rewrite lookup_insert_ne; [done|]. congruence.
  - intros e q Hq. destruct (decide (e = d)) as [->|He].
    + rewrite lookup_insert_eq in Hq. injection Hq as <-. exists n. by rewrite lookup_insert_eq.
    + rewrite lookup_insert_ne in Hq by done. destruct (i_registered e q Hq) as (m & Hm & Hmd).
      exists m. by rewrite lookup_insert_ne by (symmetry; by eapply Hne).
  - intros q m Hq Hqp. rewrite lookup_insert_ne in Hq by done. apply (i_stable q m Hq).
    by apply (i_node q m Hq).
  - rewrite map_size_insert_None by done. lia.
  - intros q. rewrite i_list. destruct (decide (q = p)) as [->|Hqp].
    + rewrite lookup_insert_eq. split; intros (m & Hm & ?); congruence.
    + by rewrite lookup_insert_ne.
  - by rewrite lookup_insert_ne.
  - by rewrite lookup_insert_ne.
  - intros q m Hq. destruct (decide (q = p)) as [->|Hqp]; [done|].
    rewrite lookup_insert_ne in Hq by done. by eapply Ha', Ha.
  - destruct Hb. eauto using valid_mono.
  - intros key u Ht Hu. destruct (Hk key u Ht (Hk' key u Hu)) as [?|(m & Hm & Hok)]; [by left|right].
    exists m. by rewrite lookup_insert_ne by (symmetry; by eapply Hne).
Qed.

(** ** The interest list *)

Record Interest := { in_data : Z; in_events : Z; in_edge : bool; in_oneshot : bool }.

Definition interest_of (n : RegisteredFDsNode) : Interest :=
  {| in_data := data n; in_events := events n; in_edge := is_edge_triggered n;
     in_oneshot := is_oneshot n |}.

(** What the instance watches descriptor [d] for. *)
Definition interest (c : EpollFDCtx) (d : Z) : option Interest :=
  p ← registered_fds c !! d; interest_of <$> nodes c !! p.

(** What [ev] asks for; only sockets know of EPOLLRDHUP and EPOLLPRI. *)
Definition asked (socket : bool) (ev : epoll_event) : Interest :=
  {| in_data := ev_data ev;
     in_events := if socket then requested_events ev
       else Z.ldiff (requested_events ev) (Z.lor EPOLLRDHUP EPOLLPRI);
     in_edge := has (ev_events ev) EPOLLET || has (ev_events ev) EPOLLONESHOT;
     in_oneshot := has (ev_events ev) EPOLLONESHOT |}.

Lemma requested_u16 ev x : u16 (Z.ldiff (requested_events ev) x) = Z.ldiff (requested_events ev) x.
Proof.
  apply Z.bits_inj'. intros i Hi. unfold requested_events, u16.
  destruct (_ && _); repeat first [rewrite Z.land_spec | rewrite Z.ldiff_spec | rewrite Z.lor_spec];
    destruct (Z.testbit 0xFFFF i); by rewrite ?andb_true_r, ?andb_false_r.
Qed.

Lemma interest_asked ev n n' : touched (mask (updated ev n)) n' ->
  interest_of n' = asked (is_type NODE_TYPE_SOCKET n) ev.
Proof.
  intros []. unfold interest_of, asked. rewrite t_data, t_events, t_edge, t_oneshot.
  unfold mask. replace (is_type NODE_TYPE_SOCKET (updated ev n)) with (is_type NODE_TYPE_SOCKET n) by done.
  destruct (is_type _ n); cbn; [done|]. f_equal.
  by rewrite <- requested_u16, <- Z.ldiff_ldiff_l.
Qed.

Lemma interest_self ex kq c w p n : inv st ex kq c w -> nodes c !! p = Some n ->
  interest c (fd n) = Some (interest_of n).
Proof.
  intros [Hs _ _ _] Hn. destruct (i_node _ _ _ Hs p n Hn) as [_ Hr]. unfold interest.
  rewrite Hr. cbn. by rewrite Hn.
Qed.

(** The interest in other descriptors. *)
Lemma interest_frame ex kq c c' w p n d : inv st ex kq c w -> nodes c !! p = Some n -> d <> fd n ->
  frame p c c' -> interest c' d = interest c d.
Proof.
  intros [Hs _ _ _] Hn Hd []. unfold interest. rewrite fr_registered.
  destruct (registered_fds c !! d) as [q|] eqn:E; [|done]. cbn. rewrite fr_nodes; [done|].
  intros ->. destruct (i_registered _ _ _ Hs d p E) as (m & Hm & ?). congruence.
Qed.

Lemma interest_gone ex kq c c' w p n : inv st ex kq c w -> nodes c !! p = Some n ->
  gone p (fd n) c c' ->
  interest c' (fd n) = None /\ forall d, d <> fd n -> interest c' d = interest c d.
Proof.
  intros [Hs _ _ _] Hn []. unfold interest. rewrite g_registered. split.
  - by rewrite lookup_delete_eq.
  - intros d Hd. rewrite lookup_delete_ne by done.
    destruct (registered_fds c !! d) as [q|] eqn:E; [|done]. cbn. rewrite g_nodes; [done|].
    intros ->. destruct (i_registered _ _ _ Hs d p E) as (m & Hm & ?). congruence.
Qed.

(** ** Adding a node *)

Lemma classified_ok d n : 0 <= d <= INT_MAX -> classified d n ->
  node_ok st n /\ fd n = d /\ is_on_pollfd_list n = false /\ node_type n <> NODE_TYPE_POLL /\
  has_evfilt_read n = false /\ has_evfilt_write n = false /\ has_evfilt_except_ n = false.
Proof.
  intros Hd (t & x & -> & Hu & Hp & Hf). split; [|done].
  split; try done; [by left|by left].
Qed.

(** The effect of a call on the interest list: only that of [d] may change. *)
Definition only_interest (d : Z) (c c' : EpollFDCtx) : Prop :=
  forall d', d' <> d -> interest c' d' = interest c d'.

(** After a registration: the entry of [d] is as asked for, or it is gone. *)
Definition ends_with (kq d : Z) (ev : epoll_event) (c : EpollFDCtx)
    (r : result unit) (s : EpollFDCtx * W) : Prop :=
  inv st 0 kq s.1 s.2 /\ only_interest d c s.1 /\
  match r with
  | Ok _ => exists b, interest s.1 d = Some (asked b ev)
  | Err _ => interest s.1 d = None
  end.

(** The last step after a registration of the node at [p]. *)
Definition finishes (kq p : Z) (n : RegisteredFDsNode) (fin : M (EpollFDCtx * W) unit) : Prop :=
  forall c1 w1 n1 (Q : unit -> EpollFDCtx * W -> Prop),
  inv st p kq c1 w1 -> nodes c1 !! p = Some n1 -> touched (mask n) n1 -> node_ok st n1 -> masked n1 ->
  (forall c2 n2, inv st 0 kq c2 w1 -> nodes c2 !! p = Some n2 -> frame p c1 c2 ->
     interest_of n2 = interest_of n1 -> fd n2 = fd n1 -> Q tt (c2, w1)) ->
  wpg o fin Q (c1, w1).

(** The common end of [add_node] and [modify_node]. *)
Lemma register_or_remove_spec fin kq ev p c0 c w n n0 :
  inv st p kq c w -> nodes c !! p = Some n -> node_ok st n -> n = updated ev n0 ->
  fresh_or_registered p kq n w -> finishes kq p n fin -> only_interest (fd n) c0 c ->
  wpg o (let* ec := epollfd_ctx__register_events kq p in
         match ec with
         | Err ec => epollfd_ctx_remove_node kq p ;; ret (Err ec)
         | Ok _ => fin ;; ret (Ok tt)
         end) (ends_with kq (fd n) ev c0) (c, w).
Proof.
  intros Hi Hn Hok En Hfr Hf Hoi. apply wp_bind.
  assert (masked (mask n)) as Hmask by (rewrite En; apply updated_masked).
  apply (register_events_spec o st Hst p kq c w n); [done..|].
  intros r c1 w1 n1 Hi1 Hn1 Hf1 Ht1 Hok1.
  assert (fd n1 = fd n) as Hfd by (rewrite (t_fd _ _ Ht1); apply mask_same).
  destruct r as [[]|ec]; apply wp_bind.
  - assert (masked n1) as Hm1.
    { intros E. rewrite (t_events _ _ Ht1). apply Hmask. intros E'. apply E.
      destruct (t_type _ _ Ht1) as [->|[E2 _]]; congruence. }
    apply (Hf c1 w1 n1); [done..|]. intros c2 n2 Hi2 Hn2 Hf2 Hint Hfd2. apply wp_ret.
    split; [done|split]; cbn [fst snd].
    + intros d' Hd'. rewrite <- (Hoi d' Hd'). eapply interest_frame; [exact Hi|exact Hn|done|by etrans].
    + exists (is_type NODE_TYPE_SOCKET n0). rewrite <- Hfd, <- Hfd2.
      rewrite (interest_self _ _ _ _ _ _ Hi2 Hn2), Hint. f_equal.
      apply interest_asked. by rewrite <- En.
  - apply (remove_node_spec o st Hst p kq c1 w1 n1); [done..|apply Hok1|apply Hok1|].
    intros c2 w2 Hi2 Hg. apply wp_ret.
    destruct (interest_gone _ _ _ _ _ _ _ Hi1 Hn1 Hg) as [Hnone Hrest]. rewrite Hfd in *.
    split; [done|split; [|done]]. cbn [fst snd]. intros d' Hd'. rewrite <- (Hoi d' Hd'), (Hrest d' Hd').
    by eapply interest_frame.
Qed.

Lemma finishes_add kq p n : finishes kq p n (set_node p (fun n => n <| is_registered := true |>)).
Proof.
  intros c1 w1 n1 Q Hi1 Hn1 _ Hok1 Hm1 HQ.
  apply (wp_set_node o st p _ kq c1 w1 n1); [done..|]. intros c2 Hi2 Hn2 Hf2 _.
  eapply HQ; [|exact Hn2|done..]. eapply inv_unfocus; [exact Hi2|]. intros m Hm.
  rewrite Hn2 in Hm. injection Hm as <-. split; [by destruct Hok1; split|done].
Qed.

Lemma finishes_modify kq p n : is_registered n = true -> finishes kq p n (ret tt).
Proof.
  intros Hr c1 w1 n1 Q Hi1 Hn1 Ht1 Hok1 Hm1 HQ. apply wp_ret. eapply HQ; [|exact Hn1|done..].
  eapply inv_unfocus; [exact Hi1|]. intros m Hm. rewrite Hn1 in Hm. injection Hm as <-.
  split; [done|split; [done|]]. rewrite (t_registered _ _ Ht1).
  by rewrite (proj1 (proj2 (mask_same n))).
Qed.

Lemma add_node_spec kq d pd ev mode c w :
  inv st 0 kq c w -> registered_fds c !! d = None -> 0 <= d <= INT_MAX ->
  invalid_events (ev_events ev) = false ->
  wpg o (epollfd_ctx_add_node kq d pd ev mode) (ends_with kq d ev c) (c, w).
Proof.
  intros Hi Hd Hfd Hv. unfold epollfd_ctx_add_node, registered_fds_node_create.
  apply wp_bind, wp_lift, wp_bind, wp_call.
  assert (interest c d = None) as Hnone by (unfold interest; by rewrite Hd).
  pose proof (law_malloc w 216) as Hm.
  pose proof (fun key u => proj1 (law_memory_knote w kq key u) 216) as Hk.
  destruct (kernel_step _ w) as [[p|ec] w1]; cbn [snd] in Hk; destruct Hm as [Ha Hm]; wps.
  2: { split; [|split; [done|exact Hnone]]. destruct Hi as [Hs Hal Hb Hkn]. split; eauto.
    destruct Hb. eauto using valid_mono. }
  destruct Hm as (Hp0 & Hpw & Hpw1).
  destruct (fresh_unknown kq c w p Hi Hp0 Hpw) as (Hnp & Hkv & Hpf & Hfg).
  set (c1 := c <| nodes := <[p := node_zero d]> (nodes c) |>).
  assert (beside p c c1) as Hb1 by apply beside_insert.
  apply (classify_spec p d pd mode c1); [apply lookup_insert_eq|]. split.
  - intros c2 w2 n2 Hb2 Hc2 Hn2 Hcl. apply wp_bind, (wp_on_node _ _ _ _ _ n2); [done|].
    apply update_flags_spec; [done|]. cbn [fst snd].
    destruct (classified_ok d n2 Hfd Hcl) as (Hok & Hfd2 & Hl2 & Ht2 & Hr2 & Hw2 & He2).
    rewrite (beside_put p c c2 n2 (updated ev n2)) by (done || by eapply beside_trans).
    set (c3 := c <| nodes := <[p := updated ev n2]> (nodes c) |>).
    unfold find_node. apply wp_bind, wp_getf, wp_bind, wp_assert. cbn beta.
    cbn [fst]. rewrite (Hd : registered_fds c3 !! d = None).
    apply wp_bind, wp_mod_self, wp_bind, wp_mod_self.
    change (wpg o (let* ec := epollfd_ctx__register_events kq p in
         match ec with
         | Err ec => epollfd_ctx_remove_node kq p ;; ret (Err ec)
         | Ok _ => set_node p (fun n => n <| is_registered := true |>) ;; ret (Ok tt)
         end) (ends_with kq d ev c) (entered p d (updated ev n2) c, w2)).
    assert (inv st p kq (entered p d (updated ev n2) c) w2) as Hi2.
    { apply (inv_entered kq c w w2); try done; [by apply Hc2|by intros q Hq; apply Hc2, Ha|].
      intros key u Hu. by apply Hk, Hc2. }
    revert Hi2. rewrite <- Hfd2. intros Hi2.
    apply (register_or_remove_spec _ kq ev p c _ w2 (updated ev n2) n2);
      [exact Hi2|apply lookup_insert_eq|by apply updated_ok|done|right; split_and!; try done|
       apply finishes_add|].
    + eapply forgotten_calm; [|exact Hc2]. intros Htr key E. by apply (Hfg Htr key), Hk.
    + intros d' Hd'. unfold interest, entered. fields. rewrite lookup_insert_ne by done.
      destruct (registered_fds c !! d') as [q|] eqn:E; [|done]. cbn.
      rewrite lookup_insert_ne; [done|]. intros <-.
      destruct (i_registered _ _ _ (i_shape _ _ _ _ _ Hi) d' p E) as (m & Hm' & _). congruence.
  - intros ec c2 w2 Hb2 Hn2 [Ha2 Hk2].
    rewrite (beside_back p c c2) by (done || by eapply beside_trans).
    split; [|by split]. destruct Hi as [Hs Hal Hb Hkn].
    assert (forall q, q <> p -> allocated w q -> allocated w2 q) as Hq by auto. split; [done|..].
    + intros q m Hqm. apply Hq; [intros ->; cbn in Hqm; congruence|]. by eapply Hal.
    + destruct Hb as [[?|?] [?|?]]; split; first [by left|right; by apply Hq].
    + intros key u Htr Hu. apply Hkn; [done|]. by apply Hk, Hk2.
Qed.

(** ** Changing a node *)

Lemma modify_node_spec kq p ev c w n :
  inv st 0 kq c w -> nodes c !! p = Some n -> invalid_events (ev_events ev) = false ->
  wpg o (epollfd_ctx_modify_node kq p ev) (ends_with kq (fd n) ev c) (c, w).
Proof.
  intros Hi Hn Hv. unfold epollfd_ctx_modify_node.
  destruct (i_stable _ _ _ (i_shape _ _ _ _ _ Hi) p n Hn) as (Hok & Hm & Hr).
  { by apply (i_node _ _ _ (i_shape _ _ _ _ _ Hi) p n). }
  apply (inv_focus _ p) in Hi. apply wp_bind, (wp_node_op o st p kq _ c w n); [done..|].
  apply update_flags_spec; [done|]. cbn [fst snd]. split; [done|split; [by apply grows_calm|]].
  intros c1 Hi1 Hn1 Hf1 _. apply wp_bind, (wp_the_node _ _ _ _ (updated ev n)); [done|].
  apply wp_bind, wp_assert. change (is_registered (updated ev n)) with (is_registered n). rewrite Hr.
  change (wpg o (let* ec := epollfd_ctx__register_events kq p in
         match ec with
         | Err ec => epollfd_ctx_remove_node kq p ;; ret (Err ec)
         | Ok _ => ret tt ;; ret (Ok tt)
         end) (ends_with kq (fd (updated ev n)) ev c) (c1, w)).
  apply (register_or_remove_spec _ kq ev p c c1 w (updated ev n) n);
    [done..|by apply updated_ok|done|by left|by apply finishes_modify|].
  intros d Hd. by eapply interest_frame.
Qed.

(** ** [epoll_ctl] *)

(** The arguments are refused at once. *)
Definition refused (kq op d : Z) (ev : option epoll_event) : Prop :=
  kq = d \/ op <> EPOLL_CTL_DEL /\ exists e, ev = Some e /\ invalid_events (ev_events e) = true.

(** What [epoll_ctl] promises for the entry of [d], whose value was [before], given the result
    of [fstat]: its result and the value of the entry [after]. *)
Inductive ctl_outcome (kq op d : Z) (ev : option epoll_event) (stat : result Z)
    (before : option Interest) : result unit -> option Interest -> Prop :=
| ctl_refused : refused kq op d ev ->
    ctl_outcome kq op d ev stat before (Err EINVAL) before
| ctl_bad_fd ec : ~ refused kq op d ev -> stat = Err ec ->
    ctl_outcome kq op d ev stat before (Err ec) None
| ctl_added e b : ~ refused kq op d ev -> is_ok stat = true -> op = EPOLL_CTL_ADD -> ev = Some e ->
    before = None ->
    ctl_outcome kq op d ev stat before (Ok tt) (Some (asked b e))
| ctl_changed e b : ~ refused kq op d ev -> is_ok stat = true -> op = EPOLL_CTL_MOD -> ev = Some e ->
    before <> None ->
    ctl_outcome kq op d ev stat before (Ok tt) (Some (asked b e))
| ctl_not_registered ec : ~ refused kq op d ev -> is_ok stat = true ->
    op = EPOLL_CTL_ADD /\ before = None \/ op = EPOLL_CTL_MOD /\ before <> None ->
    ctl_outcome kq op d ev stat before (Err ec) None
| ctl_exists : ~ refused kq op d ev -> is_ok stat = true -> op = EPOLL_CTL_ADD -> before <> None ->
    ctl_outcome kq op d ev stat before (Err EEXIST) before
| ctl_missing : ~ refused kq op d ev -> is_ok stat = true ->
    op = EPOLL_CTL_DEL \/ op = EPOLL_CTL_MOD -> before = None ->
    ctl_outcome kq op d ev stat before (Err ENOENT) None
| ctl_deleted : ~ refused kq op d ev -> is_ok stat = true -> op = EPOLL_CTL_DEL -> before <> None ->
    ctl_outcome kq op d ev stat before (Ok tt) None
| ctl_unknown : ~ refused kq op d ev -> is_ok stat = true ->
    op <> EPOLL_CTL_ADD -> op <> EPOLL_CTL_DEL -> op <> EPOLL_CTL_MOD ->
    ctl_outcome kq op d ev stat before (Err EINVAL) before.

(** The invariant holds again, and only the entry of [d] may have changed. *)
Definition ctl_post (kq op d : Z) (ev : option epoll_event) (c : EpollFDCtx) (w : W)
    (r : result unit) (s : EpollFDCtx * W) : Prop :=
  inv st 0 kq s.1 s.2 /\ only_interest d c s.1 /\
  ctl_outcome kq op d ev (kernel_step (sys_fstat d) w).1 (interest c d) r (interest s.1 d).

(** The entry of a descriptor and its node. *)
Lemma interest_cases kq c w d : inv st 0 kq c w ->
  match registered_fds c !! d with
  | Some p => exists n, nodes c !! p = Some n /\ fd n = d /\ interest c d = Some (interest_of n)
  | None => interest c d = None
  end.
Proof.
  intros Hi. unfold interest. destruct (registered_fds c !! d) as [p|] eqn:E; [|done].
  destruct (i_registered _ _ _ (i_shape _ _ _ _ _ Hi) d p E) as (n & Hn & Hfd).
  exists n. cbn. by rewrite Hn.
Qed.

(** Removing the node of [d]. *)
Lemma remove_entry_spec kq c w p n (Q : unit -> EpollFDCtx * W -> Prop) :
  inv st 0 kq c w -> nodes c !! p = Some n ->
  (forall c' w', inv st 0 kq c' w' -> only_interest (fd n) c c' -> interest c' (fd n) = None ->
     Q tt (c', w')) ->
  wpg o (epollfd_ctx_remove_node kq p) Q (c, w).
Proof.
  intros Hi Hn HQ.
  destruct (i_stable _ _ _ (i_shape _ _ _ _ _ Hi) p n Hn) as (Hok & _ & _).
  { by apply (i_node _ _ _ (i_shape _ _ _ _ _ Hi) p n). }
  apply (remove_node_spec o st Hst p kq c w n); [by apply inv_focus|done|apply Hok|apply Hok|].
  intros c' w' Hi' Hg. destruct (interest_gone _ _ _ _ _ _ _ Hi Hn Hg). by apply HQ.
Qed.

Lemma ctl_spec kq op d pd ev c w :
  inv st 0 kq c w -> op = EPOLL_CTL_DEL \/ is_Some ev ->
  wpg o (epollfd_ctx_ctl kq op d pd ev) (ctl_post kq op d ev c w) (c, w).
Proof.
  intros Hi Hev. unfold epollfd_ctx_ctl, ctl_post. apply wp_bind, wp_assert.
  assert ((op =? EPOLL_CTL_DEL) || bool_decide (is_Some ev) = true) as ->.
  { destruct Hev as [-> |Hs]; [done|]. rewrite (bool_decide_eq_true_2 _ Hs). apply orb_true_r. }
  destruct (Z.eqb_spec kq d) as [->|Hkq].
  { apply wp_ret. split_and!; [done..|]. apply ctl_refused. by left. }
  destruct (negb _ && _) eqn:Ev.
  { apply wp_ret. split_and!; [done..|]. apply ctl_refused. right.
    apply andb_true_iff in Ev as [E1 E2]. apply negb_true_iff, Z.eqb_neq in E1. split; [done|].
    destruct Hev as [?|[e ->]]; [done|]. by exists e. }
  assert (~ refused kq op d ev) as Hnr.
  { intros [?|(Hop & e & -> & He)]; [done|]. cbn in Ev. rewrite He in Ev.
    rewrite (proj2 (Z.eqb_neq _ _) Hop) in Ev. done. }
  apply wp_bind, wp_getf, wp_bind. cbn [fst].
  apply wp_call_pair. pose proof (calm_step (sys_fstat d) w eq_refl) as Hc.
  pose proof (law_fstat w d) as Hfd.
  pose proof (interest_cases kq c w d Hi) as Hcase.
  destruct (kernel_step _ w) as [stat w1]; cbn [fst snd] in *.
  assert (inv st 0 kq c w1) as Hi1 by (by eapply inv_calm).
  destruct stat as [mode|ec]; cbn [is_ok] in *.
  - specialize (Hfd eq_refl).
    destruct (Z.eqb_spec op EPOLL_CTL_ADD) as [->|Hadd];
      [|destruct (Z.eqb_spec op EPOLL_CTL_DEL) as [->|Hdel];
      [|destruct (Z.eqb_spec op EPOLL_CTL_MOD) as [->|Hmod]]].
    + destruct Hev as [?|[e ->]]; [done|].
      destruct (registered_fds c !! d) as [p|] eqn:E.
      * destruct Hcase as (n & _ & _ & Hint). apply wp_ret. split_and!; [done..|]. cbn [fst]. rewrite Hint.
        by apply ctl_exists.
      * eapply wp_mono; [apply add_node_spec; try done|].
        intros r [c2 w2] (? & ? & Hr). split_and!; [done..|].
        destruct r as [[]|ec]; [destruct Hr as [b ->]; by eapply ctl_added|].
        cbn [fst] in *. rewrite Hr. apply ctl_not_registered; auto.
    + destruct (registered_fds c !! d) as [p|] eqn:E.
      * destruct Hcase as (n & Hn & <- & Hint). apply wp_bind.
        apply (remove_entry_spec kq c w1 p n); [done..|]. intros c2 w2 Hi2 Ho2 Hr.
        apply wp_ret. split_and!; [done..|]. cbn [fst]. rewrite Hr, Hint. by apply ctl_deleted.
      * apply wp_ret. split_and!; [done..|]. cbn [fst]. rewrite Hcase. apply ctl_missing; auto.
    + destruct Hev as [?|[e ->]]; [done|].
      destruct (registered_fds c !! d) as [p|] eqn:E.
      * destruct Hcase as (n & Hn & <- & Hint).
        eapply wp_mono; [apply (modify_node_spec kq p e c w1 n); done|].
        intros r [c2 w2] (? & ? & Hr). split_and!; [done..|]. rewrite Hint.
        destruct r as [[]|ec]; [destruct Hr as [b ->]; by eapply ctl_changed|].
        cbn [fst] in *. rewrite Hr. apply ctl_not_registered; auto.
      * apply wp_ret. split_and!; [done..|]. cbn [fst]. rewrite Hcase. apply ctl_missing; auto.
    + apply wp_ret. split_and!; [done..|]. by apply ctl_unknown.
  - apply wp_bind. destruct (registered_fds c !! d) as [p|] eqn:E.
    + destruct Hcase as (n & Hn & <- & _).
      apply (remove_entry_spec kq c w1 p n); [done..|]. intros c2 w2 Hi2 Ho2 Hr.
      apply wp_ret. split_and!; [done..|]. cbn [fst]. rewrite Hr. by apply ctl_bad_fd.
    + apply wp_ret, wp_ret. split_and!; [done..|]. cbn [fst]. rewrite Hcase. by apply ctl_bad_fd.
Qed.
End Ctl.

