(* ===== verification/EpollWait.v ===== *)
(** * Waiting keeps the invariant

    [epollfd_ctx_wait] dereferences the user data of the events it receives.
    On a system where the code tracks all filters it registers, every such
    pointer is one of a live node. *)

From S2P Require Import Prelude Kernel KqueueEvent EpollNode EpollLaws EpollFeed EpollCtx EpollInv EpollOps EpollRegister.

Lemma fst_zip_prefix {A B} (l : list A) (k : list B) : exists rest, l = (zip l k).*1 ++ rest.
Proof.
  revert k. induction l as [|x l IH]; intros [|y k]; cbn; eauto.
  destruct (IH k) as [rest Hr]. exists rest. by f_equal.
Qed.

Section Wait.
Context {W : Type} `{EpollLaws W, !Pollable W, !PollableLaws W}.
Context (o : stop -> Prop) (Ho : forall why, why <> DanglingPointer -> o why) (Htr : tracked = true).

Lemma tracked_user : has_evfilt_user = true.
Proof. unfold tracked in Htr. by destruct has_evfilt_user. Qed.

Lemma tracked_except : has_evfilt_except = false.
Proof. unfold tracked in Htr. destruct has_evfilt_user, has_evfilt_except; done. Qed.

Lemma assert_allowed : false = true \/ o AssertFailed.
Proof. right. by apply Ho. Qed.

(** ** Events of a node *)

Definition eof_legal (n : RegisteredFDsNode) (e : Z) : Prop :=
  e = 0 \/ e = EOF_STATE_BOTH \/
  node_type n = NODE_TYPE_SOCKET /\ (e = EOF_STATE_READ_EOF \/ e = EOF_STATE_WRITE_EOF).

Lemma same_ok n n' : node_ok false n -> same_node n n' -> eof_legal n (eof_state n') ->
  node_ok false n'.
Proof.
  intros [] [] He. unfold eof_legal, readable, writable in *.
  split; unfold readable, writable; rewrite ?s_type, ?s_node_data, ?s_fd, ?s_list, ?s_pipe; try done.
  intros E. by destruct (s_filters E) as [-> ->]; auto.
Qed.

Lemma same_masked n n' : masked n -> same_node n n' -> masked n'.
Proof. intros Hm []. unfold masked. by rewrite s_type, s_events. Qed.

Lemma wp_assert_any b {C} Q (s : C) : (b = true -> Q tt s) -> wpg o (c_assert b) Q s.
Proof. intros HQ. apply wp_assert. destruct b; [by apply HQ|by apply Ho]. Qed.

Lemma trigger_self_any p kq n (w : W) (Q : unit -> RegisteredFDsNode * W -> Prop) :
  (forall w', fed_world p n w w' -> Q tt (n, w')) -> wpg o (registered_fds_node_trigger_self p kq) Q (n, w).
Proof. intros HQ. apply trigger_self_spec; [left; apply tracked_user|done]. Qed.

Lemma feed_poll_kept p kev n w (Q : unit -> RegisteredFDsNode * W -> Prop) :
  (forall n' w', same_node n n' -> eof_state n' = eof_state n -> fed_world p n w w' -> Q tt (n', w')) ->
  wpg o (feed_poll kev) Q (n, w).
Proof.
  intros HQ. unfold feed_poll, get. apply wp_bind, wp_gets, wp_bind, wp_assert_any. intros _.
  rewrite tracked_user. apply wp_bind, wp_assert_any. intros _. apply wp_bind, wp_poll1.
  intros r w1 Hc1. apply wp_bind, wp_mod_self. apply wp_bind, wp_assert_any. intros _.
  apply translate_fed. intros n' [Hs _] He. apply HQ.
  - etrans; [|exact Hs]. by split.
  - exact He.
  - by apply fed_world_calm.
Qed.

Lemma feed_fifo_kept p kq kev n w (Q : unit -> RegisteredFDsNode * W -> Prop) :
  node_ok false n -> masked n -> node_type n = NODE_TYPE_FIFO ->
  (forall n' w', same_node n n' -> eof_state n' = eof_state n -> fed_world p n w w' -> Q tt (n', w')) ->
  wpg o (feed_fifo_self p kq kev) Q (n, w).
Proof.
  intros Hok Hm Et HQ. unfold feed_fifo_self, get. apply wp_bind, wp_gets.
  do 4 (apply wp_bind, wp_assert_any; intros _).
  apply wp_bind, (wp_filters o false assert_allowed n w); [done..|]. intros f _ _ _.
  apply wp_bind, wp_assert_any. intros _. apply wp_bind, wp_call_pair.
  set (k := EV_SET _ _ _ _ _ _).
  assert (fed_world p n w (kernel_step (sys_kevent kq [k] 1 None) w).2) as Hg.
  { apply fed_world_kevent. intros k' ->%list_elem_of_singleton _. split; [done|]. intros _. right.
    unfold key_of. cbn. rewrite Et, u32_fd by apply Hok. auto. }
  destruct (kernel_step _ w) as [r w1]. cbn [snd] in Hg.
  destruct (negb _).
  - apply wp_bind, wp_when.
    assert (forall w2, fed_world p n w w2 -> wpg o (feed_out kev (Z.lor EPOLLERR EPOLLOUT)) Q (n, w2)) as Hout.
    { intros w2 Hg2. apply feed_out_fed. intros n' w' [Hs _] He Hc. apply HQ; [done..|].
      eapply fed_world_trans; [exact Hg2|by apply fed_world_calm]. }
    destruct (negb _); [|by apply Hout]. apply trigger_self_any. intros w2 Hc2. apply Hout.
    by eapply fed_world_trans.
  - apply wp_bind, wp_mod_self, translate_fed. intros n' [Hs _] He. apply HQ; [|exact He|done].
    etrans; [|exact Hs]. split; try done. cbn. congruence.
Qed.

Lemma feed_event_kept p kq kev n w (Q : unit -> RegisteredFDsNode * W -> Prop) :
  node_ok false n -> masked n ->
  (forall n' w', same_node n n' -> node_ok false n' -> fed_world p n w w' -> Q tt (n', w')) ->
  wpg o (registered_fds_node_feed_event p kq kev) Q (n, w).
Proof.
  intros Hok Hm HQ. unfold registered_fds_node_feed_event, get. apply wp_bind, wp_gets. cbn [fst].
  pose proof (n_eof _ _ Hok) as Heof. unfold is_type.
  assert (forall n', same_node n n' -> eof_state n' = eof_state n -> node_ok false n') as Hsame.
  { intros n' Hs He. apply (same_ok n); [done..|]. by rewrite He. }
  case_bool_decide as Ep; [|case_bool_decide as Ef].
  - apply (feed_poll_kept p). auto.
  - destruct (is_self_event n kev); cbn [andb].
    + apply feed_fifo_kept; auto.
    + apply feed_filter_fed; [apply tracked_except|right; split; by apply Ho|].
      intros n' w' [Hs _] He Hc. apply HQ; [done|apply (same_ok n); [done..|]|by apply fed_world_calm].
      rewrite He. by apply next_eof_state_legal, (ok_filterable false).
  - cbn [andb]. apply feed_filter_fed; [apply tracked_except|right; split; by apply Ho|].
    intros n' w' [Hs _] He Hc. apply HQ; [done|apply (same_ok n); [done..|]|by apply fed_world_calm].
    rewrite He. by apply next_eof_state_legal, (ok_filterable false).
Qed.

(** ** The instance *)

Abbreviation I kq c w := (inv false 0 kq c w).

Lemma stable_node kq c w p n : I kq c w -> nodes c !! p = Some n ->
  node_ok false n /\ masked n /\ is_registered n = true.
Proof.
  intros Hi Hn. apply (i_stable _ _ _ (i_shape _ _ _ _ _ Hi) p n Hn).
  by apply (i_node _ _ _ (i_shape _ _ _ _ _ Hi) p n).
Qed.

(** The descriptor and the user data of the node at [p]. *)
Definition view (c : EpollFDCtx) (p : Z) : option (Z * Z) :=
  (fun n => (fd n, data n)) <$> nodes c !! p.

(** The same nodes are there. *)
Definition keeps (c c' : EpollFDCtx) : Prop := forall p, view c' p = view c p.

#[local] Instance keeps_preorder : PreOrder keeps.
Proof. split; [by intros c p|]. intros c1 c2 c3 H12 H23 p. by rewrite H23. Qed.

Lemma keeps_live c c' p : keeps c c' -> is_Some (nodes c !! p) -> is_Some (nodes c' !! p).
Proof.
  intros Hk [n Hn]. specialize (Hk p). unfold view in Hk. rewrite Hn in Hk.
  destruct (nodes c' !! p); [eauto|done].
Qed.

Lemma frame_keeps p c c' n n' : nodes c !! p = Some n -> frame p c c' -> nodes c' !! p = Some n' ->
  fd n' = fd n -> data n' = data n -> keeps c c'.
Proof.
  intros Hn Hf Hn' Hfd Hd q. unfold view. destruct (decide (q = p)) as [->|Hq].
  - by rewrite Hn, Hn'; cbn; rewrite Hfd, Hd.
  - by rewrite (fr_nodes _ _ _ Hf).
Qed.

(** Code on one node that may add filters of it to any kqueue. *)
Lemma wp_stable_op {A} p kq (m : M (RegisteredFDsNode * W) A) c w n Q :
  I kq c w -> nodes c !! p = Some n ->
  wpg o m (fun a s => same_place n s.1 /\ fed_world p n w s.2 /\ stable false s.1 /\
    forall c', I kq c' s.2 -> nodes c' !! p = Some s.1 -> frame p c c' -> Q a (c', s.2)) (n, w) ->
  wpg o (on_node p m) Q (c, w).
Proof.
  intros Hi Hn Hm. apply (wp_node_op o false p kq m c w n); [by apply inv_focus|done|].
  eapply wp_mono; [exact Hm|]. intros a [n' w'] (Hp & Hg & Hs & HQ). cbn [fst snd] in *.
  split; [done|split; [apply Hg|]]. intros c' Hi' Hn' Hf _. apply HQ; [|done..].
  eapply inv_unfocus; [exact Hi'|]. congruence.
Qed.

Lemma same_node_place n n' : same_node n n' -> same_place n n'.
Proof. intros []. split_and!; congruence. Qed.

Lemma same_stable n n' : stable false n -> same_node n n' -> node_ok false n' -> stable false n'.
Proof.
  intros (_ & Hm & Hr) Hs Hok. split; [done|split; [by eapply same_masked|]].
  by rewrite (s_registered _ _ Hs).
Qed.

(** ** Registering again *)

Lemma masked_mask n : masked n -> masked (mask n).
Proof.
  intros Hm Hs. destruct (mask_same n) as (_ & _ & Et & _). rewrite Et in Hs.
  specialize (Hm Hs). unfold mask, is_type. rewrite bool_decide_eq_false_2 by done. cbn.
  change (within (u16 (Z.ldiff (Z.ldiff (events n) EPOLLRDHUP) EPOLLPRI)) (Z.lor EPOLLIN EPOLLOUT)).
  change (within (events n) (Z.lor EPOLLIN EPOLLOUT)) in Hm. unfold u16. bitwise.
Qed.

Lemma touched_stable n n' : stable false n -> touched (mask n) n' -> node_ok false n' -> stable false n'.
Proof.
  intros (_ & Hm & Hr) Ht Hok. destruct (mask_same n) as (_ & Er & Et & _).
  split; [done|split].
  - intros Hs. rewrite (t_events _ _ Ht). apply (masked_mask n Hm).
    intros E. apply Hs. destruct (t_type _ _ Ht) as [E1|[E1 _]]; congruence.
  - by rewrite (t_registered _ _ Ht), Er.
Qed.

Lemma mask_data n : data (mask n) = data n.
Proof. unfold mask. by destruct (is_type _ n). Qed.

Lemma reregister_spec kq p c w n (Q : result unit -> EpollFDCtx * W -> Prop) :
  I kq c w -> nodes c !! p = Some n ->
  (forall r c' w', I kq c' w' -> keeps c c' -> Q r (c', w')) ->
  wpg o (epollfd_ctx__register_events kq p) Q (c, w).
Proof.
  intros Hi Hn HQ. pose proof (stable_node kq c w p n Hi Hn) as Hst.
  destruct Hst as (Hok & Hm & Hr).
  apply (register_events_spec o false assert_allowed p kq c w n);
    [by apply inv_focus|done|done|by apply masked_mask|by left|].
  intros r c' w' n' Hi' Hn' Hf Ht Hok'. apply HQ.
  - eapply inv_unfocus; [exact Hi'|]. intros m Hm'. rewrite Hn' in Hm'. injection Hm' as <-.
    by apply (touched_stable n).
  - eapply frame_keeps; [exact Hn|done|exact Hn'|..].
    + rewrite (t_fd _ _ Ht). apply mask_same.
    + rewrite (t_data _ _ Ht). apply mask_data.
Qed.

Lemma unregister_spec kq p c w n (Q : unit -> EpollFDCtx * W -> Prop) :
  I kq c w -> nodes c !! p = Some n ->
  (forall c' w', I kq c' w' -> keeps c c' -> Q tt (c', w')) ->
  wpg o (epollfd_ctx__remove_node_from_kq kq p) Q (c, w).
Proof.
  intros Hi Hn HQ. destruct (stable_node kq c w p n Hi Hn) as (Hok & Hm & Hr).
  apply (remove_from_kq_spec o false assert_allowed p kq c w n);
    [by apply inv_focus|done|apply Hok|apply Hok|].
  intros c' w' n' Hi' Hn' Hf (r & x & e & -> & _ & Hf') _. apply HQ.
  - eapply inv_unfocus; [exact Hi'|]. intros m Hm'. rewrite Hn' in Hm'. injection Hm' as <-.
    split; [|done]. destruct Hok. split; try done. cbn. intros Ep. destruct (Hf' Ep) as [-> ->]. auto.
  - by eapply frame_keeps.
Qed.

Lemma read_node p c w n {A} (k : RegisteredFDsNode -> M (EpollFDCtx * W) A) Q :
  nodes c !! p = Some n -> wpg o (k n) Q (c, w) -> wpg o (bind (the_node p) k) Q (c, w).
Proof. intros Hn Hk. by apply wp_bind, (wp_the_node _ _ _ _ n). Qed.

Lemma filters_of_node kq p c w n {A} (k : NeededFilters -> M (EpollFDCtx * W) A) Q :
  I kq c w -> nodes c !! p = Some n ->
  (forall f, wpg o (k f) Q (c, w)) -> wpg o (bind (on_node p needed_filters) k) Q (c, w).
Proof.
  intros Hi Hn Hk. destruct (stable_node kq c w p n Hi Hn) as (Hok & Hm & _).
  apply wp_bind, (wp_on_node _ _ _ _ _ n); [done|].
  apply (wp_filters o false assert_allowed); [done..|]. intros f _ _ _. cbn [fst snd].
  rewrite (nodes_self _ _ _ Hn). apply Hk.
Qed.

Lemma update_filters_spec kq p old c w n (Q : unit -> EpollFDCtx * W -> Prop) :
  I kq c w -> nodes c !! p = Some n ->
  (forall c' w', I kq c' w' -> keeps c c' -> Q tt (c', w')) ->
  wpg o (update_filters kq p old) Q (c, w).
Proof.
  intros Hi Hn HQ. unfold update_filters. apply (read_node _ _ _ n); [done|]. apply wp_when.
  destruct (_ && _); [|by apply HQ]. apply (filters_of_node kq _ _ _ n); [done..|]. intros f.
  apply wp_when. destruct (_ || _); [|by apply HQ]. apply wp_bind.
  apply (reregister_spec kq p c w n); [done..|]. intros r c1 w1 Hi1 Hk1. apply wp_when.
  destruct (negb (is_ok r)); [|by apply HQ].
  destruct (keeps_live c c1 p Hk1) as [n1 Hn1]; [eauto|].
  apply (unregister_spec kq p c1 w1 n1); [done..|]. intros c2 w2 Hi2 Hk2. apply HQ; [done|by etrans].
Qed.

(** An event whose user data is NULL or a node. *)
Definition known (c : EpollFDCtx) (kev : kevent) : Prop :=
  kev_udata kev = 0 \/ is_Some (nodes c !! kev_udata kev).

Lemma known_keeps c c' kev : keeps c c' -> known c kev -> known c' kev.
Proof. intros Hk [?|?]; [by left|right]. by eapply keeps_live. Qed.

Lemma feed_node_spec kq kq' p kev c w (Q : unit -> EpollFDCtx * W -> Prop) :
  I kq c w -> is_Some (nodes c !! p) ->
  (forall c' w' n, I kq c' w' -> keeps c c' -> nodes c !! p = Some n -> fed_world p n w w' ->
     Q tt (c', w')) ->
  wpg o (on_node p (registered_fds_node_feed_event p kq' kev)) Q (c, w).
Proof.
  intros Hi [n Hn] HQ. pose proof (stable_node kq c w p n Hi Hn) as Hst.
  apply (wp_stable_op p kq _ c w n); [done..|].
  destruct Hst as (Hok & Hm & Hr).
  apply feed_event_kept; [done..|]. intros n' w' Hs Hok' Hg. cbn [fst snd].
  split; [by apply same_node_place|split; [done|split; [by apply (same_stable n)|]]].
  intros c' Hi' Hn' Hf. apply (HQ c' w' n); [done| |done|done].
  eapply frame_keeps; [exact Hn|done|exact Hn'|apply Hs|apply Hs].
Qed.

Lemma process_event_spec kq kev c w (Q : option Z -> EpollFDCtx * W -> Prop) :
  I kq c w -> known c kev ->
  (forall r c' w', I kq c' w' -> keeps c c' -> (forall p, r = Some p -> is_Some (nodes c !! p)) ->
     Q r (c', w')) ->
  wpg o (process_event kq kev) Q (c, w).
Proof.
  intros Hi Hk HQ. unfold process_event. destruct (Z.eqb_spec (kev_udata kev) 0) as [E|E].
  - apply wp_bind, wp_assert_any. intros _. apply wp_ret. by apply HQ.
  - destruct Hk as [?|[n Hn]]; [done|]. set (p := kev_udata kev) in *.
    apply (read_node _ _ _ n); [done|]. apply (filters_of_node kq _ _ _ n); [done..|]. intros f.
    apply wp_bind, (feed_node_spec kq); [done|by eauto|]. intros c1 w1 n' Hi1 Hk1 _ _.
    destruct (keeps_live c c1 p Hk1) as [n1 Hn1]; [eauto|].
    apply wp_bind, (update_filters_spec kq p f c1 w1 n1); [done..|]. intros c2 w2 Hi2 Hk2.
    destruct (keeps_live c1 c2 p Hk2) as [n2 Hn2]; [eauto|].
    apply (read_node _ _ _ n2); [done|]. apply wp_ret, HQ; [done|by etrans|].
    intros q Hq. destruct (_ && _); [|done]. injection Hq as <-. eauto.
Qed.

(** The nodes at [ps] are there. *)
Definition live (c : EpollFDCtx) (ps : list Z) : Prop := Forall (fun p => is_Some (nodes c !! p)) ps.

Lemma live_keeps c c' ps : keeps c c' -> live c ps -> live c' ps.
Proof. intros Hk Hl. eapply Forall_impl; [exact Hl|]. intros p. by apply keeps_live. Qed.

Lemma process_events_spec kq l c w (Q : list Z -> EpollFDCtx * W -> Prop) :
  I kq c w -> Forall (known c) l ->
  (forall r c' w', I kq c' w' -> keeps c c' -> live c r -> Q r (c', w')) ->
  wpg o (process_events kq l) Q (c, w).
Proof.
  revert c w Q. induction l as [|kev l IH]; intros c w Q Hi Hl HQ; cbn [process_events].
  { apply wp_ret, HQ; [done..|constructor]. }
  apply Forall_cons in Hl as [Hk Hl]. apply wp_bind, process_event_spec; [done..|].
  intros r c1 w1 Hi1 Hk1 Hr. apply wp_bind, IH; [done|..].
  { eapply Forall_impl; [exact Hl|]. intros k. by apply known_keeps. }
  intros ps c2 w2 Hi2 Hk2 Hps. apply wp_ret, HQ; [done|by etrans|].
  assert (live c ps) as Hps'.
  { eapply live_keeps; [|exact Hps]. intros q. symmetry. apply Hk1. }
  destruct r as [q|]; [|done]. constructor; [by apply Hr|done].
Qed.

(** ** Completion *)

(** The completion kqueue, if there is one, refers to live nodes only. *)
Definition comp_ok (k : Z) (c : EpollFDCtx) (w : W) : Prop :=
  k < 0 \/ forall key u, knote w k key = Some u -> is_Some (nodes c !! u).

Lemma comp_ok_grows k p n c c' w w' : comp_ok k c w -> keeps c c' -> nodes c !! p = Some n ->
  fed_world p n w w' -> comp_ok k c' w'.
Proof.
  intros [?|Hc] Hk Hn Hg; [by left|right]. intros key u Hu. eapply keeps_live; [exact Hk|].
  destruct (Hg k) as [_ Hw]. destruct (Hw key u Hu) as [?|[-> _]]; eauto.
Qed.

Lemma completion_changes_spec p n k : has_evfilt_except || negb (has_evfilt_except_ n && negb (got_evfilt_except n)) = true ->
  k ∈ completion_changes p n ->
  kev_udata k = p /\ kev_ident k = u32 (fd n) /\
  (kev_filter k = EVFILT_READ /\ has_evfilt_read n = true \/
   kev_filter k = EVFILT_WRITE /\ has_evfilt_write n = true).
Proof.
  intros Hex Hk. rewrite tracked_except in Hex. cbn in Hex. apply negb_true_iff in Hex.
  unfold completion_changes in Hk. rewrite Hex in Hk.
  apply elem_of_app in Hk as [Hk|Hk]; [|apply elem_of_app in Hk as [Hk|Hk]];
    [destruct (has_evfilt_read n)|destruct (has_evfilt_write n)|];
    cbn in Hk; repeat case_goal; try (destruct (negb _) in Hk);
    try (by apply elem_of_nil in Hk); apply list_elem_of_singleton in Hk as ->; cbn; auto.
Qed.

Lemma completion_grows p n k w cnt t : node_ok false n ->
  has_evfilt_except || negb (has_evfilt_except_ n && negb (got_evfilt_except n)) = true ->
  fed_world p n w (kernel_step (sys_kevent k (completion_changes p n) cnt t) w).2.
Proof.
  intros Hok Hex. apply fed_world_kevent. intros k' Hk _.
  destruct (completion_changes_spec p n k' Hex Hk) as (Hud & Hid & Hf). split; [done|]. intros _.
  right. unfold key_of. cbn. rewrite Hid, u32_fd by apply Hok.
  pose proof (n_filters _ _ Hok) as Hnf.
  destruct Hf as [[-> Hr]|[-> Hr]]; (split_and!; [intros E; destruct (Hnf E); congruence|done|auto]).
Qed.

Lemma register_completion_spec kq p k c w (Q : Z -> EpollFDCtx * W -> Prop) :
  I kq c w -> is_Some (nodes c !! p) -> comp_ok k c w ->
  (forall k' c' w', I kq c' w' -> keeps c c' -> comp_ok k' c' w' -> Q k' (c', w')) ->
  wpg o (on_node p (registered_fds_node_register_for_completion k p)) Q (c, w).
Proof.
  intros Hi [n Hn] Hc HQ. pose proof (stable_node kq c w p n Hi Hn) as Hst.
  assert (forall k' w', fed_world p n w w' -> (comp_ok k' c w') ->
    same_place n n /\ fed_world p n w w' /\ stable false n /\
    (forall c', I kq c' w' -> nodes c' !! p = Some n -> frame p c c' -> Q k' (c', w'))) as Hdone.
  { intros k' w' Hg Hc'. split_and!; try done; try apply Hst. intros c' Hi' Hn' Hf.
    assert (keeps c c') as Hk by (by eapply frame_keeps). apply HQ; [done..|].
    destruct Hc' as [?|Hc']; [by left|right]. intros key u Hu. eapply keeps_live; eauto. }
  apply (wp_stable_op p kq _ c w n); [done..|].
  unfold registered_fds_node_register_for_completion, get.
  apply wp_bind, wp_gets, wp_bind, wp_assert_any. cbn [fst]. intros Hex.
  destruct (completion_changes p n) as [|k0 l0] eqn:El.
  { apply wp_ret, Hdone; [by apply fed_world_calm|done]. }
  rewrite <- El.
  assert (forall k' w1, calm w w1 -> comp_ok k' c w1 ->
    wpg o (when (0 <=? k') (call_ (sys_kevent k' (completion_changes p n)
      (Z.of_nat (length (completion_changes p n))) None)) ;; ret k')
    (fun a s => same_place n s.1 /\ fed_world p n w s.2 /\ stable false s.1 /\
      (forall c', I kq c' s.2 -> nodes c' !! p = Some s.1 -> frame p c c' -> Q a (c', s.2))) (n, w1)) as Hadd.
  { intros k' w1 Hc1 Hck. apply wp_bind, wp_when. destruct (0 <=? k').
    - apply wp_kevent_any, wp_ret.
      pose proof (completion_grows p n k' w1 (Z.of_nat (length (completion_changes p n))) None
        (proj1 Hst) Hex) as Hg.
      apply Hdone; [eapply fed_world_trans; [by apply fed_world_calm|exact Hg]|].
      by eapply comp_ok_grows.
    - by apply wp_ret, Hdone; [apply fed_world_calm|]. }
  apply wp_bind. destruct (k <? 0) eqn:Ek; [|by apply wp_ret, Hadd].
  apply wp_bind, wp_call_pair. pose proof (calm_step (sys_kqueue1 O_CLOEXEC) w eq_refl) as Hcalm.
  pose proof (law_new_kqueue w O_CLOEXEC) as Hnew.
  destruct (kernel_step _ w) as [[k'|ec] w1]; apply wp_ret, Hadd; try done.
  - right. intros key u Hu. destruct Hnew as [_ Hnone]. by rewrite Hnone in Hu.
  - by left.
Qed.

Lemma register_completions_spec kq full ps : forall k c w (Q : Z -> EpollFDCtx * W -> Prop),
  I kq c w -> live c ps -> comp_ok k c w ->
  (forall k' c' w', I kq c' w' -> keeps c c' -> comp_ok k' c' w' -> Q k' (c', w')) ->
  wpg o (register_completions full k ps) Q (c, w).
Proof.
  induction ps as [|p ps IH]; intros k c w Q Hi Hl Hc HQ; cbn [register_completions].
  { by apply wp_ret, HQ. }
  apply Forall_cons in Hl as [[n Hn] Hl]. apply (read_node _ _ _ n); [done|]. apply wp_bind.
  assert (forall k1 c1 w1, I kq c1 w1 -> keeps c c1 -> comp_ok k1 c1 w1 ->
    wpg o (register_completions full k1 ps) Q (c1, w1)) as Hrest.
  { intros k1 c1 w1 Hi1 Hk1 Hc1. apply IH; [done|by eapply live_keeps|done|].
    intros k2 c2 w2 Hi2 Hk2 Hc2. apply HQ; [done|by etrans|done]. }
  destruct (full || _); [|by apply wp_ret, Hrest].
  by apply (register_completion_spec kq); [|eauto| |].
Qed.

Lemma wp_post {A} (m : M (EpollFDCtx * W) A) (P : EpollFDCtx * W -> Prop) Q s :
  wpg o m (fun _ => P) s -> (forall a s', P s' -> Q a s') -> wpg o m Q s.
Proof. intros Hm HQ. eapply wp_mono; [exact Hm|auto]. Qed.

Lemma drain_spec kq k m : forall c w (Q : unit -> EpollFDCtx * W -> Prop),
  I kq c w -> comp_ok k c w -> 0 <= k ->
  (forall c' w', I kq c' w' -> keeps c c' -> Q tt (c', w')) ->
  wpg o (drain_completion m k) Q (c, w).
Proof.
  induction m as [|m IH]; intros c w Q Hi Hc Hk HQ; cbn [drain_completion]; [by apply Ho|].
  apply wp_bind, wp_call_pair.
  pose proof (calm_step (sys_kevent k [] 32 (Some {| tv_sec := 0; tv_nsec := 0 |})) w eq_refl) as Hcalm.
  pose proof (law_events w k 32 (Some {| tv_sec := 0; tv_nsec := 0 |})) as Hev.
  destruct (kernel_step _ w) as [r w1]. cbn [snd] in Hcalm.
  assert (I kq c w1) as Hi1 by (by eapply inv_calm).
  assert (comp_ok k c w1) as Hc1.
  { destruct Hc as [?|Hc]; [by left|right]. intros key u Hu. by eapply Hc, Hcalm. }
  destruct r as [[|e l]|ec]; [by apply wp_ret, HQ| |by apply wp_ret, HQ].
  destruct Hev as (_ & _ & Hev).
  assert (Forall (fun e => is_Some (nodes c !! kev_udata e)) (e :: l)) as Hl.
  { apply Forall_forall. intros e' He'. destruct Hc as [?|Hc]; [lia|]. eapply Hc, Hev, He'. }
  apply wp_bind. eapply (wp_post _ (fun s => I kq s.1 s.2 /\ keeps c s.1 /\ comp_ok k s.1 s.2)).
  - apply wp_iterM; [|done]. intros e' [c2 w2] He' (Hi2 & Hk2 & Hc2). cbn [fst snd] in *.
    apply (feed_node_spec kq); [done| |].
    + eapply keeps_live; [exact Hk2|]. by eapply Forall_forall in Hl.
    + intros c3 w3 n Hi3 Hk3 Hn Hg. cbn [fst snd]. split_and!; [done|by etrans|].
      by eapply comp_ok_grows.
  - intros _ [c2 w2] (Hi2 & Hk2 & Hc2). apply IH; [done..|]. intros c3 w3 Hi3 Hk3.
    apply HQ; [done|by etrans].
Qed.

Lemma complete_spec kq k c w (Q : unit -> EpollFDCtx * W -> Prop) :
  I kq c w -> comp_ok k c w ->
  (forall c' w', I kq c' w' -> keeps c c' -> Q tt (c', w')) ->
  wpg o (registered_fds_node_complete k) Q (c, w).
Proof.
  intros Hi Hc HQ. unfold registered_fds_node_complete. destruct (Z.ltb_spec k 0); [by apply wp_ret, HQ|].
  apply wp_bind, (drain_spec kq); [done..|]. intros c1 w1 Hi1 Hk1. apply wp_quiet_; [done|].
  intros w2 Hc2. apply HQ; [by eapply inv_calm|done].
Qed.

(** ** Handing out the events *)

(** The event carries the data of a node. *)
Definition event_of (c : EpollFDCtx) (e : epoll_event) : Prop :=
  exists p d, view c p = Some (d, ev_data e).

Lemma event_of_keeps c c' e : keeps c c' -> event_of c' e -> event_of c e.
Proof. intros Hk (p & d & Hp). exists p, d. by rewrite <- Hk. Qed.

Lemma collect_spec kq ps : forall c w (Q : list epoll_event -> EpollFDCtx * W -> Prop),
  I kq c w -> live c ps ->
  (forall evs c' w', I kq c' w' -> keeps c c' -> Forall (event_of c) evs ->
     length evs = length ps -> Q evs (c', w')) ->
  wpg o (collect_events kq ps) Q (c, w).
Proof.
  induction ps as [|p ps IH]; intros c w Q Hi Hl HQ; cbn [collect_events].
  { apply wp_ret, HQ; [done..|constructor|done]. }
  apply Forall_cons in Hl as [[n Hn] Hl]. apply (read_node _ _ _ n); [done|].
  pose proof (stable_node kq c w p n Hi Hn) as (Hok & Hm & Hr).
  apply wp_bind, (wp_set_node o false p _ kq c w n); [by apply inv_focus|done|done|].
  intros c1 Hi1 Hn1 Hf1 _.
  assert (I kq c1 w) as Hi1'.
  { eapply inv_unfocus; [exact Hi1|]. intros m Hm'. rewrite Hn1 in Hm'. injection Hm' as <-.
    split; [by destruct Hok; split|done]. }
  assert (keeps c c1) as Hk1 by (by eapply frame_keeps).
  assert (forall c2 w2, I kq c2 w2 -> keeps c c2 ->
    wpg o (let* r := collect_events kq ps in
           ret ({| ev_events := revents n; ev_data := data n |} :: r)) Q (c2, w2)) as Hrest.
  { intros c2 w2 Hi2 Hk2. apply wp_bind, IH; [done|by eapply live_keeps|].
    intros evs c3 w3 Hi3 Hk3 Hev Hlen. apply wp_ret, HQ; [done|by etrans| |by cbn; rewrite Hlen].
    constructor.
    - exists p, (fd n). unfold view. by rewrite Hn.
    - eapply Forall_impl; [exact Hev|]. intros e. by apply event_of_keeps. }
  apply wp_bind, wp_when. destruct (is_oneshot n); [|by apply Hrest].
  eapply (unregister_spec kq p c1 w); [done|exact Hn1|]. intros c2 w2 Hi2 Hk2.
  apply Hrest; [done|by etrans].
Qed.

(** ** The loop *)

Lemma wait_again_spec kq cnt m : forall c w (Q : result (list epoll_event) -> EpollFDCtx * W -> Prop),
  I kq c w ->
  (forall r c' w', I kq c' w' -> keeps c c' ->
     match r with Ok evs => Forall (event_of c) evs | Err _ => True end -> Q r (c', w')) ->
  wpg o (wait_again m kq cnt) Q (c, w).
Proof.
  induction m as [|m IH]; intros c w Q Hi HQ; cbn [wait_again]; [by apply Ho|].
  apply wp_bind, wp_getf, wp_bind, wp_assert_any. intros _.
  apply wp_bind_result, wp_call_pair. cbn [fst].
  set (t := Some {| tv_sec := 0; tv_nsec := 0 |}).
  pose proof (calm_step (sys_kevent kq [] cnt t) w eq_refl) as Hcalm.
  pose proof (law_events w kq cnt t) as Hev.
  destruct (kernel_step _ w) as [r w1]. cbn [snd] in Hcalm.
  assert (I kq c w1) as Hi1 by (by eapply inv_calm).
  destruct r as [l|ec]; [|by apply HQ].
  destruct Hev as (_ & _ & Hev).
  assert (Forall (known c) l) as Hl.
  { apply Forall_forall. intros e He. destruct (i_knotes _ _ _ _ _ Hi _ _ Htr (Hev e He))
      as [[? _]|(n & Hn & _)]; [by left|right; eauto]. }
  apply wp_bind, process_events_spec; [done..|]. intros ps c2 w2 Hi2 Hk2 Hps.
  apply wp_bind, (register_completions_spec kq); [done|by eapply live_keeps|by left|].
  intros k c3 w3 Hi3 Hk3 Hc3. apply wp_bind, (complete_spec kq); [done..|].
  intros c4 w4 Hi4 Hk4. assert (keeps c c4) as Hk by (etrans; [exact Hk2|by etrans]).
  apply wp_bind, collect_spec; [done|by eapply live_keeps|].
  intros evs c5 w5 Hi5 Hk5 Hevs _. assert (keeps c c5) as Hkc by (by etrans).
  assert (Forall (event_of c) evs) as Hevs'.
  { eapply Forall_impl; [exact Hevs|]. intros e. by apply event_of_keeps. }
  destruct l as [|e0 l0]; [by apply wp_ret, HQ|]. destruct evs as [|e1 evs]; [|by apply wp_ret, HQ].
  apply IH; [done|]. intros r c6 w6 Hi6 Hk6 Hr. apply HQ; [done|by etrans|].
  destruct r as [l|]; [|done]. eapply Forall_impl; [exact Hr|]. intros e. by apply event_of_keeps.
Qed.

(** ** Buffers *)

(** The instance only differs in its buffers. *)
Definition buffers (k kl p pl : Z) (c : EpollFDCtx) : EpollFDCtx :=
  c <| kevs := k |> <| kevs_length := kl |> <| pfds := p |> <| pfds_length := pl |>.

Lemma inv_buffers kq c w w' k kl p pl : I kq c w ->
  (forall q m, nodes c !! q = Some m -> allocated w' q) ->
  (forall key u, knote w' kq key = Some u -> knote w kq key = Some u) ->
  nodes c !! k = None -> nodes c !! p = None -> valid w' k -> valid w' p -> (k = p -> k = 0) ->
  I kq (buffers k kl p pl c) w'.
Proof.
  intros [Hs Ha Hb Hk] Ha' Hk' Hnk Hnp Hvk Hvp Hd.
  split; [destruct Hs; by split|done|done|]. intros key u Ht Hu. by apply Hk, Hk'.
Qed.

(** What realloc does to the other memory. *)
Lemma realloc_spec kq c w q size : I kq c w ->
  nodes c !! q = None ->
  let (r, w') := kernel_step (sys_realloc q size) w in
  (forall p m, nodes c !! p = Some m -> allocated w' p) /\
  (forall key u, knote w' kq key = Some u -> knote w kq key = Some u) /\
  (forall b, b <> q -> valid w b -> valid w' b) /\
  match r with
  | Ok p => p <> 0 /\ valid w' p /\ nodes c !! p = None /\
      (forall b, b <> q -> valid w b -> p = b -> False)
  | Err _ => valid w q -> valid w' q
  end.
Proof.
  intros Hi Hq. pose proof (law_realloc w q size) as Hl.
  pose proof (fun key u => proj1 (proj2 (law_memory_knote w kq key u)) q size) as Hk.
  destruct (kernel_step _ w) as [r w']. destruct Hl as [Ho' Hr]. cbn [snd] in Hk.
  assert (forall p m, nodes c !! p = Some m -> allocated w' p) as Hn.
  { intros p m Hp. apply Ho'; [congruence|]. by eapply (i_allocated _ _ _ _ _ Hi). }
  split; [done|split; [done|split; [intros b Hb [?|?]; [by left|right; auto]|]]].
  destruct r as [p|ec].
  - destruct Hr as (Hp0 & Hp & Hpw). split; [done|split; [by right|split]].
    + destruct Hp as [->|Hp]; [done|]. destruct (nodes c !! p) as [m|] eqn:E; [|done].
      by destruct (Hp (i_allocated _ _ _ _ _ Hi p m E)).
    + intros b Hb [->|Hbw] E; [done|]. subst b. by destruct Hp.
  - intros [?|?]; [by left|right; auto].
Qed.

Lemma make_kevs_space_spec kq cnt c w (Q : result unit -> EpollFDCtx * W -> Prop) :
  I kq c w ->
  (forall r c' w', I kq c' w' -> keeps c c' -> Q r (c', w')) ->
  wpg o (epollfd_ctx_make_kevs_space cnt) Q (c, w).
Proof.
  intros Hi HQ. unfold epollfd_ctx_make_kevs_space, get.
  apply wp_bind, wp_assert_any. intros _. apply wp_bind, wp_gets. cbn [fst].
  destruct (_ <=? _); [by apply wp_ret, HQ|]. destruct (checked _ _) as [size|]; [|by apply wp_ret, HQ].
  apply wp_bind_result, wp_call_pair.
  pose proof (realloc_spec kq c w (kevs c) size Hi (i_kevs _ _ _ (i_shape _ _ _ _ _ Hi))) as Hl.
  destruct (i_buffers _ _ _ _ _ Hi) as [Hvk Hvp]. pose proof (i_shape _ _ _ _ _ Hi) as Hs.
  destruct (kernel_step _ w) as [[p|ec] w1]; destruct Hl as (Hn & Hk & Hv & Hr).
  - apply wp_bind, wp_mod_self, wp_bind, wp_mod_self, wp_ret.
    destruct Hr as (Hp0 & Hpv & Hpn & Hpd).
    apply (HQ _ (buffers p cnt (pfds c) (pfds_length c) c)); [|done].
    apply (inv_buffers kq c w); try done; [apply Hs| |].
    + destruct Hvp as [E|Hvp]; [by left|]. destruct (decide (pfds c = kevs c)) as [E|E].
      * left. rewrite E. by apply Hs.
      * apply Hv; [done|by right].
    + intros E. destruct (decide (pfds c = kevs c)) as [E'|E'].
      * rewrite E, E'. by apply Hs.
      * by destruct (Hpd (pfds c) E' Hvp).
  - apply HQ; [|done]. replace c with (buffers (kevs c) (kevs_length c) (pfds c) (pfds_length c) c)
      by (by destruct c).
    apply (inv_buffers kq c w); try done; try apply Hs; [by apply Hr|].
    destruct (decide (pfds c = kevs c)) as [E|]; [rewrite E; by apply Hr|by apply Hv].
Qed.

Lemma make_pfds_space_spec kq c w (Q : result unit -> EpollFDCtx * W -> Prop) :
  I kq c w ->
  (forall r c' w', I kq c' w' -> keeps c c' -> poll_fds c' = poll_fds c -> Q r (c', w')) ->
  wpg o epollfd_ctx_make_pfds_space Q (c, w).
Proof.
  intros Hi HQ. unfold epollfd_ctx_make_pfds_space, get.
  apply wp_bind, wp_gets. cbn [fst].
  destruct (_ <=? _); [by apply wp_ret, HQ|]. destruct (checked _ _) as [size|]; [|by apply wp_ret, HQ].
  apply wp_bind_result, wp_call_pair.
  pose proof (realloc_spec kq c w (pfds c) size Hi (i_pfds _ _ _ (i_shape _ _ _ _ _ Hi))) as Hl.
  destruct (i_buffers _ _ _ _ _ Hi) as [Hvk Hvp]. pose proof (i_shape _ _ _ _ _ Hi) as Hs.
  assert (pfds c <> kevs c -> kevs c <> pfds c) as Hne by congruence.
  destruct (kernel_step _ w) as [[p|ec] w1]; destruct Hl as (Hn & Hk & Hv & Hr).
  - apply wp_bind, wp_mod_self, wp_bind, wp_mod_self, wp_ret.
    destruct Hr as (Hp0 & Hpv & Hpn & Hpd).
    apply (HQ _ (buffers (kevs c) (kevs_length c) p (1 + poll_fds_size c) c)); [|done..].
    apply (inv_buffers kq c w); try done; [apply Hs| |].
    + destruct Hvk as [E|Hvk]; [by left|]. destruct (decide (kevs c = pfds c)) as [E|E].
      * left. by apply Hs.
      * apply Hv; [done|by right].
    + intros E. destruct (decide (kevs c = pfds c)) as [E'|E']; [by apply Hs|].
      by destruct (Hpd (kevs c) E' Hvk).
  - apply HQ; [|done..]. replace c with (buffers (kevs c) (kevs_length c) (pfds c) (pfds_length c) c)
      by (by destruct c).
    apply (inv_buffers kq c w); try done; try apply Hs; [|by apply Hr].
    destruct (decide (kevs c = pfds c)) as [E|]; [rewrite E; by apply Hr|by apply Hv].
Qed.

(** ** The polled descriptors *)

Lemma poll_entries_spec kq ps : forall c w (Q : list pollfd -> EpollFDCtx * W -> Prop),
  I kq c w -> live c ps -> (forall l, Q l (c, w)) -> wpg o (poll_entries ps) Q (c, w).
Proof.
  induction ps as [|p ps IH]; intros c w Q Hi Hl HQ; cbn [poll_entries]; [by apply wp_ret|].
  apply Forall_cons in Hl as [[n Hn] Hl]. apply (read_node _ _ _ n); [done|].
  apply wp_bind, IH; [done..|]. intros l. by apply wp_ret.
Qed.

(** The nodes that are left were there before. *)
Definition descends (c c' : EpollFDCtx) : Prop :=
  forall p v, view c' p = Some v -> view c p = Some v.

#[local] Instance descends_preorder : PreOrder descends.
Proof. split; [by intros c p v|]. intros c1 c2 c3 H12 H23 p v Hv. auto. Qed.

Lemma keeps_descends c c' : keeps c c' -> descends c c'.
Proof. intros Hk p v. by rewrite Hk. Qed.

(** The nodes of [l] are on the list of polled descriptors. *)
Definition all_listed (c : EpollFDCtx) (l : list Z) : Prop :=
  NoDup l /\ forall p, p ∈ l -> p ∈ poll_fds c.

Lemma listed_step kq c c' w w' p n l : I kq c w -> I kq c' w' -> all_listed c (p :: l) ->
  nodes c !! p = Some n -> (forall q, q <> p -> nodes c' !! q = nodes c !! q) -> all_listed c' l.
Proof.
  intros Hi Hi' [Hnd Hin] Hn Hq. apply NoDup_cons in Hnd as [Hp Hnd]. split; [done|].
  intros q Hql. assert (q <> p) as Hne by (by intros ->).
  apply (i_list _ _ _ (i_shape _ _ _ _ _ Hi')). rewrite (Hq q Hne).
  apply (i_list _ _ _ (i_shape _ _ _ _ _ Hi)). apply Hin. by right.
Qed.

Lemma dispatch_spec kq l : forall c w (Q : unit -> EpollFDCtx * W -> Prop),
  I kq c w -> all_listed c l.*1 ->
  (forall c' w', I kq c' w' -> descends c c' -> Q tt (c', w')) ->
  wpg o (dispatch_polled kq l) Q (c, w).
Proof.
  induction l as [|[p pfd] l IH]; intros c w Q Hi Hl HQ; cbn [dispatch_polled].
  { by apply wp_ret, HQ. }
  change (all_listed c (p :: l.*1)) in Hl.
  assert (exists n, nodes c !! p = Some n /\ is_on_pollfd_list n = true) as (n & Hn & Hon).
  { apply (i_list _ _ _ (i_shape _ _ _ _ _ Hi)), Hl. by left. }
  pose proof (stable_node kq c w p n Hi Hn) as (Hok & Hm & Hr).
  assert (forall c1 w1, I kq c1 w1 -> (forall q, q <> p -> nodes c1 !! q = nodes c !! q) ->
    descends c c1 -> wpg o (dispatch_polled kq l) Q (c1, w1)) as Hrest.
  { intros c1 w1 Hi1 Hq Hd. apply IH; [done|by eapply (listed_step kq c c1)|].
    intros c2 w2 Hi2 Hd2. apply HQ; [done|by etrans]. }
  apply wp_bind. destruct (has (pfd_revents pfd) POLLNVAL).
  - apply (remove_node_spec o false assert_allowed p kq c w n);
      [by apply inv_focus|done|apply Hok|apply Hok|].
    intros c1 w1 Hi1 Hg. apply Hrest; [done|apply Hg|]. intros q v Hv. unfold view in *.
    destruct (decide (q = p)) as [->|Hne]; [|by rewrite <- (g_nodes _ _ _ _ Hg q Hne)].
    destruct (nodes c1 !! p) as [m|] eqn:E; [|done].
    destruct (i_node _ _ _ (i_shape _ _ _ _ _ Hi1) p m E) as [_ Hreg].
    rewrite (g_registered _ _ _ _ Hg) in Hreg. apply lookup_delete_Some in Hreg as [Hne Hreg].
    destruct (i_registered _ _ _ (i_shape _ _ _ _ _ Hi) _ _ Hreg) as (n' & Hn' & Hfd). congruence.
  - apply wp_when. destruct (negb _); [|by apply Hrest].
    apply (wp_stable_op p kq _ c w n); [done..|]. apply trigger_self_any. intros w1 Hc1. cbn [fst snd].
    split; [done|split; [done|split; [done|]]].
    intros c1 Hi1 Hn1 Hf1. apply Hrest; [done|apply Hf1|].
    apply keeps_descends. by eapply frame_keeps.
Qed.

(** ** [epoll_wait] *)

Lemma wait_spec kq cnt c w (Q : result (list epoll_event) -> EpollFDCtx * W -> Prop) :
  I kq c w ->
  (forall r c' w', I kq c' w' -> descends c c' ->
     match r with Ok evs => Forall (event_of c) evs | Err _ => True end -> Q r (c', w')) ->
  wpg o (epollfd_ctx_wait kq cnt) Q (c, w).
Proof.
  intros Hi HQ. unfold epollfd_ctx_wait. apply wp_bind, wp_assert_any. intros _.
  apply wp_bind_result, make_pfds_space_spec with kq; [done|]. intros r c1 w1 Hi1 Hk1 Hpf.
  apply keeps_descends in Hk1. destruct r as [[]|ec]; [|by apply HQ].
  apply wp_bind. unfold epollfd_ctx_fill_pollfds. apply wp_bind, wp_getf, wp_bind. cbn [fst].
  apply (poll_entries_spec kq); [done|..].
  { apply Forall_forall. intros p Hp. apply (i_list _ _ _ (i_shape _ _ _ _ _ Hi1)) in Hp as (n & Hn & _). eauto. }
  intros entries. apply wp_ret, wp_bind_result, wp_call_pair. set (req := _ :: entries).
  pose proof (calm_step (sys_poll req 0) w1 eq_refl) as Hcalm.
  destruct (kernel_step _ w1) as [[[n polled]|ec] w2]; cbn [snd] in Hcalm;
    (assert (I kq c1 w2) as Hi2 by (by eapply inv_calm)); [|by apply HQ].
  destruct (n =? 0); [apply wp_ret, HQ; [done..|constructor]|].
  apply wp_bind, wp_getf, wp_bind, (dispatch_spec kq); [done| |].
  { cbn [fst]. destruct (fst_zip_prefix (poll_fds c1) (tail polled)) as [rest Hrest].
    pose proof (i_nodup _ _ _ (i_shape _ _ _ _ _ Hi1)) as Hnd. rewrite Hrest in Hnd.
    split; [by apply NoDup_app in Hnd as [? _]|]. intros p Hp. rewrite Hrest. by apply elem_of_app; left. }
  intros c3 w3 Hi3 Hd3. apply wp_bind, wp_getf. cbn [fst].
  destruct (kevs_wanted _ _) as [cnt'|ec]; [|apply wp_ret, HQ; [done|by etrans|done]].
  apply wp_bind_result, make_kevs_space_spec with kq; [done|]. intros r c4 w4 Hi4 Hk4.
  apply keeps_descends in Hk4.
  destruct r as [[]|ec]; [|apply HQ; [done|by etrans; [|etrans]|done]].
  apply (wait_again_spec kq); [done|]. intros r c5 w5 Hi5 Hk5 Hr. apply keeps_descends in Hk5.
  assert (descends c c4) as Hdc by (etrans; [exact Hk1|by etrans]).
  apply HQ; [done|by etrans|]. destruct r as [evs|]; [|done].
  eapply Forall_impl; [exact Hr|]. intros e (p & d & Hp). exists p, d. by apply Hdc.
Qed.
End Wait.


