(* ===== verification/Frame.v ===== *)
(** * What the code of a kind leaves alone

    The code of an eventfd, a timerfd or a signalfd runs on its own structure
    and manages no memory, on any system and whatever the calls answer.  This
    is what the table of file descriptions needs of it: [framed o I J m] says
    that [m] keeps the invariant [I] of its structure and the property [J] of
    the rest of the program, and stops only for a reason in [o]. *)

From S2P Require Import Prelude Kernel KqueueEvent Timespec EventfdCtx TimerfdCtx SignalfdCtx.

(** Calls that allocate or free. *)
Definition manages_memory {A} (c : syscall A) : bool :=
  match c with sys_malloc _ | sys_realloc _ _ | sys_free _ => true | _ => false end.

(** A property of the world that no other call invalidates. *)
Class Neutral {W} `{!Kernel W} (J : W -> Prop) :=
  neutral A (c : syscall A) w : manages_memory c = false -> J w -> J (kernel_step c w).2.

(** ** Invariants of code *)

Definition stable {S A} (o : stop -> Prop) (I : S -> Prop) (m : M S A) : Prop :=
  forall s, I s -> wpg o m (fun _ => I) s.

Definition framed {C W A} (o : stop -> Prop) (I : C -> Prop) (J : W -> Prop) (m : M (C * W) A) : Prop :=
  stable o (fun s => I s.1 /\ J s.2) m.

Create HintDb stable.

Section Rules.
Context {S : Type} (o : stop -> Prop) (I : S -> Prop).

Lemma stable_ret {A} (a : A) : stable o I (ret a).
Proof. by intros s Hs. Qed.

Lemma stable_gets {A} (f : S -> A) : stable o I (gets f).
Proof. by intros s Hs. Qed.

Lemma stable_bind {A B} (m : M S A) (k : A -> M S B) :
  stable o I m -> (forall a, stable o I (k a)) -> stable o I (bind m k).
Proof.
  intros Hm Hk s Hs. apply wp_bind. eapply wp_mono; [by apply Hm|]. intros a s' Hs'. by apply Hk.
Qed.

Lemma stable_bind_result {A B} (m : M S (result A)) (k : A -> M S (result B)) :
  stable o I m -> (forall a, stable o I (k a)) -> stable o I (bind_result m k).
Proof. intros Hm Hk. apply stable_bind; [done|]. intros [a|ec]; [done|apply stable_ret]. Qed.

Lemma stable_assert b : o AssertFailed -> stable o I (c_assert b).
Proof. intros Ho s Hs. by destruct b. Qed.

Lemma stable_stop {A} why : o why -> stable o I (stop_with (A := A) why).
Proof. by intros Ho s Hs. Qed.

Lemma stable_when b m : stable o I m -> stable o I (when b m).
Proof. intros Hm. destruct b; [done|]. by intros s Hs. Qed.
End Rules.

#[export] Hint Resolve stable_ret stable_gets stable_bind stable_bind_result stable_assert stable_stop
  stable_when : stable.

Section FrameRules.
Context {C W : Type} `{!Kernel W} (o : stop -> Prop) (I : C -> Prop) (J : W -> Prop) `{!Neutral J}.

Lemma framed_bind {A B} (m : M (C * W) A) (k : A -> M (C * W) B) :
  framed o I J m -> (forall a, framed o I J (k a)) -> framed o I J (bind m k).
Proof. apply stable_bind. Qed.

Lemma framed_bind_result {A B} (m : M (C * W) (result A)) (k : A -> M (C * W) (result B)) :
  framed o I J m -> (forall a, framed o I J (k a)) -> framed o I J (bind_result m k).
Proof. apply stable_bind_result. Qed.

Lemma framed_when b m : framed o I J m -> framed o I J (when b m).
Proof. apply stable_when. Qed.

Lemma framed_getf {A} (f : C -> A) : framed o I J (getf f).
Proof. by intros s Hs. Qed.

Lemma framed_get : framed o I J get.
Proof. by intros s Hs. Qed.

Lemma framed_mod (f : C -> C) : (forall c, I c -> I (f c)) -> framed o I J (mod_self f).
Proof. intros Hf s [Hi Hj]. apply wp_mod_self. split; cbn; auto. Qed.

Lemma framed_put (c : C) : I c -> framed o I J (put c).
Proof. intros Hc s [Hi Hj]. apply wp_put. by split. Qed.

Lemma stable_call_world {A} (c : syscall A) : manages_memory c = false -> stable o J (call c).
Proof.
  intros Hc w Hw. apply wp_call. pose proof (neutral A c w Hc Hw). by destruct (kernel_step c w).
Qed.

Lemma framed_call {A} (c : syscall A) : manages_memory c = false -> framed o I J (call c).
Proof.
  intros Hc [x w] [Hi Hj]. apply wp_call_pair. pose proof (neutral A c w Hc Hj).
  by destruct (kernel_step c w).
Qed.

Lemma framed_lift {A} (m : M W A) : stable o J m -> framed o I J (lift m).
Proof.
  intros Hm [x w] [Hi Hj]. apply wp_lift. eapply wp_mono; [by apply Hm|]. by intros.
Qed.

Lemma framed_zoom {F A} (f : C -> F) `{!Upd f} (m : M (F * W) A) :
  (forall c x, I c -> I (c <| f := x |>)) -> framed o (fun _ => True) J m -> framed o I J (zoom f m).
Proof.
  intros Hf Hm [x w] [Hi Hj]. apply wp_zoom. eapply wp_mono; [by apply Hm|].
  intros a s' [_ Hs']. split; [by apply Hf|done].
Qed.
End FrameRules.

#[export] Hint Resolve framed_getf framed_get framed_mod framed_put stable_call_world framed_call
  framed_lift framed_zoom : stable.

(** Decompose code into its parts; a branch of the code is a branch of the proof. *)
Ltac stable_head m :=
  lazymatch m with
  | bind _ _ => apply stable_bind
  | bind_result _ _ => apply stable_bind_result
  | ret _ => apply stable_ret
  | when _ _ => apply stable_when
  | c_assert _ => apply stable_assert
  | stop_with _ => apply stable_stop
  end.
Ltac stable_step :=
  match goal with
  | |- forall _, _ => intros
  | |- framed _ _ _ (match ?x with _ => _ end) => destruct x
  | |- stable _ _ (match ?x with _ => _ end) => destruct x
  | |- framed _ _ _ (bind _ _) => apply framed_bind
  | |- framed _ _ _ (bind_result _ _) => apply framed_bind_result
  | |- framed _ _ _ (when _ _) => apply framed_when
  | |- framed _ _ _ ?m => stable_head m
  | |- stable _ _ ?m => stable_head m
  | |- framed _ _ _ (call_ _) => unfold call_
  | |- stable _ _ (call_ _) => unfold call_
  | |- _ => progress eauto with stable
  | |- _ => progress cbv zeta
  end.
Ltac stable := repeat stable_step; try done.

(** ** The self-triggered event *)

Section Event.
Context {W : Type} `{!Platform, !Kernel W, !Fuel} (o : stop -> Prop) (Hfuel : o OutOfFuel)
  (J : W -> Prop) `{!Neutral J}.

Abbreviation any := (fun _ => True).

Lemma read_until_error_stable n fd : stable o J (read_until_error n fd).
Proof. induction n as [|n IH]; cbn [read_until_error]; stable. Qed.

Lemma kevent_until_empty_stable n kq : stable o J (kevent_until_empty n kq).
Proof. induction n as [|n IH]; cbn [kevent_until_empty]; stable. Qed.

Lemma trigger_framed kq : framed o any J (kqueue_event_trigger kq).
Proof. unfold kqueue_event_trigger. stable. Qed.

Lemma terminate_framed : framed o any J kqueue_event_terminate.
Proof. unfold kqueue_event_terminate. stable. Qed.

Lemma clear_framed kq : framed o any J (kqueue_event_clear kq).
Proof.
  unfold kqueue_event_clear. stable;
    auto using framed_lift, read_until_error_stable, kevent_until_empty_stable.
Qed.

(** The assertion of [kqueue_event_init] holds whatever the system answers. *)
Lemma trigger_sets kq e w : J w ->
  wpg o (kqueue_event_trigger kq)
    (fun r s => J s.2 /\ (is_ok r = true -> is_triggered_ s.1 = true)) (e, w).
Proof.
  intros Hw. pose proof (trigger_framed kq (e, w) (conj I Hw)) as Hj.
  eapply wp_mono; [eapply wp_and; [exact Hj|]|intros r s [[_ ?] H']; split; [done|exact H']].
  unfold kqueue_event_trigger. wps. destruct (is_triggered_ e) eqn:Et; wps; [done|].
  destruct has_evfilt_user; wps.
  - destruct (kernel_step _ w) as [[l|ec] w']; by wps.
  - destruct (kernel_step _ w) as [[l|ec] w']; wps; [done|].
    destruct (_ && _); by wps.
Qed.

Lemma init_framed kevs t : framed o any J (kqueue_event_init kevs t).
Proof.
  unfold kqueue_event_init. apply framed_bind; [auto with stable|intros _].
  destruct has_evfilt_user; [by stable|].
  apply framed_bind_result; [auto with stable|intros p].
  apply framed_bind; [auto with stable|intros _]. destruct t; [|by stable].
  intros [e w] [_ Hw]. apply wp_bind. eapply wp_mono; [by apply trigger_sets|].
  intros r [e' w'] [Hw' Ht]; cbn in Hw', Ht. destruct r as [[]|ec].
  - wps. rewrite Ht by done. by wps.
  - apply wp_bind. eapply wp_mono; [by apply terminate_framed|]. intros r s Hs. by wps.
Qed.
End Event.

#[export] Hint Resolve read_until_error_stable kevent_until_empty_stable trigger_framed
  terminate_framed clear_framed init_framed : stable.

(** ** The event counter *)

(** The counter of an eventfd stays below the value that marks an overflow. *)
Definition counted (c : EventFDCtx) : Prop := 0 <= counter_ c <= EventfdSpec.max_count.

Section Eventfd.
Context {W : Type} `{!Platform, !Kernel W, !Fuel} (o : stop -> Prop) (Hfuel : o OutOfFuel)
  (J : W -> Prop) `{!Neutral J}.

Lemma eventfd_write_framed kq v : framed o counted J (eventfd_ctx_write kq v).
Proof.
  intros [c w] [Hc Hw]. cbn in Hc, Hw. unfold eventfd_ctx_write. destruct (v =? UINT64_MAX); [by wps|]. wps.
  unfold checked. destruct (fits_u64 _) eqn:Ef; [|by wps].
  destruct (Z.ltb_spec (UINT64_MAX - 1) (counter_ c + v)) as [|Hle]; [by wps|]. wps.
  apply andb_true_iff in Ef as [Hz _]. apply Z.leb_le in Hz.
  eapply wp_mono; [by apply (trigger_framed o J kq)|]. intros r [e w'] [_ Hw'].
  destruct r; wps; (split; [|done]); unfold counted, EventfdSpec.max_count, UINT64_MAX in *;
    fields; lia.
Qed.

Lemma eventfd_read_framed kq : framed o counted J (eventfd_ctx_read kq).
Proof.
  intros [c w] [Hc Hw]. cbn in Hc, Hw. unfold eventfd_ctx_read, kqueue_event_is_triggered. wps.
  destruct (Z.eqb_spec (counter_ c) 0) as [|Hne]; [by wps|]. wps.
  assert (forall c', counter_ c' = counter_ c -> counted (c' <| counter_ :=
    if has (flags_ c) EVENTFD_CTX_FLAG_SEMAPHORE then counter_ c - 1 else 0 |>)) as Hc'.
  { intros c' _. unfold counted, EventfdSpec.max_count in *. fields. case_match; lia. }
  destruct (_ && _); wps; [|by split; [apply Hc'|]].
  eapply wp_mono; [by apply (clear_framed o Hfuel J kq)|]. intros r [e w'] [_ Hw']. wps.
  split; [by apply Hc'|done].
Qed.

Lemma eventfd_init_framed kq n flags : 0 <= n < 2 ^ 32 ->
  Z.land flags (Z.lnot EVENTFD_CTX_FLAG_SEMAPHORE) = 0 ->
  forall s, J s.2 -> wpg o (eventfd_ctx_init kq n flags) (fun _ s' => counted s'.1 /\ J s'.2) s.
Proof.
  intros Hn Hf [c w] Hw. unfold eventfd_ctx_init. rewrite Hf.
  apply wp_bind, wp_assert, wp_bind, wp_put.
  match goal with |- wpg _ ?m _ (?c1, _) =>
    assert (counted c1) as Hc by (unfold counted, EventfdSpec.max_count; cbn; lia);
    enough (framed o counted J m) as Hm by by apply Hm
  end.
  apply framed_bind_result; [apply framed_zoom; auto with stable|]. intros kevs.
  apply framed_bind; [auto with stable|]. by stable.
Qed.

Lemma eventfd_terminate_framed : framed o counted J eventfd_ctx_terminate.
Proof. unfold eventfd_ctx_terminate. stable. Qed.
End Eventfd.

(** ** Signals *)

Section Signalfd.
Context {W : Type} `{!Platform, !Kernel W, !Fuel} (o : stop -> Prop) (Hfuel : o OutOfFuel)
  (Hassert : o AssertFailed) (J : W -> Prop) `{!Neutral J}.

Abbreviation any := (fun _ : SignalFDCtx => True).

Lemma has_pending_framed : framed o any J signalfd_has_pending.
Proof. unfold signalfd_has_pending. stable. Qed.

Lemma trigger_manually_framed kq : framed o any J (signalfd_ctx_trigger_manually kq).
Proof. unfold signalfd_ctx_trigger_manually. stable. Qed.
#[local] Hint Resolve has_pending_framed trigger_manually_framed : stable.

Lemma grab_signal_framed n : framed o any J (grab_signal n).
Proof. induction n as [|n IH]; cbn [grab_signal]; stable. Qed.
#[local] Hint Resolve grab_signal_framed : stable.

Lemma clear_signal_framed kq b : framed o any J (signalfd_ctx_clear_signal kq b).
Proof. unfold signalfd_ctx_clear_signal. stable. Qed.
#[local] Hint Resolve clear_signal_framed : stable.

Lemma signalfd_read_framed kq d : framed o any J (signalfd_ctx_read kq d).
Proof. unfold signalfd_ctx_read, signalfd_ctx_read_impl, take_signal. stable. Qed.

Lemma signalfd_poll_framed kq b : framed o any J (signalfd_ctx_poll kq b).
Proof. unfold signalfd_ctx_poll. stable. Qed.

Lemma watch_signals_stable set n i kevs : stable o J (watch_signals set n i kevs).
Proof.
  revert i kevs. induction n as [|n IH]; intros i kevs; cbn [watch_signals]; unfold install_handler; stable.
Qed.
#[local] Hint Resolve watch_signals_stable : stable.

Lemma signalfd_init_framed kq set : framed o any J (signalfd_ctx_init kq set).
Proof. unfold signalfd_ctx_init. stable. Qed.

Lemma signalfd_terminate_framed : framed o any J signalfd_ctx_terminate.
Proof. unfold signalfd_ctx_terminate. stable. Qed.
End Signalfd.

(** ** Timers

    Whether a jump of the real-time clock concerns a timer depends on two fields, which
    only [timerfd_ctx_settime] changes. *)

Definition same_clock (t0 t : TimerFDCtx) : Prop :=
  clockid t = clockid t0 /\ is_abstime t = is_abstime t0.

Section Timerfd.
Context {W : Type} `{!Platform, !Kernel W, !Fuel} (o : stop -> Prop)
  (Hassert : o AssertFailed) (J : W -> Prop) `{!Neutral J} (t0 : TimerFDCtx).

Abbreviation kept_clock := (same_clock t0).

Lemma timespecadd_framed a b : framed o kept_clock J (timespecadd_safe a b).
Proof. unfold timespecadd_safe. stable. Qed.
Lemma timespecsub_framed a b : framed o kept_clock J (timespecsub_safe a b).
Proof. unfold timespecsub_safe. stable. Qed.
#[local] Hint Resolve timespecadd_framed timespecsub_framed : stable.

Lemma update_framed now : framed o kept_clock J (timerfd_ctx_update_to_current_time now).
Proof. unfold timerfd_ctx_update_to_current_time. stable. Qed.
#[local] Hint Resolve update_framed : stable.

Lemma round_up_millis_stable ms : stable o J (round_up_millis ms).
Proof. unfold round_up_millis. stable. Qed.
#[local] Hint Resolve round_up_millis_stable : stable.

Lemma timer_change_stable d : stable o J (timer_change d).
Proof. unfold timer_change. stable. Qed.
#[local] Hint Resolve timer_change_stable : stable.

Lemma register_event_framed kq new now : framed o kept_clock J (timerfd_ctx_register_event kq new now).
Proof.
  unfold timerfd_ctx_register_event. apply framed_bind; [by stable|intros _].
  apply framed_bind; [by stable|intros d]. cbv zeta. apply framed_bind; [by stable|intros k].
  apply framed_bind_result; [by stable|intros r].
  destruct r as [|k0 [|k1 r]]; [|by stable..]. intros s Hs. apply wp_bind, wp_assert.
  destruct k; exact Hassert.
Qed.
#[local] Hint Resolve register_event_framed : stable.

Lemma delete_timer_framed kq i : framed o kept_clock J (delete_timer kq i).
Proof. unfold delete_timer. stable. Qed.
#[local] Hint Resolve delete_timer_framed : stable.

Lemma rearm_framed kq now b : framed o kept_clock J (timerfd_ctx_rearm_kevent kq now b).
Proof. unfold timerfd_ctx_rearm_kevent. stable. Qed.
#[local] Hint Resolve rearm_framed : stable.

Lemma get_clocktime_framed c ty : framed o kept_clock J (timerfd_ctx_get_clocktime c ty).
Proof. unfold timerfd_ctx_get_clocktime. stable. Qed.
#[local] Hint Resolve get_clocktime_framed : stable.

Lemma monotonic_offset_stable : stable o J timerfd_ctx_get_monotonic_offset.
Proof. unfold timerfd_ctx_get_monotonic_offset. stable. Qed.
#[local] Hint Resolve monotonic_offset_stable : stable.

Lemma realtime_change_framed kq : framed o kept_clock J (timerfd_ctx_realtime_change kq).
Proof. unfold timerfd_ctx_realtime_change. stable. Qed.
#[local] Hint Resolve realtime_change_framed : stable.

Lemma timerfd_poll_framed kq b : framed o kept_clock J (timerfd_ctx_poll kq b).
Proof. unfold timerfd_ctx_poll. stable. Qed.

Lemma check_for_cancel_framed kq : framed o kept_clock J (timerfd_ctx_check_for_cancel kq).
Proof. unfold timerfd_ctx_check_for_cancel, timerfd_ctx_clear_force_cancel. stable. Qed.
#[local] Hint Resolve check_for_cancel_framed : stable.

Lemma gettime_impl_framed now : framed o kept_clock J (timerfd_ctx_gettime_impl now).
Proof. unfold timerfd_ctx_gettime_impl. stable. Qed.
#[local] Hint Resolve gettime_impl_framed : stable.

Lemma timerfd_gettime_framed : framed o kept_clock J timerfd_ctx_gettime.
Proof. unfold timerfd_ctx_gettime. stable. Qed.

Lemma read_events_framed l i : framed o kept_clock J (read_events l i).
Proof. revert i. induction l as [|k l IH]; intros i; cbn [read_events]; stable. Qed.
#[local] Hint Resolve read_events_framed : stable.

Lemma timerfd_read_framed kq : framed o kept_clock J (timerfd_ctx_read kq).
Proof. unfold timerfd_ctx_read. stable. Qed.
End Timerfd.

(** Run code that is framed, then the rest. *)
Lemma framed_use {C W A} (o : stop -> Prop) (I : C -> Prop) (J : W -> Prop) (m : M (C * W) A)
    (Q : A -> C * W -> Prop) s :
  framed o I J m -> I s.1 -> J s.2 -> (forall a s', I s'.1 -> J s'.2 -> Q a s') -> wpg o m Q s.
Proof. intros Hm Hi Hj HQ. eapply wp_mono; [by apply Hm|]. intros a s' []. auto. Qed.

#[export] Hint Resolve timespecadd_framed gettime_impl_framed get_clocktime_framed
  delete_timer_framed register_event_framed check_for_cancel_framed : stable.

Section Settime.
Context {W : Type} `{!Platform, !Kernel W, !Fuel} (o : stop -> Prop)
  (Hassert : o AssertFailed) (J : W -> Prop) `{!Neutral J}.

(** Unless it succeeds or reports a cancellation, [timerfd_ctx_settime] leaves both fields
    alone. *)
Lemma timerfd_settime_framed kq ab cos new want t0 w : J w ->
  wpg o (timerfd_ctx_settime kq ab cos new want)
    (fun r s => J s.2 /\ clockid s.1 = clockid t0 /\
       match r.1 with
       | Err ec => ec = ECANCELED \/ is_abstime s.1 = is_abstime t0
       | Ok _ => True
       end) (t0, w).
Proof.
  intros Hw. unfold timerfd_ctx_settime.
  destruct (negb (itimerspec_is_valid new)); [by wps; auto|]. apply wp_bind, wp_getf, wp_bind.
  apply (framed_use _ (same_clock t0) J); [by stable|done|done|].
  intros r s1 Hc1 Hw1. destruct r as [[cur old]|ec]; [|wps; destruct Hc1; auto].
  apply wp_bind. eapply wp_mono with (Q := fun ec s => J s.2 /\ clockid s.1 = clockid t0 /\
    (is_ok ec = false -> is_abstime s.1 = is_abstime t0)).
  - destruct (ts_is_zero (it_value new)).
    { apply wp_bind, (framed_use _ (same_clock t0) J); [by stable|done..|]. intros _ s2 [Hc2 _] Hw2.
      by wps. }
    apply wp_bind, wp_gets, wp_bind_result, (framed_use _ (same_clock t0) J); [by stable|done..|].
    intros [now|ec] s2 Hc2 Hw2; [|by destruct Hc2].
    apply wp_bind_result, (framed_use _ (same_clock t0) J); [by stable|done..|].
    intros [v|ec] s3 Hc3 Hw3; [|by destruct Hc3].
    apply wp_bind_result, (framed_use _ (same_clock t0) J); [by stable|done..|].
    intros [u|ec] s4 [Hc4 Ha4] Hw4; [|done]. wps. fields. by split_and!.
  - intros [u|ec] s2 (Hw2 & Hc2 & Ha2); [|wps; auto].
    apply wp_bind, wp_mod_self, wp_bind.
    set (t2 := (s2.1 <| nr_expirations := 0 |>)).
    assert (clockid t2 = clockid t0) as Hc2' by done.
    apply (framed_use _ (same_clock t2) J); [by stable|done|done|].
    intros b s3 [Hc3 _] Hw3. wps. split_and!; [done|congruence|]. destruct (b && _); cbn; auto.
Qed.

Lemma timerfd_init_framed clockid w t : is_Some (clockid_of_int clockid) -> J w ->
  wpg o (timerfd_ctx_init clockid) (fun _ s => J s.2 /\ is_abstime s.1 = false) (t, w).
Proof. intros [c Hc] Hw. unfold timerfd_ctx_init. rewrite Hc. by wps. Qed.
End Settime.
