(* ===== verification/EpollReport.v ===== *)
(** * What [epoll_wait] reports

    Between two calls no node has collected an event.  While [epoll_wait] looks at what
    the kernel reports, the nodes it has put into the answer are exactly those with an
    event, so no descriptor is reported twice, none is reported with nothing, and the
    answer fits the array of the caller. *)

From S2P Require Import Prelude Kernel KqueueEvent EpollNode EpollLaws EpollFeed EpollCtx EpollInv EpollOps EpollRegister EpollWait Frame.

#[local] Abbreviation any := (fun _ : stop => True).
#[local] Abbreviation always := (fun _ => True).

(** Nothing is said of a run that stops. *)
Lemma wp_const {S A} (m : M S A) (P : Prop) s : P -> wpg any m (fun _ _ => P) s.
Proof. intros HP. unfold wpg. by destruct (m s). Qed.

(** ** A node during a call *)

(** A descriptor of the kernel whose EPOLLRDHUP needs no translation. *)
Record plain `{Platform} (n : RegisteredFDsNode) : Prop := {
  p_type : node_type n <> NODE_TYPE_KQUEUE;
  p_rdhup : needs_rdhup_translation n = false;
  p_masked : masked n;
  p_within : within (revents n) (reportable n)
}.

(** [n] is [n0] later in the call. *)
Record since (n0 n : RegisteredFDsNode) : Prop := {
  sn_fd : fd n = fd n0;
  sn_data : data n = data n0;
  sn_events : events n = events n0
}.

(** The node has an event exactly when [b]; at least when [b]. *)
Definition holding `{Platform} (n0 : RegisteredFDsNode) (b : Prop) (n : RegisteredFDsNode) : Prop :=
  plain n /\ since n0 n /\ (revents n <> 0 <-> b).
Definition at_least `{Platform} (n0 : RegisteredFDsNode) (b : Prop) (n : RegisteredFDsNode) : Prop :=
  plain n /\ since n0 n /\ (b -> revents n <> 0).

Lemma since_trans n0 n1 n2 : since n0 n1 -> since n1 n2 -> since n0 n2.
Proof. intros [] []. split; congruence. Qed.

(** Fields nothing of this depends on. *)
Lemma holding_ext `{Platform} n0 b n n' : node_type n' = node_type n ->
  (fd n', data n', events n', revents n', needs_rdhup_translation n') =
  (fd n, data n, events n, revents n, needs_rdhup_translation n) ->
  holding n0 b n -> holding n0 b n'.
Proof.
  intros Et [= Ef Ed Ee Er En] ([Ht Hr Hm Hw] & [] & Hb). split; [|split].
  - split; unfold masked, reportable in *; congruence || (rewrite ?Et, ?Ee, ?Er; done).
  - split; congruence.
  - by rewrite Er.
Qed.

Lemma at_least_ext `{Platform} n0 b n n' : node_type n' = node_type n ->
  (fd n', data n', events n', revents n', needs_rdhup_translation n') =
  (fd n, data n, events n, revents n, needs_rdhup_translation n) ->
  at_least n0 b n -> at_least n0 b n'.
Proof.
  intros Et [= Ef Ed Ee Er En] ([Ht Hr Hm Hw] & [] & Hb). split; [|split].
  - split; unfold masked, reportable in *; congruence || (rewrite ?Et, ?Ee, ?Er; done).
  - split; congruence.
  - by rewrite Er.
Qed.

(** ** Code that keeps a property of its structure, whatever the rest of the world does *)

#[local] Abbreviation keeping I m := (framed any I always m).

#[local] Instance always_neutral {W} `{!Kernel W} : Neutral (W := W) always.
Proof. by intros A c w. Qed.

Section Keeping.
Context {C W : Type} `{!Kernel W} (I : C -> Prop).

Lemma keeping_any_call {A} (c : syscall A) : keeping I (call (W := C * W) c).
Proof. intros [x w] [Hi _]. apply wp_call_pair. by destruct (kernel_step c w). Qed.

Lemma keeping_lift {A} (m : M W A) : keeping I (lift (C := C) m).
Proof.
  intros [x w] [Hi _]. apply wp_lift. unfold wpg. by destruct (m w).
Qed.

Lemma keeping_assert b : keeping I (c_assert (S := C * W) b).
Proof. intros s Hs. by destruct b. Qed.

Lemma keeping_stop {A} why : keeping I (stop_with (S := C * W) (A := A) why).
Proof. by intros s Hs. Qed.
End Keeping.

Create HintDb keeping.
Ltac keeping_part := fail.
Ltac keeping_head m := lazymatch m with ?f _ => keeping_head f | _ => m end.
Ltac keeping_step :=
  lazymatch goal with
  | |- forall _, _ => intros
  | |- framed _ _ _ (bind _ _) => apply framed_bind
  | |- framed _ _ _ (bind_result _ _) => apply framed_bind_result
  | |- framed _ _ _ (when _ _) => apply framed_when
  | |- framed _ _ _ (ret _) => apply stable_ret
  | |- framed _ _ _ (call _) => apply keeping_any_call
  | |- framed _ _ _ (lift _) => apply keeping_lift
  | |- framed _ _ _ (c_assert _) => apply keeping_assert
  | |- framed _ _ _ (stop_with _) => apply keeping_stop
  | |- framed _ _ _ (getf _) => apply framed_getf
  | |- framed _ _ _ get => apply framed_get
  | |- framed _ _ _ (match ?x with _ => _ end) => destruct x
  | |- framed _ _ _ (mod_self _) => apply framed_mod; intros; solve [eauto 2 with keeping]
  | |- framed _ _ _ ?m =>
      first [ keeping_part | solve [eauto 2 with keeping] | progress cbv zeta beta
            | let h := keeping_head m in unfold h; cbv beta ]
  end.
Ltac keeping := repeat keeping_step.

#[export] Hint Extern 1 (holding _ _ _) =>
  (eapply holding_ext; [| |eassumption]; fields; reflexivity) : keeping.
#[export] Hint Extern 1 (at_least _ _ _) =>
  (eapply at_least_ext; [| |eassumption]; fields; reflexivity) : keeping.

(** ** The events of a node *)

(** poll(2) reports what it was asked for, or one of the flags that need no request. *)
Class PollAsked (W : Type) `{!Platform, !Kernel W} :=
  law_poll_asked w fd ev :
    match (kernel_step (sys_poll [{| pfd_fd := fd; pfd_events := ev; pfd_revents := 0 |}] 0) w).1 with
    | Ok (_, p :: _) => within (pfd_revents p) (Z.lor ev (Z.lor POLLNVAL (Z.lor POLLHUP POLLERR)))
    | _ => True
    end.

Section Node.
Context {W : Type} `{!Platform, !Kernel W, !Fuel, !Pollable W, !PollAsked W}.

Abbreviation N := (M (RegisteredFDsNode * W)).

Lemma add_self_trigger_keeping n0 b p kq :
  keeping (holding n0 b) (registered_fds_node_add_self_trigger (W := W) p kq).
Proof. keeping. Qed.

Lemma trigger_self_keeping n0 b p kq :
  keeping (holding n0 b) (registered_fds_node_trigger_self (W := W) p kq).
Proof. keeping. Qed.

Lemma trigger_self_at_least n0 b p kq :
  keeping (at_least n0 b) (registered_fds_node_trigger_self (W := W) p kq).
Proof. keeping. Qed.

Lemma needed_filters_keeping n0 b : keeping (holding n0 b) (needed_filters (W := W)).
Proof. keeping. Qed.

Lemma needed_filters_at_least n0 b : keeping (at_least n0 b) (needed_filters (W := W)).
Proof. keeping. Qed.

Lemma completion_keeping n0 b kq p :
  keeping (holding n0 b) (registered_fds_node_register_for_completion (W := W) kq p).
Proof. keeping. Qed.

(** *** An event *)

Lemma lor_nonzero x y : x <> 0 -> Z.lor x y <> 0.
Proof. intros Hx [E _]%Z.lor_eq_0_iff. done. Qed.

Lemma within_land_id x a : within x a -> Z.land x a = x.
Proof.
  intros Hw. apply Z.bits_inj'. intros i Hi. rewrite Z.land_spec.
  pose proof (proj1 (within_spec x a) Hw i Hi) as Hb. destruct (Z.testbit x i); [by rewrite Hb|done].
Qed.

(** What was reported stays reported. *)
Lemma reported_stays r revs a : within r a -> r <> 0 -> Z.land (Z.lor r revs) a <> 0.
Proof.
  intros Hw Hr. rewrite Z.land_lor_distr_l, (within_land_id r a Hw). by apply lor_nonzero.
Qed.

Lemma at_least_revents n0 b n r : at_least n0 b n -> within r (reportable n) -> (b -> r <> 0) ->
  at_least n0 b (n <| revents := r |>).
Proof. intros ([Ht Hr Hm Hw] & [] & Hb) Hwr Hbr. split_and!; [split|split|]; done. Qed.

Lemma translate_at_least n0 b : keeping (at_least n0 b) (maybe_translate_rdhup (W := W)).
Proof.
  intros [n w] [Hn _]. unfold maybe_translate_rdhup, get. wps.
  pose proof (p_rdhup _ (proj1 Hn)) as E. cbn in E. rewrite E, andb_false_r. by wps.
Qed.

Lemma ask_at_least n0 b : keeping (at_least n0 b) (ask_pollable (W := W)).
Proof.
  intros [n w] [Hn _]. unfold ask_pollable, get, is_type. wps.
  rewrite bool_decide_eq_false_2 by apply (proj1 Hn). by wps.
Qed.

Lemma collect_at_least n0 b revs : keeping (at_least n0 b)
  (mod_self (W := W) (fun n => n <| revents := Z.land (Z.lor (revents n) revs) (reportable n) |>)).
Proof.
  apply framed_mod. intros n Hn. apply at_least_revents; [done| |].
  - apply within_land_r, within_refl.
  - intros Hb. destruct Hn as (Hpl & Hs & Hr). apply reported_stays; [apply Hpl|by apply Hr].
Qed.

#[local] Hint Resolve translate_at_least ask_at_least collect_at_least : keeping.

Lemma feed_out_at_least n0 b kev revs : keeping (at_least n0 b) (feed_out (W := W) kev revs).
Proof.
  unfold feed_out. apply framed_bind; [apply collect_at_least|]. intros _. keeping.
Qed.

Lemma eof_events_at_least n0 b kev revs : keeping (at_least n0 b) (eof_events (W := W) kev revs).
Proof.
  intros [n w] [Hn _]. unfold eof_events, get. wps.
  destruct (node_type n) eqn:Et; wps; try done. repeat (case_goal; wps; try done). split; [|done].
  cbn. apply at_least_revents; [done| |].
  - apply within_lor; [apply (proj1 Hn)|]. unfold reportable. change POLLHUP with EPOLLHUP. bitwise.
  - intros Hb. by apply lor_nonzero, Hn.
Qed.

#[local] Hint Resolve feed_out_at_least eof_events_at_least : keeping.

Lemma feed_filter_at_least n0 b p kq kev : keeping (at_least n0 b) (feed_filter (W := W) p kq kev).
Proof. keeping. Qed.

Lemma feed_fifo_at_least n0 b p kq kev : keeping (at_least n0 b) (feed_fifo_self (W := W) p kq kev).
Proof. keeping. Qed.

(** A node that is only polled takes what poll(2) says. *)
Lemma settle_reports (P : Prop) n0 n revs b (w : W) : P -> plain n -> since n0 n ->
  within revs (reportable n) ->
  wpg any (self revents := revs ;; c_assert b ;; maybe_translate_rdhup)
    (fun _ s => (plain s.1 /\ since n0 s.1) /\ P) (n, w).
Proof.
  intros HP Hp Hs Hw. apply wp_bind, wp_mod_self, wp_bind, wp_assert. destruct b; [|done]. cbn [fst snd].
  assert (at_least n0 False (n <| revents := revs |>)) as Hn
    by (apply at_least_revents; [by split_and!|done..]).
  eapply wp_mono; [apply (translate_at_least n0 False); split; [exact Hn|done]|].
  by intros [] s [(? & ? & _) _].
Qed.

Lemma valid_reports n revs : within revs (Z.lor (events n) (Z.lor POLLNVAL (Z.lor POLLHUP POLLERR))) ->
  within (if has revs POLLNVAL then 0 else revs) (reportable n).
Proof.
  intros Hw. destruct (has revs POLLNVAL) eqn:E; [apply within_0|].
  assert (within revs (Z.lnot POLLNVAL)) as Hn.
  { apply negb_false_iff, Z.eqb_eq in E. apply within_spec. intros i Hi Hb.
    assert (Z.testbit (Z.land revs POLLNVAL) i = false) as Hf by (by rewrite E, Z.bits_0).
    rewrite Z.land_spec, Hb in Hf. cbn in Hf. rewrite Z.lnot_spec by done. by rewrite Hf. }
  unfold reportable. change EPOLLHUP with POLLHUP. change EPOLLERR with POLLERR.
  apply within_spec. intros i Hi Hb. pose proof (proj1 (within_spec _ _) Hw i Hi Hb) as H1.
  pose proof (proj1 (within_spec _ _) Hn i Hi Hb) as H2.
  rewrite Z.lnot_spec in H2 by done. rewrite !Z.lor_spec in *.
  by destruct (Z.testbit (events n) i), (Z.testbit POLLNVAL i).
Qed.

(** It collects nothing twice: it asserts so. *)
Lemma feed_poll_reports n0 kev n (w : W) : plain n -> since n0 n ->
  wpg any (feed_poll kev) (fun _ s => (plain s.1 /\ since n0 s.1) /\ revents n = 0) (n, w).
Proof.
  intros Hp Hs. unfold feed_poll, get. apply wp_bind, wp_gets, wp_bind, wp_assert. cbn [fst].
  destruct (Z.eqb_spec (revents n) 0) as [E|E]; [|done].
  apply wp_bind. eapply (wp_mono _ _ (fun _ s => s.1 = n /\ True)).
  { assert (keeping (fun m => m = n) (if has_evfilt_user then c_assert (kev_filter kev =? EVFILT_USER)
      else lift (W := W) (read_until_error fuel (node_self_pipe n).1))) as Hk by keeping.
    by apply (Hk (n, w)). }
  intros [] [n1 w1] [E1 _]. cbn in E1. subst n1. unfold poll1. cbv zeta.
  apply wp_bind, wp_bind, wp_call_pair. pose proof (law_poll_asked w1 (fd n) (events n)) as Hl.
  destruct (kernel_step _ w1) as [r w2]. cbn [fst] in Hl.
  destruct r as [[k [|p l]]|ec]; apply wp_ret, settle_reports; try done;
    try (by apply valid_reports); change (within EPOLLERR (reportable n)); unfold reportable; bitwise.
Qed.

Lemma feed_event_reports_more n0 b p kq kev n (w : W) : holding n0 b n ->
  wpg any (registered_fds_node_feed_event p kq kev)
    (fun _ s => plain s.1 /\ since n0 s.1 /\ (b -> revents s.1 <> 0)) (n, w).
Proof.
  intros (Hp & Hs & Hb). unfold registered_fds_node_feed_event, get, is_type. wps.
  case_bool_decide as Et.
  - eapply wp_mono; [by apply feed_poll_reports|]. intros _ s [[? ?] E].
    split_and!; [done..|]. by intros []%Hb.
  - assert (at_least n0 b n) as Hn by (split_and!; try done; apply Hb).
    assert (forall m : N unit, keeping (at_least n0 b) m ->
      wpg any m (fun _ s => plain s.1 /\ since n0 s.1 /\ (b -> revents s.1 <> 0)) (n, w)) as Huse.
    { intros m Hm. eapply wp_mono; [by apply (Hm (n, w))|]. by intros _ s [? _]. }
    destruct (_ && _); apply Huse; [apply feed_fifo_at_least|apply feed_filter_at_least].
Qed.
End Node.

(** ** The instance during a call *)

(** The nodes of [c] with an event are those at [ps]; in [c0] they were registered the same. *)
Definition batch `{Platform} (c0 : EpollFDCtx) (ps : list Z) (c : EpollFDCtx) : Prop :=
  nodes c !! 0 = None /\ Z.of_nat (size (nodes c)) <= registered_fds_size c /\
  forall p n, nodes c !! p = Some n -> exists n0, nodes c0 !! p = Some n0 /\ holding n0 (p ∈ ps) n.

Lemma batch_ext `{Platform} c0 ps c c' : nodes c' = nodes c ->
  registered_fds_size c' = registered_fds_size c -> batch c0 ps c -> batch c0 ps c'.
Proof. intros En Es. unfold batch. by rewrite En, Es. Qed.

Lemma batch_insert `{Platform} c0 ps ps' p n n' c : batch c0 ps c -> nodes c !! p = Some n ->
  (forall n0, nodes c0 !! p = Some n0 -> holding n0 (p ∈ ps) n -> holding n0 (p ∈ ps') n') ->
  (forall q, q <> p -> q ∈ ps <-> q ∈ ps') -> batch c0 ps' (c <| nodes := <[p := n']> (nodes c) |>).
Proof.
  intros (Hz & Hs & Hb) Hp Hn Hps. unfold batch. fields. split_and!.
  - destruct (decide (p = 0)) as [->|]; [congruence|by rewrite lookup_insert_ne].
  - by rewrite map_size_insert_Some.
  - intros q m. rewrite lookup_insert. case_decide as E.
    + subst q. intros [= <-]. destruct (Hb p n Hp) as (n0 & H0 & Hh). eauto.
    + intros Hm. destruct (Hb q m Hm) as (n0 & H0 & Hh). exists n0. split; [done|].
      destruct Hh as (? & ? & Hr). split_and!; [done..|]. rewrite Hr. by apply Hps.
Qed.

#[export] Hint Extern 1 (batch _ _ _) =>
  (eapply batch_ext; [| |eassumption]; fields; reflexivity) : keeping.

Section Instance.
Context {W : Type} `{!Platform, !Kernel W, !Fuel, !Pollable W} (c0 : EpollFDCtx) (ps : list Z).

Abbreviation E := (M (EpollFDCtx * W)).
Abbreviation still m := (keeping (batch c0 ps) m).

Lemma still_on_node {A} p (m : M (RegisteredFDsNode * W) A) :
  (forall n0, nodes c0 !! p = Some n0 -> keeping (holding n0 (p ∈ ps)) m) -> still (on_node p m).
Proof.
  intros Hm [c w] [Hb _]. unfold wpg, on_node. cbn [fst snd].
  destruct (nodes c !! p) as [n|] eqn:En; [|done].
  destruct (proj2 (proj2 Hb) p n En) as (n0 & Hn0 & Hh).
  pose proof (Hm n0 Hn0 (n, w) (conj Hh I)) as Hw. unfold wpg in Hw.
  destruct (m (n, w)) as [a [n' w']|]; [|done]. split; [|done]. cbn.
  apply (batch_insert c0 ps ps p n); [done..| |done].
  intros n1 Hn1 _. replace n1 with n0 by congruence. apply Hw.
Qed.

Ltac keeping_part ::= apply still_on_node.

Lemma remove_from_kq_still kq p : still (epollfd_ctx__remove_node_from_kq (W := W) kq p).
Proof. keeping. Qed.

#[local] Hint Resolve remove_from_kq_still : keeping.

Lemma check_receipts_still kq p f l : forall i, still (check_receipts (W := W) kq p f i l).
Proof. induction l as [|k l IH]; intros i; cbn; keeping. Qed.

#[local] Hint Resolve check_receipts_still : keeping.

(** The masked events of a descriptor that is not a socket have none of the two flags. *)
Lemma masked_events n : known_rdhup -> masked n -> node_type n <> NODE_TYPE_SOCKET ->
  u16 (Z.ldiff (Z.ldiff (events n) EPOLLRDHUP) EPOLLPRI) = events n.
Proof.
  intros Hr Hm Ht. specialize (Hm Ht). change (Z.lor EPOLLIN EPOLLOUT) with 5 in Hm.
  assert (forall a, Z.land 5 a = 0 -> within (events n) (Z.lnot a)) as Hoff.
  { intros a Ha. apply within_spec. intros i Hi Hb.
    pose proof (proj1 (within_spec _ _) Hm i Hi Hb) as H5.
    assert (Z.testbit (Z.land 5 a) i = false) as Hf by (by rewrite Ha, Z.bits_0).
    rewrite Z.land_spec, H5 in Hf. rewrite Z.lnot_spec by done. by destruct (Z.testbit a i). }
  assert (within (events n) 0xFFFF) as H16.
  { apply within_spec. intros i Hi Hb. pose proof (proj1 (within_spec _ _) Hm i Hi Hb) as H5.
    by apply (proj1 (within_spec 5 0xFFFF) eq_refl). }
  unfold u16. rewrite !Z.ldiff_land, !(within_land_id (events n)); try done; apply Hoff; [done|].
  unfold EPOLLRDHUP. by destruct Hr as [-> | ->].
Qed.

Lemma read_still {A} p (k : RegisteredFDsNode -> E A) :
  (forall n, (exists n0, nodes c0 !! p = Some n0 /\ holding n0 (p ∈ ps) n) -> still (k n)) ->
  still (bind (the_node p) k).
Proof.
  intros Hk [c w] [Hb _]. apply wp_bind. destruct (nodes c !! p) as [n|] eqn:En.
  - apply (wp_the_node _ p c w n); [done|]. apply Hk; [by apply (proj2 (proj2 Hb))|done].
  - unfold wpg, the_node, on_node. cbn. by rewrite En.
Qed.

(** A node that is marked as only polled has had no other events asked for. *)
Lemma holding_polled n0 b n : within (events n) (Z.lor EPOLLIN EPOLLOUT) -> holding n0 b n ->
  holding n0 b (n <| has_evfilt_read := false |> <| has_evfilt_write := false |>
    <| has_evfilt_except_ := false |> <| node_type := NODE_TYPE_POLL |>).
Proof.
  intros He ([Ht Hr Hm Hw] & [] & Hb). split_and!; [split|split|]; try done. by intros _.
Qed.

Lemma poll_only_still kq p : still (register_poll_only (W := W) kq p).
Proof.
  unfold register_poll_only. apply read_still. intros n (n0 & Hn0 & Hh).
  destruct (Z.eqb_spec (Z.ldiff (events n) (Z.lor EPOLLIN EPOLLOUT)) 0) as [E|E].
  2: { intros s Hs. by apply wp_bind, wp_assert. }
  keeping. apply framed_mod. intros m Hm. apply holding_polled; [|done].
  replace (events m) with (events n); [done|]. destruct Hh as (_ & [] & _), Hm as (_ & [] & _). congruence.
Qed.

#[local] Hint Resolve poll_only_still : keeping.

Lemma register_filters_still kq p : still (register_filters (W := W) kq p).
Proof. keeping. Qed.

#[local] Hint Resolve register_filters_still : keeping.

Lemma register_events_still kq p : known_rdhup -> still (epollfd_ctx__register_events (W := W) kq p).
Proof.
  intros Hr [c w] [Hb _]. unfold epollfd_ctx__register_events. apply wp_bind.
  destruct (nodes c !! p) as [n|] eqn:En.
  2: { unfold wpg, the_node, on_node. cbn. by rewrite En. }
  apply (wp_the_node _ p c w n); [done|].
  assert (forall s, batch c0 ps s.1 /\ True -> wpg any (c_assert (0 <=? fd n) ;;
    if is_type NODE_TYPE_POLL n then register_poll_only kq p
    else when (is_registered n) (epollfd_ctx__remove_node_from_kq kq p) ;; register_filters kq p)
    (fun _ s => batch c0 ps s.1 /\ True) s) as Hrest.
  { change (still (c_assert (0 <=? fd n) ;;
      if is_type NODE_TYPE_POLL n then register_poll_only kq p
      else when (is_registered n) (epollfd_ctx__remove_node_from_kq kq p) ;; register_filters kq p)).
    keeping. }
  apply wp_bind, wp_when. unfold is_type at 1. case_bool_decide as Et; cbn [negb]; [by apply Hrest|].
  apply (wp_on_node _ p _ c w n); [done|]. apply wp_mod_self, Hrest. cbn [fst snd].
  split; [|done]. apply (batch_insert c0 ps ps p n); [done..| |done]. intros n0 _ Hh.
  rewrite masked_events; [by destruct n|done|apply Hh|done].
Qed.

#[local] Hint Resolve register_events_still : keeping.

Lemma update_filters_still kq p old : known_rdhup -> still (update_filters (W := W) kq p old).
Proof. intros Hr. keeping. Qed.

Lemma remove_node_still kq p : still (epollfd_ctx_remove_node (W := W) kq p).
Proof.
  unfold epollfd_ctx_remove_node. apply framed_bind; [keeping|]. intros _ [c w] [Hb _].
  apply wp_bind. destruct (nodes c !! p) as [n|] eqn:En.
  2: { unfold wpg, the_node, on_node. cbn. by rewrite En. }
  apply (wp_the_node _ p c w n); [done|].
  apply wp_bind, wp_mod_self, wp_bind, wp_getf, wp_bind, wp_assert. fields. case_match; [|done].
  apply wp_bind, wp_mod_self. unfold destroy_node. apply wp_bind.
  apply (wp_the_node _ p _ _ n); [done|]. apply wp_bind, wp_lift. fields.
  eapply wp_mono; [by apply (wp_const _ True)|]. intros _ w' _. apply wp_mod_self. split; [|done].
  destruct Hb as (Hz & Hs & Hb). split; [|split]; fields.
  - destruct (decide (p = 0)) as [->|]; [apply lookup_delete_eq|by rewrite lookup_delete_ne].
  - rewrite map_size_delete_Some by eauto. cbn in Hs. b2p. lia.
  - intros q m [_ Hm]%lookup_delete_Some. by apply Hb.
Qed.

#[local] Hint Resolve remove_node_still update_filters_still : keeping.

Lemma dispatch_still kq l : still (dispatch_polled (W := W) kq l).
Proof. induction l as [|[p f] l IH]; cbn; keeping. Qed.

Lemma poll_entries_still l : still (poll_entries (W := W) l).
Proof. induction l as [|p l IH]; cbn; keeping. Qed.

#[local] Hint Resolve dispatch_still poll_entries_still : keeping.

Lemma make_kevs_still cnt : still (epollfd_ctx_make_kevs_space (W := W) cnt).
Proof. keeping. Qed.

Lemma make_pfds_still : still (epollfd_ctx_make_pfds_space (W := W)).
Proof. keeping. Qed.

Lemma fill_pollfds_still kq : still (epollfd_ctx_fill_pollfds (W := W) kq).
Proof. keeping. Qed.

Lemma completion_still kq p :
  still (on_node p (registered_fds_node_register_for_completion (W := W) kq p)).
Proof. keeping. Qed.

End Instance.

(** ** A batch of kernel events *)

Section Batch.
Context {W : Type} `{!Platform, !Kernel W, !Fuel, !Pollable W, !PollAsked W} (Hrd : known_rdhup) (c0 : EpollFDCtx).

Lemma keeping_use {C A} (I : C -> Prop) (m : M (C * W) A) (Q : A -> C * W -> Prop) c w :
  keeping I m -> I c -> (forall a c' w', I c' -> Q a (c', w')) -> wpg any m Q (c, w).
Proof.
  intros Hm Hi HQ. eapply wp_mono; [by apply (Hm (c, w))|]. intros a [c' w'] [Hs _]. by apply HQ.
Qed.

Lemma at_node {A} p (k : RegisteredFDsNode -> M (EpollFDCtx * W) A) Q c w ps : batch c0 ps c ->
  (forall n n0, nodes c !! p = Some n -> nodes c0 !! p = Some n0 -> holding n0 (p ∈ ps) n ->
     wpg any (k n) Q (c, w)) ->
  wpg any (bind (the_node p) k) Q (c, w).
Proof.
  intros Hb Hk. apply wp_bind. destruct (nodes c !! p) as [n|] eqn:En.
  - apply (wp_the_node _ p c w n); [done|]. destruct (proj2 (proj2 Hb) p n En) as (n0 & ? & ?). by eapply Hk.
  - unfold wpg, the_node, on_node. cbn. by rewrite En.
Qed.

(** Feeding an event to a node adds the node to the answer, unless it is in it already or has
    nothing to report. *)
Lemma feed_batch p kq kev c w ps (Q : unit -> EpollFDCtx * W -> Prop) : batch c0 ps c ->
  (forall ps' c' w', batch c0 ps' c' -> (ps' = ps) \/ (p ∉ ps) /\ ps' = ps ++ [p] -> Q tt (c', w')) ->
  wpg any (on_node p (registered_fds_node_feed_event p kq kev)) Q (c, w).
Proof.
  intros Hb HQ. destruct (nodes c !! p) as [n|] eqn:En.
  2: { unfold wpg, on_node. cbn. by rewrite En. }
  destruct (proj2 (proj2 Hb) p n En) as (n0 & Hn0 & Hh).
  apply (wp_on_node _ p _ c w n); [done|].
  eapply wp_mono; [by apply (feed_event_reports_more n0 (p ∈ ps))|].
  intros [] [n' w'] (Hp & Hs & Hst). cbn [fst snd] in *.
  assert (forall ps', (revents n' <> 0 <-> p ∈ ps') -> (forall q, q <> p -> q ∈ ps <-> q ∈ ps') ->
    batch c0 ps' (c <| nodes := <[p := n']> (nodes c) |>)) as Hset.
  { intros ps' Hr Hq. apply (batch_insert c0 ps ps' p n); [done..| |done].
    intros n1 Hn1 _. replace n1 with n0 by congruence. by split_and!. }
  destruct (decide (p ∈ ps)) as [Hin|Hin].
  - apply (HQ ps); [|by left]. apply Hset; [|done]. split; [done|]. intros _. by apply Hst.
  - destruct (decide (revents n' = 0)) as [E|E].
    + apply (HQ ps); [|by left]. by apply Hset.
    + apply (HQ (ps ++ [p])); [|by right]. apply Hset; [set_solver|]. set_solver.
Qed.

Lemma process_event_batch kq kev c w ps (Q : option Z -> EpollFDCtx * W -> Prop) : batch c0 ps c ->
  (forall c' w', batch c0 ps c' -> Q None (c', w')) ->
  (forall p c' w', p ∉ ps -> batch c0 (ps ++ [p]) c' -> Q (Some p) (c', w')) ->
  wpg any (process_event kq kev) Q (c, w).
Proof.
  intros Hb HN HS. unfold process_event. set (p := kev_udata kev).
  destruct (p =? 0); [apply wp_bind, wp_assert; case_goal; [by apply HN|done]|].
  apply (at_node _ _ _ _ _ ps); [done|]. intros old n0 Hold Hn0 Hh.
  apply wp_bind, (keeping_use (batch c0 ps)); [|done|].
  { apply still_on_node. intros. apply needed_filters_keeping. }
  intros f c1 w1 Hb1. apply wp_bind, (feed_batch _ _ _ _ _ ps); [done|].
  intros ps' c2 w2 Hb2 Hps. apply wp_bind, (keeping_use (batch c0 ps')); [by apply update_filters_still|done|].
  intros u c3 w3 Hb3. apply (at_node _ _ _ _ _ ps'); [done|]. intros n m0 Hn Hm0 Hh'. apply wp_ret.
  destruct Hh as (_ & _ & Hr), Hh' as (_ & _ & Hr').
  destruct (Z.eqb_spec (revents n) 0) as [E|E], (Z.eqb_spec (revents old) 0) as [E'|E']; cbn [negb andb];
    destruct Hps as [->|[Hin ->]]; try (by apply HN); try (by apply HS); exfalso; set_solver.
Qed.

Lemma process_events_batch kq l : forall c w ps (Q : list Z -> EpollFDCtx * W -> Prop), batch c0 ps c ->
  NoDup ps ->
  (forall r c' w', batch c0 (ps ++ r) c' -> NoDup (ps ++ r) -> (length r <= length l)%nat -> Q r (c', w')) ->
  wpg any (process_events kq l) Q (c, w).
Proof.
  induction l as [|kev l IH]; intros c w ps Q Hb Hnd HQ; cbn [process_events].
  { apply wp_ret, HQ; rewrite ?app_nil_r; done. }
  apply wp_bind, (process_event_batch _ _ _ _ ps); [done|..].
  - intros c1 w1 Hb1. apply wp_bind, (IH _ _ ps); [done..|]. intros r c2 w2 Hb2 Hnd2 Hl.
    apply wp_ret, HQ; [done..|]. cbn. lia.
  - intros p c1 w1 Hp Hb1. apply wp_bind, (IH _ _ (ps ++ [p])); [done| |].
    { apply NoDup_app. split_and!; [done| |apply NoDup_singleton]. set_solver. }
    intros r c2 w2 Hb2 Hnd2 Hl. rewrite <- app_assoc in Hb2, Hnd2. apply wp_ret, HQ; [done..|]. cbn. lia.
Qed.
End Batch.

(** ** The completion kqueue

    Filters of edge-triggered nodes that have not reported are asked again, in a kqueue of
    their own; its events belong to nodes that are in the answer already. *)

Section Completion.
Context {W : Type} `{EpollLaws W, !Pollable W, !PollableLaws W} (k : Z) (ps : list Z).

Definition mine (u : Z) : Prop := u = 0 \/ u ∈ ps.
Definition only_mine (w : W) : Prop := forall key u, knote w k key = Some u -> mine u.

(** [m] adds no filter of another node to the kqueue. *)
Definition loyal {C A} (m : M (C * W) A) : Prop := stable any (fun s => only_mine s.2) m.

Lemma only_mine_calm w w' : only_mine w -> calm w w' -> only_mine w'.
Proof. intros Hw [Hc _] key u Hu. by eapply Hw, Hc. Qed.

Lemma loyal_bind {C A B} (m : M (C * W) A) (f : A -> M (C * W) B) :
  loyal m -> (forall a, loyal (f a)) -> loyal (bind m f).
Proof. apply stable_bind. Qed.

Lemma loyal_quiet {C A} (c : syscall A) : quiet c = true -> loyal (call (W := C * W) c).
Proof.
  intros Hc [x w] Hw. apply wp_call_pair. pose proof (calm_step c w Hc) as Hs.
  destruct (kernel_step c w). by eapply only_mine_calm.
Qed.

Lemma loyal_kevent {C} kq changes n t : (forall e, e ∈ changes -> mine (kev_udata e)) ->
  loyal (call (W := C * W) (sys_kevent kq changes n t)).
Proof.
  intros Hm [x w] Hw. apply wp_call_pair. pose proof (law_changes w kq changes n t k) as Hs.
  destruct (kernel_step _ w) as [r w']. intros key u Hu. cbn in Hu, Hs.
  destruct (Hs key u Hu) as [?|(_ & e & He & _ & _ & <-)]; [by eapply Hw|by apply Hm].
Qed.

Lemma loyal_read n fd : loyal (C := RegisteredFDsNode) (lift (read_until_error n fd)).
Proof.
  intros [x w] Hw. apply wp_lift. unfold wpg. destruct (read_until_error n fd w) as [[] w'|] eqn:Er; [|done].
  eapply only_mine_calm; [exact Hw|by eapply read_until_error_calm].
Qed.

Lemma loyal_poll d fd r : loyal (C := RegisteredFDsNode) (lift (pollable_desc_poll d fd r)).
Proof.
  intros [x w] Hw. apply wp_lift, wp_pollable_poll. intros a w' Hc. by eapply only_mine_calm.
Qed.

Ltac loyal_step :=
  lazymatch goal with
  | |- forall _, _ => intros
  | |- loyal (bind _ _) => apply loyal_bind
  | |- loyal (call (sys_kevent _ _ _ _)) =>
      apply loyal_kevent; solve [intros ? ->%list_elem_of_singleton; cbn; auto | intros ? []%not_elem_of_nil]
  | |- loyal (call _) => apply loyal_quiet; reflexivity
  | |- loyal (lift (read_until_error _ _)) => apply loyal_read
  | |- loyal (lift (pollable_desc_poll _ _ _)) => apply loyal_poll
  | |- loyal (match ?x with _ => _ end) => destruct x
  | |- loyal (ret _) => by intros ? ?
  | |- loyal (stop_with _) => by intros ? ?
  | |- loyal (mod_self _) => by intros ? ?
  | |- loyal (getf _) => by intros ? ?
  | |- loyal get => by intros ? ?
  | |- loyal ?m =>
      first [ progress cbv zeta beta | let h := keeping_head m in unfold h; cbv beta ]
  end.
Ltac loyal := repeat loyal_step.

Lemma feed_loyal p kq kev : p ∈ ps -> loyal (registered_fds_node_feed_event (W := W) p kq kev).
Proof. intros Hp. assert (mine p) as Hm by (by right). assert (mine 0) as Hz by (by left). loyal. Qed.
End Completion.

(** ** The answer *)

Section Answer.
Context {W : Type} `{EpollLaws W, !Pollable W, !PollableLaws W, !PollAsked W} (Hrd : known_rdhup) (c0 : EpollFDCtx).

(** The completion kqueue [k], if there is one, has filters of nodes of the answer only. *)
Definition answered (k : Z) (ps : list Z) (w : W) : Prop := k < 0 \/ only_mine k ps w.

Lemma only_mine_on_node {A} k ps p (m : M (RegisteredFDsNode * W) A) :
  loyal k ps m -> loyal k ps (on_node p m).
Proof.
  intros Hm [c w] Hw. unfold wpg, on_node. cbn [fst snd]. destruct (nodes c !! p) as [n|]; [|done].
  pose proof (Hm (n, w) Hw) as Hs. unfold wpg in Hs. by destruct (m (n, w)) as [a [n' w']|].
Qed.

Lemma feed_answered k kq ps kev p c w (Q : unit -> EpollFDCtx * W -> Prop) :
  batch c0 ps c -> only_mine k ps w -> p ∈ ps ->
  (forall c' w', batch c0 ps c' -> only_mine k ps w' -> Q tt (c', w')) ->
  wpg any (on_node p (registered_fds_node_feed_event p kq kev)) Q (c, w).
Proof.
  intros Hb Hw Hp HQ. eapply wp_mono.
  { apply wp_and; [|by apply (only_mine_on_node k ps p _ (feed_loyal k ps p kq kev Hp) (c, w))].
    apply (feed_batch Hrd c0 p kq kev c w ps); [done|]. intros ps' c' w' Hb' Hps.
    instantiate (1 := fun _ s => batch c0 ps s.1). by destruct Hps as [->|[? _]]. }
  intros [] [c' w'] [? ?]. by apply HQ.
Qed.

Lemma drain_answered k ps m : forall c w (Q : unit -> EpollFDCtx * W -> Prop),
  batch c0 ps c -> only_mine k ps w -> (forall c' w', batch c0 ps c' -> Q tt (c', w')) ->
  wpg any (drain_completion m k) Q (c, w).
Proof.
  induction m as [|m IH]; intros c w Q Hb Hw HQ; cbn [drain_completion]; [done|].
  apply wp_bind, wp_call_pair. set (t := Some _).
  pose proof (calm_step (sys_kevent k [] 32 t) w eq_refl) as Hc. pose proof (law_events w k 32 t) as Hev.
  destruct (kernel_step _ w) as [[l|ec] w1]; cbn [snd] in Hc; [|by apply wp_ret, HQ].
  pose proof (only_mine_calm k ps w w1 Hw Hc) as Hw1. destruct Hev as (_ & _ & Hev).
  destruct l as [|e l]; [by apply wp_ret, HQ|]. apply wp_bind.
  eapply (wp_mono _ _ (fun _ s => batch c0 ps s.1 /\ only_mine k ps s.2)).
  - apply (wp_iterM any); [|done]. intros e' [c2 w2] He' [Hb2 Hw2]. cbn [fst snd] in *.
    destruct (Hw _ _ (Hev e' He')) as [E|Hin].
    + rewrite E. unfold wpg, on_node. cbn [fst]. by rewrite (proj1 Hb2).
    + by apply (feed_answered k (-1) ps).
  - intros [] [c2 w2] [Hb2 Hw2]. by apply IH.
Qed.

Lemma complete_answered k ps c w (Q : unit -> EpollFDCtx * W -> Prop) :
  batch c0 ps c -> answered k ps w -> (forall c' w', batch c0 ps c' -> Q tt (c', w')) ->
  wpg any (registered_fds_node_complete k) Q (c, w).
Proof.
  intros Hb Hk HQ. unfold registered_fds_node_complete. destruct (Z.ltb_spec k 0); [by apply wp_ret, HQ|].
  destruct Hk as [?|Hk]; [lia|]. apply wp_bind, (drain_answered k ps); [done..|]. intros c1 w1 Hb1.
  apply (keeping_use (batch c0 ps)); [|done|by intros []; apply HQ]. keeping.
Qed.

Lemma completion_changes_mine p n e : e ∈ completion_changes p n -> kev_udata e = p.
Proof.
  unfold completion_changes. rewrite !elem_of_app.
  intros [Hk|[Hk|Hk]]; case_match; (by apply elem_of_nil in Hk) || by apply list_elem_of_singleton in Hk as ->.
Qed.

Lemma register_completion_answered k ps p c w (Q : Z -> EpollFDCtx * W -> Prop) :
  batch c0 ps c -> answered k ps w -> p ∈ ps ->
  (forall k' c' w', batch c0 ps c' -> answered k' ps w' -> Q k' (c', w')) ->
  wpg any (on_node p (registered_fds_node_register_for_completion k p)) Q (c, w).
Proof.
  intros Hb Hk Hp HQ. eapply wp_mono.
  { apply wp_and.
    - apply (keeping_use (batch c0 ps)); [apply completion_still|done|].
      intros a c' w' Hb'. by instantiate (1 := fun _ s => batch c0 ps s.1).
    - instantiate (1 := fun k' s => answered k' ps s.2).
      unfold wpg, on_node. cbn [fst snd]. destruct (nodes c !! p) as [n|]; [|done].
      assert (wpg any (registered_fds_node_register_for_completion k p)
        (fun k' s => answered k' ps s.2) (n, w)) as Hr; cycle 1.
      { unfold wpg in Hr. by destruct (registered_fds_node_register_for_completion k p (n, w)) as [a [n' w']|]. }
      unfold registered_fds_node_register_for_completion, get.
      apply wp_bind, wp_gets, wp_bind, wp_assert. cbn [fst]. case_goal; [|done].
      destruct (completion_changes p n) as [|e0 l0] eqn:El; [by apply wp_ret|]. rewrite <- El.
      apply wp_bind. eapply (wp_mono _ _ (fun k' s => s.1 = n /\ answered k' ps s.2)).
      + destruct (k <? 0); [|by apply wp_ret]. apply wp_bind, wp_call_pair.
        pose proof (law_new_kqueue w O_CLOEXEC) as Hn.
        destruct (kernel_step _ w) as [[k'|ec] w1]; apply wp_ret; (split; [done|]); [right|by left].
        intros key u Hu. destruct Hn as [_ Hn]. by rewrite Hn in Hu.
      + intros k' [n1 w1] [E1 Hk1]. cbn in E1. subst n1. apply wp_bind, wp_when. destruct (0 <=? k') eqn:Ek; [|by apply wp_ret].
        destruct Hk1 as [?|Hk1]; [b2p; cbn in *; lia|]. unfold call_. apply wp_bind.
        eapply wp_mono; [apply (loyal_kevent k' ps); [|exact Hk1]|].
        * intros e He. right. by rewrite (completion_changes_mine p n e He).
        * intros r s Hs. apply wp_ret, wp_ret. by right. }
  intros k' [c' w'] [? ?]. by apply HQ.
Qed.

Lemma register_completions_answered full ps qs : forall k c w (Q : Z -> EpollFDCtx * W -> Prop),
  batch c0 ps c -> answered k ps w -> (forall p, p ∈ qs -> p ∈ ps) ->
  (forall k' c' w', batch c0 ps c' -> answered k' ps w' -> Q k' (c', w')) ->
  wpg any (register_completions full k qs) Q (c, w).
Proof.
  induction qs as [|p qs IH]; intros k c w Q Hb Hk Hin HQ; cbn [register_completions].
  { by apply wp_ret, HQ. }
  apply (at_node c0 _ _ _ _ _ ps); [done|]. intros n n0 Hn Hn0 Hh. apply wp_bind.
  assert (forall k1 c1 w1, batch c0 ps c1 -> answered k1 ps w1 ->
    wpg any (register_completions full k1 qs) Q (c1, w1)) as Hrest.
  { intros k1 c1 w1 Hb1 Hk1. apply IH; [done..|set_solver|done]. }
  destruct (full || _); [|by apply wp_ret, Hrest].
  apply (register_completion_answered k ps); [done..|set_solver|]. auto.
Qed.

(** An event of the answer: it is not empty, carries what was given for the descriptor, and
    only flags that were asked for or need no request. *)
Definition reports (c : EpollFDCtx) (p : Z) (e : epoll_event) : Prop :=
  exists n, nodes c !! p = Some n /\ ev_data e = data n /\ ev_events e <> 0 /\
    within (ev_events e) (Z.lor (events n) (Z.lor EPOLLHUP EPOLLERR)).

Lemma collect_answer kq ps : forall c w (Q : list epoll_event -> EpollFDCtx * W -> Prop),
  batch c0 ps c -> NoDup ps ->
  (forall evs c' w', batch c0 [] c' -> Forall2 (reports c0) ps evs -> Q evs (c', w')) ->
  wpg any (collect_events kq ps) Q (c, w).
Proof.
  induction ps as [|p ps IH]; intros c w Q Hb Hnd HQ; cbn [collect_events].
  { by apply wp_ret, HQ. }
  apply NoDup_cons in Hnd as [Hp Hnd].
  apply (at_node c0 _ _ _ _ _ (p :: ps)); [done|]. intros n n0 Hn Hn0 (Hpl & Hs & Hr).
  apply wp_bind, (wp_on_node _ p _ c w n); [done|]. apply wp_mod_self. cbn [fst snd].
  set (c1 := c <| nodes := _ |>).
  assert (batch c0 ps c1) as Hb1.
  { apply (batch_insert c0 (p :: ps) ps p n); [done..| |].
    - intros m0 _ ([Ht Hrr Hm Hw] & [] & _). split_and!; [split|split|]; try done.
    - intros q Hq. rewrite elem_of_cons. naive_solver. }
  apply wp_bind. apply (keeping_use (batch c0 ps)); [|done|].
  { apply framed_when, remove_from_kq_still. }
  intros [] c2 w2 Hb2. apply wp_bind, IH; [done..|]. intros evs c3 w3 Hb3 Hevs.
  apply wp_ret, HQ; [done|]. constructor; [|done]. exists n0.
  split; [done|]. split; [apply Hs|]. split; [apply Hr; by left|].
  rewrite <- (sn_events _ _ Hs). apply Hpl.
Qed.

Lemma wait_again_answer kq cnt m : forall c w (Q : result (list epoll_event) -> EpollFDCtx * W -> Prop),
  batch c0 [] c ->
  (forall r c' w', batch c0 [] c' ->
     match r with
     | Ok evs => exists ps, NoDup ps /\ Forall2 (reports c0) ps evs /\ Z.of_nat (length ps) <= Z.max 0 cnt
     | Err _ => True
     end -> Q r (c', w')) ->
  wpg any (wait_again m kq cnt) Q (c, w).
Proof.
  induction m as [|m IH]; intros c w Q Hb HQ; cbn [wait_again]; [done|].
  apply wp_bind, wp_getf, wp_bind, wp_assert. case_goal; [|done].
  apply wp_bind_result, wp_call_pair. set (t := Some _). pose proof (law_events w kq cnt t) as Hev.
  destruct (kernel_step _ w) as [[l|ec] w1]; [|by apply HQ]. destruct Hev as (Hlen & _ & _).
  apply wp_bind, (process_events_batch Hrd c0 _ _ _ _ []); [done|constructor|]. cbn [app].
  intros ps c2 w2 Hb2 Hnd Hl. apply wp_bind, (register_completions_answered _ ps); [done|by left|done|].
  intros k c3 w3 Hb3 Hk. apply wp_bind, (complete_answered k ps); [done..|].
  intros c4 w4 Hb4. apply wp_bind, collect_answer; [done..|]. intros evs c5 w5 Hb5 Hevs.
  assert (wpg any (ret (Ok evs)) Q (c5, w5)) as Hdone.
  { apply wp_ret, HQ; [done|]. exists ps. split_and!; [done..|lia]. }
  destruct l; [done|]. destruct evs; [by apply IH|done].
Qed.
End Answer.

Section Wait.
Context {W : Type} `{EpollLaws W, !Pollable W, !PollableLaws W, !PollAsked W} (Hrd : known_rdhup).

Lemma batch_self c0 c : batch c0 [] c -> batch c [] c.
Proof.
  intros (Hz & Hs & Hb). split_and!; [done..|]. intros p n Hn. exists n. split; [done|].
  destruct (Hb p n Hn) as (n0 & _ & Hp & _ & Hr). by split_and!.
Qed.

Lemma batch_trans c0 c c' : batch c0 [] c -> batch c [] c' -> batch c0 [] c'.
Proof.
  intros (_ & _ & Hb) (Hz & Hs & Hb'). split_and!; [done..|]. intros p n Hn.
  destruct (Hb' p n Hn) as (n1 & Hn1 & Hp & Hsn & Hr). destruct (Hb p n1 Hn1) as (n0 & Hn0 & _ & Hsn1 & _).
  exists n0. split; [done|]. split; [done|]. split; [by eapply since_trans|done].
Qed.

Lemma reports_earlier c0 c p e : batch c0 [] c -> reports c p e -> reports c0 p e.
Proof.
  intros (_ & _ & Hb) (n & Hn & Hd & He & Hw). destruct (Hb p n Hn) as (n0 & Hn0 & _ & [] & _).
  exists n0. split_and!; [done|congruence|done|congruence].
Qed.

(** No more nodes are in the answer than there are. *)
Lemma answer_fits c ps evs : NoDup ps -> Forall2 (reports c) ps evs -> (length ps <= size (nodes c))%nat.
Proof.
  intros Hnd Hr. rewrite <- size_dom. unfold size, set_size. cbn.
  apply submseteq_length, NoDup_submseteq; [done|]. intros p Hp.
  apply elem_of_elements, elem_of_dom.
  assert (Forall (fun p => is_Some (nodes c !! p)) ps) as Hf.
  { eapply Forall2_Forall_l; [exact Hr|]. apply Forall_true. intros e q (n & Hn & _). eauto. }
  by eapply Forall_forall in Hf.
Qed.

Lemma wait_answer kq cnt c0 w : batch c0 [] c0 ->
  wpg any (epollfd_ctx_wait kq cnt) (fun r s => batch c0 [] s.1 /\
    match r with
    | Ok evs => exists ps, NoDup ps /\ Forall2 (reports c0) ps evs /\ Z.of_nat (length evs) <= cnt
    | Err _ => True
    end) (c0, w).
Proof.
  intros Hb0. unfold epollfd_ctx_wait. apply wp_bind, wp_assert. destruct (Z.leb_spec 1 cnt); [|done].
  apply wp_bind_result, (keeping_use (batch c0 [])); [apply make_pfds_still|done|].
  intros [u|ec] c1 w1 Hb1; [|done].
  apply wp_bind, (keeping_use (batch c0 [])); [apply fill_pollfds_still|done|]. intros req c2 w2 Hb2.
  apply wp_bind_result, wp_call_pair. destruct (kernel_step _ w2) as [[[n polled]|ec] w3]; [|done].
  destruct (n =? 0).
  { apply wp_ret. split; [done|]. exists []. split_and!; [constructor..|cbn; lia]. }
  apply wp_bind, wp_getf, wp_bind, (keeping_use (batch c0 [])); [apply dispatch_still|done|].
  intros [] c3 w4 Hb3. apply wp_bind, wp_getf. cbn [fst].
  destruct (kevs_wanted cnt (registered_fds_size c3)) as [cnt'|ec] eqn:Ek; [|by apply wp_ret].
  pose proof (batch_self c0 c3 Hb3) as Hb3'.
  apply wp_bind_result, (keeping_use (batch c3 [])); [apply make_kevs_still|done|].
  intros [[]|ec] c4 w5 Hb4; [|split; [by eapply batch_trans|done]].
  apply (wait_again_answer Hrd c3); [done|]. intros r c5 w6 Hb5 Hr. split; [by eapply batch_trans|].
  destruct r as [evs|ec]; [|done]. destruct Hr as (ps & Hnd & Hevs & Hlen). exists ps. split; [done|]. split.
  { eapply Forall2_impl; [exact Hevs|]. intros p e. by apply reports_earlier. }
  pose proof (answer_fits c3 ps evs Hnd Hevs) as Hfit. rewrite <- (Forall2_length _ _ _ Hevs).
  destruct Hb3 as (_ & Hsz & _). unfold kevs_wanted in Ek.
  destruct (Z.leb_spec (registered_fds_size c3) cnt); [lia|]. injection Ek as <-. lia.
Qed.

(** Between two calls no node has an event. *)
Definition idle (c : EpollFDCtx) : Prop := forall p n, nodes c !! p = Some n -> revents n = 0.

(** The registered descriptors belong to the kernel, EPOLLRDHUP has one value. *)
Definition all_plain (c : EpollFDCtx) : Prop := forall p n, nodes c !! p = Some n ->
  node_type n <> NODE_TYPE_KQUEUE /\ needs_rdhup_translation n = false.

Lemma nodes_counted st kq c (w : W) : inv st 0 kq c w -> Z.of_nat (size (nodes c)) <= registered_fds_size c.
Proof.
  intros Hi. pose proof (i_shape _ _ _ _ _ Hi) as Hs. rewrite (i_size _ _ _ Hs).
  apply Nat2Z.inj_le. rewrite <- size_dom. unfold size at 1, set_size. cbn.
  transitivity (length (map_to_list (registered_fds c)).*2).
  - apply submseteq_length, NoDup_submseteq; [apply NoDup_elements|].
    intros p Hp%elem_of_elements%elem_of_dom. destruct Hp as [n Hn].
    destruct (i_node _ _ _ Hs p n Hn) as [_ Hr]. apply list_elem_of_fmap. exists (fd n, p).
    split; [done|]. by apply elem_of_map_to_list.
  - by rewrite length_fmap, length_map_to_list.
Qed.

Lemma batch_start st kq c (w : W) : inv st 0 kq c w -> idle c -> all_plain c -> batch c [] c.
Proof.
  intros Hi Hidle Hpl. split_and!; [|by eapply nodes_counted|].
  - destruct (nodes c !! 0) as [n|] eqn:E; [|done].
    by destruct (i_node _ _ _ (i_shape _ _ _ _ _ Hi) 0 n E).
  - intros p n Hn. destruct (i_node _ _ _ (i_shape _ _ _ _ _ Hi) p n Hn) as [Hp0 _].
    destruct (i_stable _ _ _ (i_shape _ _ _ _ _ Hi) p n Hn Hp0) as (_ & Hm & _). destruct (Hpl p n Hn).
    exists n. split; [done|]. split; [|split].
    + split; [done..|]. rewrite (Hidle p n Hn). apply within_0.
    + done.
    + rewrite (Hidle p n Hn). set_solver.
Qed.

Lemma batch_end c c' : batch c [] c' -> idle c' /\ all_plain c'.
Proof.
  intros (_ & _ & Hb). split; intros p n Hn; destruct (Hb p n Hn) as (n0 & _ & [] & _ & Hr); [|done].
  destruct (decide (revents n = 0)) as [|Hne]; [done|]. apply Hr in Hne. by apply elem_of_nil in Hne.
Qed.
End Wait.

(** ** [epoll_ctl] collects nothing *)

Section Idle.
Context {W : Type} `{!Platform, !Kernel W, !Fuel, !Pollable W}.

Lemma idle_ext c c' : nodes c' = nodes c -> idle c -> idle c'.
Proof. intros E Hi p n. rewrite E. apply Hi. Qed.

Lemma idle_delete c p : idle c -> idle (c <| nodes := delete p (nodes c) |>).
Proof. intros Hi q n. fields. intros [_ Hn]%lookup_delete_Some. by apply (Hi q). Qed.

Lemma idle_insert c p n : idle c -> revents n = 0 -> idle (c <| nodes := <[p := n]> (nodes c) |>).
Proof. intros Hi Hn q m. fields. intros [[_ <-]|[_ Hm]]%lookup_insert_Some; [done|by apply (Hi q)]. Qed.

Lemma idle_on_node {A} p (m : M (RegisteredFDsNode * W) A) :
  keeping (fun n => revents n = 0) m -> keeping idle (on_node p m).
Proof.
  intros Hm [c w] [Hi _]. unfold wpg, on_node. cbn [fst snd].
  destruct (nodes c !! p) as [n|] eqn:En; [|done].
  pose proof (Hm (n, w) (conj (Hi p n En) I)) as Hs. unfold wpg in Hs.
  destruct (m (n, w)) as [a [n' w']|]; [|done]. destruct Hs. split; [|done]. by apply idle_insert.
Qed.

Ltac keeping_part ::= apply idle_on_node.
#[local] Hint Extern 1 (idle _) => (eapply idle_ext; [|eassumption]; fields; reflexivity) : keeping.
#[local] Hint Extern 1 (idle _) => (apply idle_delete; eassumption) : keeping.
#[local] Hint Extern 1 (revents _ = 0) => (fields; assumption) : keeping.

Lemma check_receipts_idle kq p f l : forall i, keeping idle (check_receipts (W := W) kq p f i l).
Proof. induction l as [|k l IH]; intros i; cbn; keeping. Qed.

#[local] Hint Resolve check_receipts_idle : keeping.

Lemma add_node_idle kq d pd ev mode : keeping idle (epollfd_ctx_add_node (W := W) kq d pd ev mode).
Proof.
  intros [c w] [Hi _]. unfold epollfd_ctx_add_node. apply wp_bind, wp_lift.
  unfold registered_fds_node_create. apply wp_bind, wp_call.
  destruct (kernel_step _ w) as [[p|ec] w1]; apply wp_ret; [|by apply wp_ret].
  apply wp_bind, wp_mod_self. cbn [fst snd].
  match goal with |- wpg any ?m _ _ => assert (keeping idle m) as Hm by keeping end.
  apply Hm. split; [by apply idle_insert|done].
Qed.

#[local] Hint Resolve add_node_idle : keeping.

Lemma ctl_idle kq op d pd ev : keeping idle (epollfd_ctx_ctl (W := W) kq op d pd ev).
Proof. keeping. Qed.

Lemma remove_fd_idle kq d : keeping idle (epollfd_ctx_remove_fd (W := W) kq d).
Proof. keeping. Qed.
End Idle.

