(* ===== verification/EpollLife.v ===== *)
(** * The life of an epoll instance: from its creation, through any sequence of
    operations, to its end *)

From S2P Require Import Prelude Kernel KqueueEvent EpollNode EpollLaws EpollFeed EpollCtx EpollInv EpollOps EpollRegister EpollCtl EpollWait.

(** The operations of an instance; [op_remove_fd] is the [close] of a watched descriptor. *)
Inductive epoll_op :=
| op_ctl (op fd : Z) (desc : option Z) (ev : option epoll_event)
| op_wait (cnt : Z)
| op_remove_fd (fd : Z).

(** [ev] may only be NULL to delete. *)
Definition proper_op (x : epoll_op) : Prop :=
  match x with op_ctl op _ _ ev => op = EPOLL_CTL_DEL \/ is_Some ev | _ => True end.

Section Life.
Context {W : Type} `{EpollLaws W, !Pollable W, !PollableLaws W}.

Definition epoll_step (kq : Z) (x : epoll_op) : M (EpollFDCtx * W) unit :=
  match x with
  | op_ctl op fd desc ev => let* _ := epollfd_ctx_ctl kq op fd desc ev in ret tt
  | op_wait cnt => let* _ := epollfd_ctx_wait kq cnt in ret tt
  | op_remove_fd fd => epollfd_ctx_remove_fd kq fd
  end.

(** An instance over its whole life. *)
Definition epoll_run (kq : Z) (ops : list epoll_op) : M (EpollFDCtx * W) (result unit) :=
  try* _ := epollfd_ctx_init in
  iterM (epoll_step kq) ops ;;
  epollfd_ctx_terminate.

Context (o : stop -> Prop).

(** ** Creation *)

Definition empty_kqueue (kq : Z) (w : W) : Prop := forall key, knote w kq key = None.

Lemma wp_any {C A} (k : syscall A) (x : C) w (Q : unit -> C * W -> Prop) :
  (forall w', Q tt (x, w')) -> wpg o (call_ k) Q (x, w).
Proof. intros HQ. unfold call_. wps. destruct (kernel_step k w) as [r w']. by wps. Qed.

(** The instance [epollfd_ctx_init] makes. *)
Definition empty_ctx : EpollFDCtx :=
  {| nodes := ∅; poll_fds := []; poll_fds_size := 0; registered_fds := ∅;
     registered_fds_size := 0; kevs := 0; kevs_length := 0; pfds := 0; pfds_length := 0;
     nr_polling_threads := 0; ctx_self_pipe := (-1, -1) |}.

Lemma inv_empty st kq w : empty_kqueue kq w -> inv st 0 kq empty_ctx w.
Proof.
  intros Hk. split; [split; cbn; try done|done|by split; left|].
  - apply NoDup_nil_2.
  - intros p. split; [by intros ?%elem_of_nil|by intros (n & Hn & _)].
  - by left.
  - intros key u _ Hu. by rewrite Hk in Hu.
Qed.

Lemma init_spec st kq c w (Q : result unit -> EpollFDCtx * W -> Prop) :
  empty_kqueue kq w ->
  (forall r c' w', inv st 0 kq c' w' -> nodes c' = ∅ -> Q r (c', w')) ->
  wpg o epollfd_ctx_init Q (c, w).
Proof.
  intros Hk HQ. unfold epollfd_ctx_init. apply wp_bind, wp_put.
  set (c0 := empty_ctx). assert (inv st 0 kq c0 w) as Hi by (by apply inv_empty).
  apply wp_bind_result, wp_quiet; [done|]. intros r1 w1 Hc1.
  assert (inv st 0 kq c0 w1) as Hi1 by (by eapply inv_calm).
  destruct r1 as [[]|ec]; [|by apply HQ]. apply wp_bind, wp_quiet; [done|]. intros r2 w2 Hc2.
  assert (inv st 0 kq c0 w2) as Hi2 by (by eapply inv_calm).
  destruct r2 as [[]|ec]; [by apply wp_ret, HQ|]. apply wp_bind, wp_quiet_; [done|].
  intros w3 Hc3. apply wp_ret, HQ; [by eapply inv_calm|done].
Qed.

(** ** The end *)

Lemma free_nodes_spec l : forall c w (Q : unit -> EpollFDCtx * W -> Prop),
  NoDup l.*2 -> Forall (fun x => is_Some (nodes c !! x.2)) l ->
  (forall c' w', (forall p, nodes c' !! p = if decide (p ∈ l.*2) then None else nodes c !! p) ->
     Q tt (c', w')) ->
  wpg o (iterM (fun p : Z * Z =>
    mod_self (fun c => c <| registered_fds := delete p.1 (registered_fds c) |>) ;;
    destroy_node p.2) l) Q (c, w).
Proof.
  induction l as [|[d p] l IH]; intros c w Q Hnd Hl HQ; cbn [iterM].
  { apply wp_ret, HQ. intros p. by rewrite decide_False by (by intros ?%elem_of_nil). }
  change (NoDup (p :: l.*2)) in Hnd. apply NoDup_cons in Hnd as [Hp Hnd].
  apply Forall_cons in Hl as [[n Hn] Hl]. cbn [fst snd] in *.
  apply wp_bind, wp_bind, wp_mod_self.
  cbn beta. cbn [fst snd]. set (c1 := c <| registered_fds := delete d (registered_fds c) |>).
  apply (destroy_spec o p c1 w n); [exact Hn|]. intros c2 w2 Hb2 Hn2 _.
  destruct (beside_fields p c1 c2 Hb2) as (Hq & _).
  apply IH; [done|..].
  - apply Forall_forall. intros x Hx. eapply Forall_forall in Hl; [|exact Hx].
    rewrite Hq; [exact Hl|]. intros E. apply Hp. rewrite <- E. by apply list_elem_of_fmap_2.
  - intros c3 w3 H3. apply HQ. intros q. rewrite H3.
    change (((d, p) :: l).*2) with (p :: l.*2). destruct (decide (q = p)) as [->|Hne].
    + rewrite (decide_True (P := p ∈ p :: l.*2)) by (by left). by rewrite decide_False.
    + rewrite (Hq q Hne). destruct (decide (q ∈ l.*2)).
      * by rewrite decide_True by (by right).
      * rewrite decide_False; [done|]. intros [?|?]%elem_of_cons; done.
Qed.

(** The nodes are exactly those of the set of registered descriptors. *)
Lemma registered_nodup st ex kq c w : inv st ex kq c w -> NoDup (in_order (registered_fds c)).*2.
Proof.
  intros [Hs _ _ _]. rewrite in_order_permutation. apply NoDup_fmap_2_strong; [|apply NoDup_map_to_list].
  intros [d1 p1] [d2 p2] H1'%elem_of_map_to_list H2'%elem_of_map_to_list E. cbn in *. subst p2.
  destruct (i_registered _ _ _ Hs d1 p1 H1') as (n1 & Hn1 & <-).
  destruct (i_registered _ _ _ Hs d2 p1 H2') as (n2 & Hn2 & <-). congruence.
Qed.

Lemma terminate_spec st kq c w (Q : result unit -> EpollFDCtx * W -> Prop) :
  inv st 0 kq c w ->
  (forall r c' w', nodes c' = ∅ -> Q r (c', w')) ->
  wpg o epollfd_ctx_terminate Q (c, w).
Proof.
  intros Hi HQ. unfold epollfd_ctx_terminate.
  apply wp_bind, wp_quiet; [done|]. intros r1 w1 _. apply wp_bind, wp_quiet; [done|]. intros r2 w2 _.
  apply wp_bind, wp_getf, wp_bind. cbn [fst]. apply free_nodes_spec.
  - by eapply registered_nodup.
  - apply Forall_forall. intros [d p] Hx%in_order_elem. cbn.
    destruct (i_registered _ _ _ (i_shape _ _ _ _ _ Hi) d p Hx) as (n & Hn & _). eauto.
  - intros c3 w3 H3. unfold get. apply wp_bind, wp_gets. cbn [fst].
    assert (nodes c3 = ∅) as Hempty.
    { apply map_empty. intros p. rewrite H3. case_decide as Hp; [done|].
      destruct (nodes c !! p) as [n|] eqn:Hn; [|done]. destruct Hp.
      destruct (i_node _ _ _ (i_shape _ _ _ _ _ Hi) p n Hn) as [_ Hr].
      apply list_elem_of_fmap. exists (fd n, p). split; [done|]. by apply in_order_elem. }
    apply wp_bind, wp_any. intros w4. apply wp_bind, wp_any. intros w5. apply wp_bind, wp_when.
    destruct (_ && _); [|by apply wp_ret, HQ].
    apply wp_bind, wp_any. intros w6. apply wp_any. intros w7. by apply wp_ret, HQ.
Qed.

(** ** All operations *)

Lemma step_spec kq x c w (Q : unit -> EpollFDCtx * W -> Prop) :
  (forall why, why <> DanglingPointer -> o why) -> tracked = true -> proper_op x ->
  inv false 0 kq c w -> (forall c' w', inv false 0 kq c' w' -> Q tt (c', w')) ->
  wpg o (epoll_step kq x) Q (c, w).
Proof.
  intros Ho Ht Hx Hi HQ. assert (false = true \/ o AssertFailed) as Ha by (right; by apply Ho).
  destruct x as [op d desc ev|cnt|d]; cbn [epoll_step].
  - apply wp_bind. eapply wp_mono; [by apply (ctl_spec o false Ha)|].
    intros r [c1 w1] (Hi1 & _). by apply wp_ret, HQ.
  - apply wp_bind, (wait_spec o Ho Ht); [done|]. intros r c1 w1 Hi1 _ _. by apply wp_ret, HQ.
  - unfold epollfd_ctx_remove_fd. apply wp_bind, wp_getf. cbn [fst].
    pose proof (interest_cases false kq c w d Hi) as Hc.
    destruct (registered_fds c !! d) as [p|]; [|by apply wp_ret, HQ].
    destruct Hc as (n & Hn & _). apply (remove_entry_spec o false Ha kq c w p n); [done..|].
    intros c1 w1 Hi1 _ _. by apply HQ.
Qed.

Lemma run_spec kq ops c w (Q : result unit -> EpollFDCtx * W -> Prop) :
  (forall why, why <> DanglingPointer -> o why) -> tracked = true -> Forall proper_op ops ->
  empty_kqueue kq w -> (forall r c' w', nodes c' = ∅ -> Q r (c', w')) ->
  wpg o (epoll_run kq ops) Q (c, w).
Proof.
  intros Ho Ht Hops Hk HQ. unfold epoll_run. apply wp_bind_result.
  apply (init_spec false kq); [done|]. intros r c1 w1 Hi1 He1. destruct r as [[]|ec]; [|by apply HQ].
  apply wp_bind. eapply wp_mono.
  - apply (wp_iterM o _ (fun s => inv false 0 kq s.1 s.2)); [|exact Hi1].
    intros x [c2 w2] Hx Hi2. apply step_spec; try done. by eapply Forall_forall in Hops.
  - intros _ [c2 w2] Hi2. by apply (terminate_spec false kq).
Qed.
End Life.

