(* ===== verification/EpollSim.v ===== *)
(** * The concrete system of [Sim] meets the laws of [EpollLaws]; witnesses for the
    theorems about epoll instances *)

From S2P Require Import Prelude Kernel Sim KqueueEvent EpollNode EpollLaws EpollFeed EpollCtx EpollInv EpollOps EpollRegister EpollCtl EpollWait EpollReport EpollLife.

#[local] Existing Instance freebsd.

Section Laws.
Context `{!Fuel}.

Definition sim_knote (s : sim) (kq : Z) (key : Z * Z) : option Z :=
  m ← sim_kqs s !! kq; kn_udata <$> m !! key.

(** Addresses and descriptors are handed out in increasing order. *)
Definition sim_allocated (s : sim) (p : Z) : Prop := p < sim_new s.

Lemma kev_key_of k : kev_key k = key_of k.
Proof. done. Qed.

(** ** Changes *)

Lemma change_knote s m c key kn : (sim_change s m c).1 !! key = Some kn ->
  m !! key = Some kn \/ (exists kn', m !! key = Some kn' /\ kn_udata kn' = kn_udata kn) \/
  has (kev_flags c) EV_DELETE = false /\ key_of c = key /\ kev_udata c = kn_udata kn.
Proof.
  unfold sim_change. rewrite kev_key_of.
  destruct (m !! key_of c) as [kn0|] eqn:E; destruct (has (kev_flags c) EV_DELETE) eqn:Ed; cbn; auto.
  - intros Hk. apply lookup_delete_Some in Hk as [_ Hk]. by left.
  - destruct (decide (key = key_of c)) as [->|Hne].
    + rewrite lookup_insert_eq. intros [= <-]. by right; right.
    + rewrite lookup_insert_ne by done. by left.
  - destruct (has (kev_flags c) EV_ADD); cbn; auto.
    destruct (decide (key = key_of c)) as [->|Hne].
    + rewrite lookup_insert_eq. intros [= <-]. by right; right.
    + rewrite lookup_insert_ne by done. by left.
Qed.

Lemma changes_knote s l : forall m key kn, (sim_changes s m l).1 !! key = Some kn ->
  (exists kn', m !! key = Some kn' /\ kn_udata kn' = kn_udata kn) \/
  exists k, k ∈ l /\ has (kev_flags k) EV_DELETE = false /\ key_of k = key /\ kev_udata k = kn_udata kn.
Proof.
  induction l as [|c l IH]; intros m key kn; cbn; [by left; eauto|].
  pose proof (change_knote s m c) as Hc. destruct (sim_change s m c) as [m1 d].
  specialize (IH m1 key). destruct (sim_changes s m1 l) as [m2 r]. cbn in *. intros Hk.
  destruct (IH kn Hk) as [(kn' & Hkn' & E)|(k & Hin & Hrest)].
  - destruct (Hc key kn' Hkn') as [?|[(kn2 & ? & ?)|(? & ? & ?)]].
    + left. eauto.
    + left. exists kn2. split; [done|congruence].
    + right. exists c. split; [by left|]. split_and!; congruence.
  - right. exists k. split; [by right|done].
Qed.

Lemma change_delete s m c key : has (kev_flags c) EV_DELETE = true ->
  (m !! key = None -> (sim_change s m c).1 !! key = None) /\
  (key_of c = key -> (sim_change s m c).1 !! key = None).
Proof.
  intros Hd. unfold sim_change. rewrite kev_key_of.
  destruct (m !! key_of c) eqn:E; rewrite Hd; cbn; split; try congruence.
  - intros Hn. by apply lookup_delete_None; right.
  - intros <-. apply lookup_delete_eq.
Qed.

Lemma changes_delete s l : forall m k, Forall is_delete l -> k ∈ l ->
  (sim_changes s m l).1 !! key_of k = None.
Proof.
  assert (forall l m key, Forall is_delete l -> m !! key = None -> (sim_changes s m l).1 !! key = None) as Hkeep.
  { clear l. induction l as [|c l IH]; intros m key Hl Hn; cbn; [done|].
    apply Forall_cons in Hl as [Hc Hl]. pose proof (proj1 (change_delete s m c key Hc) Hn) as H1.
    destruct (sim_change s m c) as [m1 d]. specialize (IH m1 key Hl H1).
    by destruct (sim_changes s m1 l). }
  induction l as [|c l IH]; intros m k Hl Hk; [by apply elem_of_nil in Hk|].
  apply Forall_cons in Hl as [Hc Hl]. cbn.
  pose proof (proj2 (change_delete s m c (key_of k) Hc)) as H1.
  destruct (sim_change s m c) as [m1 d]. cbn in H1.
  apply elem_of_cons in Hk as [->|Hk].
  - specialize (Hkeep l m1 _ Hl (H1 eq_refl)). by destruct (sim_changes s m1 l).
  - specialize (IH m1 k Hl Hk). by destruct (sim_changes s m1 l).
Qed.

Lemma changes_receipts s l : forall m, length (sim_changes s m l).2 = length l /\
  Forall (fun k => has (kev_flags k) EV_ERROR = true /\ kev_data k <> ENODEV) (sim_changes s m l).2.
Proof.
  induction l as [|c l IH]; intros m; cbn; [by split; [|constructor]|].
  assert ((sim_change s m c).2 <> ENODEV) as Hd.
  { unfold sim_change. repeat case_goal; done. }
  destruct (sim_change s m c) as [m1 d]. cbn in Hd. destruct (IH m1) as [Hl Hf].
  destruct (sim_changes s m1 l) as [m2 r]. cbn in *. split; [by rewrite Hl|].
  constructor; [|done]. cbn. split; [|done]. rewrite has_lor. apply orb_true_r.
Qed.

(** ** kevent *)

Lemma report_udata l : forall m key, kn_udata <$> fold_left report l m !! key = kn_udata <$> m !! key.
Proof.
  induction l as [|e l IH]; intros m key; cbn; [done|]. rewrite IH. unfold report.
  destruct (decide (key = kev_key e)) as [->|Hne].
  - rewrite lookup_alter_eq, <- option_fmap_compose. unfold kev_key.
    by destruct (m !! (kev_ident e, kev_filter e)).
  - by rewrite lookup_alter_ne.
Qed.

Lemma knote_insert s kq m kq' key :
  sim_knote (s <| sim_kqs := <[kq := m]> (sim_kqs s) |>) kq' key =
  if decide (kq' = kq) then kn_udata <$> m !! key else sim_knote s kq' key.
Proof.
  unfold sim_knote. fields. case_decide as E; [subst kq'|].
  - by rewrite lookup_insert_eq.
  - by rewrite lookup_insert_ne.
Qed.

(** The whole effect of a call with changes. *)
Lemma sim_kevent_changes kq c l n w :
  let (r, w') := sim_kevent kq (c :: l) n w in
  sim_new w' = sim_new w /\
  ((forall kq' key, sim_knote w' kq' key = sim_knote w kq' key) /\ (exists ec, r = Err ec) /\
     (sim_kqs w !! kq = None \/ existsb (fun c => has (kev_flags c) EV_DELETE) (c :: l) = false) \/
   exists m, sim_kqs w !! kq = Some m /\
     (forall kq' key, sim_knote w' kq' key =
        if decide (kq' = kq) then kn_udata <$> (sim_changes w m (c :: l)).1 !! key
        else sim_knote w kq' key) /\
     (0 < n -> r = Ok (sim_changes w m (c :: l)).2)).
Proof.
  unfold sim_kevent. destruct (sim_kqs w !! kq) as [m|] eqn:Em.
  2: { split; [done|]. left. eauto. }
  destruct (sim_failure w (c :: l)) as [ec|] eqn:Ef.
  { split; [done|]. left. split; [done|split; [eauto|right]]. unfold sim_failure in Ef.
    destruct (sim_kevent_error w); [|done]. by destruct (existsb _ _). }
  destruct (sim_changes w m (c :: l)) as [m' rs] eqn:Es.
  set (s' := w <| sim_kqs := <[kq := m']> (sim_kqs w) |>).
  assert (sim_new s' = sim_new w /\ forall r : result (list kevent), (0 < n -> r = Ok rs) ->
    exists m0, Some m = Some m0 /\
     (forall kq' key, sim_knote s' kq' key =
        if decide (kq' = kq) then kn_udata <$> (sim_changes w m0 (c :: l)).1 !! key
        else sim_knote w kq' key) /\
     (0 < n -> r = Ok (sim_changes w m0 (c :: l)).2)) as [Hnew Hs].
  { split; [done|]. intros r Hr. exists m. rewrite Es. split; [done|split; [|done]].
    intros kq' key. apply knote_insert. }
  destruct (Z.ltb_spec 0 n); [by split; [|right; apply Hs]|].
  destruct (List.filter _ rs); (split; [done|right; apply Hs; lia]).
Qed.

(** Pending events, of a list of filters. *)
Definition pending (l : list ((Z * Z) * Sim.knote)) : list kevent :=
  map (fun p => EV_SET p.1.1 p.1.2 0 0 0 (kn_udata p.2)) (List.filter (fun p => kn_active p.2) l).

Lemma pending_spec l e : e ∈ pending l -> exists kn, (key_of e, kn) ∈ l /\ kn_udata kn = kev_udata e.
Proof.
  induction l as [|[[i f] kn] l IH]; cbn; [by intros ?%elem_of_nil|].
  unfold pending in *. cbn. destruct (kn_active kn); cbn.
  - intros [->|He]%elem_of_cons; [exists kn; split; [apply elem_of_cons; by left|done]|].
    destruct (IH He) as (kn' & ? & ?). exists kn'. split; [by right|done].
  - intros He. destruct (IH He) as (kn' & ? & ?). exists kn'. split; [by right|done].
Qed.

Lemma pending_nodup l : NoDup l.*1 -> NoDup (key_of <$> pending l).
Proof.
  induction l as [|[[i f] kn] l IH]; cbn; [constructor|].
  intros [Hn Hd]%NoDup_cons. specialize (IH Hd). unfold pending in *. cbn.
  destruct (kn_active kn); cbn; [|done]. constructor; [|done].
  intros (e & Ee & He)%list_elem_of_fmap. destruct (pending_spec l e He) as (kn' & Hin & _).
  apply Hn, list_elem_of_fmap. exists (key_of e, kn'). split; [exact Ee|exact Hin].
Qed.

(** The whole effect of a call without changes. *)
Lemma kevent_events kq n w :
  let (r, w') := sim_kevent kq [] n w in
  sim_new w' = sim_new w /\ (forall kq' key, sim_knote w' kq' key = sim_knote w kq' key) /\
  match r with
  | Ok l => Z.of_nat (length l) <= Z.max 0 n /\ NoDup (key_of <$> l) /\
      forall e, e ∈ l -> sim_knote w kq (key_of e) = Some (kev_udata e)
  | Err _ => True
  end.
Proof.
  unfold sim_kevent. destruct (sim_kqs w !! kq) as [m|] eqn:Em; [|done].
  destruct (Z.ltb_spec 0 n).
  - split; [done|split].
    { intros kq' key. rewrite knote_insert. case_decide as E; [subst kq'|done].
      rewrite report_udata. unfold sim_knote. by rewrite Em. }
    split; [|split].
    + rewrite length_take. lia.
    + rewrite fmap_take. eapply sublist_NoDup; [|apply sublist_take].
      apply (pending_nodup (map_to_list m)), NoDup_fst_map_to_list.
    + intros e He. apply elem_of_take in He as (i & He & _).
      apply list_elem_of_lookup_2 in He.
      destruct (pending_spec (map_to_list m) e He) as (kn & Hkn%elem_of_map_to_list & <-).
      unfold sim_knote. rewrite Em. cbn. by rewrite Hkn.
  - split_and!; try done; [cbn; lia|constructor|]. by intros e ?%elem_of_nil.
Qed.

(** ** All calls *)

Definition sim_calm (s s' : sim) : Prop :=
  sim_new s <= sim_new s' /\
  forall kq key u, sim_knote s' kq key = Some u -> sim_knote s kq key = Some u.

Lemma calm_same s s' : sim_new s <= sim_new s' -> sim_kqs s' = sim_kqs s -> sim_calm s s'.
Proof. intros Hn Hk. split; [done|]. intros kq key u. unfold sim_knote. by rewrite Hk. Qed.

Lemma use_new fds s : sim_new (sim_use fds s) = sim_new s + 2.
Proof. unfold sim_use, sim_new. fields. unfold sim_new. lia. Qed.

Lemma calm_new_kq s : sim_calm s (sim_new_kq s).2.
Proof.
  unfold sim_new_kq. destruct (_ <? _); [by split|].
  split; [cbn [snd]; rewrite use_new; unfold sim_new; fields; lia|]. intros kq key u. unfold sim_knote, sim_use. fields.
  destruct (decide (kq = sim_new s)) as [->|Hne].
  - by rewrite lookup_insert_eq.
  - by rewrite lookup_insert_ne.
Qed.

Lemma calm_close fd s : sim_calm s
  (s <| sim_kqs := delete fd (sim_kqs s) |> <| sim_pipes := delete fd (sim_pipes s) |>
    <| sim_open := sim_open s ∖ {[fd]} |>).
Proof.
  split; [unfold sim_new, sim_new_kq, sim_use; fields; unfold sim_new; lia|]. intros kq key u. unfold sim_knote. fields.
  destruct (decide (kq = fd)) as [->|Hne]; [by rewrite lookup_delete_eq|by rewrite lookup_delete_ne].
Qed.

Lemma calm_write fd buf s : sim_calm s (sim_write fd buf s).2.
Proof.
  unfold sim_write. destruct (sim_pipes s !! (fd - 1)) as [n|]; [|by apply calm_same].
  split; [unfold sim_new, sim_new_kq, sim_use; fields; unfold sim_new; lia|]. intros kq key u. unfold sim_knote. fields. rewrite lookup_fmap.
  destruct (sim_kqs s !! kq) as [m|]; [|done]. cbn.
  destruct (decide (key = (fd - 1, EVFILT_READ))) as [->|Hne].
  - rewrite lookup_alter_eq. by destruct (m !! (fd - 1, EVFILT_READ)).
  - by rewrite lookup_alter_ne.
Qed.

Lemma calm_events kq n s : sim_calm s (sim_kevent kq [] n s).2.
Proof.
  pose proof (kevent_events kq n s) as He. destruct (sim_kevent kq [] n s) as [r s'].
  destruct He as (Hn & Hk & _). split; [cbn; lia|]. intros kq' key u. by rewrite Hk.
Qed.

Lemma calm_quiet {A} (c : syscall A) s : quiet c = true -> sim_calm s (kernel_step c s).2.
Proof.
  assert (forall s', sim_next s' = sim_new s + 2 -> sim_kqs s' = sim_kqs s -> sim_calm s s') as Hgrow.
  { intros s' E Hk. apply calm_same; [|done]. unfold sim_new at 2. rewrite E. lia. }
  unfold kernel_step, sim_kernel. intros Hq.
  destruct c; try (by destruct changes; [apply calm_events|]); try done;
    first [ apply calm_new_kq | apply calm_close | apply calm_write
          | by apply calm_same
          | idtac ].
  - unfold sim_poll. destruct (_ =? 0); by apply calm_same.
  - unfold sim_poll. destruct (_ =? 0); by apply calm_same.
  - unfold sim_read. destruct (sim_pipes s !! fd) as [z|]; [|by apply calm_same].
    destruct (0 <? z); by apply calm_same.
  - destruct cmd; by apply calm_same.
  - destruct (sim_kqs s !! fd); by apply calm_same.
  - destruct (negb _); [by apply calm_same|]. destruct (sim_modes s !! fd); [by apply calm_same|]. destruct (sim_kqs s !! fd); by apply calm_same.
  - apply Hgrow; done.
  - apply Hgrow; done.
  - apply Hgrow; done.
  - apply Hgrow; done.
  - destruct clockid; by apply calm_same.
  - unfold sim_sigtimedwait. destruct (List.find _ _); by apply calm_same.
Qed.

Lemma kevent_call kq l n t (w : sim) : kernel_step (sys_kevent kq l n t) w = sim_kevent kq l n w.
Proof. done. Qed.

Lemma kevent_new kq l n w : sim_new (sim_kevent kq l n w).2 = sim_new w.
Proof.
  destruct l as [|c l].
  - pose proof (kevent_events kq n w) as He. destruct (sim_kevent kq [] n w). apply He.
  - pose proof (sim_kevent_changes kq c l n w) as He. destruct (sim_kevent kq (c :: l) n w). apply He.
Qed.

#[export] Instance sim_epoll_laws : EpollLaws sim.
Proof.
  refine {| EpollLaws.knote := sim_knote; allocated := sim_allocated |}.
  - intros A c w kq key u Hq. by apply calm_quiet.
  - intros A c w p Hq. unfold sim_allocated. pose proof (calm_quiet c w Hq) as [? _]. lia.
  - intros w kq key u. split_and!; intros; unfold kernel_step, sim_kernel, sim_alloc in *;
      destruct (sim_malloc_error w); done.
  - intros w n. unfold kernel_step, sim_kernel, sim_alloc, sim_allocated.
    destruct (sim_malloc_error w); [done|]. rewrite use_new. unfold sim_new. split; [lia|]. split_and!; lia.
  - intros w q n. unfold kernel_step, sim_kernel, sim_alloc, sim_allocated.
    destruct (sim_malloc_error w); [done|]. rewrite use_new. unfold sim_new. split; [lia|]. split_and!; lia.
  - done.
  - intros w kq changes n t p. unfold sim_allocated. rewrite kevent_call, kevent_new. done.
  - intros w kq changes n t kq' key u. rewrite kevent_call. destruct changes as [|c l].
    { intros Hu. left. revert Hu. apply (calm_events kq n w). }
    pose proof (sim_kevent_changes kq c l n w) as He. destruct (sim_kevent kq (c :: l) n w) as [r w'].
    destruct He as (_ & [(Hk & _)|(m & Hm & Hk & _)]); cbn [snd]; rewrite Hk; [by left|].
    case_decide as E; [subst kq'|by left]. intros Hu. apply fmap_Some in Hu as (kn & Hkn & ->).
    destruct (changes_knote w (c :: l) m key kn Hkn) as [(kn' & Hkn' & E)|(k & Hrest)].
    + left. unfold sim_knote. rewrite Hm. cbn. rewrite Hkn'. cbn. by rewrite E.
    + right. split; [done|]. exists k. done.
  - intros w kq changes n t k Hd _ Hin. rewrite kevent_call. destruct changes as [|c l];
      [by apply elem_of_nil in Hin|].
    pose proof (sim_kevent_changes kq c l n w) as He. destruct (sim_kevent kq (c :: l) n w) as [r w'].
    destruct He as (_ & [(Hk & _ & Hcase)|(m & Hm & Hk & _)]); cbn [snd]; rewrite Hk.
    + unfold sim_knote. destruct Hcase as [->|Hcase]; [done|].
      apply Forall_cons in Hd as [Hd _]. cbn in Hcase. unfold is_delete in Hd. by rewrite Hd in Hcase.
    + rewrite decide_True by done. by rewrite (changes_delete w (c :: l) m k Hd Hin).
  - intros w kq changes Hne _. rewrite kevent_call. destruct changes as [|c l]; [done|].
    pose proof (sim_kevent_changes kq c l (Z.of_nat (length (c :: l))) w) as He.
    destruct (sim_kevent kq (c :: l) _ w) as [r w'].
    destruct He as (_ & [(_ & [ec ->] & _)|(m & Hm & Hk & Hr)]); [done|].
    rewrite Hr by (cbn; lia). destruct (changes_receipts w (c :: l) m) as [Hl Hf].
    split; [done|split].
    + eapply Forall_impl; [exact Hf|]. by intros k [? _].
    + intros k0 l' E Ed. rewrite E in Hf. apply Forall_cons in Hf as [[_ Hnd] _]. done.
  - intros w kq n t. rewrite kevent_call. pose proof (kevent_events kq n w) as He.
    destruct (sim_kevent kq [] n w) as [[l|] w']; [|done]. apply He.
  - intros w fd. unfold kernel_step, sim_kernel. destruct (_ && _) eqn:E; cbn; [|done].
    intros _. apply andb_true_iff in E as [? ?]. b2p. lia.
  - intros w fl. unfold kernel_step, sim_kernel, sim_new_pipe, sim_use, sim_new. fields.
    unfold sim_new. lia.
  - intros w fl. unfold kernel_step, sim_kernel, sim_new_kq. destruct (_ <? _); [done|]. split; [unfold sim_new; lia|].
    intros key. unfold sim_knote, sim_use. fields. by rewrite lookup_insert_eq.
  - done.
Defined.
End Laws.

(** A file description that adds nothing to what kqueue reports. *)
#[export] Instance sim_pollable : Pollable sim :=
  { poll_fun := fun _ _ r => ret r; ref_fun := fun _ => ret tt; unref_fun := fun _ => ret tt }.

#[export] Instance sim_pollable_laws `{!Fuel} : PollableLaws sim.
Proof. constructor; intros; apply wp_ret; reflexivity. Defined.

(** ** Witnesses *)

Module Witness.
#[local] Instance fuel9 : Fuel := 9%nat.

(** The kqueue 3 of the instance, and the kqueue 5 to be watched. *)
Definition world : sim :=
  sim_init <| sim_kqs := {[ 3 := ∅; 5 := {[ (0, EVFILT_USER) := {| kn_udata := 0; kn_active := true |} ]} ]} |>
    <| sim_next := 7 |>.

Definition add5 : epoll_event := {| ev_events := EPOLLIN; ev_data := 77 |}.

Definition socket (ev : Z) : RegisteredFDsNode :=
  (node_zero 6) <| node_type := NODE_TYPE_SOCKET |> <| events := ev |> <| has_evfilt_read := true |>.

Definition readable_event : kevent := EV_SET 6 EVFILT_READ EV_EOF 0 1 9.

Lemma socket_filterable ev : filterable (socket ev).
Proof. split; try done. by left. Qed.

Lemma empty3 : empty_kqueue 3 world.
Proof. intros key. reflexivity. Qed.

Lemma socket_event ev : filter_event (socket ev) readable_event.
Proof. split; [by left|]. split; [done|]. intros E. discriminate E. Qed.
End Witness.
#[local] Existing Instance Witness.fuel9.

Lemma get_needed_filters_correct_witness :
  exists f, get_needed_filters (Witness.socket EPOLLIN) = inr f /\ evfilt_read f = 1.
Proof.
  destruct (get_needed_filters_correct (Witness.socket EPOLLIN)) as (f & Hf & _ & Hin & _).
  - apply Witness.socket_filterable.
  - intros E. discriminate E.
  - exists f. split; [exact Hf|]. apply Hin; [reflexivity|]. intros E. discriminate E.
Defined.


Lemma feed_event_socket_witness :
  wp (registered_fds_node_feed_event (W := sim) 9 3 Witness.readable_event)
    (fun _ s => has (revents s.1) EPOLLIN = true) (Witness.socket EPOLLIN, Witness.world).
Proof.
  apply (feed_event_socket 9 3 Witness.readable_event (Witness.socket EPOLLIN) Witness.world EPOLLIN);
    [reflexivity|by right|apply Witness.socket_filterable|reflexivity|reflexivity
    |apply Witness.socket_event|by left].
Defined.



#[export] Instance sim_poll_asked : PollAsked sim.
Proof.
  intros w fd ev. unfold kernel_step, sim_kernel, sim_poll, sim_poll_one. cbn [map fst snd pfd_fd pfd_events pfd_revents].
  destruct (sim_readable w fd); [|apply within_0]. apply within_lor_r. bitwise.
Defined.

(** A pipe with a byte in it is watched. *)
Module Watch.
Definition world : sim :=
  Witness.world <| sim_pipes := {[ 9 := 1 ]} |> <| sim_modes := {[ 9 := 0x1000 ]} |>.
Definition state : EpollFDCtx * sim :=
  match epollfd_ctx_ctl 3 EPOLL_CTL_ADD 9 None (Some Witness.add5) (empty_ctx, world) with
  | Done _ s => s
  | Stop _ => (empty_ctx, world)
  end.
Definition ctx : EpollFDCtx := state.1.
Definition system : sim := state.2.
#[global] Opaque ctx system.

Lemma run : epollfd_ctx_ctl 3 EPOLL_CTL_ADD 9 None (Some Witness.add5) (empty_ctx, world) =
  Done (Ok tt) (ctx, system).
Proof. vm_compute. reflexivity. Qed.

Lemma watched : inv false 0 3 ctx system.
Proof.
  apply (proj1 (wp_run (fun why => why <> DanglingPointer) _ (fun _ s => inv false 0 3 s.1 s.2) _ _ _ run)).
  eapply wp_mono.
  - apply (ctl_spec (fun why => why <> DanglingPointer) false); [by right|by apply inv_empty|by right].
  - intros r s Hs. apply Hs.
Qed.

Lemma nodes_plain : map_Forall (fun _ n => revents n = 0 /\ node_type n <> NODE_TYPE_KQUEUE /\
  needs_rdhup_translation n = false) (nodes ctx).
Proof.
  apply (bool_decide_unpack _). vm_compute. exact I.
Qed.
End Watch.



(** Registering twice and removing twice is noticed. *)
Example epoll_add_twice :
  match (let* _ := epollfd_ctx_ctl 3 EPOLL_CTL_ADD 5 None (Some Witness.add5) in
         let* r := epollfd_ctx_ctl 3 EPOLL_CTL_ADD 5 None (Some Witness.add5) in
         let* _ := epollfd_ctx_ctl 3 EPOLL_CTL_DEL 5 None None in
         let* r' := epollfd_ctx_ctl 3 EPOLL_CTL_DEL 5 None None in ret (r, r'))
        (empty_ctx, Witness.world) with
  | Done r s => r = (Err EEXIST, Err ENOENT) /\ nodes s.1 = ∅
  | Stop _ => False
  end.
Proof. vm_compute. split; reflexivity. Qed.

(** A pipe with a byte in it is reported with the data given for it. *)
Example epoll_wait_reports :
  match (let* _ := epollfd_ctx_ctl 3 EPOLL_CTL_ADD 9 None (Some Witness.add5) in
         epollfd_ctx_wait 3 1)
        (empty_ctx, Witness.world <| sim_pipes := {[ 9 := 1 ]} |> <| sim_modes := {[ 9 := 0x1000 ]} |>) with
  | Done r _ => r = Ok [{| ev_events := EPOLLIN; ev_data := 77 |}]
  | Stop _ => False
  end.
Proof. vm_compute. reflexivity. Qed.

(** With EVFILT_EXCEPT, EPOLL_CTL_DEL leaves that filter of a socket behind; when it fires,
    [epoll_wait] uses the freed node. *)
Module Except.
#[local] Existing Instance macos.

Definition fire (fd : Z) (s : EpollFDCtx * sim) : EpollFDCtx * sim :=
  (s.1, s.2 <| sim_kqs := alter (alter activate (fd, EVFILT_EXCEPT)) 3 (sim_kqs s.2) |>).

Definition watch_urgent (w : sim) : outcome (EpollFDCtx * sim) (result (list epoll_event)) :=
  (let* _ := epollfd_ctx_ctl 3 EPOLL_CTL_ADD 9 None (Some {| ev_events := EPOLLPRI; ev_data := 1 |}) in
   let* _ := epollfd_ctx_ctl 3 EPOLL_CTL_DEL 9 None None in
   (fun s => Done tt (fire 9 s)) ;;
   epollfd_ctx_wait 3 1) (empty_ctx, w).
End Except.

