(* ===== verification/Rwlock.v ===== *)
(** * The reader/writer lock (src/rwlock.c)

    Every operation of the lock is a sequence of atomic steps: one atomic
    read-modify-write, one semaphore operation or one mutex operation each.
    [next] is the step function of one thread, one program counter per point
    of the C functions; [step] interleaves the steps of any number of threads.
    Mutual exclusion, absence of deadlock, bounds of the counters and the
    restoration of the initial state are invariants of the reachable states. *)

From S2P Require Import Prelude Kernel.

Definition MAX_READERS : Z := Z.shiftl 1 30.

(** [int_fast32_t] arithmetic of the atomic operations. *)
Definition wrap32 (z : Z) : Z := (z + 2 ^ 31) mod 2 ^ 32 - 2 ^ 31.

Record RWLock := {
  mutex : bool;
  writer_wait : Z;
  reader_wait : Z;
  num_pending : Z;
  readers_departing : Z
}.
#[export] Instance eta_RWLock : Eta RWLock := fun r =>
  {| mutex := mutex r; writer_wait := writer_wait r; reader_wait := reader_wait r;
     num_pending := num_pending r; readers_departing := readers_departing r |}.

(** All fields zero, semaphores 0, mutex free. *)
Definition rwlock_initial : RWLock :=
  {| mutex := false; writer_wait := 0; reader_wait := 0; num_pending := 0;
     readers_departing := 0 |}.

(** ** Program counters *)

Inductive pc : Type :=
| Idle
(** [rwlock_lock_read]: before the fetch_add; in [sem_wait_nointr] *)
| LR_add
| LR_wait
| Reading
(** [rwlock_unlock_read]: before either fetch_sub; before [sem_post] *)
| UR_sub
| UR_dep
| UR_post
(** [rwlock_lock_write]: before [pthread_mutex_lock]; before the fetch_sub; before
    the fetch_add, with [r]; in [sem_wait_nointr] *)
| LW_mutex
| LW_sub
| LW_add (r : Z)
| LW_wait
| Writing
(** [rwlock_unlock_common]: before the fetch_add; in the loop at [i]; before
    [pthread_mutex_unlock] *)
| UC_add (keep_reading : Z)
| UC_post (keep_reading i r : Z)
| UC_unlock (keep_reading : Z).

#[export] Instance pc_eq_dec : EqDecision pc.
Proof. solve_decision. Defined.

(** What a thread that is not inside an operation calls next. *)
Inductive operation : Type := lock_read | unlock_read | lock_write | unlock_write | downgrade.

Definition rwlock_lock_read (p : pc) (l : RWLock) : option (pc * RWLock) :=
  match p with
  | LR_add =>
      let n := wrap32 (num_pending l + 1) in
      let l := l <| num_pending := n |> in
      Some (if n <? 0 then LR_wait else Reading, l)
  | LR_wait =>
      if 0 <? reader_wait l
      then Some (Reading, l <| reader_wait := reader_wait l - 1 |>)
      else None
  | _ => None
  end.

Definition rwlock_unlock_read (p : pc) (l : RWLock) : option (pc * RWLock) :=
  match p with
  | UR_sub =>
      let n := wrap32 (num_pending l - 1) in
      Some (if n <? 0 then UR_dep else Idle, l <| num_pending := n |>)
  | UR_dep =>
      let n := wrap32 (readers_departing l - 1) in
      Some (if n =? 0 then UR_post else Idle, l <| readers_departing := n |>)
  | UR_post => Some (Idle, l <| writer_wait := writer_wait l + 1 |>)
  | _ => None
  end.

Definition rwlock_lock_write (p : pc) (l : RWLock) : option (pc * RWLock) :=
  match p with
  | LW_mutex => if mutex l then None else Some (LW_sub, l <| mutex := true |>)
  | LW_sub =>
      let r := num_pending l in
      Some (if negb (r =? 0) then LW_add r else Writing,
            l <| num_pending := wrap32 (r - MAX_READERS) |>)
  | LW_add r =>
      let n := wrap32 (readers_departing l + r) in
      Some (if negb (n =? 0) then LW_wait else Writing, l <| readers_departing := n |>)
  | LW_wait =>
      if 0 <? writer_wait l
      then Some (Writing, l <| writer_wait := writer_wait l - 1 |>)
      else None
  | _ => None
  end.

Definition rwlock_unlock_common (p : pc) (l : RWLock) : option (pc * RWLock) :=
  match p with
  | UC_add keep_reading =>
      let r := wrap32 (num_pending l + (MAX_READERS + keep_reading)) in
      Some (UC_post keep_reading keep_reading r, l <| num_pending := r |>)
  | UC_post keep_reading i r =>
      if i <? r
      then Some (UC_post keep_reading (i + 1) r, l <| reader_wait := reader_wait l + 1 |>)
      else Some (UC_unlock keep_reading, l)
  | UC_unlock keep_reading =>
      Some (if keep_reading =? 0 then Idle else Reading, l <| mutex := false |>)
  | _ => None
  end.

Definition rwlock_unlock_write : pc := UC_add 0.
Definition rwlock_downgrade : pc := UC_add 1.

(** One step of a thread; [None]: it is blocked, or [o] is not a call it may
    make (readers unlock, writers unlock or downgrade). *)
Definition next (o : operation) (p : pc) (l : RWLock) : option (pc * RWLock) :=
  match p with
  | Idle =>
      match o with
      | lock_read => Some (LR_add, l)
      | lock_write => Some (LW_mutex, l)
      | _ => None
      end
  | Reading => match o with unlock_read => Some (UR_sub, l) | _ => None end
  | Writing =>
      match o with
      | unlock_write => Some (rwlock_unlock_write, l)
      | downgrade => Some (rwlock_downgrade, l)
      | _ => None
      end
  | LR_add | LR_wait => rwlock_lock_read p l
  | UR_sub | UR_dep | UR_post => rwlock_unlock_read p l
  | LW_mutex | LW_sub | LW_add _ | LW_wait => rwlock_lock_write p l
  | UC_add _ | UC_post _ _ _ | UC_unlock _ => rwlock_unlock_common p l
  end.

(** ** Interleaving *)

Definition config : Type := RWLock * list pc.

Inductive step : config -> config -> Prop :=
| step_thread l ts i p o p' l' :
    ts !! i = Some p -> next o p l = Some (p', l') -> step (l, ts) (l', <[i := p']> ts).

Definition initial (n : nat) : config := (rwlock_initial, replicate n Idle).
Definition reachable (n : nat) : config -> Prop := rtc step (initial n).

(** Access to the protected data.  A downgrading writer already has read access. *)
Definition holds_write (p : pc) : bool := match p with Writing => true | _ => false end.
Definition holds_read (p : pc) : bool :=
  match p with
  | Reading => true
  | UC_post k _ _ | UC_unlock k => negb (k =? 0)
  | _ => false
  end.

(** ** Creation (rwlock_init, rwlock_terminate, sem_wait_nointr) *)

Section Init.
Context {W : Type} `{!Kernel W}.

Definition rwlock_init : M (RWLock * W) (result unit) :=
  put rwlock_initial ;;
  let* r := call sys_mutex_init in
  match r with
  | Err ec => ret (Err ec)
  | Ok _ =>
      let* r1 := call (sys_sem_init 0) in
      match r1 with
      | Err ec => call_ sys_mutex_destroy ;; ret (Err ec)
      | Ok _ =>
          let* r2 := call (sys_sem_init 0) in
          match r2 with
          | Err ec => call_ sys_sem_destroy ;; call_ sys_mutex_destroy ;; ret (Err ec)
          | Ok _ => ret (Ok tt)
          end
      end
  end.

Definition rwlock_terminate : M (RWLock * W) unit :=
  call_ sys_sem_destroy ;; call_ sys_sem_destroy ;; call_ sys_mutex_destroy.

(** [do rc = sem_wait(sem); while (rc < 0 && errno == EINTR)] *)
Fixpoint sem_wait_nointr (n : nat) : M W (result unit) :=
  match n with
  | O => stop_with OutOfFuel
  | S n' =>
      let* rc := call sys_sem_wait in
      match rc with
      | Err ec => if ec =? EINTR then sem_wait_nointr n' else ret rc
      | Ok _ => ret rc
      end
  end.
End Init.

(** ** The invariant

    What a thread at [p] contributes to each of the quantities the counters
    of the lock keep track of. *)

Definition w_mutex (p : pc) : Z :=
  match p with
  | LW_sub | LW_add _ | LW_wait | Writing | UC_add _ | UC_post _ _ _ | UC_unlock _ => 1
  | _ => 0
  end.
Definition w_add (p : pc) : Z := match p with LW_add _ => 1 | _ => 0 end.
Definition w_add_r (p : pc) : Z := match p with LW_add r => r | _ => 0 end.
Definition w_lw_wait (p : pc) : Z := match p with LW_wait => 1 | _ => 0 end.
Definition w_writing (p : pc) : Z := match p with Writing | UC_add _ => 1 | _ => 0 end.
Definition w_lr_wait (p : pc) : Z := match p with LR_wait => 1 | _ => 0 end.
Definition w_reading (p : pc) : Z := match p with Reading | UR_sub => 1 | _ => 0 end.
Definition w_keep (p : pc) : Z := match p with UC_post k _ _ | UC_unlock k => k | _ => 0 end.
Definition w_todo (p : pc) : Z := match p with UC_post _ i r => r - i | _ => 0 end.
Definition w_dep (p : pc) : Z := match p with UR_dep => 1 | _ => 0 end.
Definition w_post (p : pc) : Z := match p with UR_post => 1 | _ => 0 end.

(** The local variables of a thread, out of [n] threads. *)
Definition local_ok (n : Z) (p : pc) : Prop :=
  match p with
  | LW_add r => 0 < r <= n
  | UC_add k | UC_unlock k => 0 <= k <= 1
  | UC_post k i r => 0 <= k <= 1 /\ k <= i <= r /\ r <= n
  | _ => True
  end.

(** The counters, in terms of the sums of the contributions. *)
Record tallied (l : RWLock) (mtx add addr lww wrt lrw rdg keep todo dep post : Z) : Prop := {
  t_mutex : mtx = Z.b2z (mutex l);
  t_pending : num_pending l = lrw + rdg + keep - MAX_READERS * (add + lww + wrt);
  t_readers : 0 <= reader_wait l <= lrw;
  t_writers : 0 <= writer_wait l;
  t_none : add + lww + wrt = 0 ->
    lrw = reader_wait l + todo /\ readers_departing l = 0 /\ dep = 0 /\ post + writer_wait l = 0;
  t_add : add = 1 -> addr < MAX_READERS /\
    readers_departing l = rdg + reader_wait l + dep - addr /\ readers_departing l <= 0 /\
    post + writer_wait l = 0;
  t_wait : lww = 1 ->
    readers_departing l = rdg + reader_wait l + dep /\
    (0 < readers_departing l /\ post + writer_wait l = 0 \/
     readers_departing l = 0 /\ post + writer_wait l = 1);
  t_writing : wrt = 1 ->
    readers_departing l = 0 /\ rdg + reader_wait l + dep = 0 /\ post + writer_wait l = 0
}.

Definition tally (l : RWLock) (ts : list pc) : Prop :=
  tallied l (sumZ w_mutex ts) (sumZ w_add ts) (sumZ w_add_r ts) (sumZ w_lw_wait ts)
    (sumZ w_writing ts) (sumZ w_lr_wait ts) (sumZ w_reading ts) (sumZ w_keep ts)
    (sumZ w_todo ts) (sumZ w_dep ts) (sumZ w_post ts).

Definition invariant (n : nat) (c : config) : Prop :=
  length c.2 = n /\ Forall (local_ok (Z.of_nat n)) c.2 /\ tally c.1 c.2.

Lemma wrap32_small z : - 2 ^ 31 <= z < 2 ^ 31 -> wrap32 z = z.
Proof. intros H. unfold wrap32. rewrite Z.mod_small; lia. Qed.

(** Relations between the sums that hold of any list of threads. *)
Record sane (n mtx add addr lww wrt lrw rdg keep todo dep post : Z) : Prop := {
  s_count : lrw + rdg + keep + dep + post <= n;
  s_count_w : lrw + rdg + dep + post + mtx <= n;
  s_nonneg : 0 <= add /\ 0 <= lww /\ 0 <= wrt /\ 0 <= lrw /\ 0 <= rdg /\ 0 <= keep /\
    0 <= todo /\ 0 <= dep /\ 0 <= post;
  s_mutex : add + lww + wrt <= mtx /\ keep <= mtx - (add + lww + wrt);
  s_addr : 0 <= addr /\ (add = 0 -> addr = 0);
  s_todo : mtx = add + lww + wrt -> todo = 0
}.

Abbreviation sums P ts := (P (sumZ w_mutex ts) (sumZ w_add ts) (sumZ w_add_r ts)
  (sumZ w_lw_wait ts) (sumZ w_writing ts) (sumZ w_lr_wait ts) (sumZ w_reading ts)
  (sumZ w_keep ts) (sumZ w_todo ts) (sumZ w_dep ts) (sumZ w_post ts)) (only parsing).

Lemma sums_sane n ts : Forall (local_ok n) ts -> sums (sane (Z.of_nat (length ts))) ts.
Proof.
  induction 1 as [|p ts Hp _ []]; [split; cbn; lia|].
  destruct p; cbn in *; split; lia.
Qed.

(** The sums after a step of thread [i]. *)
Definition shifted (P : Z -> Z -> Z -> Z -> Z -> Z -> Z -> Z -> Z -> Z -> Z -> Prop)
    (p p' : pc) (ts : list pc) : Prop :=
  P (sumZ w_mutex ts - w_mutex p + w_mutex p') (sumZ w_add ts - w_add p + w_add p')
    (sumZ w_add_r ts - w_add_r p + w_add_r p') (sumZ w_lw_wait ts - w_lw_wait p + w_lw_wait p')
    (sumZ w_writing ts - w_writing p + w_writing p')
    (sumZ w_lr_wait ts - w_lr_wait p + w_lr_wait p')
    (sumZ w_reading ts - w_reading p + w_reading p')
    (sumZ w_keep ts - w_keep p + w_keep p') (sumZ w_todo ts - w_todo p + w_todo p')
    (sumZ w_dep ts - w_dep p + w_dep p') (sumZ w_post ts - w_post p + w_post p').

Lemma sums_insert P ts i p p' :
  ts !! i = Some p -> sums P (<[i := p']> ts) <-> shifted P p p' ts.
Proof. intros H. unfold shifted. by rewrite !(sumZ_insert _ _ _ _ _ H). Qed.

(** The other threads alone are sane too. *)
Lemma others_sane n ts i p : Forall (local_ok n) ts -> ts !! i = Some p ->
  shifted (sane (Z.of_nat (length ts))) p Idle ts.
Proof.
  intros Hl Hi. rewrite <- (length_insert ts i Idle). apply (sums_insert _ _ _ _ _ Hi).
  by apply (sums_sane n), Forall_insert.
Qed.

Ltac wrap_small :=
  repeat match goal with
  | |- context [wrap32 ?z] => rewrite (wrap32_small z) by lia
  | H : context [wrap32 ?z] |- _ => rewrite (wrap32_small z) in H by lia
  end.

(** Use or drop the implications whose premise computes. *)
Ltac settle_implications :=
  repeat match goal with
  | H : ?x = ?y -> _ |- _ =>
      first [specialize (H eq_refl)
            | let b := eval vm_compute in (x =? y) in
              lazymatch b with false => clear H end]
  end.

Lemma tally_next n l ts i p o p' l' :
  n < MAX_READERS -> Z.of_nat (length ts) = n -> Forall (local_ok n) ts -> tally l ts ->
  ts !! i = Some p -> next o p l = Some (p', l') ->
  local_ok n p' /\ shifted (tallied l') p p' ts.
Proof.
  intros Hn Hlen Hl Ht Hi Hnext.
  pose proof (sums_sane n ts Hl) as Hs.
  pose proof (others_sane n ts i p Hl Hi) as Ho. rewrite Hlen in *.
  pose proof (Forall_lookup_1 _ _ _ _ Hl Hi) as Hp.
  unfold tally, shifted in *. clear Hl Hi Hlen.
  repeat match goal with |- context [sumZ ?f ts] => generalize dependent (sumZ f ts); intros end.
  destruct l as [m ww rw num dep], Hs, Ho, Ht. cbn in * |-.
  change MAX_READERS with 1073741824 in *.
  assert (Z.b2z m <= 1) as Hm by (destruct m; cbn; lia).
  assert (z0 = 0 /\ z2 = 0 /\ z3 = 0 \/ z0 = 1 /\ z2 = 0 /\ z3 = 0 \/
          z0 = 0 /\ z2 = 1 /\ z3 = 0 \/ z0 = 0 /\ z2 = 0 /\ z3 = 1) as Hphase by lia.
  destruct p; cbn in Hnext, Hp, s_count1, s_count_w1, s_nonneg1, s_mutex1, s_addr1, s_todo1;
    destruct Hphase as [(-> & -> & ->) | [(-> & -> & ->) | [(-> & -> & ->) | (-> & -> & ->)]]];
    settle_implications; try lia;
    change MAX_READERS with 1073741824 in *;
    wrap_small;
    repeat match type of Hnext with
    | context [match ?x with _ => _ end] => destruct x eqn:?; try discriminate Hnext
    end;
    injection Hnext as <- <-; b2p; try subst m; cbn in t_mutex0; (split; [cbn; try lia|]).
  all: split; fields; change MAX_READERS with 1073741824; intros; discriminate || lia.
Qed.

Lemma invariant_sane n l ts : invariant n (l, ts) -> sums (sane (Z.of_nat n)) ts.
Proof. intros (<- & Hl & _). by apply (sums_sane (Z.of_nat (length ts))). Qed.

Lemma invariant_step n c c' :
  Z.of_nat n < MAX_READERS -> invariant n c -> step c c' -> invariant n c'.
Proof.
  intros Hn (Hlen & Hl & Ht) Hs. destruct Hs as [l ts i p o p' l' Hi Hnext]. cbn in *.
  destruct (tally_next (Z.of_nat n) l ts i p o p' l') as [Hp' Ht']; try done; [by rewrite Hlen|].
  split_and!; cbn; [by rewrite length_insert|by apply Forall_insert|].
  by apply (sums_insert _ _ _ _ _ Hi).
Qed.

Lemma invariant_initial n : invariant n (initial n).
Proof.
  split_and!; cbn; [apply length_replicate|by apply Forall_replicate|].
  assert (forall f : pc -> Z, f Idle = 0 -> sumZ f (replicate n Idle) = 0) as Hz.
  { intros f Hf. induction n as [|n IH]; cbn; lia. }
  unfold tally. rewrite !Hz by done. split; cbn; lia.
Qed.

Lemma invariant_reachable n c : Z.of_nat n < MAX_READERS -> reachable n c -> invariant n c.
Proof.
  intros Hn. apply (rtc_ind_r (invariant n)); [apply invariant_initial|].
  intros c' c'' _ Hs IH. by apply (invariant_step n c').
Qed.

(** A predicate of one thread against a sum over all. *)
Lemma sum_lookup2 f (ts : list pc) i j p q : (forall x, 0 <= f x) -> f Idle = 0 ->
  ts !! i = Some p -> ts !! j = Some q -> i <> j -> f p + f q <= sumZ f ts.
Proof.
  intros Hf H0 Hi Hj Hne. pose proof (sumZ_insert f ts i p Idle Hi) as E.
  pose proof (sumZ_lookup_le f (<[i := Idle]> ts) j q Hf) as L.
  rewrite list_lookup_insert_ne in L by done. specialize (L Hj). lia.
Qed.

(** Whether a thread that is not idle has a step. *)
Definition moves (l : RWLock) (p : pc) : bool :=
  match p with
  | Idle => false
  | LR_wait => 0 <? reader_wait l
  | LW_mutex => negb (mutex l)
  | LW_wait => 0 <? writer_wait l
  | _ => true
  end.

Lemma moves_next l p : moves l p = true -> exists o p' l', next o p l = Some (p', l').
Proof.
  intros Hm. exists (match p with Writing => unlock_write | _ => unlock_read end).
  destruct p; cbn in *; try discriminate; eauto; by case_match; eauto.
Qed.

(** In a configuration of the invariant where no thread moves, all threads are idle. *)
Lemma none_moves_idle n l ts : invariant n (l, ts) ->
  Forall (fun p => moves l p = false) ts -> Forall (fun p => p = Idle) ts.
Proof.
  intros Hinv Hst. pose proof (invariant_sane _ _ _ Hinv) as []. destruct Hinv as (_ & _ & []).
  cbn in *.
  assert (forall f : pc -> Z, (forall p, moves l p = false -> f p = 0) -> sumZ f ts = 0) as Hz.
  { intros f Hf. apply sumZ_all_zero. by eapply Forall_impl. }
  rewrite (Hz w_add), (Hz w_writing), (Hz w_reading), (Hz w_dep), (Hz w_post), (Hz w_todo) in *
    by (by intros []).
  assert (sumZ w_mutex ts = sumZ w_lw_wait ts) as Hml.
  { apply sumZ_ext. eapply Forall_impl; [exact Hst|]. by intros []. }
  assert (sumZ w_lr_wait ts = 0 \/ reader_wait l <= 0) as Hlr.
  { destruct (0 <? reader_wait l) eqn:E; b2p; [left|by right].
    apply Hz. intros []; cbn; try done. rewrite (proj2 (Z.ltb_lt _ _)); done. }
  assert (sumZ w_lw_wait ts = 0 \/ writer_wait l <= 0) as Hlw.
  { destruct (0 <? writer_wait l) eqn:E; b2p; [left|by right].
    apply Hz. intros []; cbn; try done. rewrite (proj2 (Z.ltb_lt _ _)); done. }
  assert (sumZ w_lw_wait ts = 0 /\ sumZ w_lr_wait ts = 0 /\ mutex l = false) as (H1 & H2 & H3).
  { destruct (mutex l); cbn in *; lia. }
  apply Forall_lookup. intros i p Hi.
  pose proof (sumZ_lookup_le w_lw_wait ts i p ltac:(by intros []) Hi).
  pose proof (sumZ_lookup_le w_lr_wait ts i p ltac:(by intros []) Hi).
  pose proof (Forall_lookup_1 _ _ _ _ Hst Hi). cbn in *.
  destruct p; cbn in *; try done; try lia. by rewrite H3 in *.
Qed.

(** ** Properties *)

Lemma write_excludes n l ts i j p q :
  Z.of_nat n < MAX_READERS -> reachable n (l, ts) ->
  ts !! i = Some p -> ts !! j = Some q -> i <> j ->
  holds_write p = true -> holds_write q = false /\ holds_read q = false.
Proof.
  intros Hn Hr Hi Hj Hne Hw. destruct p; try discriminate.
  pose proof (invariant_reachable _ _ Hn Hr) as Hinv.
  pose proof (invariant_sane _ _ _ Hinv) as []. destruct Hinv as (_ & _ & []). cbn in *.
  assert (Z.b2z (mutex l) <= 1) by (destruct (mutex l); cbn; lia).
  pose proof (sumZ_lookup_le w_writing ts i _ ltac:(by intros []) Hi).
  pose proof (sum_lookup2 w_mutex ts i j _ q ltac:(by intros []) eq_refl Hi Hj Hne).
  pose proof (sumZ_lookup_le w_reading ts j q ltac:(by intros []) Hj). cbn in *.
  destruct q; cbn in *; split; (reflexivity || lia).
Qed.

(** C14: at most one thread has write access, and while one has it no other thread has
    read access; a writer that downgrades has read access throughout. *)
Theorem rwlock_exclusion n l ts i j p q :
  Z.of_nat n < MAX_READERS -> reachable n (l, ts) ->
  ts !! i = Some p -> ts !! j = Some q -> i <> j ->
  holds_write p = true -> holds_write q = false /\ holds_read q = false.
Proof. intros Hn Hr Hi Hj. by apply (write_excludes n l ts). Qed.

(** C15: no deadlock.  As long as a thread is inside an operation or holds the lock, some
    thread that is not idle can take a step. *)
Theorem rwlock_no_deadlock n l ts :
  Z.of_nat n < MAX_READERS -> reachable n (l, ts) ->
  (exists i p, ts !! i = Some p /\ p <> Idle) ->
  exists i p o p' l', ts !! i = Some p /\ p <> Idle /\ next o p l = Some (p', l').
Proof.
  intros Hn Hr (i & p & Hi & Hp).
  destruct (decide (Forall (fun p => moves l p = false) ts)) as [Hst|Hmv].
  - pose proof (none_moves_idle _ _ _ (invariant_reachable _ _ Hn Hr) Hst) as Hid.
    by pose proof (Forall_lookup_1 _ _ _ _ Hid Hi).
  - apply not_Forall_Exists in Hmv; [|apply _].
    apply Exists_exists in Hmv as (q & Hq & Hm). apply list_elem_of_lookup in Hq as (j & Hj).
    apply not_false_is_true in Hm.
    destruct (moves_next l q Hm) as (o & p' & l' & Hnext).
    exists j, q, o, p', l'. split_and!; try done. by intros ->.
Qed.

(** When all threads are idle the lock is as [rwlock_init] left it. *)
Theorem rwlock_quiescent n l ts :
  Z.of_nat n < MAX_READERS -> reachable n (l, ts) ->
  Forall (fun p => p = Idle) ts -> l = rwlock_initial.
Proof.
  intros Hn Hr Hall.
  destruct (invariant_reachable _ _ Hn Hr) as (_ & _ & []). cbn in *.
  assert (forall f : pc -> Z, f Idle = 0 -> sumZ f ts = 0) as Hz.
  { intros f Hf. apply sumZ_all_zero. eapply Forall_impl; [exact Hall|]. by intros ? ->. }
  rewrite !Hz in * by done. destruct l as [[] ? ? ? ?]; cbn in *; [lia|].
  unfold rwlock_initial. f_equal; lia.
Qed.

(** No counter overflows, neither the atomic ones nor the semaphores; the writer
    semaphore is a binary one. *)
Theorem rwlock_counters_bounded n l ts :
  Z.of_nat n < MAX_READERS -> reachable n (l, ts) ->
  - MAX_READERS <= num_pending l <= Z.of_nat n /\
  - MAX_READERS < readers_departing l <= Z.of_nat n /\
  0 <= reader_wait l <= Z.of_nat n /\ 0 <= writer_wait l <= 1.
Proof.
  intros Hn Hr. pose proof (invariant_reachable _ _ Hn Hr) as Hinv.
  pose proof (invariant_sane _ _ _ Hinv) as []. destruct Hinv as (_ & _ & []). cbn in *.
  change MAX_READERS with 1073741824 in *.
  assert (Z.b2z (mutex l) <= 1) by (destruct (mutex l); cbn; lia).
  lia.
Qed.

(** ** Witnesses *)

(** A schedule: which thread steps next, with the call it makes when it is not
    inside one. *)
Fixpoint run (sched : list (nat * operation)) (c : config) : option config :=
  match sched with
  | [] => Some c
  | (i, o) :: sched' =>
      p ← c.2 !! i;
      '(p', l') ← next o p c.1;
      run sched' (l', <[i := p']> c.2)
  end.

Lemma run_steps sched c c' : run sched c = Some c' -> rtc step c c'.
Proof.
  revert c. induction sched as [|[i o] sched IH]; intros [l ts] Hr; cbn in *.
  - injection Hr as ->. reflexivity.
  - apply bind_Some in Hr as (p & Hi & Hr). apply bind_Some in Hr as ([p' l'] & Hn & Hr).
    eapply rtc_l; [by econstructor|]. by apply IH.
Qed.

Lemma run_reachable n sched c : run sched (initial n) = Some c -> reachable n c.
Proof. apply run_steps. Qed.

(** Thread 0 writes while thread 1 waits to read. *)
Definition contended : list (nat * operation) :=
  [(0%nat, lock_write); (0%nat, lock_write); (0%nat, lock_write);
   (1%nat, lock_read); (1%nat, lock_read)].

Definition contended_lock : RWLock :=
  {| mutex := true; writer_wait := 0; reader_wait := 0; num_pending := 1 - MAX_READERS;
     readers_departing := 0 |}.

Lemma contended_reachable : reachable 2 (contended_lock, [Writing; LR_wait]).
Proof. apply (run_reachable 2 contended). vm_compute. reflexivity. Defined.

Lemma rwlock_exclusion_witness : holds_write LR_wait = false /\ holds_read LR_wait = false.
Proof.
  apply (rwlock_exclusion 2 contended_lock [Writing; LR_wait] 0 1 Writing LR_wait);
    [by vm_compute|apply contended_reachable|done..].
Defined.

Lemma rwlock_no_deadlock_witness : exists i p o p' l',
  [Writing; LR_wait] !! i = Some p /\ p <> Idle /\ next o p contended_lock = Some (p', l').
Proof.
  apply (rwlock_no_deadlock 2); [by vm_compute|apply contended_reachable|]. by exists 0%nat, Writing.
Defined.

(** Both threads through: the writer downgrades, both release. *)
Definition released : list (nat * operation) :=
  contended ++
  [(0%nat, downgrade); (0%nat, downgrade); (0%nat, downgrade); (0%nat, downgrade);
   (0%nat, downgrade); (1%nat, lock_read); (0%nat, unlock_read); (0%nat, unlock_read);
   (1%nat, unlock_read); (1%nat, unlock_read)].

Lemma released_reachable : reachable 2 (initial 2).
Proof. apply (run_reachable 2 released). vm_compute. reflexivity. Defined.

Lemma rwlock_quiescent_witness :
  run released (initial 2) = Some (initial 2) /\ rwlock_initial = rwlock_initial.
Proof.
  split; [by vm_compute|].
  apply (rwlock_quiescent 2 rwlock_initial [Idle; Idle]);
    [by vm_compute|apply released_reachable|by repeat constructor].
Defined.

Lemma rwlock_counters_bounded_witness :
  - MAX_READERS <= num_pending contended_lock <= 2 /\
  - MAX_READERS < readers_departing contended_lock <= 2 /\
  0 <= reader_wait contended_lock <= 2 /\ 0 <= writer_wait contended_lock <= 1.
Proof.
  apply (rwlock_counters_bounded 2 _ [Writing; LR_wait]); [by vm_compute|apply contended_reachable].
Defined.
