(* ===== verification/Sharing.v ===== *)
(** * Descriptions shared between threads (src/epoll_shim_ctx.c)

    Any number of threads look descriptors up, use the descriptions they got, close
    descriptors, create new ones and walk over the whole table, at the same time; epoll
    instances keep references of their own.  Each thread runs the reader/writer lock of
    [Rwlock] step by step; what it does to the table and to reference counts in between is one
    step per access to shared memory.  An access to a description that has been freed, or a
    failing assertion about its reference count, is a [fault].  The state of the descriptions
    themselves is left out. *)

From S2P Require Import Prelude Kernel Rwlock.

(** ** State *)

(** The table and the heap: slots with the address of a description, reference counts by
    address, and the references that nodes of epoll instances hold. *)
Record shared := {
  lock : RWLock;
  files : gmap Z Z;
  counts : gmap Z Z;
  nodes : list Z;
  fault : bool
}.
#[export] Instance eta_shared : Eta shared := fun r =>
  {| lock := lock r; files := files r; counts := counts r; nodes := nodes r; fault := fault r |}.

(** A walk over the table; inside [remove_desc] with the description that was removed. *)
Inductive walk : Type := AllWalk | CloseWalk (desc : option Z).

(** Where a thread is in the functions on the table; [pc] says where it is in the lock. *)
Inductive activity : Type :=
| Outside
(** [epoll_shim_ctx_find_desc] *)
| Find_lock (fd : Z) | Find_slot (fd : Z) | Find_ref (fd p : Z) | Find_unlock (desc : option Z)
(** [epoll_shim_ctx_remove_desc] *)
| Close_lock (fd : Z) | Close_slot (fd : Z) | Close_downgrade (desc : option Z) | Read_unlock
(** [epoll_shim_ctx_for_each_unlocked] under the read lock, also by the step detector *)
| Walk_lock | Walking (k : walk) | Visiting (k : walk) (fd p : Z)
(** [epoll_shim_ctx_create_desc], [epoll_shim_ctx_install_desc], [epoll_shim_ctx_drop_desc] *)
| Create_lock (fd : Z) | Create_slot (fd : Z) | Create_clear (fd p : Z) | Create_new (fd : Z)
| Create_install (fd p : Z) | Write_unlock
(** [file_description_unref] and, after the last reference, [file_description_destroy]; then [rest] *)
| Dropping (p : Z) (rest : activity) | Freeing (p : Z) (rest : activity).

Record thread := { at_lock : pc; doing : activity; refs : list Z }.
#[export] Instance eta_thread : Eta thread := fun r =>
  {| at_lock := at_lock r; doing := doing r; refs := refs r |}.

(** ** Accesses *)

(** [assert(desc->refcount > 0)] and the atomic addition of [n]. *)
Definition add_count (p n : Z) (s : shared) : shared :=
  match counts s !! p with
  | Some c => if 0 <? c then s <| counts := <[p := wrap32 (c + n)]> (counts s) |> else s <| fault := true |>
  | None => s <| fault := true |>
  end.

(** Any other access to the description; it must not be on its way out. *)
Definition access (p : Z) (s : shared) : shared :=
  match counts s !! p with
  | Some c => if 0 <? c then s else s <| fault := true |>
  | None => s <| fault := true |>
  end.

Definition free_count (p : Z) (s : shared) : shared :=
  match counts s !! p with
  | Some _ => s <| counts := delete p (counts s) |>
  | None => s <| fault := true |>
  end.

(** ** Steps

    What a thread does next, where it is free to choose: the call it makes, the address
    malloc(3) returns, the slot a walk looks at, the node of an epoll instance that comes or
    goes. *)
Inductive choice : Type :=
| Ask_find (fd : Z) | Ask_close (fd : Z) | Ask_walk | Ask_create (fd : Z)
| Ask_use (p : Z) | Ask_unref (p : Z) | Ask_poll (p : Z) | Ask_keep (p : Z) | Ask_release (p : Z)
| Ask_slot (fd : Z) | Ask_end | Ask_block (p : Z) | Ask_fail.

Definition goto (a : activity) (t : thread) (s : shared) : option (thread * shared) :=
  Some (t <| doing := a |>, s).

(** A step of the lock. *)
Definition locking (o : operation) (t : thread) (s : shared) : option (thread * shared) :=
  match next o (at_lock t) (lock s) with
  | Some (p, l) => Some (t <| at_lock := p |>, s <| lock := l |>)
  | None => None
  end.

(** Steps of the lock until the thread is at [target], then [a]. *)
Definition locking_to (o : operation) (target : pc) (a : activity) (t : thread) (s : shared) :
    option (thread * shared) :=
  if decide (at_lock t = target) then goto a t s else locking o t s.

(** Take one occurrence out. *)
Fixpoint drop_ref (p : Z) (l : list Z) : list Z :=
  match l with [] => [] | q :: l' => if q =? p then l' else q :: drop_ref p l' end.

(** A node of an epoll instance goes, with its reference; under the mutex of the instance. *)
Definition release (p : Z) (rest : activity) (t : thread) (s : shared) : option (thread * shared) :=
  if bool_decide (p ∈ nodes s)
  then goto (Dropping p rest) t (s <| nodes := drop_ref p (nodes s) |>) else None.

(** Between two look-ups.  A call holds at most two references: [epoll_ctl] looks up two
    descriptors.  There are fewer than [MAX_READERS] nodes. *)
Definition outside_step (c : choice) (t : thread) (s : shared) : option (thread * shared) :=
  let idle := bool_decide (refs t = []) in
  match c with
  | Ask_find fd => if (length (refs t) <? 2)%nat then goto (Find_lock fd) t s else None
  | Ask_close fd => if idle then goto (Close_lock fd) t s else None
  | Ask_walk => if idle then goto Walk_lock t s else None
  | Ask_create fd => if idle then goto (Create_lock fd) t s else None
  | Ask_use p => if bool_decide (p ∈ refs t) then Some (t, access p s) else None
  | Ask_unref p =>
      if bool_decide (p ∈ refs t)
      then goto (Dropping p Outside) (t <| refs := drop_ref p (refs t) |>) s else None
  | Ask_poll p => if bool_decide (p ∈ nodes s) then Some (t, access p s) else None
  | Ask_keep p =>
      if bool_decide (p ∈ refs t) && (Z.of_nat (length (nodes s)) <? MAX_READERS)
      then let s := add_count p 1 s in Some (t, s <| nodes := p :: nodes s |>) else None
  | Ask_release p => release p Outside t s
  | _ => None
  end.

Definition find_desc_step (a : activity) (t : thread) (s : shared) : option (thread * shared) :=
  match a with
  | Find_lock fd => locking_to lock_read Reading (Find_slot fd) t s
  | Find_slot fd =>
      goto (match files s !! fd with Some p => Find_ref fd p | None => Find_unlock None end) t s
  | Find_ref fd p => goto (Find_unlock (Some p)) t (add_count p 1 s)
  | Find_unlock desc =>
      if decide (at_lock t = Idle)
      then goto Outside (t <| refs := option_list desc ++ refs t |>) s else locking unlock_read t s
  | _ => None
  end.

Definition walk_step (c : choice) (k : walk) (t : thread) (s : shared) : option (thread * shared) :=
  match c with
  | Ask_slot fd =>
      goto (match files s !! fd with Some p => Visiting k fd p | None => Walking k end) t s
  | Ask_end =>
      goto (match k with CloseWalk (Some p) => Dropping p (Walking AllWalk) | _ => Read_unlock end) t s
  | _ => None
  end.

(** The function is called on a description; closing takes nodes out of epoll instances. *)
Definition visit_step (c : choice) (k : walk) (p : Z) (t : thread) (s : shared) : option (thread * shared) :=
  match c with
  | Ask_release q => release q (Walking k) t s
  | _ => goto (Walking k) t (access p s)
  end.

Definition remove_desc_step (a : activity) (t : thread) (s : shared) : option (thread * shared) :=
  match a with
  | Close_lock fd => locking_to lock_write Writing (Close_slot fd) t s
  | Close_slot fd => goto (Close_downgrade (files s !! fd)) t (s <| files := delete fd (files s) |>)
  | Close_downgrade desc => locking_to downgrade Reading (Walking (CloseWalk desc)) t s
  | Read_unlock => locking_to unlock_read Idle Outside t s
  | _ => None
  end.

(** [fd] is the number the kernel gave the new kqueue. *)
Definition create_desc_step (c : choice) (a : activity) (t : thread) (s : shared) :
    option (thread * shared) :=
  match a with
  | Create_lock fd => locking_to lock_write Writing (Create_slot fd) t s
  | Create_slot fd =>
      match c with
      | Ask_fail => goto Write_unlock t s
      | _ =>
          goto (match files s !! fd with
                | Some p => Dropping p (Create_clear fd p)
                | None => Create_new fd
                end) t s
      end
  | Create_clear fd p => goto (Create_new fd) t (s <| files := delete fd (files s) |>)
  | Create_new fd =>
      match c with
      | Ask_block p =>
          if bool_decide (counts s !! p = None)
          then goto (Create_install fd p) t (s <| counts := <[p := 1]> (counts s) |>) else None
      | Ask_fail => goto Write_unlock t s
      | _ => None
      end
  | Create_install fd p =>
      match c with
      | Ask_fail => goto (Dropping p Write_unlock) t s
      | _ => let s := access p s in goto Write_unlock t (s <| files := <[fd := p]> (files s) |>)
      end
  | Write_unlock => locking_to unlock_write Idle Outside t s
  | _ => None
  end.

Definition unref_step (p : Z) (rest : activity) (t : thread) (s : shared) : option (thread * shared) :=
  goto (if bool_decide (counts s !! p = Some 1) then Freeing p rest else rest) t (add_count p (-1) s).

(** The end of an epoll instance releases the nodes it has left. *)
Definition destroy_step (c : choice) (p : Z) (rest : activity) (t : thread) (s : shared) :
    option (thread * shared) :=
  match c with
  | Ask_release q => release q (Freeing p rest) t s
  | _ => goto rest t (free_count p s)
  end.

Definition thread_step (c : choice) (t : thread) (s : shared) : option (thread * shared) :=
  match doing t with
  | Outside => outside_step c t s
  | Find_lock _ | Find_slot _ | Find_ref _ _ | Find_unlock _ => find_desc_step (doing t) t s
  | Walk_lock => locking_to lock_read Reading (Walking AllWalk) t s
  | Walking k => walk_step c k t s
  | Visiting k _ p => visit_step c k p t s
  | Close_lock _ | Close_slot _ | Close_downgrade _ | Read_unlock => remove_desc_step (doing t) t s
  | Dropping p rest => unref_step p rest t s
  | Freeing p rest => destroy_step c p rest t s
  | _ => create_desc_step c (doing t) t s
  end.

Definition threads : Type := shared * list thread.

Inductive system_step : threads -> threads -> Prop :=
| system_step_thread s ts i t c t' s' :
    ts !! i = Some t -> thread_step c t s = Some (t', s') -> system_step (s, ts) (s', <[i := t']> ts).

(** Static storage, [n] threads that have not called anything. *)
Definition system_initial (n : nat) : threads :=
  ({| lock := rwlock_initial; files := ∅; counts := ∅; nodes := []; fault := false |},
   replicate n {| at_lock := Idle; doing := Outside; refs := [] |}).

Definition system_reachable (n : nat) : threads -> Prop := rtc system_step (system_initial n).

(** ** Counting references *)

Definition ind (q p : Z) : Z := if q =? p then 1 else 0.
Definition occ (l : list Z) (p : Z) : Z := sumZ (fun q => ind q p) l.

(** Slots that hold the address [p]. *)
Definition slots (m : gmap Z Z) (p : Z) : Z := map_fold (fun _ q n => ind q p + n) 0 m.

(** References a thread holds; slots whose reference it has dropped or is about to drop;
    descriptions it is about to free. *)
Fixpoint act_owns (p : Z) (a : activity) : Z :=
  match a with
  | Find_unlock (Some q) | Close_downgrade (Some q) | Walking (CloseWalk (Some q))
  | Visiting (CloseWalk (Some q)) _ _ | Create_install _ q => ind q p
  | Dropping q k => ind q p + act_owns p k
  | Freeing _ k => act_owns p k
  | _ => 0
  end.
Definition owns (p : Z) (t : thread) : Z := act_owns p (doing t) + occ (refs t) p.

Fixpoint act_stale (p : Z) (a : activity) : Z :=
  match a with
  | Create_clear _ q => ind q p
  | Dropping _ k | Freeing _ k => act_stale p k
  | _ => 0
  end.
Definition stale (p : Z) (t : thread) : Z := act_stale p (doing t).

Fixpoint act_frees (p : Z) (a : activity) : Z :=
  match a with
  | Freeing q k => ind q p + act_frees p k
  | Dropping _ k => act_frees p k
  | _ => 0
  end.
Definition frees (p : Z) (t : thread) : Z := act_frees p (doing t).

(** All references to [p], and what one thread has to do with them. *)
Definition total (s : shared) (ts : list thread) (p : Z) : Z :=
  slots (files s) p - sumZ (stale p) ts + sumZ (owns p) ts + occ (nodes s) p.
Definition held (s : shared) (t : thread) (p : Z) : Z :=
  slots (files s) p - stale p t + owns p t + occ (nodes s) p.

(** The reference count of [p] given the number of references and of threads that free it. *)
Definition counted (s : shared) (refs free p : Z) : Prop :=
  match counts s !! p with
  | Some c => 0 <= c /\ c = refs /\ free = ind c 0
  | None => refs = 0 /\ free = 0
  end.

(** No call of [file_description_unref] is under way further out. *)
Fixpoint settled (a : activity) : bool :=
  match a with Dropping _ _ => false | Freeing _ k => settled k | _ => true end.

(** What a thread relies on where it is, or where it will go on. *)
Fixpoint relies (l : pc) (m : gmap Z Z) (a : activity) : Prop :=
  match a with
  | Find_slot _ | Walking _ => l = Reading
  | Find_ref fd p | Visiting _ fd p => l = Reading /\ m !! fd = Some p
  | Close_slot _ | Create_slot _ => l = Writing
  | Create_clear fd p => l = Writing /\ m !! fd = Some p
  | Create_new fd => l = Writing /\ m !! fd = None
  | Create_install fd p => l = Writing /\ m !! fd = None /\ slots m p = 0
  | Dropping _ k | Freeing _ k => settled k /\ relies l m k
  | _ => True
  end.
Definition local (s : shared) (t : thread) : Prop := relies (at_lock t) (files s) (doing t).

(** References a thread may have and may still get. *)
Fixpoint finding (a : activity) : nat :=
  match a with
  | Find_lock _ | Find_slot _ | Find_ref _ _ | Find_unlock _ => 1
  | Dropping _ k | Freeing _ k => finding k
  | _ => 0
  end.
Definition few (t : thread) : Prop := (length (refs t) + finding (doing t) <= 2)%nat.

Record sys_inv (n : nat) (s : shared) (ts : list thread) : Prop := {
  v_length : length ts = n;
  v_lock : reachable n (lock s, at_lock <$> ts);
  v_fault : fault s = false;
  v_count p : counted s (total s ts p) (sumZ (frees p) ts) p;
  v_once p : slots (files s) p <= 1;
  v_nodes : Z.of_nat (length (nodes s)) <= MAX_READERS;
  v_local i t : ts !! i = Some t -> local s t;
  v_few i t : ts !! i = Some t -> few t
}.

Lemma ind_bounds q p : 0 <= ind q p <= 1.
Proof. unfold ind. destruct (q =? p); lia. Qed.

Lemma ind_same p : ind p p = 1.
Proof. unfold ind. by rewrite Z.eqb_refl. Qed.

Lemma ind_other q p : q <> p -> ind q p = 0.
Proof. unfold ind. intros H. by rewrite (proj2 (Z.eqb_neq q p) H). Qed.

Lemma occ_bounds l p : 0 <= occ l p <= Z.of_nat (length l).
Proof.
  unfold occ. induction l as [|q l IH]; [cbn; lia|]. cbn [sumZ length]. pose proof (ind_bounds q p). lia.
Qed.

#[local] Arguments occ : simpl never.

Lemma occ_cons q l p : occ (q :: l) p = ind q p + occ l p.
Proof. done. Qed.

Lemma occ_drop_ref p l q : p ∈ l -> occ (drop_ref p l) q = occ l q - ind p q.
Proof.
  induction l as [|x l IH]; [by intros ?%not_elem_of_nil|].
  intros Hp. cbn. rewrite occ_cons. destruct (x =? p) eqn:E; b2p; [subst; lia|].
  apply elem_of_cons in Hp as [->|Hp]; [done|]. rewrite occ_cons, IH by done. lia.
Qed.

Lemma length_drop_ref p l : p ∈ l -> length l = S (length (drop_ref p l)).
Proof.
  induction l as [|x l IH]; [by intros ?%not_elem_of_nil|]. intros Hp. cbn.
  destruct (x =? p) eqn:E; b2p; [done|]. apply elem_of_cons in Hp as [->|Hp]; [done|]. cbn. by rewrite <- IH.
Qed.

Lemma occ_in p l : p ∈ l -> 1 <= occ l p.
Proof.
  intros Hp. pose proof (occ_drop_ref p l p Hp) as H. rewrite ind_same in H.
  pose proof (occ_bounds (drop_ref p l) p). lia.
Qed.

Lemma slots_insert m fd q p : m !! fd = None -> slots (<[fd := q]> m) p = ind q p + slots m p.
Proof. intros H. unfold slots. rewrite map_fold_insert_L; [done|intros; lia|done]. Qed.

Lemma slots_delete m fd q p : m !! fd = Some q -> slots (delete fd m) p = slots m p - ind q p.
Proof.
  intros H. rewrite <- (insert_delete_id m fd q H) at 2.
  rewrite slots_insert by apply lookup_delete_eq. lia.
Qed.

Lemma slots_nonneg m p : 0 <= slots m p.
Proof.
  induction m as [|fd q m Hm IH] using map_ind; [done|].
  rewrite slots_insert by done. pose proof (ind_bounds q p). lia.
Qed.

Lemma slots_lookup m fd p : m !! fd = Some p -> 1 <= slots m p.
Proof.
  intros H. pose proof (slots_delete m fd p p H) as Hd. rewrite ind_same in Hd.
  pose proof (slots_nonneg (delete fd m) p). lia.
Qed.

Lemma slots_some m p : 1 <= slots m p -> exists fd, m !! fd = Some p.
Proof.
  induction m as [|fd q m Hm IH] using map_ind; [by intros ?%Z.leb_le|].
  rewrite slots_insert by done. intros H. destruct (decide (q = p)) as [->|Hne].
  - exists fd. apply lookup_insert_eq.
  - rewrite ind_other in H by done. destruct IH as [fd' H']; [lia|]. exists fd'.
    rewrite lookup_insert_ne; [done|]. by intros ->; rewrite Hm in H'.
Qed.

Lemma slots_two m fd fd' p : m !! fd = Some p -> m !! fd' = Some p -> fd <> fd' -> 2 <= slots m p.
Proof.
  intros H H' Hne. pose proof (slots_delete m fd p p H) as Hd. rewrite ind_same in Hd.
  pose proof (slots_lookup (delete fd m) fd' p) as Hs. rewrite lookup_delete_ne in Hs by done.
  specialize (Hs H'). lia.
Qed.

(** ** Activities *)

Lemma act_owns_nonneg p a : 0 <= act_owns p a.
Proof.
  induction a; cbn; try lia; repeat case_match; try lia;
    match goal with |- context [ind ?q p] => pose proof (ind_bounds q p) end; lia.
Qed.

Lemma act_owns_settled p a : settled a -> act_owns p a <= 1.
Proof.
  induction a; cbn; try done; try lia; intros; repeat case_match; try lia; try done; try apply ind_bounds.
Qed.

Lemma act_owns_le l m p a : relies l m a -> act_owns p a <= 2.
Proof.
  destruct a; cbn; intros H; repeat case_match; try lia;
    try (match goal with |- context [ind ?q p] => pose proof (ind_bounds q p) end; try lia);
    destruct H as [Hs _]; pose proof (act_owns_settled p _ Hs); lia.
Qed.

Lemma act_stale_bounds p a : 0 <= act_stale p a <= 1.
Proof. induction a; cbn; try lia; apply ind_bounds. Qed.

Lemma act_frees_nonneg p a : 0 <= act_frees p a.
Proof.
  induction a; cbn; try lia; match goal with |- context [ind ?q p] => pose proof (ind_bounds q p) end; lia.
Qed.

Lemma relies_stale l m p a : relies l m a -> act_stale p a <> 0 -> l = Writing /\ 1 <= slots m p.
Proof.
  induction a as [| | | | | | | | | | | | | |fd q| | | |q k IH|q k IH]; cbn; try done.
  - intros [-> Hq] Hs. split; [done|]. destruct (decide (q = p)) as [->|Hne]; [by eapply slots_lookup|].
    by rewrite ind_other in Hs.
  - intros [_ H]. by apply IH.
  - intros [_ H]. by apply IH.
Qed.

(** A thread that has no access relies on nothing. *)
Lemma relies_outside l m m' a : l <> Writing -> l <> Reading -> relies l m a -> relies l m' a.
Proof. intros Hw Hr. induction a; cbn; try tauto. Qed.

Lemma owns_bounds s p t : local s t -> few t -> 0 <= owns p t <= 4.
Proof.
  intros Hl Hf. unfold owns, few, local in *. pose proof (act_owns_nonneg p (doing t)).
  pose proof (act_owns_le _ _ p _ Hl). pose proof (occ_bounds (refs t) p). lia.
Qed.

Lemma owns_nonneg p t : 0 <= owns p t.
Proof. unfold owns. pose proof (act_owns_nonneg p (doing t)). pose proof (occ_bounds (refs t) p). lia. Qed.

Lemma owns_sum_le s p ts : (forall i t, ts !! i = Some t -> local s t /\ few t) ->
  0 <= sumZ (owns p) ts <= 4 * Z.of_nat (length ts).
Proof.
  induction ts as [|t ts IH]; intros Ht; [cbn; lia|]. cbn [sumZ length].
  destruct (Ht 0%nat t eq_refl) as [Hl Hf]. pose proof (owns_bounds s p t Hl Hf).
  specialize (IH (fun i => Ht (S i))). lia.
Qed.

Lemma total_insert s s' ts i t t' p : ts !! i = Some t ->
  total s' (<[i := t']> ts) p = total s ts p - held s t p + held s' t' p.
Proof. intros Hi. unfold total, held. rewrite !(sumZ_insert _ _ _ _ _ Hi). lia. Qed.

(** ** The invariant, one step at a time *)

Section Invariant.
Context (n : nat) (Hn : 8 * Z.of_nat n < MAX_READERS).

(** At most one thread writes, and then no other reads. *)
Lemma alone s ts i j t u : sys_inv n s ts -> ts !! i = Some t -> ts !! j = Some u -> i <> j ->
  at_lock t = Writing -> at_lock u <> Writing /\ at_lock u <> Reading.
Proof using Hn.
  intros Hv Hi Hj Hne Ht. destruct (write_excludes n _ _ i j (at_lock t) (at_lock u) ltac:(lia) (v_lock _ _ _ Hv))
    as [Hw Hr]; try done.
  - by rewrite list_lookup_fmap, Hi.
  - by rewrite list_lookup_fmap, Hj.
  - by rewrite Ht.
  - split; intros E; rewrite E in *; done.
Qed.

Lemma stale_writes s ts i t p : sys_inv n s ts -> ts !! i = Some t -> stale p t <> 0 ->
  at_lock t = Writing /\ 1 <= slots (files s) p.
Proof using. intros Hv Hi. by apply relies_stale, (v_local _ _ _ Hv i). Qed.

(** While a thread is inside, others have no slot in between. *)
Lemma no_stale s ts i t p : sys_inv n s ts -> ts !! i = Some t ->
  at_lock t = Reading \/ at_lock t = Writing -> stale p t = 0 -> sumZ (stale p) ts = 0.
Proof using Hn.
  intros Hv Hi Hin H0. apply sumZ_all_zero, Forall_lookup. intros j u Hj.
  destruct (decide (i = j)) as [->|Hne]; [by replace u with t by congruence|].
  destruct (decide (stale p u = 0)) as [|Hu]; [done|]. exfalso.
  destruct (stale_writes s ts j u p Hv Hj Hu) as [Hw _].
  destruct (alone s ts j i u t Hv Hj Hi) as [? ?]; [congruence|done|]. tauto.
Qed.

Lemma stale_le s ts p : sys_inv n s ts -> sumZ (stale p) ts <= slots (files s) p.
Proof using Hn.
  intros Hv. destruct (decide (Forall (fun t => stale p t = 0) ts)) as [Hz|Hz].
  { rewrite sumZ_all_zero by done. apply slots_nonneg. }
  apply not_Forall_Exists in Hz; [|apply _]. apply Exists_exists in Hz as (t & Hin & Ht).
  apply list_elem_of_lookup in Hin as [i Hi]. destruct (stale_writes s ts i t p Hv Hi Ht) as [Hw Hs].
  set (t0 := t <| doing := Outside |>).
  assert (sumZ (stale p) (<[i := t0]> ts) = 0) as H0.
  { apply sumZ_all_zero, Forall_lookup. intros j u. rewrite list_lookup_insert. case_decide as E.
    - intros [= <-]. done.
    - intros Hj. destruct (decide (stale p u = 0)) as [|Hu]; [done|]. exfalso.
      destruct (decide (i = j)) as [->|Hne].
      + apply E. split; [done|]. by eapply lookup_lt_Some.
      + destruct (stale_writes s ts j u p Hv Hj Hu). by destruct (alone s ts i j t u Hv Hi Hj Hne Hw). }
  rewrite (sumZ_insert _ _ _ _ _ Hi) in H0. change (stale p t0) with 0 in H0.
  pose proof (act_stale_bounds p (doing t)). unfold stale in *. lia.
Qed.

(** The number of references fits the counter, with room for two more. *)
Lemma total_small s ts p : sys_inv n s ts -> total s ts p + 2 < 2 ^ 31.
Proof using Hn.
  intros Hv. unfold total. pose proof (v_once _ _ _ Hv p). pose proof (v_nodes _ _ _ Hv).
  pose proof (occ_bounds (nodes s) p). change MAX_READERS with 1073741824 in *.
  assert (0 <= sumZ (stale p) ts) by (apply sumZ_nonneg; intros; apply act_stale_bounds).
  pose proof (owns_sum_le s p ts) as Ho. rewrite (v_length _ _ _ Hv) in Ho.
  specialize (Ho (fun i t Hi => conj (v_local _ _ _ Hv i t Hi) (v_few _ _ _ Hv i t Hi))). lia.
Qed.

(** A reference keeps a description alive. *)
Lemma count_live s ts p : sys_inv n s ts -> 1 <= total s ts p ->
  counts s !! p = Some (total s ts p) /\ sumZ (frees p) ts = 0.
Proof using.
  intros Hv H1. pose proof (v_count _ _ _ Hv p) as Hc. unfold counted in Hc.
  destruct (counts s !! p) as [c|]; [|lia]. destruct Hc as (H0 & -> & Hf).
  by rewrite ind_other in Hf by lia.
Qed.

Lemma live_access s ts p : sys_inv n s ts -> 1 <= total s ts p -> access p s = s.
Proof using.
  intros Hv Hl. destruct (count_live s ts p Hv Hl) as [Hc _]. unfold access. rewrite Hc.
  by rewrite (proj2 (Z.ltb_lt 0 _)) by lia.
Qed.

(** The thread at [i] moves from [t] to [t'] and leaves [s'] behind. *)
Lemma inv_move s ts i t s' t' :
  sys_inv n s ts -> ts !! i = Some t ->
  (at_lock t' = at_lock t /\ lock s' = lock s) \/
    (exists o, next o (at_lock t) (lock s) = Some (at_lock t', lock s')) ->
  fault s' = false ->
  (forall p, counted s' (total s ts p - held s t p + held s' t' p) (sumZ (frees p) ts - frees p t + frees p t') p) ->
  (forall p, slots (files s') p <= 1) -> Z.of_nat (length (nodes s')) <= MAX_READERS ->
  local s' t' -> files s' = files s \/ at_lock t = Writing -> few t' ->
  sys_inv n s' (<[i := t']> ts).
Proof using Hn.
  intros Hv Hi Hl Hf Hc Ho Hnd Hlo Hfi Hr. split; try done.
  - by rewrite length_insert, (v_length _ _ _ Hv).
  - rewrite list_fmap_insert. destruct Hl as [[-> ->]|[o Ho']].
    + rewrite list_insert_id; [apply (v_lock _ _ _ Hv)|]. by rewrite list_lookup_fmap, Hi.
    + eapply rtc_r; [apply (v_lock _ _ _ Hv)|]. econstructor; [|exact Ho']. by rewrite list_lookup_fmap, Hi.
  - intros p. specialize (Hc p). by rewrite (total_insert s s' ts i t t' p Hi), (sumZ_insert _ _ _ _ _ Hi).
  - intros j u. rewrite list_lookup_insert. case_decide as E; [intros [= <-]; done|].
    intros Hj. pose proof (v_local _ _ _ Hv j u Hj) as Hu.
    destruct Hfi as [Hfi|Hw]; [unfold local in *; by rewrite Hfi|].
    destruct (decide (i = j)) as [->|Hne]; [destruct E; split; [done|by eapply lookup_lt_Some]|].
    destruct (alone s ts i j t u Hv Hi Hj Hne Hw) as [Hnw Hnr]. by eapply relies_outside.
  - intros j u. rewrite list_lookup_insert. case_decide as E; [intros [= <-]; done|]. apply (v_few _ _ _ Hv).
Qed.

Section Move.
Context (s : shared) (ts : list thread) (i : nat) (t : thread).
Context (Hv : sys_inv n s ts) (Hi : ts !! i = Some t).

Lemma owned_live p : 1 <= owns p t \/ p ∈ nodes s -> 1 <= total s ts p.
Proof using Hn Hv Hi.
  intros Ho. pose proof (stale_le s ts p Hv). pose proof (occ_bounds (nodes s) p). unfold total.
  pose proof (sumZ_nonneg (owns p) ts (owns_nonneg p)). destruct Ho as [Ho|Ho].
  - pose proof (sumZ_lookup_le (owns p) ts i t (owns_nonneg p) Hi). lia.
  - pose proof (occ_in p _ Ho). lia.
Qed.

Lemma slot_live fd p : files s !! fd = Some p -> at_lock t = Reading \/ at_lock t = Writing ->
  stale p t = 0 -> 1 <= total s ts p.
Proof using Hn Hv Hi.
  intros Hf Hin H0. unfold total. rewrite (no_stale s ts i t p Hv Hi Hin H0).
  pose proof (slots_lookup _ _ _ Hf). pose proof (occ_bounds (nodes s) p).
  pose proof (sumZ_nonneg (owns p) ts (owns_nonneg p)). lia.
Qed.

(** The step does not change which references exist, only where they are. *)
Lemma inv_balanced s' t' :
  (at_lock t' = at_lock t /\ lock s' = lock s) \/
    (exists o, next o (at_lock t) (lock s) = Some (at_lock t', lock s')) ->
  fault s' = fault s -> counts s' = counts s -> (forall p, frees p t' = frees p t) ->
  (forall p, held s' t' p = held s t p) ->
  (forall p, slots (files s') p <= 1) -> (length (nodes s') <= length (nodes s))%nat ->
  local s' t' -> files s' = files s \/ at_lock t = Writing -> few t' ->
  sys_inv n s' (<[i := t']> ts).
Proof using Hn Hv Hi.
  intros Hl Hf Hc Hfr Hb Hs Hnd Hlo Hfi Hr.
  eapply inv_move; try done; [by rewrite Hf, (v_fault _ _ _ Hv)| |pose proof (v_nodes _ _ _ Hv); lia].
  intros p. pose proof (v_count _ _ _ Hv p) as Hp. specialize (Hb p). specialize (Hfr p).
  unfold counted in *. rewrite Hc, Hfr. case_match; [|lia]. destruct Hp as (? & ? & <-). lia.
Qed.

(** Going on elsewhere with the same references. *)
Lemma inv_goto t' : at_lock t' = at_lock t -> (forall p, frees p t' = frees p t) ->
  (forall p, held s t' p = held s t p) -> local s t' -> few t' -> sys_inv n s (<[i := t']> ts).
Proof using Hn Hv Hi. intros. apply inv_balanced; try done; [by left|apply (v_once _ _ _ Hv)|by left]. Qed.

(** A step of the lock, where the thread relies on nothing. *)
Lemma inv_locking o t' s' : (forall l m, relies l m (doing t)) ->
  locking o t s = Some (t', s') -> sys_inv n s' (<[i := t']> ts).
Proof using Hn Hv Hi.
  intros Hlo. unfold locking. destruct (next o (at_lock t) (lock s)) as [[p l]|] eqn:Ho; [|done].
  intros [= <- <-]. apply inv_balanced; try done; fields;
    [right; by exists o|apply (v_once _ _ _ Hv)|apply Hlo|by left|apply (v_few _ _ _ Hv _ _ Hi)].
Qed.

Lemma inv_locking_to o target a t' s' : (forall l m, relies l m (doing t)) ->
  (at_lock t = target -> sys_inv n s (<[i := t <| doing := a |>]> ts)) ->
  locking_to o target a t s = Some (t', s') -> sys_inv n s' (<[i := t']> ts).
Proof using Hn Hv Hi.
  intros Hlo Hgo. unfold locking_to. case_decide; [intros [= <- <-]; by apply Hgo|by apply inv_locking].
Qed.

(** The step changes the counter of [p]. *)
Lemma inv_count p c s' t' :
  at_lock t' = at_lock t -> lock s' = lock s -> fault s' = fault s -> files s' = files s ->
  counts s' = <[p := c]> (counts s) -> 0 <= c ->
  c = total s ts p - held s t p + held s' t' p ->
  sumZ (frees p) ts - frees p t + frees p t' = ind c 0 ->
  (forall q, p <> q -> held s' t' q = held s t q /\ frees q t' = frees q t) ->
  Z.of_nat (length (nodes s')) <= MAX_READERS -> local s' t' -> few t' ->
  sys_inv n s' (<[i := t']> ts).
Proof using Hn Hv Hi.
  intros Hat Hl Hf Hfi Hc H0 Ht Hz Hq Hnd Hlo Hfe.
  eapply inv_move; try done; [by left|by rewrite Hf, (v_fault _ _ _ Hv)| |rewrite Hfi; apply (v_once _ _ _ Hv)|by left].
  intros q. pose proof (v_count _ _ _ Hv q) as Hcq. unfold counted in *. rewrite Hc.
  destruct (decide (p = q)) as [<-|Hne]; [by rewrite lookup_insert_eq|].
  rewrite lookup_insert_ne by done. destruct (Hq q Hne) as [-> ->]. case_match; lia.
Qed.

(** [file_description_ref] *)
Lemma inv_ref p s' t' : 1 <= total s ts p ->
  at_lock t' = at_lock t -> lock s' = lock s -> fault s' = fault (add_count p 1 s) -> files s' = files s ->
  counts s' = counts (add_count p 1 s) ->
  (forall q, held s' t' q = held s t q + ind p q) -> (forall q, frees q t' = frees q t) ->
  Z.of_nat (length (nodes s')) <= MAX_READERS -> local s' t' -> few t' ->
  sys_inv n s' (<[i := t']> ts).
Proof using Hn Hv Hi.
  intros Hl Hat Hlk. destruct (count_live s ts p Hv Hl) as [Hc Hz]. pose proof (total_small s ts p Hv).
  unfold add_count. rewrite Hc, (proj2 (Z.ltb_lt 0 (total s ts p))), wrap32_small by lia.
  fields. intros Hf Hfi Hcs Hq Hfr Hnd Hlo Hfe. eapply (inv_count p); try done.
  - lia.
  - rewrite (Hq p), ind_same. lia.
  - rewrite Hfr, Hz, ind_other by lia. lia.
  - intros q Hne. rewrite Hq, Hfr, ind_other by done. lia.
Qed.

(** [file_description_unref]: the thread that drops the last reference is about to free. *)
Lemma inv_unref p t' : 1 <= total s ts p -> at_lock t' = at_lock t ->
  (forall q, held s t' q = held s t q - ind p q) ->
  (forall q, frees q t' = frees q t + if bool_decide (counts s !! p = Some 1) then ind p q else 0) ->
  local s t' -> few t' -> sys_inv n (add_count p (-1) s) (<[i := t']> ts).
Proof using Hn Hv Hi.
  intros Hl Hat Hq Hfr Hlo Hfe. destruct (count_live s ts p Hv Hl) as [Hc Hz].
  pose proof (total_small s ts p Hv). unfold add_count. rewrite Hc in *.
  rewrite (proj2 (Z.ltb_lt 0 (total s ts p))), wrap32_small by lia.
  eapply (inv_count p); try done; fields; [lia|..|apply (v_nodes _ _ _ Hv)].
  - change (held _ t' p) with (held s t' p). rewrite (Hq p), ind_same. lia.
  - rewrite Hfr, Hz, ind_same. case_bool_decide as E.
    + injection E as ->. change (ind (1 + -1) 0) with 1. lia.
    + rewrite ind_other; [lia|]. intros Hc1. apply E. f_equal. lia.
  - intros q Hne. change (held _ t' q) with (held s t' q). rewrite Hq, Hfr, ind_other by done.
    case_bool_decide; lia.
Qed.

(** [file_description_create]: nobody has heard of the address. *)
Lemma inv_alloc p t' : counts s !! p = None -> at_lock t' = at_lock t ->
  (forall q, held s t' q = held s t q + ind p q) -> (forall q, frees q t' = frees q t) ->
  local s t' -> few t' -> sys_inv n (s <| counts := <[p := 1]> (counts s) |>) (<[i := t']> ts).
Proof using Hn Hv Hi.
  intros Hc Hat Hq Hfr Hlo Hfe. pose proof (v_count _ _ _ Hv p) as Hcp. unfold counted in Hcp. rewrite Hc in Hcp.
  eapply (inv_count p); try done; fields; [..|apply (v_nodes _ _ _ Hv)].
  - change (held _ t' p) with (held s t' p). rewrite (Hq p), ind_same. lia.
  - rewrite Hfr. change (ind 1 0) with 0. lia.
  - intros q Hne. change (held _ t' q) with (held s t' q). rewrite Hq, Hfr, ind_other by done. lia.
Qed.

Lemma fresh_slots p : counts s !! p = None -> at_lock t = Writing -> stale p t = 0 ->
  slots (files s) p = 0.
Proof using Hn Hv Hi.
  intros Hc Hat H0. pose proof (v_count _ _ _ Hv p) as Hcp. unfold counted, total in Hcp. rewrite Hc in Hcp.
  rewrite (no_stale s ts i t p Hv Hi (or_intror Hat) H0) in Hcp. pose proof (slots_nonneg (files s) p).
  pose proof (occ_bounds (nodes s) p). pose proof (sumZ_nonneg (owns p) ts (owns_nonneg p)). lia.
Qed.

(** The end of a description: nobody has a reference left. *)
Lemma inv_free p t' : at_lock t' = at_lock t ->
  (forall q, held s t' q = held s t q) -> (forall q, frees q t = frees q t' + ind p q) ->
  local s t' -> few t' -> sys_inv n (free_count p s) (<[i := t']> ts).
Proof using Hn Hv Hi.
  intros Hat Hq Hfr Hlo Hfe. pose proof (v_count _ _ _ Hv p) as Hp.
  pose proof (sumZ_lookup_le (frees p) ts i t (fun u => act_frees_nonneg p _) Hi) as Hle.
  pose proof (act_frees_nonneg p (doing t')) as Hge. change (act_frees p (doing t')) with (frees p t') in Hge.
  pose proof (Hfr p) as Hfp. rewrite ind_same in Hfp.
  unfold counted in Hp. unfold free_count. destruct (counts s !! p) as [c|] eqn:Hc; [|lia].
  destruct Hp as (H0 & Hs & Hz). assert (c = 0) as -> by (unfold ind in Hz; destruct (c =? 0) eqn:E; lia).
  change (ind 0 0) with 1 in Hz.
  eapply inv_move; cbn; try done;
    [by left|apply (v_fault _ _ _ Hv)|..|apply (v_once _ _ _ Hv)|apply (v_nodes _ _ _ Hv)|by left].
  intros q. pose proof (v_count _ _ _ Hv q) as Hcq. specialize (Hq q). specialize (Hfr q).
  unfold counted in *. change (held _ t' q) with (held s t' q). fields. destruct (decide (p = q)) as [<-|Hne].
  - rewrite lookup_delete_eq. lia.
  - rewrite lookup_delete_ne by done. rewrite (ind_other p q) in Hfr by done. case_match; lia.
Qed.
End Move.

Lemma add_count_frame p k s :
  lock (add_count p k s) = lock s /\ files (add_count p k s) = files s /\ nodes (add_count p k s) = nodes s.
Proof using. unfold add_count. repeat case_match; done. Qed.

(** Goals about where the references of a thread are, and about what it relies on. *)
Ltac tally_refs :=
  cbv zeta; intros; unfold held, owns, stale, frees; fields; rewrite ?occ_cons, ?ind_same; b2p; lia.
Ltac relying := unfold local; fields; split_and?; (done || congruence || lia).
Ltac settle := solve [eauto | by left | by right | relying | tally_refs | unfold few in *; fields_all; lia].

(** Look at what the thread does, with what it relies on there. *)
Ltac take_step :=
  lazymatch goal with
  | Hv : sys_inv _ _ ?ts, Hi : ?ts !! ?i = Some ?t |- _ =>
      pose proof (v_few _ _ _ Hv _ _ Hi) as Hr; pose proof (v_local _ _ _ Hv _ _ Hi) as Hl;
      destruct t as [pt a rs]; unfold local in Hl; cbn [doing at_lock refs] in *;
      destruct a; try done; cbn [relies] in Hl
  end.
Ltac lock_step Hs := eapply inv_locking_to; [done..| |exact Hs]; cbn; intros ->.

Lemma release_inv s ts i p rest t t' s' : sys_inv n s ts -> ts !! i = Some t ->
  few (t <| doing := rest |>) -> settled rest -> local s (t <| doing := rest |>) ->
  (forall q, owns q (t <| doing := rest |>) = owns q t /\ stale q (t <| doing := rest |>) = stale q t /\
    frees q (t <| doing := rest |>) = frees q t) ->
  release p rest t s = Some (t', s') -> sys_inv n s' (<[i := t']> ts).
Proof using Hn.
  intros Hv Hi Hf Hse Hlo Hq. unfold release, goto. case_bool_decide as Hp; [|done]. intros [= <- <-].
  pose proof (length_drop_ref p _ Hp) as Hlen.
  eapply inv_balanced; eauto; fields; try done; try (intros q; destruct (Hq q) as (? & ? & ?)).
  - done.
  - pose proof (occ_drop_ref p (nodes s) q Hp). unfold held, owns, stale in *. fields_all. lia.
  - apply (v_once _ _ _ Hv).
  - lia.
Qed.

Lemma outside_inv s ts i t c t' s' : sys_inv n s ts -> ts !! i = Some t -> doing t = Outside ->
  outside_step c t s = Some (t', s') -> sys_inv n s' (<[i := t']> ts).
Proof using Hn.
  intros Hv Hi Hd Hs. take_step. clear Hd. unfold outside_step, goto in Hs. fields_all.
  destruct c; try discriminate Hs;
    try (case_bool_decide; simplify_eq; [eapply inv_goto; settle]).
  - case_match eqn:Hlen; [|done]. simplify_eq. apply Nat.leb_le in Hlen. eapply inv_goto; settle.
  - case_bool_decide as Hp; [|done]. simplify_eq.
    rewrite (live_access s ts p Hv) by (eapply owned_live; [done..|]; left; pose proof (occ_in p rs Hp); tally_refs).
    eapply inv_goto; settle.
  - case_bool_decide as Hp; [|done]. simplify_eq. pose proof (length_drop_ref p rs Hp).
    eapply inv_goto; try settle. intros q. pose proof (occ_drop_ref p rs q Hp). tally_refs.
  - case_bool_decide as Hp; [|done]. simplify_eq.
    rewrite (live_access s ts p Hv) by (eapply owned_live; [done..|by right]). eapply inv_goto; settle.
  - case_bool_decide as Hp; [|done]. case_match eqn:Hlen; [|done]. simplify_eq. b2p.
    destruct (add_count_frame p 1 s) as (E1 & E2 & E3).
    eapply (inv_ref s ts i _ Hv Hi p); fields; rewrite ?E1, ?E2, ?E3; try settle.
    eapply owned_live; [done..|]. left. pose proof (occ_in p rs Hp). tally_refs.
  - eapply release_inv; try exact Hs; settle.
Qed.

Lemma find_desc_inv s ts i t t' s' : sys_inv n s ts -> ts !! i = Some t ->
  match doing t with Find_lock _ | Find_slot _ | Find_ref _ _ | Find_unlock _ => True | _ => False end ->
  find_desc_step (doing t) t s = Some (t', s') -> sys_inv n s' (<[i := t']> ts).
Proof using Hn.
  intros Hv Hi Hd Hs. take_step; cbn [find_desc_step] in Hs; unfold goto in Hs.
  - lock_step Hs. eapply inv_goto; settle.
  - case_match; simplify_eq; (eapply inv_goto; settle).
  - simplify_eq. destruct Hl as [Hp Hf]. destruct (add_count_frame p 1 s) as (E1 & E2 & E3).
    pose proof (v_nodes _ _ _ Hv).
    eapply (inv_ref s ts i _ Hv Hi p); rewrite ?E1, ?E2, ?E3; try settle.
    + eapply slot_live; [done..|by left|done].
    + unfold held. rewrite E2, E3. settle.
  - case_decide as Hp.
    + simplify_eq. destruct desc; (eapply inv_goto; settle).
    + eapply inv_locking; [done..| |exact Hs]. done.
Qed.

Lemma walk_inv s ts i t c t' s' : sys_inv n s ts -> ts !! i = Some t ->
  (exists k, doing t = Walking k /\ walk_step c k t s = Some (t', s')) \/
  (exists k fd p, doing t = Visiting k fd p /\ visit_step c k p t s = Some (t', s')) ->
  sys_inv n s' (<[i := t']> ts).
Proof using Hn.
  intros Hv Hi [(k & Hd & Hs)|(k & fd & p & Hd & Hs)]; take_step; simplify_eq.
  - unfold walk_step, goto in Hs. destruct c; try done; simplify_eq.
    + case_match; (eapply inv_goto; settle).
    + destruct k as [|[]]; (eapply inv_goto; settle).
  - destruct Hl as [-> Hf].
    assert (access p s = s) as Ha by (apply (live_access s ts p Hv); eapply slot_live; [done..|by left|done]).
    destruct c; cbn [visit_step] in Hs; try (eapply release_inv; try exact Hs; settle);
      unfold goto in Hs; rewrite ?Ha in Hs; simplify_eq; destruct k as [|[]]; (eapply inv_goto; settle).
Qed.

Lemma remove_desc_inv s ts i t t' s' : sys_inv n s ts -> ts !! i = Some t ->
  match doing t with Close_lock _ | Close_slot _ | Close_downgrade _ | Read_unlock => True | _ => False end ->
  remove_desc_step (doing t) t s = Some (t', s') -> sys_inv n s' (<[i := t']> ts).
Proof using Hn.
  intros Hv Hi Hd Hs. take_step; cbn [remove_desc_step] in Hs; unfold goto in Hs.
  - lock_step Hs. eapply inv_goto; settle.
  - simplify_eq. pose proof (v_once _ _ _ Hv) as Ho. destruct (files s !! fd) as [p|] eqn:Hf.
    + eapply inv_balanced; try settle; fields; intros q; pose proof (Ho q); unfold held; fields;
        rewrite (slots_delete _ _ _ q Hf); [tally_refs|pose proof (ind_bounds p q); lia].
    + rewrite delete_id by done. eapply inv_balanced; settle.
  - lock_step Hs. destruct desc; (eapply inv_goto; settle).
  - lock_step Hs. eapply inv_goto; settle.
Qed.

Lemma create_desc_inv s ts i c t t' s' : sys_inv n s ts -> ts !! i = Some t ->
  match doing t with
  | Create_lock _ | Create_slot _ | Create_clear _ _ | Create_new _ | Create_install _ _ | Write_unlock => True
  | _ => False
  end ->
  create_desc_step c (doing t) t s = Some (t', s') -> sys_inv n s' (<[i := t']> ts).
Proof using Hn.
  intros Hv Hi Hd Hs. take_step; cbn [create_desc_step] in Hs; unfold goto in Hs.
  - lock_step Hs. eapply inv_goto; settle.
  - destruct c; repeat case_match; simplify_eq; (eapply inv_goto; settle).
  - simplify_eq. destruct Hl as [-> Hf]. pose proof (v_once _ _ _ Hv) as Ho.
    eapply inv_balanced; try settle; fields; try (split; [done|apply lookup_delete_eq]); intros q;
      pose proof (Ho q); unfold held; fields;
      rewrite (slots_delete _ _ _ q Hf); [tally_refs|pose proof (ind_bounds p q); lia].
  - destruct c; try done; try case_bool_decide as Hc; simplify_eq; try (eapply inv_goto; settle).
    destruct Hl as [-> Hf]. pose proof (fresh_slots s ts i _ Hv Hi p Hc eq_refl eq_refl).
    eapply inv_alloc; settle.
  - destruct Hl as (-> & Hf & H0).
    assert (access p s = s) as Ha by
      (apply (live_access s ts p Hv); eapply owned_live; [done..|]; left; pose proof (occ_bounds rs p); tally_refs).
    pose proof (v_once _ _ _ Hv) as Ho. destruct c; cbv zeta in Hs; rewrite ?Ha in Hs; simplify_eq;
      try (eapply inv_goto; settle);
      (eapply inv_balanced; try settle; fields; intros q; pose proof (Ho q); unfold held; fields;
       rewrite (slots_insert _ _ _ q Hf); [tally_refs|]);
      (destruct (decide (p = q)) as [<-|Hne]; [rewrite ind_same; lia|rewrite ind_other by done; lia]).
  - lock_step Hs. eapply inv_goto; settle.
Qed.

Lemma unref_inv s ts i t p rest t' s' : sys_inv n s ts -> ts !! i = Some t -> doing t = Dropping p rest ->
  unref_step p rest t s = Some (t', s') -> sys_inv n s' (<[i := t']> ts).
Proof using Hn.
  intros Hv Hi Hd Hs. take_step. simplify_eq. unfold unref_step, goto in Hs. simplify_eq.
  destruct Hl as [Hse Hl].
  assert (1 <= total s ts p) as Hlive.
  { eapply owned_live; [done..|]. left. pose proof (occ_bounds rs p). pose proof (act_owns_nonneg p rest). tally_refs. }
  eapply inv_unref; eauto; fields; intros; case_bool_decide; try settle; relying.
Qed.

Lemma destroy_inv s ts i c t p rest t' s' : sys_inv n s ts -> ts !! i = Some t -> doing t = Freeing p rest ->
  destroy_step c p rest t s = Some (t', s') -> sys_inv n s' (<[i := t']> ts).
Proof using Hn.
  intros Hv Hi Hd Hs. take_step. simplify_eq. destruct Hl as [Hse Hl].
  destruct c; cbn [destroy_step] in Hs; try (eapply release_inv; try exact Hs; settle);
    unfold goto in Hs; simplify_eq; (eapply inv_free; settle).
Qed.

Lemma thread_step_inv s ts i c t t' s' : sys_inv n s ts -> ts !! i = Some t ->
  thread_step c t s = Some (t', s') -> sys_inv n s' (<[i := t']> ts).
Proof using Hn.
  intros Hv Hi Hs. unfold thread_step in Hs. destruct (doing t) eqn:Hd;
    try (by eapply outside_inv); try (by eapply unref_inv); try (by eapply destroy_inv);
    try (by eapply walk_inv; [done..|left; eexists]);
    try (by eapply walk_inv; [done..|right; do 3 eexists]);
    try (rewrite <- Hd in Hs; eapply find_desc_inv; [done..|by rewrite Hd|exact Hs]);
    try (rewrite <- Hd in Hs; eapply remove_desc_inv; [done..|by rewrite Hd|exact Hs]);
    try (rewrite <- Hd in Hs; eapply create_desc_inv; [done..|by rewrite Hd|exact Hs]).
  take_step. lock_step Hs. eapply inv_goto; settle.
Qed.

Lemma inv_initial : sys_inv n (system_initial n).1 (system_initial n).2.
Proof using.
  assert (forall f : thread -> Z, f {| at_lock := Idle; doing := Outside; refs := [] |} = 0 ->
    sumZ f (system_initial n).2 = 0) as Hz.
  { intros f Hf. apply sumZ_all_zero. by apply Forall_replicate. }
  split.
  - apply length_replicate.
  - cbn. rewrite fmap_replicate. apply rtc_refl.
  - done.
  - intros p. unfold counted, total. rewrite !Hz by done.
    change (counts (system_initial n).1) with (∅ : gmap Z Z). by rewrite lookup_empty.
  - done.
  - done.
  - intros i t [-> _]%lookup_replicate. done.
  - intros i t [-> _]%lookup_replicate. cbv. lia.
Qed.

Lemma inv_reachable s ts : system_reachable n (s, ts) -> sys_inv n s ts.
Proof using Hn.
  intros Hr. change (sys_inv n (s, ts).1 (s, ts).2). revert Hr.
  apply (rtc_ind_r (fun st => sys_inv n st.1 st.2)); [apply inv_initial|].
  intros st st' _ Hs IH. destruct Hs as [s0 ts0 i t c t' s' Hi Hs]. by eapply thread_step_inv.
Qed.
End Invariant.

(** ** Properties *)

(** C16: whatever the threads do, no freed description is accessed, no assertion about a
    reference count fails, and no count overflows. *)
Theorem sharing_no_fault n s ts :
  8 * Z.of_nat n < MAX_READERS -> system_reachable n (s, ts) ->
  fault s = false /\ forall p c, counts s !! p = Some c -> 0 <= c < 2 ^ 31.
Proof.
  intros Hn Hr. pose proof (inv_reachable n Hn s ts Hr) as Hv. split; [apply (v_fault _ _ _ Hv)|].
  intros p c Hc. pose proof (v_count _ _ _ Hv p) as Hp. pose proof (total_small n Hn s ts p Hv).
  unfold counted in Hp. rewrite Hc in Hp. lia.
Qed.

(** C17: no reference leaks.  When no call is under way, the count of every description that
    exists is the number of epoll nodes that refer to it, and one more if it is in the table;
    each is in one slot at most, and those in the table and those with a node exist. *)
Theorem sharing_quiescent n s ts :
  8 * Z.of_nat n < MAX_READERS -> system_reachable n (s, ts) ->
  Forall (fun t => doing t = Outside /\ refs t = []) ts ->
  (forall p c, counts s !! p = Some c -> 1 <= c /\
    (c = occ (nodes s) p /\ (forall fd, files s !! fd <> Some p) \/
     c = 1 + occ (nodes s) p /\ exists fd, files s !! fd = Some p /\
       forall fd', files s !! fd' = Some p -> fd' = fd)) /\
  (forall p, (exists fd, files s !! fd = Some p) \/ p ∈ nodes s -> is_Some (counts s !! p)).
Proof.
  intros Hn Hr Hq. pose proof (inv_reachable n Hn s ts Hr) as Hv.
  assert (forall f : thread -> Z, (forall t, doing t = Outside -> refs t = [] -> f t = 0) -> sumZ f ts = 0) as Hz.
  { intros f Hf. apply sumZ_all_zero. eapply Forall_impl; [exact Hq|]. intros t [? ?]. by apply Hf. }
  assert (forall p, counted s (slots (files s) p + occ (nodes s) p) 0 p) as Hc.
  { intros p. pose proof (v_count _ _ _ Hv p) as Hp. unfold counted, total in *.
    rewrite (Hz (owns p)), (Hz (stale p)), (Hz (frees p)) in Hp;
      [case_match; lia|intros t Hd Ht; unfold owns, stale, frees; by rewrite Hd, ?Ht..]. }
  split.
  - intros p c Hp. specialize (Hc p). unfold counted in Hc. rewrite Hp in Hc. destruct Hc as (H0 & -> & Hf).
    pose proof (slots_nonneg (files s) p) as Hs. pose proof (v_once _ _ _ Hv p) as Ho.
    split; [unfold ind in Hf; case_match eqn:E; [done|]; b2p; lia|].
    destruct (decide (slots (files s) p = 0)) as [Hs0|Hs1]; [left|right]; (split; [lia|]).
    + intros fd Hfd. pose proof (slots_lookup _ _ _ Hfd). lia.
    + destruct (slots_some (files s) p) as [fd Hfd]; [lia|]. exists fd. split; [done|]. intros fd' Hfd'.
      destruct (decide (fd' = fd)) as [|Hne]; [done|]. pose proof (slots_two _ _ _ _ Hfd' Hfd Hne). lia.
  - intros p Hp. specialize (Hc p). unfold counted in Hc. case_match; [done|].
    pose proof (slots_nonneg (files s) p). pose proof (occ_bounds (nodes s) p).
    destruct Hp as [[fd Hfd]|Hp]; [pose proof (slots_lookup _ _ _ Hfd)|pose proof (occ_in p _ Hp)]; lia.
Qed.

(** ** Witnesses *)

(** A schedule: which thread steps next, with its choice. *)
Fixpoint schedule (l : list (nat * choice)) (st : threads) : option threads :=
  match l with
  | [] => Some st
  | (i, c) :: l' =>
      t ← st.2 !! i;
      '(t', s') ← thread_step c t st.1;
      schedule l' (s', <[i := t']> st.2)
  end.

Lemma schedule_steps l st st' : schedule l st = Some st' -> rtc system_step st st'.
Proof.
  revert st. induction l as [|[i c] l IH]; intros [s ts] Hr; cbn in *.
  - injection Hr as ->. reflexivity.
  - apply bind_Some in Hr as (t & Hi & Hr). apply bind_Some in Hr as ([t' s'] & Hs & Hr).
    eapply rtc_l; [by econstructor|]. by apply IH.
Qed.

(** Thread [i] makes a call and goes on for [k] steps. *)
Definition go (i : nat) (c : choice) (k : nat) : list (nat * choice) := (i, c) :: replicate k (i, Ask_end).

(** Thread 0 creates an epoll instance, the descriptor 6, and the descriptor 5; thread 1 looks that
    up and adds it to the instance. *)
Definition register : list (nat * choice) :=
  go 0 (Ask_create 6) 5 ++ go 0 (Ask_block 200) 6 ++ go 0 (Ask_create 5) 5 ++ go 0 (Ask_block 100) 6 ++
  go 1 (Ask_find 5) 8 ++ [(1%nat, Ask_keep 100)] ++ go 1 (Ask_unref 100) 1.

(** Thread 0 wants to close 5 while thread 1 looks it up once more, and has to wait for the lock;
    then it takes the node out of the instance and drops both references.  Thread 1 uses the
    description nobody else can find any more, and is the one to free it. *)
Definition use_after_close : list (nat * choice) :=
  register ++ go 1 (Ask_find 5) 4 ++ go 0 (Ask_close 5) 4 ++ go 1 Ask_end 5 ++
  go 0 Ask_end 7 ++ [(0%nat, Ask_slot 6); (0%nat, Ask_release 100)] ++ go 0 Ask_end 6 ++
  [(1%nat, Ask_use 100)] ++ go 1 (Ask_unref 100) 2.

Definition both_outside : list thread :=
  replicate 2 {| at_lock := Idle; doing := Outside; refs := [] |}.

Lemma sharing_no_fault_witness :
  exists s ts, schedule use_after_close (system_initial 2) = Some (s, ts) /\
    ts = both_outside /\ files s = {[6 := 200]} /\ counts s = {[200 := 1]} /\ fault s = false.
Proof.
  destruct (schedule use_after_close (system_initial 2)) as [[s ts]|] eqn:E; [|vm_compute in E; discriminate].
  destruct (sharing_no_fault 2 s ts eq_refl (schedule_steps _ _ _ E)) as [Hf _].
  exists s, ts. split; [done|]. vm_compute in E. injection E as <- <-. split_and!; (done || by vm_compute).
Defined.

Lemma sharing_quiescent_witness :
  exists s ts, schedule register (system_initial 2) = Some (s, ts) /\ ts = both_outside /\
    nodes s = [100] /\ counts s !! 100 = Some 2 /\ exists fd, files s !! fd = Some 100.
Proof.
  destruct (schedule register (system_initial 2)) as [[s ts]|] eqn:E; [|vm_compute in E; discriminate].
  pose proof (sharing_quiescent 2 s ts eq_refl (schedule_steps _ _ _ E)) as Hf.
  exists s, ts. split; [done|]. vm_compute in E. injection E as <- <-.
  destruct Hf as [Hf _]; [by repeat constructor|].
  destruct (Hf 100 2) as (_ & [[Hc _]|(_ & fd & Hfd & _)]); [done|done|]. split_and!; try done. by exists fd.
Defined.
