(* ===== verification/FileDesc.v ===== *)
(** * File descriptions (src/epoll_shim_ctx.c, first part; the file description tables of
    src/eventfd.c, src/timerfd.c, src/signalfd.c and src/epoll.c)

    A file description is a reference-counted object on the heap: a mutex, the
    O_NONBLOCK flag, a union with the state of one of the four kinds of
    descriptor, and a pointer to the table of functions of its kind.  The
    descriptions and the process-wide structure around them are the state
    [EpollShimCtx]; a kind's own code runs on its union member, the rest of
    the program being its world, so that an epoll instance reaches the
    descriptions it watches through the [Pollable] interface. *)

From S2P Require Import Prelude Kernel KqueueEvent EventfdCtx TimerfdCtx SignalfdCtx EpollNode EpollCtx.

(** ** Data *)

(** The addresses of the four static tables. *)
Inductive file_description_vtable : Type :=
| epollfd_vtable | eventfd_vtable | timerfd_vtable | signalfd_vtable.

#[export] Instance vtable_eq_dec : EqDecision file_description_vtable.
Proof. solve_decision. Defined.

(** The union; [no_ctx]: all bytes zero. *)
Inductive fd_ctx : Type :=
| no_ctx
| epollfd (c : EpollFDCtx)
| eventfd (c : EventFDCtx)
| timerfd (c : TimerFDCtx)
| signalfd (c : SignalFDCtx).

Record FileDescription := {
  refcount : Z;
  locked : bool;
  desc_flags : Z;
  ctx : fd_ctx;
  vtable : option file_description_vtable
}.
#[export] Instance eta_FileDescription : Eta FileDescription := fun r =>
  {| refcount := refcount r; locked := locked r; desc_flags := desc_flags r; ctx := ctx r;
     vtable := vtable r |}.

(** How the one thread of the model holds the reader/writer lock. *)
Inductive hold : Type := Released | HeldRead | HeldWrite.

Record EpollShimCtx := {
  descs : gmap Z FileDescription;
  open_files_ptr : Z;
  open_files : list Z;
  open_files_length : Z;
  rwlock : hold;
  step_detector_locked : bool;
  nr_fds_for_realtime_step_detector : Z;
  realtime_step_detector_generation : Z;
  epoll_shim_ctx_init_error : errno_t
}.
#[export] Instance eta_EpollShimCtx : Eta EpollShimCtx := fun r =>
  {| descs := descs r; open_files_ptr := open_files_ptr r; open_files := open_files r;
     open_files_length := open_files_length r; rwlock := rwlock r;
     step_detector_locked := step_detector_locked r;
     nr_fds_for_realtime_step_detector := nr_fds_for_realtime_step_detector r;
     realtime_step_detector_generation := realtime_step_detector_generation r;
     epoll_shim_ctx_init_error := epoll_shim_ctx_init_error r |}.

(** sizeof(FileDescription) *)
Definition SIZEOF_FILE_DESCRIPTION : Z := 192.

Section FileDesc.
Context {W : Type} `{!Platform, !Kernel W, !Fuel}.

Abbreviation F := (M (EpollShimCtx * W)).

(** ** The heap and the locks *)

Definition the_desc (p : Z) : F FileDescription := fun s =>
  match descs s.1 !! p with
  | Some d => Done d s
  | None => Stop DanglingPointer
  end.

Definition set_desc (p : Z) (f : FileDescription -> FileDescription) : F unit := fun s =>
  match descs s.1 !! p with
  | Some d => Done tt (s.1 <| descs := <[p := f d]> (descs s.1) |>, s.2)
  | None => Stop DanglingPointer
  end.

(** [pthread_mutex_lock(&desc->mutex)] *)
Definition lock_desc (p : Z) : F unit :=
  let* d := the_desc p in
  if locked d then stop_with Deadlock else set_desc p (fun d => d <| locked := true |>).

Definition unlock_desc (p : Z) : F unit := set_desc p (fun d => d <| locked := false |>).

(** The reader/writer lock, as one thread sees it. *)
Definition lock_write : F unit :=
  let* h := getf rwlock in
  match h with Released => self rwlock := HeldWrite | _ => stop_with Deadlock end.
Definition lock_read : F unit :=
  let* h := getf rwlock in
  match h with Released => self rwlock := HeldRead | _ => stop_with Deadlock end.
Definition unlock_write : F unit :=
  let* h := getf rwlock in
  match h with HeldWrite => self rwlock := Released | _ => stop_with Unreachable end.
Definition unlock_read : F unit :=
  let* h := getf rwlock in
  match h with HeldRead => self rwlock := Released | _ => stop_with Unreachable end.
Definition downgrade : F unit :=
  let* h := getf rwlock in
  match h with HeldWrite => self rwlock := HeldRead | _ => stop_with Unreachable end.

(** ** The union

    Code of one kind on the description at [p]; reading another member than the one
    that was stored is undefined. *)

Definition on_eventfd {A} (p : Z) (m : M (EventFDCtx * W) A) : F A := fun s =>
  match descs s.1 !! p with
  | None => Stop DanglingPointer
  | Some d =>
      match ctx d with
      | eventfd c =>
          match m (c, s.2) with
          | Done a (c', w) => Done a (s.1 <| descs := <[p := d <| ctx := eventfd c' |>]> (descs s.1) |>, w)
          | Stop why => Stop why
          end
      | _ => Stop Unreachable
      end
  end.

Definition on_timerfd {A} (p : Z) (m : M (TimerFDCtx * W) A) : F A := fun s =>
  match descs s.1 !! p with
  | None => Stop DanglingPointer
  | Some d =>
      match ctx d with
      | timerfd c =>
          match m (c, s.2) with
          | Done a (c', w) => Done a (s.1 <| descs := <[p := d <| ctx := timerfd c' |>]> (descs s.1) |>, w)
          | Stop why => Stop why
          end
      | _ => Stop Unreachable
      end
  end.

Definition on_signalfd {A} (p : Z) (m : M (SignalFDCtx * W) A) : F A := fun s =>
  match descs s.1 !! p with
  | None => Stop DanglingPointer
  | Some d =>
      match ctx d with
      | signalfd c =>
          match m (c, s.2) with
          | Done a (c', w) => Done a (s.1 <| descs := <[p := d <| ctx := signalfd c' |>]> (descs s.1) |>, w)
          | Stop why => Stop why
          end
      | _ => Stop Unreachable
      end
  end.

(** An epoll instance has all other descriptions within reach; afterwards its own is
    still there, or it has freed itself. *)
Definition on_epollfd {A} (p : Z) (m : M (EpollFDCtx * (EpollShimCtx * W)) A) : F A := fun s =>
  match descs s.1 !! p with
  | None => Stop DanglingPointer
  | Some d =>
      match ctx d with
      | epollfd c =>
          match m (c, s) with
          | Done a (c', s') =>
              match descs s'.1 !! p with
              | Some d' =>
                  Done a (s'.1 <| descs := <[p := d' <| ctx := epollfd c' |>]> (descs s'.1) |>, s'.2)
              | None => Stop DanglingPointer
              end
          | Stop why => Stop why
          end
      | _ => Stop Unreachable
      end
  end.

(** ** The step detector (src/epoll_shim_ctx.c, src/timerfd.c)

    A thread looks for jumps of the realtime clock while timers exist that such a
    jump concerns. *)

(** [epoll_shim_ctx_global] *)
Definition epoll_shim_ctx_global : F (result unit) :=
  let* ec := getf epoll_shim_ctx_init_error in ret (of_errno ec).

Definition lock_step_detector : F unit :=
  let* l := getf step_detector_locked in
  if l then stop_with Deadlock else self step_detector_locked := true.
Definition unlock_step_detector : F unit := self step_detector_locked := false.

(** [sigfillset] *)
Definition full_sigset : sigset_t := Z.ones (Z.of_nat SIG_MAXSIG).

Definition start_realtime_step_detection : F (result unit) :=
  try* offset := lift timerfd_ctx_get_monotonic_offset in
  try* oldset := call (sys_sigmask_set full_sigset) in
  let* ec :=
    try* args := call (sys_malloc 40) in
    let* r := call sys_pthread_create in
    match r with
    | Err ec => call_ (sys_free args) ;; ret (Err ec)
    | Ok _ => ret (Ok tt)
    end in
  call_ (sys_sigmask_set oldset) ;;
  ret ec.

(** [change] is -1, 0 or 1; the counters are of type uint64_t. *)
Definition epoll_shim_ctx_update_realtime_change_monitoring (change : Z) : F unit :=
  if change =? 0 then ret tt
  else
    lock_step_detector ;;
    let* old_nr_fds := getf nr_fds_for_realtime_step_detector in
    (if change <? 0 then
       c_assert (- change <=? old_nr_fds) ;;
       self nr_fds_for_realtime_step_detector := (u64 (old_nr_fds - - change)) ;;
       let* nr := getf nr_fds_for_realtime_step_detector in
       when (nr =? 0)
         (mod_self (fun x => x <| realtime_step_detector_generation :=
            u64 (realtime_step_detector_generation x + 1) |>))
     else
       self nr_fds_for_realtime_step_detector := (u64 (old_nr_fds + change)) ;;
       when (old_nr_fds =? 0) (let* _ := start_realtime_step_detection in ret tt)) ;;
    unlock_step_detector.

(** [desc->ctx.timerfd.clockid == CLOCK_REALTIME && desc->ctx.timerfd.is_abstime] *)
Definition can_jump (t : TimerFDCtx) : Z :=
  if bool_decide (clockid t = CLOCK_REALTIME) && is_abstime t then 1 else 0.

(** ** Functions in the tables *)

(** [timerfd_poll], [signalfd_poll]; [want]: [revents] is given. *)
Definition timerfd_poll (p kq : Z) (want : bool) : F (option Z) :=
  lock_desc p ;;
  let* r := on_timerfd p (timerfd_ctx_poll kq want) in
  unlock_desc p ;;
  ret r.

Definition signalfd_poll (p kq : Z) (want : bool) : F (option Z) :=
  lock_desc p ;;
  let* r := on_signalfd p (signalfd_ctx_poll kq want) in
  unlock_desc p ;;
  ret r.

(** [desc->vtable]; NULL must not be followed. *)
Definition the_vtable (p : Z) : F file_description_vtable :=
  let* d := the_desc p in
  match vtable d with Some v => ret v | None => stop_with DanglingPointer end.

(** [desc->vtable->poll_fun != NULL] *)
Definition has_poll_fun (v : file_description_vtable) : bool :=
  match v with timerfd_vtable | signalfd_vtable => true | _ => false end.

(** [desc->vtable->poll_fun(desc, fd, revents)] *)
Definition call_poll_fun (p kq : Z) (want : bool) : F (option Z) :=
  let* v := the_vtable p in
  match v with
  | timerfd_vtable => timerfd_poll p kq want
  | signalfd_vtable => signalfd_poll p kq want
  | _ => stop_with DanglingPointer
  end.

Definition timerfd_realtime_change (p kq : Z) : F unit :=
  lock_desc p ;;
  on_timerfd p (timerfd_ctx_realtime_change kq) ;;
  unlock_desc p.

(** ** References *)

(** [atomic_int] arithmetic *)
Definition i32 (z : Z) : Z := (z + 2 ^ 31) mod 2 ^ 32 - 2 ^ 31.

Definition file_description_ref (p : Z) : F unit :=
  let* d := the_desc p in
  c_assert (0 <? refcount d) ;;
  set_desc p (fun d => d <| refcount := i32 (refcount d + 1) |>).

(** [fd_poll] *)
Definition fd_poll (p fd : Z) (revents : option Z) : F (option Z) :=
  call_poll_fun p fd (bool_decide (is_Some revents)).

Definition timerfd_close (p : Z) : F (result unit) :=
  let* ec := epoll_shim_ctx_global in
  c_assert (is_ok ec) ;;
  let* old_can_jump := on_timerfd p (getf can_jump) in
  epoll_shim_ctx_update_realtime_change_monitoring (- old_can_jump) ;;
  on_timerfd p timerfd_ctx_terminate.

(** [pthread_mutex_destroy(&desc->mutex)]: destroying a locked mutex is undefined. *)
Definition destroy_mutex (p : Z) : F (result unit) :=
  let* d := the_desc p in
  if locked d then stop_with Unreachable else call sys_mutex_destroy.

(** [free(desc)] *)
Definition free_desc (p : Z) : F unit :=
  the_desc p ;;
  mod_self (fun x => x <| descs := delete p (descs x) |>) ;;
  call_ (sys_free p).

(** The functions from [file_description_unref] over [file_description_destroy] and
    [file_description_terminate] to [close_fun] call each other: closing an epoll instance
    drops the descriptions it watches.  Those have a [poll_fun] and drop nothing, so
    [unref_depth] levels are enough. *)
Fixpoint file_description_unref (n : nat) (p : Z) : F (result unit) :=
  match n with
  | O => stop_with OutOfFuel
  | S n' =>
      let pollable : Pollable (EpollShimCtx * W) :=
        {| poll_fun := fd_poll; ref_fun := file_description_ref;
           unref_fun d := (file_description_unref n' d ;; ret tt) |} in
      let* d := the_desc p in
      c_assert (0 <? refcount d) ;;
      set_desc p (fun d => d <| refcount := i32 (refcount d - 1) |>) ;;
      if refcount d =? 1 then
        (* file_description_destroy, file_description_terminate *)
        let* ec :=
          match vtable d with
          | None => ret (Ok tt)
          | Some epollfd_vtable => on_epollfd p epollfd_ctx_terminate
          | Some eventfd_vtable => on_eventfd p eventfd_ctx_terminate
          | Some timerfd_vtable => timerfd_close p
          | Some signalfd_vtable => on_signalfd p signalfd_ctx_terminate
          end in
        let* ec_local := destroy_mutex p in
        free_desc p ;;
        ret (first_error ec ec_local)
      else ret (Ok tt)
  end.

Definition unref_depth : nat := 2.
Definition unref (p : Z) : F (result unit) := file_description_unref unref_depth p.

(** The interface an epoll instance gets. *)
#[export] Instance fd_pollable : Pollable (EpollShimCtx * W) := {
  poll_fun := fd_poll;
  ref_fun := file_description_ref;
  unref_fun d := (unref d ;; ret tt)
}.

Definition fd_as_pollable_desc (desc : option Z) : F PollableDesc :=
  match desc with
  | None => ret None
  | Some p => let* v := the_vtable p in ret (if has_poll_fun v then Some p else None)
  end.

(** ** Creation *)

Definition file_description_create : F (result Z) :=
  try* p := call (sys_malloc SIZEOF_FILE_DESCRIPTION) in
  let* ec := call sys_mutex_init in
  match ec with
  | Err ec => call_ (sys_free p) ;; ret (Err ec)
  | Ok _ =>
      mod_self (fun x => x <| descs := <[p := {| refcount := 1; locked := false; desc_flags := 0;
        ctx := no_ctx; vtable := None |}]> (descs x) |>) ;;
      ret (Ok p)
  end.
End FileDesc.
