(* ===== verification/ShimCtx.v ===== *)
(** * The table of file descriptions (src/epoll_shim_ctx.c, second part)

    [open_files] maps a descriptor to the description behind it.  A writer
    lock protects its creation and removal; look-ups take the reader lock and a
    reference.  On top of it are the replacements of [close], [poll], [ppoll]
    and [fcntl], and the thread that looks for steps of the clock. *)

From S2P Require Import Prelude Kernel Rwlock KqueueEvent Timespec EventfdCtx TimerfdCtx SignalfdCtx EpollNode EpollCtx FileDesc.

Section ShimCtx.
Context {W : Type} `{!Platform, !Kernel W, !Fuel}.

Abbreviation F := (M (EpollShimCtx * W)).

(** The creation of the reader/writer lock, whose fields [rwlock] stands for. *)
Definition on_rwlock {A} (m : M (RWLock * W) A) : F A := fun s =>
  match m (rwlock_initial, s.2) with
  | Done a (_, w) => Done a (s.1, w)
  | Stop why => Stop why
  end.

(** [epoll_shim_ctx_init], the constructor: the global structure starts with all bytes 0. *)
Definition epoll_shim_ctx_init : F (result unit) :=
  mod_self (fun x => x <| open_files_ptr := 0 |> <| open_files := [] |> <| open_files_length := 0 |>
    <| rwlock := Released |> <| step_detector_locked := false |>
    <| nr_fds_for_realtime_step_detector := 0 |> <| realtime_step_detector_generation := 0 |>) ;;
  try* _ := call sys_mutex_init in
  let* ec := on_rwlock rwlock_init in
  match ec with
  | Err ec => call_ sys_mutex_destroy ;; ret (Err ec)
  | Ok _ => ret (Ok tt)
  end.

Definition epoll_shim_ctx_global_init : F unit :=
  let* r := epoll_shim_ctx_init in
  self epoll_shim_ctx_init_error := (match r with Ok _ => 0 | Err ec => ec end).

(** *** The array *)

(** [open_files[i]]: reading or writing outside of the array is undefined. *)
Definition slot (i : Z) : F Z :=
  let* files := getf open_files in
  match files !! Z.to_nat i with
  | Some p => if 0 <=? i then ret p else stop_with DanglingPointer
  | None => stop_with DanglingPointer
  end.

Definition set_slot (i p : Z) : F unit :=
  slot i ;; mod_self (fun x => x <| open_files := <[Z.to_nat i := p]> (open_files x) |>).

(** [while (space_needed <= kq) space_needed <<= 1;] *)
Fixpoint grow_space (n : nat) (space_needed kq : Z) : F Z :=
  match n with
  | O => stop_with OutOfFuel
  | S n' => if space_needed <=? kq then grow_space n' (u32 (Z.shiftl space_needed 1)) kq
            else ret space_needed
  end.

Definition make_room (kq : Z) : F (result unit) :=
  let* len := getf open_files_length in
  if len <=? kq then
    let* space_needed := grow_space 32 32 kq in
    match checked fits_u64 (space_needed * 8) with
    | None => ret (Err ENOMEM)
    | Some size =>
        let* old := getf open_files_ptr in
        try* new_files := call (sys_realloc old size) in
        mod_self (fun x => x <| open_files_ptr := new_files |>
          <| open_files := open_files x ++ repeat 0 (Z.to_nat (space_needed - len)) |>
          <| open_files_length := space_needed |>) ;;
        ret (Ok tt)
    end
  else ret (Ok tt).

(** On success the writer lock is held: [epoll_shim_ctx_install_desc] or
    [epoll_shim_ctx_drop_desc] releases it. *)
Definition epoll_shim_ctx_create_desc (flags : Z) : F (result (Z * Z)) :=
  lock_write ;;
  let* r := call (sys_kqueue1 flags) in
  match r with
  | Err ec => unlock_write ;; ret (Err ec)
  | Ok kq =>
      let* ec :=
        try* _ := make_room kq in
        let* p := slot kq in
        when (negb (p =? 0)) ((let* _ := unref p in ret tt) ;; set_slot kq 0) ;;
        file_description_create in
      match ec with
      | Ok desc => ret (Ok (kq, desc))
      | Err ec => call_ (sys_close kq) ;; unlock_write ;; ret (Err ec)
      end
  end.

Definition epoll_shim_ctx_install_desc (fd desc : Z) : F unit :=
  let* len := getf open_files_length in
  c_assert (u32 fd <? len) ;;
  set_slot fd desc ;;
  unlock_write.

Definition epoll_shim_ctx_drop_desc (fd desc : Z) : F unit :=
  (let* _ := unref desc in ret tt) ;;
  call_ (sys_close fd) ;;
  unlock_write.

(** *** Looking up *)

Definition epoll_shim_ctx_find_desc_impl (fd : Z) : F (option Z) :=
  let* len := getf open_files_length in
  if (fd <? 0) || (len <=? u32 fd) then ret None
  else
    let* p := slot fd in
    ret (if p =? 0 then None else Some p).

Definition epoll_shim_ctx_find_desc (fd : Z) : F (option Z) :=
  if fd <? 0 then ret None
  else
    lock_read ;;
    let* desc := epoll_shim_ctx_find_desc_impl fd in
    match desc with Some p => file_description_ref p | None => ret tt end ;;
    unlock_read ;;
    ret desc.

(** The loop of [epoll_shim_ctx_for_each_unlocked] over the indices [l]. *)
Definition for_each_slot (f : Z -> Z -> F unit) (l : list Z) : F unit :=
  iterM (fun i => let* p := slot i in when (negb (p =? 0)) (f p i)) l.

Definition epoll_shim_ctx_for_each_unlocked (f : Z -> Z -> F unit) : F unit :=
  let* len := getf open_files_length in
  for_each_slot f (seqZ 0 (Z.min len (INT_MAX + 1))).

(** *** Closing *)

(** [epollfd_lock], [epollfd_unlock], [epollfd_remove_fd] of src/epoll.c *)
Definition epollfd_lock (p : Z) : F unit :=
  let* d := the_desc p in when (bool_decide (vtable d = Some epollfd_vtable)) (lock_desc p).
Definition epollfd_unlock (p : Z) : F unit :=
  let* d := the_desc p in when (bool_decide (vtable d = Some epollfd_vtable)) (unlock_desc p).
Definition epollfd_remove_fd (p kq fd : Z) : F unit :=
  let* d := the_desc p in
  when (bool_decide (vtable d = Some epollfd_vtable)) (on_epollfd p (epollfd_ctx_remove_fd kq fd)).

Definition epoll_shim_ctx_remove_desc (fd : Z) : F (result unit) :=
  c_assert (0 <=? fd) ;;
  lock_write ;;
  let* desc := epoll_shim_ctx_find_desc_impl fd in
  match desc with Some _ => set_slot fd 0 | None => ret tt end ;;
  downgrade ;;
  epoll_shim_ctx_for_each_unlocked (fun p _ => epollfd_lock p) ;;
  epoll_shim_ctx_for_each_unlocked (fun p kq => epollfd_remove_fd p kq fd) ;;
  let* ec := match desc with Some p => unref p | None => ret (Ok tt) end in
  let* ec_local := call (sys_close fd) in
  epoll_shim_ctx_for_each_unlocked (fun p _ => epollfd_unlock p) ;;
  unlock_read ;;
  ret (first_error ec ec_local).

Definition epoll_shim_close (fd : Z) : F (result unit) :=
  let* g := epoll_shim_ctx_global in
  if (fd <? 0) || negb (is_ok g) then call (sys_close fd)
  else epoll_shim_ctx_remove_desc fd.

(** *** The step detector thread *)

Definition trigger_realtime_change_notification (p kq : Z) : F unit :=
  let* v := the_vtable p in
  match v with
  | timerfd_vtable => timerfd_realtime_change p kq
  | _ => ret tt
  end.

(** One round of the loop, once a second: [None] ends the thread, when the clock cannot be
    read or another thread has been started since; else the new offset. *)
Definition realtime_step_round (generation : Z) (monotonic_offset : timespec) : F (option timespec) :=
  call (sys_nanosleep {| tv_sec := 1; tv_nsec := 0 |}) ;;
  let* r := lift timerfd_ctx_get_monotonic_offset in
  match r with
  | Err _ => ret None
  | Ok new_monotonic_offset =>
      lock_step_detector ;;
      let* g := getf realtime_step_detector_generation in
      unlock_step_detector ;;
      if negb (g =? generation) then ret None
      else if ts_differ new_monotonic_offset monotonic_offset then
        lock_read ;;
        epoll_shim_ctx_for_each_unlocked trigger_realtime_change_notification ;;
        unlock_read ;;
        ret (Some new_monotonic_offset)
      else ret (Some monotonic_offset)
  end.

(** The thread, for at most [n] rounds. *)
Fixpoint realtime_step_detection (n : nat) (generation : Z) (monotonic_offset : timespec) : F unit :=
  match n with
  | O => stop_with OutOfFuel
  | S n' =>
      let* r := realtime_step_round generation monotonic_offset in
      match r with
      | None => ret tt
      | Some offset => realtime_step_detection n' generation offset
      end
  end.
End ShimCtx.
