(* ===== verification/ShimIo.v ===== *)
(** * Reading, writing and polling descriptors (src/epoll_shim_ctx.c, third part; the read
    and write functions of src/eventfd.c, src/timerfd.c and src/signalfd.c)

    A buffer is a list of bytes; the machine is little endian. *)

From S2P Require Import Prelude Kernel KqueueEvent Timespec Descriptors Compat EventfdCtx TimerfdCtx SignalfdCtx EpollNode EpollCtx FileDesc ShimCtx.

(** ** Bytes *)

(** [memcpy] of an unsigned integer of [n] bytes into a buffer and back. *)
Fixpoint le_bytes (n : nat) (v : Z) : list Z :=
  match n with
  | O => []
  | S n' => v mod 256 :: le_bytes n' (v / 256)
  end.

Fixpoint of_le_bytes (l : list Z) : Z :=
  match l with
  | [] => 0
  | b :: l' => b + 256 * of_le_bytes l'
  end.

(** [struct signalfd_siginfo], 128 bytes. *)
Definition siginfo_bytes (d : SignalFDCtxSiginfo) : list Z :=
  concat (map (le_bytes 4) [ssi_signo d; ssi_errno d; ssi_code d; ssi_pid d; ssi_uid d; ssi_fd d;
    ssi_tid d; ssi_band d; ssi_overrun d; ssi_trapno d; ssi_status d; ssi_int d]) ++
  concat (map (le_bytes 8) [ssi_ptr d; ssi_utime d; ssi_stime d; ssi_addr d]) ++
  le_bytes 2 (ssi_addr_lsb d) ++ repeat 0 46.

Section Io.
Context {W : Type} `{!Platform, !Kernel W, !Fuel}.

Abbreviation F := (M (EpollShimCtx * W)).

(** ** Blocking *)

Definition is_nonblock (d : FileDescription) : bool := has (desc_flags d) O_NONBLOCK.

(** [real_poll(&pfd, 1, -1)] on the kqueue *)
Definition wait_readable (kq : Z) : F (result (Z * list pollfd)) :=
  call (sys_poll [{| pfd_fd := kq; pfd_events := POLLIN; pfd_revents := 0 |}] (-1)).

(** *** eventfd *)

Fixpoint eventfd_ctx_read_or_block (n : nat) (p kq : Z) : F (result Z) :=
  match n with
  | O => stop_with OutOfFuel
  | S n' =>
      lock_desc p ;;
      let* ec := on_eventfd p (eventfd_ctx_read kq) in
      let* d := the_desc p in
      unlock_desc p ;;
      if is_nonblock d || match ec with Err ec => negb (ec =? EAGAIN) | Ok _ => true end
      then ret ec
      else
        try* _ := wait_readable kq in
        eventfd_ctx_read_or_block n' p kq
  end.

Definition eventfd_helper_read (p kq nbytes : Z) : F (result (list Z)) :=
  if negb (nbytes =? 8) then ret (Err EINVAL)
  else
    try* value := eventfd_ctx_read_or_block fuel p kq in
    ret (Ok (le_bytes 8 value)).

Definition eventfd_helper_write (p kq : Z) (buf : list Z) : F (result Z) :=
  if negb (Z.of_nat (length buf) =? 8) then ret (Err EINVAL)
  else
    lock_desc p ;;
    let* ec := on_eventfd p (eventfd_ctx_write kq (of_le_bytes buf)) in
    unlock_desc p ;;
    match ec with Err ec => ret (Err ec) | Ok _ => ret (Ok 8) end.

(** *** timerfd *)

Fixpoint timerfd_ctx_read_or_block (n : nat) (p kq : Z) : F (result Z) :=
  match n with
  | O => stop_with OutOfFuel
  | S n' =>
      lock_desc p ;;
      let* ec := on_timerfd p (timerfd_ctx_read kq) in
      let* d := the_desc p in
      unlock_desc p ;;
      let ec := match ec with Ok 0 => if is_nonblock d then Err EAGAIN else ec | _ => ec end in
      if is_nonblock d || match ec with Err ec => negb (ec =? EAGAIN) | Ok _ => true end
      then ret ec
      else
        try* _ := wait_readable kq in
        timerfd_ctx_read_or_block n' p kq
  end.

Definition timerfd_read (p kq nbytes : Z) : F (result (list Z)) :=
  if nbytes <? 8 then ret (Err EINVAL)
  else
    try* nr_expired := timerfd_ctx_read_or_block fuel p kq in
    ret (Ok (if nr_expired =? 0 then [] else le_bytes 8 nr_expired)).

(** *** signalfd *)

Fixpoint signalfd_ctx_read_or_block (n : nat) (p kq : Z) (force_nonblock : bool) :
    F (result SignalFDCtxSiginfo) :=
  match n with
  | O => stop_with OutOfFuel
  | S n' =>
      lock_desc p ;;
      let* ec := on_signalfd p (signalfd_ctx_read kq signalfd_siginfo_zero) in
      let* d := the_desc p in
      unlock_desc p ;;
      if (force_nonblock || is_nonblock d) ||
         match ec with Err ec => negb (ec =? EAGAIN) && negb (ec =? EWOULDBLOCK) | Ok _ => true end
      then ret ec
      else
        try* _ := wait_readable kq in
        signalfd_ctx_read_or_block n' p kq force_nonblock
  end.

(** The loop with room for [k] more structures, [buf] read so far. *)
Fixpoint signalfd_read_all (k : nat) (p kq : Z) (force_nonblock : bool) (buf : list Z) :
    F (result (list Z)) :=
  match k with
  | O => ret (Ok buf)
  | S k' =>
      let* r := signalfd_ctx_read_or_block fuel p kq force_nonblock in
      match r with
      | Ok siginfo => signalfd_read_all k' p kq true (buf ++ siginfo_bytes siginfo)
      | Err ec => ret (match buf with [] => Err ec | _ :: _ => Ok buf end)
      end
  end.

Definition signalfd_read (p kq nbytes : Z) : F (result (list Z)) :=
  if nbytes <? 128 then ret (Err EINVAL)
  else signalfd_read_all (Z.to_nat (nbytes / 128)) p kq false [].

(** ** read and write *)

Definition fd_context_default_read (p kq nbytes : Z) : F (result (list Z)) := ret (Err EINVAL).
Definition fd_context_default_write (p kq : Z) (buf : list Z) : F (result Z) := ret (Err EINVAL).

(** [desc->vtable->read_fun], [desc->vtable->write_fun] *)
Definition read_fun (v : file_description_vtable) : Z -> Z -> Z -> F (result (list Z)) :=
  match v with
  | epollfd_vtable => fd_context_default_read
  | eventfd_vtable => eventfd_helper_read
  | timerfd_vtable => timerfd_read
  | signalfd_vtable => signalfd_read
  end.

Definition write_fun (v : file_description_vtable) : Z -> Z -> list Z -> F (result Z) :=
  match v with
  | eventfd_vtable => eventfd_helper_write
  | _ => fd_context_default_write
  end.

Definition SSIZE_MAX : Z := 2 ^ 63 - 1.

(** The description of [fd], with a reference; [None]: the call is passed to the system. *)
Definition lookup_desc (fd : Z) : F (option Z) :=
  let* g := epoll_shim_ctx_global in
  if (fd <? 0) || negb (is_ok g) then ret None else epoll_shim_ctx_find_desc fd.

Definition epoll_shim_read (fd nbytes : Z) : F (result (list Z)) :=
  let* desc := lookup_desc fd in
  match desc with
  | None => call (sys_read fd nbytes)
  | Some p =>
      let* r :=
        if SSIZE_MAX <? nbytes then ret (Err EINVAL)
        else let* v := the_vtable p in read_fun v p fd nbytes in
      (let* _ := unref p in ret tt) ;;
      ret r
  end.

Definition epoll_shim_write (fd : Z) (buf : list Z) : F (result Z) :=
  let* desc := lookup_desc fd in
  match desc with
  | None => call (sys_write fd buf)
  | Some p =>
      let* r :=
        if SSIZE_MAX <? Z.of_nat (length buf) then ret (Err EINVAL)
        else let* v := the_vtable p in write_fun v p fd buf in
      (let* _ := unref p in ret tt) ;;
      ret r
  end.

(** ** poll and ppoll *)

(** [real_ppoll]: macOS has none. *)
Definition real_ppoll (fds : list pollfd) (timeout : option timespec) (sigmask : option sigset_t) :
    F (result (Z * list pollfd)) :=
  if is_os Apple then compat_ppoll fds timeout sigmask
  else call (sys_ppoll fds timeout sigmask).

(** The first pass: every description gets the chance to bring its kqueue up to date. *)
Definition prepare_polls (fds : list pollfd) : F unit :=
  iterM (fun f =>
    let* desc := epoll_shim_ctx_find_desc_impl (pfd_fd f) in
    match desc with
    | None => ret tt
    | Some p =>
        let* v := the_vtable p in
        when (has_poll_fun v) (let* _ := call_poll_fun p (pfd_fd f) false in ret tt)
    end) fds.

Definition i16 (z : Z) : Z := (z + 2 ^ 15) mod 2 ^ 16 - 2 ^ 15.

(** The second pass: what the descriptions say about a readable kqueue; [n] is the number of
    ready descriptors. *)
Fixpoint refine_polls (fds : list pollfd) (n : Z) : F (Z * list pollfd) :=
  match fds with
  | [] => ret (n, [])
  | f :: fds' =>
      let* (n, f) :=
        if pfd_revents f =? 0 then ret (n, f)
        else
          let* desc := epoll_shim_ctx_find_desc_impl (pfd_fd f) in
          match desc with
          | None => ret (n, f)
          | Some p =>
              let* v := the_vtable p in
              if has_poll_fun v then
                let* r := call_poll_fun p (pfd_fd f) true in
                match r with
                | None => stop_with Unreachable
                | Some revents =>
                    let f := {| pfd_fd := pfd_fd f; pfd_events := pfd_events f;
                                pfd_revents := i16 revents |} in
                    ret (if pfd_revents f =? 0 then n - 1 else n, f)
                end
              else ret (n, f)
          end in
      let* (n, fds'') := refine_polls fds' n in
      ret (n, f :: fds'')
  end.

(** [deadline] and [timeout] are both given or both NULL. *)
Fixpoint epoll_shim_ppoll_deadline (k : nat) (fds : list pollfd)
    (deadline_timeout : option (timespec * timespec)) (sigmask : option sigset_t) :
    F (result (Z * list pollfd)) :=
  match k with
  | O => stop_with OutOfFuel
  | S k' =>
      lock_read ;; prepare_polls fds ;; unlock_read ;;
      try* (n, fds) := real_ppoll fds (snd <$> deadline_timeout) sigmask in
      if n =? 0 then ret (Ok (0, fds))
      else
        lock_read ;;
        let* (n, fds) := refine_polls fds n in
        unlock_read ;;
        match deadline_timeout with
        | None => if n =? 0 then epoll_shim_ppoll_deadline k' fds None sigmask else ret (Ok (n, fds))
        | Some (deadline, timeout) =>
            if (n =? 0) && negb (ts_is_zero timeout) then
              try* current_time := call (sys_clock_gettime CLOCK_MONOTONIC) in
              let timeout := timespecsub deadline current_time in
              let timeout := if tv_sec timeout <? 0 then ts_zero else timeout in
              epoll_shim_ppoll_deadline k' fds (Some (deadline, timeout)) sigmask
            else ret (Ok (n, fds))
        end
  end.

Definition epoll_shim_ppoll_impl (fds : list pollfd) (tmo_p : option timespec)
    (sigmask : option sigset_t) : F (result (Z * list pollfd)) :=
  match tmo_p with
  | None => epoll_shim_ppoll_deadline fuel fds None sigmask
  | Some tmo =>
      if ts_is_zero tmo then epoll_shim_ppoll_deadline fuel fds (Some (ts_zero, ts_zero)) sigmask
      else if negb (timespec_is_valid tmo) then ret (Err EINVAL)
      else
        try* now := call (sys_clock_gettime CLOCK_MONOTONIC) in
        let* deadline := timespecadd_safe now tmo in
        match deadline with
        | None => ret (Err EINVAL)
        | Some deadline => epoll_shim_ppoll_deadline fuel fds (Some (deadline, tmo)) sigmask
        end
  end.

Definition epoll_shim_ppoll (fds : list pollfd) (tmo_p : option timespec)
    (sigmask : option sigset_t) : F (result (Z * list pollfd)) :=
  let* g := epoll_shim_ctx_global in
  if negb (is_ok g) then real_ppoll fds tmo_p sigmask
  else epoll_shim_ppoll_impl fds tmo_p sigmask.

(** The timeout of [poll] in milliseconds. *)
Definition poll_timeout (timeout : Z) : option timespec :=
  if 0 <=? timeout then
    Some {| tv_sec := Z.quot timeout 1000; tv_nsec := Z.rem timeout 1000 * 1000000 |}
  else None.

Definition epoll_shim_poll (fds : list pollfd) (timeout : Z) : F (result (Z * list pollfd)) :=
  epoll_shim_ppoll fds (poll_timeout timeout) None.

(** ** fcntl *)

Definition epoll_shim_fcntl (fd : Z) (cmd : fcntl_cmd) (arg : Z) : F (result Z) :=
  let real := call (sys_fcntl fd cmd arg) in
  match cmd with
  | F_SETFL =>
      let* desc := lookup_desc fd in
      match desc with
      | None => real
      | Some p =>
          lock_desc p ;;
          let* r := call (sys_ioctl_fionbio fd (if has arg O_NONBLOCK then 1 else 0)) in
          let ec := match r with Err ec => if ec =? ENOTTY then Ok tt else Err ec | Ok _ => Ok tt end in
          when (is_ok ec) (set_desc p (fun d => d <| desc_flags := Z.land arg O_NONBLOCK |>)) ;;
          unlock_desc p ;;
          (let* _ := unref p in ret tt) ;;
          ret (match ec with Ok _ => Ok 0 | Err ec => Err ec end)
      end
  | F_GETFL =>
      let* desc := lookup_desc fd in
      match desc with
      | None => real
      | Some p =>
          lock_desc p ;;
          let* r := call (sys_fcntl fd F_GETFL 0) in
          let* d := the_desc p in
          unlock_desc p ;;
          (let* _ := unref p in ret tt) ;;
          ret (match r with
               | Ok result => Ok (Z.lor result (Z.land (desc_flags d) O_NONBLOCK))
               | Err ec => Err ec
               end)
      end
  | _ => real
  end.
End Io.
