(* ===== verification/Api.v ===== *)
(** * The functions of the library (src/epoll.c, src/eventfd.c, src/timerfd.c,
    src/signalfd.c)

    Arguments are checked, the description is looked up or created and the code
    of its kind runs under its mutex; waiting happens outside of it.  A result
    is the return value, or the [errno] of a call that returned -1; NULL is
    [None]. *)

From S2P Require Import Prelude Kernel KqueueEvent Timespec EventfdCtx TimerfdCtx SignalfdCtx EpollNode EpollCtx FileDesc ShimCtx ShimIo.

Definition EPOLL_CLOEXEC : Z := O_CLOEXEC.
Definition EFD_SEMAPHORE : Z := 1.
Definition EFD_CLOEXEC : Z := O_CLOEXEC.
Definition EFD_NONBLOCK : Z := O_NONBLOCK.
Definition TFD_CLOEXEC : Z := O_CLOEXEC.
Definition TFD_NONBLOCK : Z := O_NONBLOCK.
Definition TFD_TIMER_ABSTIME : Z := 1.
Definition TFD_TIMER_CANCEL_ON_SET : Z := 2.
Definition SFD_CLOEXEC : Z := O_CLOEXEC.
Definition SFD_NONBLOCK : Z := O_NONBLOCK.

(** [flags & ~allowed] *)
Definition other_flags (flags allowed : Z) : bool := negb (Z.ldiff flags allowed =? 0).

(** sizeof(struct epoll_event): packed on x86-64. *)
Definition SIZEOF_EPOLL_EVENT : Z := 12.

Section Api.
Context {W : Type} `{!Platform, !Kernel W, !Fuel}.

Abbreviation F := (M (EpollShimCtx * W)).

(** ** Creating descriptors

    The four [*_impl] functions differ in the kind of the description and its
    initialisation, which gets the new descriptor. *)
Definition create_descriptor (flags : Z) (v : file_description_vtable) (zero : fd_ctx)
    (init : Z -> Z -> F (result unit)) : F (result Z) :=
  try* _ := epoll_shim_ctx_global in
  try* (fd, desc) := epoll_shim_ctx_create_desc (Z.land flags (Z.lor O_CLOEXEC O_NONBLOCK)) in
  set_desc desc (fun d => d <| desc_flags := Z.land flags O_NONBLOCK |> <| ctx := zero |>) ;;
  let* ec := init desc fd in
  match ec with
  | Ok _ =>
      set_desc desc (fun d => d <| vtable := Some v |>) ;;
      epoll_shim_ctx_install_desc fd desc ;;
      ret (Ok fd)
  | Err ec => epoll_shim_ctx_drop_desc fd desc ;; ret (Err ec)
  end.

(** Union members with all bytes zero. *)
Definition zero_event : KQueueEvent := {| is_triggered_ := false; self_pipe_ := (0, 0) |}.
Definition zero_epollfd : EpollFDCtx :=
  {| nodes := ∅; poll_fds := []; poll_fds_size := 0; registered_fds := ∅; registered_fds_size := 0;
     kevs := 0; kevs_length := 0; pfds := 0; pfds_length := 0; nr_polling_threads := 0;
     ctx_self_pipe := (0, 0) |}.
Definition zero_eventfd : EventFDCtx :=
  {| flags_ := 0; kqueue_event_ := zero_event; counter_ := 0 |}.
Definition zero_timerfd : TimerFDCtx :=
  {| is_abstime := false; clockid := CLOCK_REALTIME; timer_type := TIMER_TYPE_UNSPECIFIED;
     is_cancel_on_set := false; force_cancel := false; monotonic_offset := ts_zero;
     current_itimerspec := its_zero; nr_expirations := 0 |}.
Definition zero_signalfd : SignalFDCtx := {| sigs := 0; kqueue_event := zero_event |}.

Definition epoll_create_common (flags : Z) : F (result Z) :=
  create_descriptor flags epollfd_vtable (epollfd zero_epollfd)
    (fun desc _ => on_epollfd desc epollfd_ctx_init).

Definition epoll_create (size : Z) : F (result Z) :=
  if size <=? 0 then ret (Err EINVAL) else epoll_create_common 0.

Definition epoll_create1 (flags : Z) : F (result Z) :=
  if other_flags flags EPOLL_CLOEXEC then ret (Err EINVAL) else epoll_create_common flags.

Definition eventfd_create (initval flags : Z) : F (result Z) :=
  if other_flags flags (Z.lor EFD_SEMAPHORE (Z.lor EFD_CLOEXEC EFD_NONBLOCK)) then ret (Err EINVAL)
  else
    create_descriptor flags eventfd_vtable (eventfd zero_eventfd)
      (fun desc fd => on_eventfd desc
         (eventfd_ctx_init fd initval
            (if has flags EFD_SEMAPHORE then EVENTFD_CTX_FLAG_SEMAPHORE else 0))).

Definition timerfd_create (clockid flags : Z) : F (result Z) :=
  if bool_decide (clockid_of_int clockid = None) then ret (Err EINVAL)
  else if other_flags flags (Z.lor TFD_CLOEXEC TFD_NONBLOCK) then ret (Err EINVAL)
  else
    create_descriptor flags timerfd_vtable (timerfd zero_timerfd)
      (fun desc _ => on_timerfd desc (timerfd_ctx_init clockid)).

(** The answer for a descriptor that is not of the expected kind. *)
Definition not_this_kind {A} (fd : Z) : F (result A) :=
  if fd <? 0 then ret (Err EBADF)
  else
    let* r := call (sys_fstat fd) in
    ret (Err (if is_ok r then EINVAL else EBADF)).

Definition signalfd_create (fd : Z) (sigs : option sigset_t) (flags : Z) : F (result Z) :=
  match sigs with
  | None => ret (Err EINVAL)
  | Some sigs =>
      if other_flags flags (Z.lor SFD_NONBLOCK SFD_CLOEXEC) then ret (Err EINVAL)
      else if negb (fd =? -1) then not_this_kind fd
      else
        create_descriptor flags signalfd_vtable (signalfd zero_signalfd)
          (fun desc sfd => on_signalfd desc (signalfd_ctx_init sfd sigs))
  end.

(** ** Calls on a descriptor of a kind

    [desc] is looked up with a reference, which is dropped on every way out. *)
Definition with_desc {A} (v : file_description_vtable) (fd : Z) (m : Z -> F (result A)) :
    F (result A) :=
  try* _ := epoll_shim_ctx_global in
  let* desc := epoll_shim_ctx_find_desc fd in
  match desc with
  | None => not_this_kind fd
  | Some p =>
      let* d := the_desc p in
      let* r := if bool_decide (vtable d = Some v) then m p else not_this_kind fd in
      (let* _ := unref p in ret tt) ;;
      ret r
  end.

(** *** epoll *)

Definition epoll_ctl (fd op fd2 : Z) (ev : option epoll_event) : F (result unit) :=
  if negb (bool_decide (is_Some ev)) && negb (op =? EPOLL_CTL_DEL) then ret (Err EFAULT)
  else
    with_desc epollfd_vtable fd (fun desc =>
      let* fd2_desc := if op =? EPOLL_CTL_ADD then epoll_shim_ctx_find_desc fd2 else ret None in
      lock_desc desc ;;
      let* pollable := fd_as_pollable_desc fd2_desc in
      let* ec := on_epollfd desc (epollfd_ctx_ctl fd op fd2 pollable ev) in
      unlock_desc desc ;;
      match fd2_desc with Some p => (let* _ := unref p in ret tt) | None => ret tt end ;;
      ret ec).

(** One round of waiting outside of the mutex: the polled descriptors and the kqueue. *)
Definition block_on (desc kq : Z) (timeout : option timespec) (sigs : option sigset_t) :
    F (result unit) :=
  lock_desc desc ;;
  let* size := on_epollfd desc (getf poll_fds_size) in
  match checked fits_u64 ((1 + size) * 8) with
  | None => unlock_desc desc ;; ret (Err ENOMEM)
  | Some bytes =>
      let* buf := call (sys_malloc bytes) in
      match buf with
      | Err ec => unlock_desc desc ;; ret (Err ec)
      | Ok buf =>
          let* pfds := on_epollfd desc (epollfd_ctx_fill_pollfds kq) in
          on_epollfd desc (mod_self (fun c => c <| nr_polling_threads := nr_polling_threads c + 1 |>)) ;;
          unlock_desc desc ;;
          let* n := real_ppoll pfds timeout sigs in
          call_ (sys_free buf) ;;
          on_epollfd desc (mod_self (fun c => c <| nr_polling_threads := nr_polling_threads c - 1 |>)) ;;
          ret (match n with Ok _ => Ok tt | Err ec => Err ec end)
      end
  end.

Fixpoint epollfd_ctx_wait_or_block (n : nat) (desc kq cnt : Z)
    (deadline_timeout : option (timespec * timespec)) (sigs : option sigset_t) :
    F (result (list epoll_event)) :=
  match n with
  | O => stop_with OutOfFuel
  | S n' =>
      lock_desc desc ;;
      let* r := on_epollfd desc (epollfd_ctx_wait kq cnt) in
      unlock_desc desc ;;
      match r with
      | Err ec => ret (Err ec)
      | Ok ((_ :: _) as ev) => ret (Ok ev)
      | Ok [] =>
          match deadline_timeout with
          | None =>
              try* _ := block_on desc kq None sigs in
              epollfd_ctx_wait_or_block n' desc kq cnt None sigs
          | Some (deadline, timeout) =>
              if ts_is_zero timeout then ret (Ok [])
              else
                try* _ := block_on desc kq (Some timeout) sigs in
                try* current_time := call (sys_clock_gettime CLOCK_MONOTONIC) in
                let timeout := timespecsub deadline current_time in
                let timeout := if tv_sec timeout <? 0 then ts_zero else timeout in
                epollfd_ctx_wait_or_block n' desc kq cnt (Some (deadline, timeout)) sigs
          end
      end
  end.

(** [to] milliseconds: the deadline and the timeout. *)
Definition timeout_to_deadline (to : Z) : F (result (timespec * timespec)) :=
  c_assert (0 <=? to) ;;
  if to =? 0 then ret (Ok (ts_zero, ts_zero))
  else
    try* now := call (sys_clock_gettime CLOCK_MONOTONIC) in
    let timeout := {| tv_sec := Z.quot to 1000; tv_nsec := Z.rem to 1000 * 1000000 |} in
    let* deadline := timespecadd_safe now timeout in
    match deadline with
    | None => ret (Err EINVAL)
    | Some deadline => ret (Ok (deadline, timeout))
    end.

Definition epoll_pwait (fd cnt to : Z) (sigs : option sigset_t) : F (result (list epoll_event)) :=
  if (cnt <? 1) || (Z.quot INT_MAX SIZEOF_EPOLL_EVENT <? cnt) then ret (Err EINVAL)
  else
    with_desc epollfd_vtable fd (fun desc =>
      if 0 <=? to then
        try* dt := timeout_to_deadline to in
        epollfd_ctx_wait_or_block fuel desc fd cnt (Some dt) sigs
      else epollfd_ctx_wait_or_block fuel desc fd cnt None sigs).

Definition epoll_wait (fd cnt to : Z) : F (result (list epoll_event)) := epoll_pwait fd cnt to None.

(** *** eventfd *)

Definition eventfd_read (fd : Z) : F (result (list Z)) :=
  let* r := epoll_shim_read fd 8 in
  match r with
  | Ok l => if Z.of_nat (length l) =? 8 then ret (Ok l) else ret (Err 0)
  | Err ec => ret (Err ec)
  end.

Definition eventfd_write (fd value : Z) : F (result unit) :=
  let* r := epoll_shim_write fd (le_bytes 8 value) in
  match r with
  | Ok n => ret (if n =? 8 then Ok tt else Err 0)
  | Err ec => ret (Err ec)
  end.

(** *** timerfd *)

Definition timerfd_settime (fd flags : Z) (new : option itimerspec) (want_old : bool) :
    F (result unit * option itimerspec) :=
  match new with
  | None => ret (Err EFAULT, None)
  | Some new =>
      if other_flags flags (Z.lor TFD_TIMER_ABSTIME TFD_TIMER_CANCEL_ON_SET) then ret (Err EINVAL, None)
      else
        let* r := with_desc timerfd_vtable fd (fun desc =>
          lock_desc desc ;;
          let* old_can_jump := on_timerfd desc (getf can_jump) in
          let* (ec, old) := on_timerfd desc
            (timerfd_ctx_settime fd (has flags TFD_TIMER_ABSTIME) (has flags TFD_TIMER_CANCEL_ON_SET)
               new want_old) in
          when match ec with Ok _ => true | Err ec => ec =? ECANCELED end
            (let* new_can_jump := on_timerfd desc (getf can_jump) in
             epoll_shim_ctx_update_realtime_change_monitoring (new_can_jump - old_can_jump)) ;;
          unlock_desc desc ;;
          ret (Ok (ec, old))) in
        ret (match r with Ok r => r | Err ec => (Err ec, None) end)
  end.

Definition timerfd_gettime (fd : Z) : F (result itimerspec) :=
  with_desc timerfd_vtable fd (fun desc =>
    lock_desc desc ;;
    let* cur := on_timerfd desc timerfd_ctx_gettime in
    unlock_desc desc ;;
    ret cur).
End Api.
