(* ===== verification/ShimInv.v ===== *)
(** * The invariant of the table of file descriptions

    What holds of the process-wide structure between and during calls: which
    descriptions exist, who refers to them, which locks are held and how many
    timers the step detector works for; and the rules of the primitive
    operations.  Epoll instances are left out here. *)

From S2P Require Import Prelude Kernel KqueueEvent EventfdCtx TimerfdCtx SignalfdCtx EpollNode EpollCtx FileDesc ShimCtx Frame.

(** ** What the code relies on: malloc(3), realloc(3), free(3), kqueue(2) *)

Class MemoryLaws (W : Type) `{!Kernel W} := {
  in_use : W -> Z -> Prop;
  law_in_use {A} (c : syscall A) w p : manages_memory c = false ->
    in_use w p -> in_use (kernel_step c w).2 p;
  law_freed w q p : p <> q -> in_use w p -> in_use (kernel_step (sys_free q) w).2 p;
  law_new_block w n :
    let (r, w') := kernel_step (sys_malloc n) w in
    (forall p, in_use w p -> in_use w' p) /\
    match r with Ok p => p <> 0 /\ ~ in_use w p /\ in_use w' p | Err _ => True end;
  law_resized w q n :
    let (r, w') := kernel_step (sys_realloc q n) w in
    (forall p, p <> q -> in_use w p -> in_use w' p) /\
    match r with
    | Ok p => p <> 0 /\ (p = q \/ ~ in_use w p) /\ in_use w' p
    | Err _ => in_use w q -> in_use w' q
    end;
  law_descriptor w fl :
    match (kernel_step (sys_kqueue1 fl) w).1 with Ok fd => 0 <= fd <= INT_MAX | Err _ => True end
}.

(** ** The invariant *)

(** References to [p] among the borrowed ones. *)
Definition held (e : list Z) (p : Z) : Z := sumZ (fun q => if q =? p then 1 else 0) e.

(** 1 for a timer that a jump of the clock concerns. *)
Definition jump (d : FileDescription) : Z :=
  match vtable d, ctx d with
  | Some timerfd_vtable, timerfd t => can_jump t
  | _, _ => 0
  end.

Definition jumpers (m : gmap Z FileDescription) : Z := map_fold (fun _ d n => jump d + n) 0 m.

(** The union holds what the table of functions expects. *)
Definition kind_ok (o : stop -> Prop) (d : FileDescription) : Prop :=
  match vtable d, ctx d with
  | Some eventfd_vtable, eventfd c => counted c
  | Some timerfd_vtable, timerfd _ => o AssertFailed
  | Some signalfd_vtable, signalfd _ => o AssertFailed
  | _, _ => False
  end.

(** [e]: references borrowed by the running call, [lk]: the description whose mutex it
    holds, [loose]: a description that is in no slot. *)
Record desc_ok (o : stop -> Prop) (e : list Z) (lk loose : option Z) (p : Z) (d : FileDescription) :
    Prop := {
  do_refcount : refcount d = 1 + held e p;
  do_locked : locked d = bool_decide (lk = Some p);
  do_flags : Z.land (desc_flags d) O_NONBLOCK = desc_flags d;
  do_kind : kind_ok o d \/ loose = Some p /\ vtable d = None
}.

Record table_ok (loose : option Z) (x : EpollShimCtx) : Prop := {
  to_length : open_files_length x = Z.of_nat (length (open_files x));
  to_bound : open_files_length x <= 2 ^ 31;
  to_live i p : open_files x !! i = Some p -> p <> 0 ->
    is_Some (descs x !! p) /\ loose <> Some p;
  to_once i j p : open_files x !! i = Some p -> open_files x !! j = Some p -> p <> 0 -> i = j;
  to_owned p : is_Some (descs x !! p) -> p <> 0 /\ (loose = Some p \/ p ∈ open_files x)
}.

(** Addresses of the structure that are in use. *)
Definition live (x : EpollShimCtx) (p : Z) : Prop :=
  is_Some (descs x !! p) \/ p = open_files_ptr x /\ p <> 0.

Definition reserved {W} `{!Kernel W, !MemoryLaws W} (x : EpollShimCtx) (w : W) : Prop :=
  forall p, live x p -> in_use w p.

#[export] Instance reserved_neutral {W} `{!Kernel W, !MemoryLaws W} x : Neutral (reserved (W := W) x).
Proof. intros A c w Hc Hw p Hp. apply law_in_use; [done|by apply Hw]. Qed.

Record shim_inv {W} `{!Kernel W, !MemoryLaws W} (o : stop -> Prop) (e : list Z) (lk loose : option Z)
    (h : hold) (x : EpollShimCtx) (w : W) : Prop := {
  si_table : table_ok loose x;
  si_descs p d : descs x !! p = Some d -> desc_ok o e lk loose p d;
  si_rwlock : rwlock x = h;
  si_step_lock : step_detector_locked x = false;
  si_init : epoll_shim_ctx_init_error x = 0;
  si_count : nr_fds_for_realtime_step_detector x = jumpers (descs x);
  si_array : descs x !! open_files_ptr x = None;
  si_memory : reserved x w
}.

(** ** Counting *)

Arguments held : simpl never.

Lemma held_nil p : held [] p = 0.
Proof. done. Qed.

Lemma held_cons e p q : held (q :: e) p = (if q =? p then 1 else 0) + held e p.
Proof. done. Qed.

Lemma held_here e p : held (p :: e) p = 1 + held e p.
Proof. by rewrite held_cons, Z.eqb_refl. Qed.

Lemma held_other e p q : q <> p -> held (q :: e) p = held e p.
Proof. intros H. rewrite held_cons. by rewrite (proj2 (Z.eqb_neq q p) H). Qed.

Lemma held_bounds e p : 0 <= held e p <= Z.of_nat (length e).
Proof. induction e as [|q e IH]; [done|]. rewrite held_cons. cbn [length]. destruct (q =? p); lia. Qed.

Lemma jumpers_insert m p d : m !! p = None -> jumpers (<[p := d]> m) = jump d + jumpers m.
Proof. intros H. unfold jumpers. rewrite map_fold_insert_L; [done|intros; lia|done]. Qed.

Lemma jumpers_delete m p d : m !! p = Some d -> jumpers (delete p m) = jumpers m - jump d.
Proof.
  intros H. rewrite <- (insert_delete_id m p d H) at 2.
  rewrite jumpers_insert by apply lookup_delete_eq. lia.
Qed.

Lemma jumpers_update m p d d' : m !! p = Some d ->
  jumpers (<[p := d']> m) = jumpers m - jump d + jump d'.
Proof.
  intros H. rewrite <- insert_delete_eq, jumpers_insert by apply lookup_delete_eq.
  rewrite (jumpers_delete m p d H). lia.
Qed.

Lemma jump_bounds d : 0 <= jump d <= 1.
Proof. unfold jump, can_jump. repeat case_match; lia. Qed.

Lemma jumpers_bounds m : 0 <= jumpers m <= Z.of_nat (size m).
Proof.
  induction m as [|p d m Hp IH] using map_ind; [done|].
  rewrite jumpers_insert, map_size_insert_None by done. pose proof (jump_bounds d). lia.
Qed.

Lemma size_list_le (l : list Z) : (size (list_to_set l : gset Z) <= length l)%nat.
Proof.
  induction l as [|a l IH]; [done|]. cbn. rewrite size_union_alt, size_singleton.
  assert (size (list_to_set l ∖ {[a]} : gset Z) <= size (list_to_set l : gset Z))%nat
    by (apply subseteq_size; set_solver). lia.
Qed.

(** All descriptions are accounted for, so there are not more than descriptors. *)
Lemma table_size loose x : table_ok loose x -> Z.of_nat (size (descs x)) <= 2 ^ 31 + 1.
Proof.
  intros Ht. pose proof (to_length _ _ Ht). pose proof (to_bound _ _ Ht).
  set (l := (default 0%Z loose :: open_files x)).
  assert (dom (descs x) ⊆ (list_to_set l : gset Z)) as Hsub.
  { intros p Hp%elem_of_dom. apply elem_of_list_to_set.
    destruct (to_owned _ _ Ht p Hp) as [_ [->|Hin]]; [by left|by right]. }
  apply subseteq_size in Hsub. rewrite size_dom in Hsub.
  pose proof (size_list_le l) as Hl. subst l. cbn [length] in Hl. lia.
Qed.

(** ** Updates of one description *)

Definition set_d (p : Z) (d : FileDescription) (x : EpollShimCtx) : EpollShimCtx :=
  x <| descs := <[p := d]> (descs x) |>.

Definition with_detector (nr gen : Z) (x : EpollShimCtx) : EpollShimCtx :=
  x <| nr_fds_for_realtime_step_detector := nr |> <| realtime_step_detector_generation := gen |>.

Lemma set_d_lookup p d x : descs (set_d p d x) !! p = Some d.
Proof. unfold set_d. fields. apply lookup_insert_eq. Qed.

Lemma set_d_set_d p d d' x : set_d p d' (set_d p d x) = set_d p d' x.
Proof. unfold set_d. fields. by rewrite insert_insert_eq. Qed.

Lemma set_d_id p d x : descs x !! p = Some d -> set_d p d x = x.
Proof. intros H. unfold set_d. fields. rewrite insert_id by done. by destruct x. Qed.

Lemma live_set_d p d x q : is_Some (descs x !! p) -> live (set_d p d x) q <-> live x q.
Proof.
  intros Hp. unfold live, set_d. fields. rewrite lookup_insert. case_decide as E; [subst|done].
  split; intros [?|?]; eauto.
Qed.

Lemma table_set_d loose x p d d' : table_ok loose x -> descs x !! p = Some d ->
  table_ok loose (set_d p d' x).
Proof.
  intros [Hl Hb Hs Ho Hw] Hp.
  assert (forall q, is_Some (descs (set_d p d' x) !! q) <-> is_Some (descs x !! q)) as Hd.
  { intros q. unfold set_d. fields. rewrite lookup_insert. case_decide as E; [subst|done].
    split; eauto. }
  split; [done|done| |done|].
  - intros i q Hi Hq. destruct (Hs i q Hi Hq). split; [by apply Hd|done].
  - intros q Hq%Hd. by apply Hw.
Qed.

Section Inv.
Context {W : Type} `{!Platform, !Kernel W, !Fuel, !MemoryLaws W} (o : stop -> Prop).

Abbreviation inv := (shim_inv (W := W) o).
Abbreviation F := (M (EpollShimCtx * W)).

(** Only the description at [p] changes, what is borrowed or locked of it, and the number
    of timers the step detector works for. *)
Lemma inv_set_counted e e' lk lk' loose h x w p d d' gen :
  inv e lk loose h x w -> descs x !! p = Some d -> desc_ok o e' lk' loose p d' ->
  (forall q, q <> p -> held e' q = held e q /\ (lk' = Some q <-> lk = Some q)) ->
  inv e' lk' loose h
    (with_detector (nr_fds_for_realtime_step_detector x + (jump d' - jump d)) gen (set_d p d' x)) w.
Proof.
  intros [Ht Hd Hrw Hsl Hin Hc Ha Hm] Hp Hd' Hq. set (x' := with_detector _ _ _).
  assert (descs x' = <[p := d']> (descs x)) as E by done.
  split; [by destruct (table_set_d loose x p d d' Ht Hp)| |done|done|done| | |].
  - intros q dq. rewrite E, lookup_insert. case_decide as Eq; [subst; by intros [= <-]|].
    intros Hlq. destruct (Hd q dq Hlq) as [Hr Hl Hf Hk]. destruct (Hq q) as [Hh Hlk]; [done|].
    split; [congruence| |done|done]. rewrite Hl. by apply bool_decide_ext.
  - rewrite E, (jumpers_update _ _ d) by done. change (nr_fds_for_realtime_step_detector x + (jump d' - jump d) =
      jumpers (descs x) - jump d + jump d'). lia.
  - rewrite E. change (<[p := d']> (descs x) !! open_files_ptr x = None).
    rewrite lookup_insert_ne; [done|]. intros Eq. rewrite Eq in Hp. congruence.
  - intros q Hq'. apply Hm, (live_set_d p d' x); [eauto|done].
Qed.

Lemma inv_set_d e e' lk lk' loose h x w p d d' :
  inv e lk loose h x w -> descs x !! p = Some d -> desc_ok o e' lk' loose p d' ->
  (forall q, q <> p -> held e' q = held e q /\ (lk' = Some q <-> lk = Some q)) ->
  jump d' = jump d -> inv e' lk' loose h (set_d p d' x) w.
Proof.
  intros Hi Hp Hd Hq Hj.
  pose proof (inv_set_counted _ _ _ _ _ _ _ _ _ _ _ (realtime_step_detector_generation x) Hi Hp Hd Hq) as H1.
  by rewrite Hj, Z.sub_diag, Z.add_0_r in H1.
Qed.

(** The world moves on. *)
Lemma inv_world e lk loose h x w w' : inv e lk loose h x w -> reserved x w' -> inv e lk loose h x w'.
Proof. intros [] Hr. by split. Qed.

Lemma inv_call {A} (c : syscall A) e lk loose h x w (Q : A -> EpollShimCtx * W -> Prop) :
  manages_memory c = false -> inv e lk loose h x w ->
  (forall a w', inv e lk loose h x w' -> Q a (x, w')) -> wpg o (call c) Q (x, w).
Proof.
  intros Hc Hi HQ. apply wp_call_pair. pose proof (neutral A c w Hc (si_memory _ _ _ _ _ _ _ Hi)) as Hr.
  destruct (kernel_step c w) as [a w']. apply HQ. by eapply inv_world.
Qed.

(** ** Primitive operations *)

Lemma wp_the_desc p d x (w : W) (Q : FileDescription -> EpollShimCtx * W -> Prop) :
  descs x !! p = Some d -> Q d (x, w) -> wpg o (the_desc p) Q (x, w).
Proof. intros Hp HQ. unfold wpg, the_desc. cbn. by rewrite Hp. Qed.

Lemma wp_set_desc p d f x (w : W) (Q : unit -> EpollShimCtx * W -> Prop) :
  descs x !! p = Some d -> Q tt (set_d p (f d) x, w) -> wpg o (set_desc p f) Q (x, w).
Proof. intros Hp HQ. unfold wpg, set_desc. cbn. by rewrite Hp. Qed.

Ltac on_union :=
  intros Hp Hc; unfold wpg, on_eventfd, on_timerfd, on_signalfd; cbn; rewrite Hp, Hc;
  match goal with |- match ?r with _ => _ end -> _ => by destruct r as [? []|] end.

Lemma wp_on_eventfd {A} (m : M (EventFDCtx * W) A) p d c x w (Q : A -> EpollShimCtx * W -> Prop) :
  descs x !! p = Some d -> ctx d = eventfd c ->
  wpg o m (fun a s => Q a (set_d p (d <| ctx := eventfd s.1 |>) x, s.2)) (c, w) ->
  wpg o (on_eventfd p m) Q (x, w).
Proof. on_union. Qed.

Lemma wp_on_timerfd {A} (m : M (TimerFDCtx * W) A) p d c x w (Q : A -> EpollShimCtx * W -> Prop) :
  descs x !! p = Some d -> ctx d = timerfd c ->
  wpg o m (fun a s => Q a (set_d p (d <| ctx := timerfd s.1 |>) x, s.2)) (c, w) ->
  wpg o (on_timerfd p m) Q (x, w).
Proof. on_union. Qed.

Lemma wp_on_signalfd {A} (m : M (SignalFDCtx * W) A) p d c x w (Q : A -> EpollShimCtx * W -> Prop) :
  descs x !! p = Some d -> ctx d = signalfd c ->
  wpg o m (fun a s => Q a (set_d p (d <| ctx := signalfd s.1 |>) x, s.2)) (c, w) ->
  wpg o (on_signalfd p m) Q (x, w).
Proof. on_union. Qed.

(** Only the description at [p] differs from [x]. *)
Definition around (p : Z) (x x' : EpollShimCtx) : Prop :=
  open_files x' = open_files x /\ forall q, q <> p -> descs x' !! q = descs x !! q.

Lemma around_set_d p d x x' : around p x x' -> around p x (set_d p d x').
Proof.
  intros [Hf Hd]. split; [done|]. intros q Hq. unfold set_d. fields. by rewrite lookup_insert_ne, Hd.
Qed.

(** The description at [p] has the kind [v]; since [b] only it has changed. *)
Definition at_kind (b : EpollShimCtx) (e : list Z) (lk : option Z) (h : hold) (p : Z)
    (v : file_description_vtable) (s : EpollShimCtx * W) : Prop :=
  inv e lk None h s.1 s.2 /\ (exists d, descs s.1 !! p = Some d /\ vtable d = Some v) /\
  around p b s.1.

Lemma at_kind_inv b e lk h p v s : at_kind b e lk h p v s -> inv e lk None h s.1 s.2.
Proof. by intros []. Qed.

Lemma wp_lock_at b e h p v s : at_kind b e None h p v s ->
  wpg o (lock_desc p) (fun _ => at_kind b e (Some p) h p v) s.
Proof.
  destruct s as [x w]. intros [Hi [(d & Hp & Hv) Hx]]. cbn in *. unfold lock_desc.
  pose proof (si_descs _ _ _ _ _ _ _ Hi p d Hp) as [Hr Hl Hf Hk].
  apply wp_bind, (wp_the_desc p d); [done|]. rewrite Hl. apply (wp_set_desc p d); [done|]. cbn.
  split; [|split; [eexists; split; [apply set_d_lookup|done]|by apply around_set_d]].
  eapply inv_set_d; [done..| | |done].
  - split; try done. by rewrite bool_decide_eq_true_2.
  - intros q Hq. split; [done|]. split; [intros [= <-]; done|done].
Qed.

Lemma wp_unlock_at b e h p v s : at_kind b e (Some p) h p v s ->
  wpg o (unlock_desc p) (fun _ => at_kind b e None h p v) s.
Proof.
  destruct s as [x w]. intros [Hi [(d & Hp & Hv) Hx]]. cbn in *. unfold unlock_desc.
  pose proof (si_descs _ _ _ _ _ _ _ Hi p d Hp) as [Hr Hl Hf Hk].
  apply (wp_set_desc p d); [done|]. cbn.
  split; [|split; [eexists; split; [apply set_d_lookup|done]|by apply around_set_d]].
  eapply inv_set_d; [done..| | |done].
  - by split.
  - intros q Hq. split; [done|]. split; [done|intros [= <-]; done].
Qed.

Lemma wp_the_desc_at b e lk h p v s : at_kind b e lk h p v s ->
  wpg o (the_desc p) (fun d s' => s' = s /\ descs s.1 !! p = Some d /\ vtable d = Some v) s.
Proof. destruct s as [x w]. intros [Hi [(d & Hp & Hv) Hx]]. by apply (wp_the_desc p d). Qed.

Lemma the_desc_stable b e lk h p v : stable o (at_kind b e lk h p v) (the_desc p).
Proof. intros s Hs. eapply wp_mono; [by eapply wp_the_desc_at|]. by intros d s' [-> _]. Qed.

(** The flags of a description. *)
Lemma wp_set_flags_at b e lk h p v f s : Z.land f O_NONBLOCK = f -> at_kind b e lk h p v s ->
  wpg o (set_desc p (fun d => d <| desc_flags := f |>)) (fun _ => at_kind b e lk h p v) s.
Proof.
  destruct s as [x w]. intros Hfl [Hi [(d & Hp & Hv) Hx]]. cbn in *.
  pose proof (si_descs _ _ _ _ _ _ _ Hi p d Hp) as [Hr Hl Hf Hk].
  apply (wp_set_desc p d); [done|]. cbn.
  split; [|split; [eexists; split; [apply set_d_lookup|done]|by apply around_set_d]].
  eapply inv_set_d; [done..| |done|done]. by split.
Qed.

Lemma kind_at b e lk h p v x w d : at_kind b e lk h p v (x, w) -> descs x !! p = Some d ->
  vtable d = Some v /\ kind_ok o d.
Proof.
  intros [Hi [(d' & Hp & Hv) Hx]] Hp'. cbn in *. assert (d' = d) as -> by congruence.
  split; [done|]. destruct (si_descs _ _ _ _ _ _ _ Hi p d Hp) as [_ _ _ [Hk|[]]]; [done|congruence].
Qed.

(** The union is overwritten while the world moves on. *)
Lemma store_at b e lk h p v x w w' d c : at_kind b e lk h p v (x, w) -> descs x !! p = Some d ->
  kind_ok o (d <| ctx := c |>) -> jump (d <| ctx := c |>) = jump d -> reserved x w' ->
  at_kind b e lk h p v (set_d p (d <| ctx := c |>) x, w').
Proof.
  intros Hs Hp Hk Hj Hm. pose proof (kind_at _ _ _ _ _ _ _ _ _ Hs Hp) as [Hv _]. destruct Hs as (Hi & _ & Hx).
  destruct (si_descs _ _ _ _ _ _ _ Hi p d Hp) as [Hr Hl Hf _].
  split; [|split; [eexists; split; [apply set_d_lookup|done]|by apply around_set_d]]. cbn.
  apply (inv_world _ _ _ _ _ w); [|intros q Hq%live_set_d; [by apply Hm|eauto]].
  eapply inv_set_d; [done..| |done|done]. split; [done..|by left].
Qed.

(** Code of a kind on a description of the kind. *)
Ltac open_kind Hk :=
  intros [x w] Hs; pose proof Hs as [Hi [(d & Hp & Hv) Hx]]; cbn in *;
  pose proof (kind_at _ _ _ _ _ _ _ _ _ Hs Hp) as [_ Hk]; unfold kind_ok in Hk; rewrite Hv in Hk;
  apply si_memory in Hi; destruct (ctx d) eqn:Ec; try done;
  first [eapply wp_on_eventfd | eapply wp_on_timerfd | eapply wp_on_signalfd]; [done..|].

Lemma on_eventfd_stable {A} (m : M (EventFDCtx * W) A) b e lk h p :
  (forall J, Neutral J -> framed o counted J m) ->
  stable o (at_kind b e lk h p eventfd_vtable) (on_eventfd p m).
Proof.
  intros Hm. open_kind Hk. eapply framed_use; [by apply (Hm (reserved x)), _|done..|].
  intros a s' Hk' Hm'. eapply store_at; [done..| | |done]; unfold kind_ok, jump; fields; by rewrite Hv.
Qed.

Lemma on_signalfd_stable {A} (m : M (SignalFDCtx * W) A) b e lk h p :
  (o AssertFailed -> forall J, Neutral J -> framed o (fun _ => True) J m) ->
  stable o (at_kind b e lk h p signalfd_vtable) (on_signalfd p m).
Proof.
  intros Hm. open_kind Hk. eapply framed_use; [by apply (Hm Hk (reserved x)), _|done..|].
  intros a s' Hk' Hm'. eapply store_at; [done..| | |done]; unfold kind_ok, jump; fields; by rewrite Hv.
Qed.

Lemma on_timerfd_stable {A} (m : M (TimerFDCtx * W) A) b e lk h p :
  (o AssertFailed -> forall J, Neutral J -> forall t, framed o (same_clock t) J m) ->
  stable o (at_kind b e lk h p timerfd_vtable) (on_timerfd p m).
Proof.
  intros Hm. open_kind Hk. eapply framed_use; [by apply (Hm Hk (reserved x) _ c)|done..|].
  intros a s' [Hck Hab] Hm'. eapply store_at; [done..| | |done]; unfold kind_ok, jump, can_jump;
    fields; rewrite Hv; [done|]. by rewrite Ec, Hck, Hab.
Qed.

(** ** Looking up *)

Lemma i32_small z : - 2 ^ 31 <= z < 2 ^ 31 -> i32 z = z.
Proof. intros Hz. unfold i32. rewrite Z.mod_small by lia. lia. Qed.

Lemma slot_kind e lk h x w i p : inv e lk None h x w -> open_files x !! i = Some p -> p <> 0 ->
  exists v, at_kind x e lk h p v (x, w).
Proof.
  intros Hi Hl Hp. destruct (to_live _ _ (si_table _ _ _ _ _ _ _ Hi) i p Hl Hp) as [[d Hd] _].
  destruct (si_descs _ _ _ _ _ _ _ Hi p d Hd) as [_ _ _ [Hk|[]]]; [|done].
  unfold kind_ok in Hk. destruct (vtable d) as [v|] eqn:Ev; [|done]. exists v. split; [done|]. split; [eauto|done].
Qed.

Lemma wp_slot x (w : W) i p (Q : Z -> EpollShimCtx * W -> Prop) :
  0 <= i -> open_files x !! Z.to_nat i = Some p -> Q p (x, w) -> wpg o (slot i) Q (x, w).
Proof.
  intros Hi Hp HQ. unfold slot. wps. rewrite Hp, (proj2 (Z.leb_le 0 i)) by done. by wps.
Qed.

(** The answer of a look-up: the slot of a descriptor inside of the array. *)
Lemma wp_find_impl e lk h x w fd (Q : option Z -> EpollShimCtx * W -> Prop) :
  inv e lk None h x w -> fd <= INT_MAX ->
  ((0 <= fd -> default 0 (open_files x !! Z.to_nat fd) = 0) -> Q None (x, w)) ->
  (forall p v, 0 <= fd -> open_files x !! Z.to_nat fd = Some p -> p <> 0 ->
     at_kind x e lk h p v (x, w) -> Q (Some p) (x, w)) ->
  wpg o (epoll_shim_ctx_find_desc_impl fd) Q (x, w).
Proof.
  intros Hi Hfd HN HS. unfold epoll_shim_ctx_find_desc_impl. wps.
  destruct (Z.ltb_spec fd 0); cbn [orb]; [wps; apply HN; lia|].
  rewrite u32_small by (unfold INT_MAX in *; lia).
  pose proof (to_length _ _ (si_table _ _ _ _ _ _ _ Hi)) as Hl.
  destruct (Z.leb_spec (open_files_length x) fd).
  { wps. apply HN. intros _. by rewrite lookup_ge_None_2 by lia. }
  wps. destruct (lookup_lt_is_Some_2 (open_files x) (Z.to_nat fd)) as [p Hp]; [lia|].
  apply (wp_slot _ _ _ p); [done..|]. destruct (Z.eqb_spec p 0) as [->|Hp0]; wps.
  { apply HN. by rewrite Hp. }
  destruct (slot_kind _ _ _ _ _ _ _ Hi Hp Hp0) as [v Hv]. by eapply HS.
Qed.

Lemma wp_lock_read x w (Q : unit -> EpollShimCtx * W -> Prop) : inv [] None None Released x w ->
  (forall x', inv [] None None HeldRead x' w -> open_files x' = open_files x ->
     descs x' = descs x -> Q tt (x', w)) ->
  wpg o lock_read Q (x, w).
Proof.
  intros Hi HQ. unfold lock_read. wps. rewrite (si_rwlock _ _ _ _ _ _ _ Hi). wps.
  apply HQ; [|done..]. destruct Hi as [Ht ? ? ? ? ? ? ?]. split; try done. by destruct Ht.
Qed.

Lemma wp_unlock_read e x w (Q : unit -> EpollShimCtx * W -> Prop) : inv e None None HeldRead x w ->
  (forall x', inv e None None Released x' w -> open_files x' = open_files x ->
     descs x' = descs x -> Q tt (x', w)) ->
  wpg o unlock_read Q (x, w).
Proof.
  intros Hi HQ. unfold unlock_read. wps. rewrite (si_rwlock _ _ _ _ _ _ _ Hi). wps.
  apply HQ; [|done..]. destruct Hi as [Ht ? ? ? ? ? ? ?]. split; try done. by destruct Ht.
Qed.

Lemma wp_ref b h p v s : at_kind b [] None h p v s ->
  wpg o (file_description_ref p) (fun _ => at_kind b [p] None h p v) s.
Proof.
  destruct s as [x w]. intros [Hi [(d & Hp & Hv) Hx]]. cbn in *. unfold file_description_ref.
  destruct (si_descs _ _ _ _ _ _ _ Hi p d Hp) as [Hr Hl Hf Hk]. rewrite held_nil in Hr.
  apply wp_bind, (wp_the_desc p d); [done|]. wps.
  rewrite Hr. wps. apply (wp_set_desc p d); [done|].
  split; [|split; [eexists; split; [apply set_d_lookup|done]|by apply around_set_d]].
  eapply inv_set_d; [done..| | |done].
  - split; [|done..]. fields. by rewrite Hr, held_here.
  - intros q Hq. split; [by apply held_other|done].
Qed.

Lemma wp_unref_borrowed b h p v s : at_kind b [p] None h p v s ->
  wpg o (unref p) (fun _ => at_kind b [] None h p v) s.
Proof.
  destruct s as [x w]. intros [Hi [(d & Hp & Hv) Hx]]. cbn in *.
  destruct (si_descs _ _ _ _ _ _ _ Hi p d Hp) as [Hr Hl Hf Hk].
  rewrite held_here, held_nil in Hr.
  unfold unref, unref_depth. cbn [file_description_unref].
  apply wp_bind, (wp_the_desc p d); [done|]. rewrite Hr. cbv zeta.
  apply wp_bind, wp_assert, wp_bind, (wp_set_desc p d); [done|]. wps.
  split; [|split; [eexists; split; [apply set_d_lookup|done]|by apply around_set_d]].
  eapply inv_set_d; [done..| | |done].
  - split; [|done..]. fields. by rewrite Hr.
  - intros q Hq. split; [by rewrite held_other|done].
Qed.

(** The look-up with a reference. *)
Lemma wp_find_desc x w fd (Q : option Z -> EpollShimCtx * W -> Prop) :
  inv [] None None Released x w -> fd <= INT_MAX ->
  (forall x', inv [] None None Released x' w -> open_files x' = open_files x ->
     descs x' = descs x -> Q None (x', w)) ->
  (forall p v s, 0 <= fd -> open_files x !! Z.to_nat fd = Some p -> p <> 0 ->
     at_kind x [p] None Released p v s -> Q (Some p) s) ->
  wpg o (epoll_shim_ctx_find_desc fd) Q (x, w).
Proof.
  intros Hi Hfd HN HS. unfold epoll_shim_ctx_find_desc.
  destruct (fd <? 0); [apply wp_ret; by apply HN|].
  apply wp_bind, wp_lock_read; [done|]. intros x1 Hi1 Hf1 Ed1.
  apply wp_bind, (wp_find_impl [] None HeldRead); [done..| |].
  - intros _. wps. apply (wp_unlock_read []); [done|]. intros x2 Hi2 Hf2 Ed2. wps. apply HN; congruence.
  - intros p v Hfd0 Hsl Hp0 Hk. apply wp_bind. eapply wp_mono; [eapply (wp_ref _ HeldRead p v); exact Hk|].
    intros _ [x2 w2] (Hi2 & Hd2 & Hf2 & Ho2). cbn in *. apply wp_bind, (wp_unlock_read [p]); [done|].
    intros x3 Hi3 Hf3 Ed3. apply wp_ret, (HS p v); [done|congruence|done|].
    split; [done|]. cbn. rewrite Ed3. split; [done|]. split; [congruence|].
    intros q Hq. by rewrite Ed3, Ho2, Ed1.
Qed.

(** ** The step detector *)

(** Starting the thread is best effort: whatever fails, the structure stays as it is and
    its memory in use. *)
Lemma wp_start_detection x x' w : reserved x' w ->
  wpg o start_realtime_step_detection (fun _ s => s.1 = x /\ reserved x' s.2) (x, w).
Proof.
  intros Hm. unfold start_realtime_step_detection, timerfd_ctx_get_monotonic_offset.
  assert (forall A (c : syscall A) w (Q : A -> EpollShimCtx * W -> Prop),
    manages_memory c = false -> reserved x' w ->
    (forall a w', reserved x' w' -> Q a (x, w')) -> wpg o (call c) Q (x, w)) as Hcall.
  { intros A c w1 Q Hc Hr HQ. apply wp_call_pair. pose proof (neutral A c w1 Hc Hr).
    destruct (kernel_step c w1). by apply HQ. }
  apply wp_bind_result, wp_lift, wp_call.
  pose proof (neutral _ sys_boottime w eq_refl Hm) as Hm0.
  destruct (kernel_step sys_boottime w) as [[off|ec] w0]; [|done].
  apply wp_bind_result, Hcall; [done..|]. intros [old|ec] w1 Hm1; [|done].
  apply wp_bind, wp_bind_result, wp_call_pair.
  pose proof (law_new_block w1 40) as Hb. destruct (kernel_step (sys_malloc 40) w1) as [r w2].
  destruct Hb as [Hkeep Hnew].
  assert (reserved x' w2) as Hm2 by (intros q Hq; auto).
  assert (forall w (ec : result unit), reserved x' w ->
    wpg o (call_ (sys_sigmask_set old) ;; ret ec) (fun _ s => s.1 = x /\ reserved x' s.2) (x, w)) as Hend.
  { intros w3 ec Hm3. unfold call_. apply wp_bind, wp_bind, Hcall; [done..|]. intros. by wps. }
  destruct r as [args|ec]; [|by apply Hend]. destruct Hnew as (_ & Hfresh & _).
  apply wp_bind, Hcall; [done..|]. intros [u|ec] w3 Hm3; [by apply wp_ret, Hend|].
  unfold call_ at 1. apply wp_bind, wp_bind, wp_call_pair.
  assert (reserved x' (kernel_step (sys_free args) w3).2) as Hm4.
  { intros q Hq. apply law_freed; [|by apply Hm3]. intros ->. by apply Hfresh, Hm1. }
  destruct (kernel_step (sys_free args) w3) as [u w4]. apply wp_ret, wp_ret. by apply Hend.
Qed.

(** The number of descriptors the detector works for is changed. *)
Lemma wp_update_monitoring x w change (Q : unit -> EpollShimCtx * W -> Prop) :
  step_detector_locked x = false -> reserved x w ->
  0 <= nr_fds_for_realtime_step_detector x + change < 2 ^ 64 ->
  0 <= nr_fds_for_realtime_step_detector x ->
  (forall gen w', reserved x w' ->
     Q tt (with_detector (nr_fds_for_realtime_step_detector x + change) gen x, w')) ->
  wpg o (epoll_shim_ctx_update_realtime_change_monitoring change) Q (x, w).
Proof.
  intros Hl Hm Hn H0' HQ. unfold epoll_shim_ctx_update_realtime_change_monitoring.
  set (nr := nr_fds_for_realtime_step_detector x) in *.
  assert (forall gen w' x1, reserved x w' -> x1 = with_detector (nr + change) gen x -> Q tt (x1, w'))
    as HQ' by (intros; subst; auto).
  destruct (Z.eqb_spec change 0) as [->|Hc].
  { wps. apply (HQ' (realtime_step_detector_generation x)); [done|].
    rewrite Z.add_0_r. unfold with_detector, nr. by destruct x. }
  unfold lock_step_detector, unlock_step_detector. wps. rewrite Hl. wps.
  assert (nr_fds_for_realtime_step_detector (x <| step_detector_locked := true |>) = nr) as -> by done.
  destruct (Z.ltb_spec change 0); wps.
  - rewrite (proj2 (Z.leb_le (- change) nr)) by lia. wps.
    replace (u64 (nr - - change)) with (nr + change) by (unfold u64; rewrite Z.mod_small; lia).
    destruct (Z.eqb_spec (nr + change) 0) as [E|E]; fields; rewrite ?E; wps.
    + eapply HQ'; [done|]. unfold with_detector. fields. by rewrite Hl, E.
    + rewrite (proj2 (Z.eqb_neq _ _) E). wps.
      apply (HQ' (realtime_step_detector_generation x)); [done|]. unfold with_detector. fields. by rewrite Hl.
  - replace (u64 (nr + change)) with (nr + change) by (unfold u64; rewrite Z.mod_small; lia).
    set (x2 := (x <| step_detector_locked := true |>) <| nr_fds_for_realtime_step_detector := nr + change |>).
    assert (forall w', reserved x w' ->
      wpg o (self step_detector_locked := false) Q (x2, w')) as Hend.
    { intros w' Hm'. wps. apply (HQ' (realtime_step_detector_generation x)); [done|].
      unfold x2, with_detector. fields. by rewrite Hl. }
    destruct (nr =? 0); [|by apply Hend]. wps.
    eapply wp_mono; [by apply (wp_start_detection x2 x)|]. intros r [x1 w1] [Hx Hm1]. cbn in Hx, Hm1.
    subst x1. wps. by apply Hend.
Qed.

(** ** The last reference

    A slot may still hold the address when the last reference is dropped: the invariant is
    that of the structure [x] with other slots. *)

Definition with_files (files : list Z) (x : EpollShimCtx) : EpollShimCtx := x <| open_files := files |>.

(** A description in no slot goes away. *)
Lemma inv_drop h x x' w w' p d : inv [] None (Some p) h x w -> descs x !! p = Some d ->
  (open_files x', open_files_ptr x', open_files_length x', rwlock x', step_detector_locked x',
   epoll_shim_ctx_init_error x') =
  (open_files x, open_files_ptr x, open_files_length x, rwlock x, step_detector_locked x,
   epoll_shim_ctx_init_error x) ->
  descs x' = delete p (descs x) ->
  nr_fds_for_realtime_step_detector x' = nr_fds_for_realtime_step_detector x - jump d ->
  (forall q, q <> p -> live x q -> in_use w' q) -> inv [] None None h x' w'.
Proof.
  intros [Ht Hd Hrw Hsl Hin Hc Ha Hm] Hp. intros [= Ef Eptr El Er Es Ei] Ed En Hu.
  assert (open_files_ptr x <> p) as Hne by (intros E; rewrite E in Ha; congruence).
  destruct Ht as [Hlen Hb Hs Ho Hw]. split.
  - split; rewrite ?Ef, ?El; [done|done| |done|].
    + intros i q Hi Hq. destruct (Hs i q Hi Hq) as [Hl Hne']. split; [|done].
      rewrite Ed, lookup_delete_ne by congruence. done.
    + intros q. rewrite Ed. intros Hl. destruct (decide (q = p)) as [->|Hqp];
        [by rewrite lookup_delete_eq in Hl; destruct Hl|].
      rewrite lookup_delete_ne in Hl by done. destruct (Hw q Hl) as [? [[= ->]|?]]; auto; done.
  - intros q dq. rewrite Ed. intros [Hqp Hl]%lookup_delete_Some.
    destruct (Hd q dq Hl) as [Hr Hlk Hf [Hk|[[= ->] _]]]; [|done]. split; auto.
  - congruence.
  - congruence.
  - congruence.
  - rewrite Ed, En, (jumpers_delete _ _ d) by done. lia.
  - rewrite Ed, Eptr. by rewrite lookup_delete_ne.
  - intros q [Hl|[-> Hq0]].
    + rewrite Ed in Hl. destruct (decide (q = p)) as [->|Hqp];
        [by rewrite lookup_delete_eq in Hl; destruct Hl|].
      rewrite lookup_delete_ne in Hl by done. apply Hu; [done|by left].
    + apply Hu; [congruence|]. right. split; [done|]. congruence.
Qed.

(** Closing leaves the rest of the structure alone. *)
Definition closing (h : hold) (p : Z) (d : FileDescription) (x : EpollShimCtx)
    (s : EpollShimCtx * W) : Prop :=
  exists d' gen, locked d' = false /\ reserved x s.2 /\
    s.1 = with_detector (nr_fds_for_realtime_step_detector x - jump d) gen (set_d p d' x).

Lemma wp_close_fun `{P : !Pollable (EpollShimCtx * W)} files h y w p d x0 :
  let x := with_files files y in
  inv [] None (Some p) h y w -> descs x !! p = Some d -> x0 = set_d p (d <| refcount := 0 |>) x ->
  wpg o (match vtable d with
         | None => ret (Ok tt)
         | Some epollfd_vtable => on_epollfd p epollfd_ctx_terminate
         | Some eventfd_vtable => on_eventfd p eventfd_ctx_terminate
         | Some timerfd_vtable => timerfd_close p
         | Some signalfd_vtable => on_signalfd p signalfd_ctx_terminate
         end) (fun _ => closing h p d x) (x0, w).
Proof.
  intros x Hi Hp ->.
  pose proof (si_descs _ _ _ _ _ _ _ Hi p d Hp) as [_ Hl _ Hk]. cbn in Hl.
  assert (locked d = false) as Hl' by (rewrite Hl; by apply bool_decide_eq_false).
  assert (reserved x w) as Hm by exact (si_memory _ _ _ _ _ _ _ Hi).
  set (x0 := set_d p (d <| refcount := 0 |>) x).
  assert (descs x0 !! p = Some (d <| refcount := 0 |>)) as Hp0 by apply set_d_lookup.
  assert (forall d' w', jump d = 0 -> locked d' = false -> reserved x w' ->
    closing h p d x (set_d p d' x0, w')) as Hend.
  { intros d' w' Hj Hld Hm'. exists d', (realtime_step_detector_generation x).
    split; [done|]. split; [done|]. cbn. rewrite Hj. unfold x0. rewrite set_d_set_d, Z.sub_0_r.
    unfold with_detector, set_d. fields. done. }
  destruct Hk as [Hk|[_ Hv]]; cycle 1.
  { rewrite Hv. apply wp_ret. rewrite <- (set_d_id p _ x0 Hp0). apply Hend; [|done|done].
    unfold jump. by rewrite Hv. }
  unfold kind_ok in Hk.
  destruct (vtable d) as [[]|] eqn:Ev; [by destruct (ctx d)|..|done]; destruct (ctx d) eqn:Ec; try done.
  - apply (wp_on_eventfd _ _ _ c _ _ _ Hp0 Ec).
    eapply framed_use; [by apply (eventfd_terminate_framed o (reserved x))|done..|]. intros a s _ Hm'.
    apply Hend; [unfold jump; by rewrite Ev|done|done].
  - unfold timerfd_close, epoll_shim_ctx_global. apply wp_bind, wp_bind, wp_getf, wp_ret.
    change (epoll_shim_ctx_init_error (x0, w).1) with (epoll_shim_ctx_init_error y).
    rewrite (si_init _ _ _ _ _ _ _ Hi). apply wp_bind, wp_assert. cbn [is_ok of_errno Z.eqb].
    assert (jump d = can_jump c) as Hj by (unfold jump; by rewrite Ev, Ec).
    apply wp_bind, (wp_on_timerfd _ _ _ c _ _ _ Hp0 Ec), wp_getf. cbn [fst snd].
    set (x1 := set_d p _ x0).
    assert (forall q, live x1 q <-> live x q) as Hlive
      by (intros q; unfold x1; rewrite live_set_d by eauto; by apply live_set_d; eauto).
    pose proof (jumpers_bounds (delete p (descs x))) as Hb. rewrite (jumpers_delete _ _ d Hp) in Hb.
    pose proof (table_size _ _ (si_table _ _ _ _ _ _ _ Hi)) as Hsz.
    change (descs y) with (descs x) in Hsz.
    rewrite map_size_delete_Some in Hb by eauto.
    pose proof (si_count _ _ _ _ _ _ _ Hi) as Hc. pose proof (jump_bounds d).
    change (nr_fds_for_realtime_step_detector y) with (nr_fds_for_realtime_step_detector x1) in *.
    change (nr_fds_for_realtime_step_detector x) with (nr_fds_for_realtime_step_detector x1) in *.
    change (descs y) with (descs x) in *.
    apply wp_bind, wp_update_monitoring; [apply (si_step_lock _ _ _ _ _ _ _ Hi)|..].
    + intros q Hq. by apply Hm, Hlive.
    + lia.
    + lia.
    + intros gen w' Hm'. eapply wp_on_timerfd; [apply set_d_lookup|done|].
      unfold timerfd_ctx_terminate. apply wp_ret.
      exists (d <| refcount := 0 |> <| ctx := timerfd c |>), gen. split; [|split].
      * exact Hl'.
      * intros q Hq. by apply Hm', Hlive.
      * rewrite Hj. unfold x1, x0, with_detector, set_d. fields. rewrite !insert_insert_eq. reflexivity.
  - apply (wp_on_signalfd _ _ _ c _ _ _ Hp0 Ec).
    eapply framed_use; [by apply (signalfd_terminate_framed o (reserved x))|done..|]. intros a s _ Hm'.
    apply Hend; [unfold jump; by rewrite Ev|done|done].
Qed.

Lemma closed_drop files h y p d s (f : result unit -> result unit) :
  let x := with_files files y in
  inv [] None (Some p) h y s.2 -> descs x !! p = Some d -> closing h p d x s ->
  wpg o (let* ec_local := destroy_mutex p in free_desc p ;; ret (f ec_local))
    (fun _ s' => inv [] None None h (with_files (open_files y) s'.1) s'.2 /\
                 open_files s'.1 = files /\ descs s'.1 = delete p (descs y)) s.
Proof.
  intros x Hi Hp (d' & gen & Hl & Hm & Hx). destruct s as [x1 w]. cbn in Hi, Hm, Hx. subst x1.
  set (x1 := with_detector _ gen (set_d p d' x)).
  assert (descs x1 !! p = Some d') as Hp1 by apply set_d_lookup.
  unfold destroy_mutex, free_desc. apply wp_bind, wp_bind, (wp_the_desc p d'); [done|]. rewrite Hl.
  apply wp_call_pair. pose proof (neutral _ sys_mutex_destroy w eq_refl Hm) as Hm1.
  destruct (kernel_step sys_mutex_destroy w) as [r w1]. cbn [snd] in Hm1.
  apply wp_bind, wp_bind, (wp_the_desc p d'); [done|]. unfold call_.
  apply wp_bind, wp_mod_self, wp_bind, wp_call_pair. cbn [fst snd].
  pose proof (fun q Hq => law_freed w1 p q Hq) as Hfree.
  destruct (kernel_step (sys_free p) w1) as [u w2]. cbn in Hfree. apply wp_ret, wp_ret.
  assert (delete p (descs x1) = delete p (descs y)) as Hdel
    by (unfold x1, with_detector, set_d; fields; by rewrite delete_insert_eq).
  split; [|done]. eapply inv_drop; [done..| |done|].
  - exact Hdel.
  - intros q Hq Hlq. apply Hfree; [done|]. by apply Hm1.
Qed.

(** [file_description_unref] of the last reference. *)
Lemma wp_unref_last files h y w p d : inv [] None (Some p) h y w -> descs y !! p = Some d ->
  wpg o (unref p)
    (fun _ s => inv [] None None h (with_files (open_files y) s.1) s.2 /\
                open_files s.1 = files /\ descs s.1 = delete p (descs y))
    (with_files files y, w).
Proof.
  intros Hi Hp. pose proof (si_descs _ _ _ _ _ _ _ Hi p d Hp) as [Hr _ _ _]. rewrite held_nil in Hr.
  unfold unref, unref_depth. cbn [file_description_unref].
  apply wp_bind, (wp_the_desc p d); [done|]. rewrite Hr. cbv zeta.
  apply wp_bind, wp_assert, wp_bind, (wp_set_desc p d); [done|]. rewrite Hr. cbn [Z.add Z.eqb Pos.eqb].
  apply wp_bind. eapply wp_mono; [exact (wp_close_fun files h y w p d _ Hi Hp eq_refl)|]. intros ec s Hs.
  apply (closed_drop files h y p d); [|done|done].
  apply (inv_world _ _ _ _ _ w); [done|]. by destruct Hs as (d' & gen & _ & Hm & _).
Qed.
End Inv.
