(* ===== verification/ShimOps.v ===== *)
(** * The operations keep the invariant of the table of file descriptions

    Creating, looking up, reading, writing, polling and closing descriptors,
    from any state in which [shim_inv] holds and on any system.  [behind x fd]
    is the description that a descriptor stands for. *)

From S2P Require Import Prelude Kernel KqueueEvent Timespec Descriptors Compat EventfdCtx TimerfdCtx SignalfdCtx EpollNode EpollCtx FileDesc ShimCtx ShimIo Api Frame ShimInv.

(** ** The abstract table *)

Definition behind (x : EpollShimCtx) (fd : Z) : option FileDescription :=
  if fd <? 0 then None
  else
    match open_files x !! Z.to_nat fd with
    | Some p => if p =? 0 then None else descs x !! p
    | None => None
    end.

Lemma behind_ext x x' : open_files x' = open_files x -> descs x' = descs x ->
  forall fd, behind x' fd = behind x fd.
Proof. intros Hf Hd fd. unfold behind. by rewrite Hf, Hd. Qed.

(** All other descriptors stand for what they did. *)
Definition elsewhere (fd : Z) (x x' : EpollShimCtx) : Prop :=
  forall k, k <> fd -> behind x' k = behind x k.

#[export] Instance elsewhere_preorder fd : PreOrder (elsewhere fd).
Proof. split; [by intros x k|]. intros x y z H1 H2 k Hk. by rewrite H2, H1. Qed.

Lemma around_elsewhere loose x x' fd p : table_ok loose x -> 0 <= fd ->
  open_files x !! Z.to_nat fd = Some p -> p <> 0 -> around p x x' -> elsewhere fd x x'.
Proof.
  intros Ht Hfd Hp Hp0 [Hf Hd] k Hk. unfold behind. rewrite Hf. destruct (Z.ltb_spec k 0); [done|].
  destruct (open_files x !! Z.to_nat k) as [q|] eqn:Eq; [|done].
  destruct (Z.eqb_spec q 0); [done|]. apply Hd. intros ->.
  pose proof (to_once _ _ Ht _ _ _ Eq Hp Hp0). lia.
Qed.

Section Ops.
Context {W : Type} `{!Platform, !Kernel W, !Fuel, !MemoryLaws W} (o : stop -> Prop).

Abbreviation inv := (shim_inv (W := W) o).
Abbreviation at_kind := (at_kind (W := W) o).

(** Between calls nothing is borrowed, locked or loose. *)
Definition at_rest (s : EpollShimCtx * W) : Prop := inv [] None None Released s.1 s.2.

(** The constructor has run. *)
Lemma wp_global x w (Q : result unit -> EpollShimCtx * W -> Prop) :
  at_rest (x, w) -> Q (Ok tt) (x, w) -> wpg o epoll_shim_ctx_global Q (x, w).
Proof.
  intros Hi HQ. apply si_init in Hi. cbn in Hi. unfold epoll_shim_ctx_global. wps. by rewrite Hi.
Qed.

(** ** The reader/writer lock *)

Lemma inv_hold e lk loose h h' x w : inv e lk loose h x w ->
  inv e lk loose h' (x <| rwlock := h' |>) w.
Proof. intros [Ht ? ? ? ? ? ? ?]. split; try done. by destruct Ht. Qed.

Lemma wp_lock_write x w (Q : unit -> EpollShimCtx * W -> Prop) :
  inv [] None None Released x w -> Q tt (x <| rwlock := HeldWrite |>, w) -> wpg o lock_write Q (x, w).
Proof. intros Hi HQ. unfold lock_write. wps. rewrite (si_rwlock _ _ _ _ _ _ _ Hi). by wps. Qed.

Lemma wp_unlock_write loose x w (Q : unit -> EpollShimCtx * W -> Prop) :
  inv [] None loose HeldWrite x w -> Q tt (x <| rwlock := Released |>, w) ->
  wpg o unlock_write Q (x, w).
Proof. intros Hi HQ. unfold unlock_write. wps. rewrite (si_rwlock _ _ _ _ _ _ _ Hi). by wps. Qed.

Lemma wp_downgrade loose x w (Q : unit -> EpollShimCtx * W -> Prop) :
  inv [] None loose HeldWrite x w -> Q tt (x <| rwlock := HeldRead |>, w) ->
  wpg o downgrade Q (x, w).
Proof. intros Hi HQ. unfold downgrade. wps. rewrite (si_rwlock _ _ _ _ _ _ _ Hi). by wps. Qed.

(** ** Room in the array *)

Lemma grow_space_spec n j kq (s : EpollShimCtx * W) : 0 <= j <= 31 -> 31 - j < Z.of_nat n ->
  0 <= kq < 2 ^ 31 ->
  wpg o (grow_space n (2 ^ j) kq)
    (fun r s' => s' = s /\ exists k, j <= k <= 31 /\ r = 2 ^ k /\ kq < r /\ (k = j \/ r <= 2 * kq)) s.
Proof.
  revert j. induction n as [|n IH]; intros j Hj Hn Hkq; [lia|]. cbn [grow_space].
  destruct (Z.leb_spec (2 ^ j) kq) as [Hle|Hlt].
  - assert (j < 31) as Hj' by (apply (Z.pow_lt_mono_r_iff 2); lia).
    assert (u32 (Z.shiftl (2 ^ j) 1) = 2 ^ (j + 1)) as ->.
    { rewrite Z.shiftl_mul_pow2, Z.pow_add_r by lia. apply u32_small.
      assert (2 ^ j <= 2 ^ 30) by (apply Z.pow_le_mono_r; lia).
      assert (0 < 2 ^ j) by (apply Z.pow_pos_nonneg; lia). lia. }
    eapply wp_mono; [apply IH; lia|]. intros r s' (-> & k & Hk & -> & Hlt & Hor).
    split; [done|]. exists k. split_and!; try done; [lia|lia|]. right.
    destruct Hor as [->|]; [rewrite Z.pow_add_r by lia; lia|done].
  - apply wp_ret. split; [done|]. exists j. auto with lia.
Qed.

(** More slots, all NULL. *)
Definition grown (x x' : EpollShimCtx) : Prop :=
  descs x' = descs x /\ exists n, open_files x' = open_files x ++ repeat 0 n.

Lemma lookup_grown (l : list Z) n i p : p <> 0 ->
  (l ++ repeat 0 n) !! i = Some p <-> l !! i = Some p.
Proof.
  intros Hp. rewrite lookup_app. destruct (l !! i) as [q|] eqn:E; [done|].
  split; [|done]. intros H1. exfalso. apply Hp. apply list_elem_of_lookup_2 in H1.
  apply list_elem_of_In, repeat_spec in H1. done.
Qed.

Lemma grown_behind x x' fd : grown x x' -> behind x' fd = behind x fd.
Proof.
  intros [Hd [n Hf]]. unfold behind. rewrite Hd, Hf. destruct (fd <? 0); [done|].
  destruct (open_files x !! Z.to_nat fd) as [p|] eqn:E.
  - by rewrite (lookup_app_l_Some _ _ _ _ E).
  - destruct ((open_files x ++ repeat 0 n) !! Z.to_nat fd) as [p|] eqn:E'; [|done].
    destruct (Z.eqb_spec p 0); [done|]. apply lookup_grown in E'; [congruence|done].
Qed.

Lemma table_grown loose x x' : table_ok loose x -> grown x x' ->
  open_files_length x' = Z.of_nat (length (open_files x')) -> open_files_length x' <= 2 ^ 31 ->
  table_ok loose x'.
Proof.
  intros [Hl Hb Hs Ho Hw] [Hd [n Hf]] Hl' Hb'. split; [done|done|..]; rewrite ?Hd, ?Hf.
  - intros i p Hi Hp. apply lookup_grown in Hi; [by apply (Hs i)|done].
  - intros i j p Hi Hj Hp. apply lookup_grown in Hi, Hj; [by apply (Ho i j p)|done..].
  - intros p Hp. destruct (Hw p Hp) as [? [?|?]]; [auto|]. split; [done|]. right. set_solver.
Qed.

Lemma wp_make_room x w kq (Q : result unit -> EpollShimCtx * W -> Prop) :
  inv [] None None HeldWrite x w -> 0 <= kq <= INT_MAX ->
  (forall r x' w', inv [] None None HeldWrite x' w' -> grown x x' ->
     (is_ok r = true -> kq < open_files_length x') ->
     open_files_length x' = open_files_length x \/
       (exists k, 5 <= k <= 31 /\ open_files_length x' = 2 ^ k /\ (k = 5 \/ 2 ^ k <= 2 * kq)) ->
     Q r (x', w')) ->
  wpg o (make_room kq) Q (x, w).
Proof.
  intros Hi Hkq HQ. pose proof Hi as [Ht Hd Hrw Hsl Hin Hc Ha Hm]. unfold make_room.
  apply wp_bind, wp_getf. change (open_files_length (x, w).1) with (open_files_length x).
  assert (grown x x) as Hrefl by (split; [done|exists 0%nat; by rewrite app_nil_r]).
  destruct (Z.leb_spec (open_files_length x) kq) as [Hle|Hlt]; [|apply wp_ret, HQ; auto].
  apply wp_bind. eapply wp_mono;
    [change 32 with (2 ^ 5); apply grow_space_spec; unfold INT_MAX in *; lia|].
  intros space s (-> & k & Hk & -> & Hlt & Hor).
  assert (0 < 2 ^ k <= 2 ^ 31) as Hsp
    by (split; [apply Z.pow_pos_nonneg; lia|apply Z.pow_le_mono_r; lia]).
  unfold checked. assert (fits_u64 (2 ^ k * 8) = true) as ->
    by (apply andb_true_iff; split; apply Z.leb_le; unfold UINT64_MAX; lia).
  apply wp_bind, wp_getf, wp_bind_result, wp_call_pair. cbn [fst].
  pose proof (law_resized w (open_files_ptr x) (2 ^ k * 8)) as Hr.
  destruct (kernel_step _ w) as [[p|ec] w'].
  - destruct Hr as (Hkeep & Hp0 & Hfresh & Hp). apply wp_bind, wp_mod_self, wp_ret. fields.
    pose proof (to_length _ _ Ht) as Hlen.
    assert (forall q, is_Some (descs x !! q) -> in_use w' q /\ q <> p) as Hother.
    { intros q Hq. assert (q <> open_files_ptr x) by (intros ->; rewrite Ha in Hq; by destruct Hq).
      assert (in_use w q) by (apply Hm; by left). split; [by apply Hkeep|].
      intros ->. destruct Hfresh; done. }
    match goal with |- Q _ (?y, _) => set (x' := y) end.
    assert (grown x x') as Hg by (split; [done|by eexists]).
    apply HQ; [|done|done|right; by exists k].
    split; try done.
    + apply (table_grown _ x); [done|done| |cbn; lia]. cbn. rewrite length_app, repeat_length. lia.
    + cbn. destruct (descs x !! p) eqn:E; [|done]. by destruct (Hother p) as [_ []]; [eauto|].
    + intros q [Hq|[-> _]]; [by apply Hother|done].
  - destruct Hr as [Hkeep Hq]. apply HQ; [|done|done|by left].
    eapply inv_world; [done|]. intros q Hlq.
    destruct (decide (q = open_files_ptr x)) as [->|Hne]; [by apply Hq, Hm|by apply Hkeep, Hm].
Qed.

(** ** Slots *)

(** A description is taken out of its slot. *)
Lemma inv_cleared h x w i p : inv [] None None h x w -> open_files x !! i = Some p -> p <> 0 ->
  inv [] None (Some p) h (with_files (<[i := 0]> (open_files x)) x) w.
Proof.
  intros [[Hl Hb Hs Ho Hw] Hd Hrw Hsl Hin Hc Ha Hm] Hi Hp.
  assert (length (<[i := 0]> (open_files x)) = length (open_files x)) as Hlen by apply length_insert.
  assert (forall j q, q <> 0 -> <[i := 0]> (open_files x) !! j = Some q <->
    open_files x !! j = Some q /\ j <> i) as Hlk.
  { intros j q Hq. rewrite list_lookup_insert_Some. split; [|intros []; right; auto].
    intros [(_ & <- & _)|[Hne Hj]]; [done|auto]. }
  revert Hlen Hlk. generalize (<[i := 0]> (open_files x)). intros f Hlen Hlk. split; try done.
  - split; unfold with_files; fields.
    + congruence.
    + done.
    + intros j q Hj Hq. apply Hlk in Hj as [Hj Hne]; [|done]. destruct (Hs j q Hj Hq) as [Hlq _].
      split; [done|]. intros [= ->]. by apply Hne, (Ho _ _ q).
    + intros j k q Hj Hk Hq. apply Hlk in Hj as [Hj _], Hk as [Hk _]; [|done..]. by apply (Ho _ _ q).
    + intros q Hq. destruct (Hw q Hq) as [Hq0 [?|Hin']]; [done|]. split; [done|].
      destruct (decide (p = q)) as [->|Hne]; [by left|right].
      apply list_elem_of_lookup in Hin' as [j Hj]. apply list_elem_of_lookup. exists j.
      apply Hlk; [done|]. split; [done|]. intros ->. congruence.
  - intros q d Hq. destruct (Hd q d Hq) as [Hr Hlk' Hf [Hk|[]]]; [|done]. split; auto.
Qed.

Lemma cleared_behind x i p fd : open_files x !! Z.to_nat i = Some p ->
  0 <= i -> behind (with_files (<[Z.to_nat i := 0]> (open_files x)) x) fd =
  if fd =? i then None else behind x fd.
Proof.
  intros Hi Hi0. unfold behind, with_files. fields. destruct (Z.ltb_spec fd 0).
  { by destruct (Z.eqb_spec fd i). }
  destruct (Z.eqb_spec fd i) as [->|Hne].
  - by rewrite list_lookup_insert_eq by (by eapply lookup_lt_Some).
  - by rewrite list_lookup_insert_ne by lia.
Qed.

Lemma wp_set_slot x (w : W) i p q (Q : unit -> EpollShimCtx * W -> Prop) :
  0 <= i -> open_files x !! Z.to_nat i = Some p ->
  Q tt (with_files (<[Z.to_nat i := q]> (open_files x)) x, w) -> wpg o (set_slot i q) Q (x, w).
Proof. intros Hi Hp HQ. unfold set_slot. apply wp_bind, (wp_slot _ _ _ _ p); [done..|]. by apply wp_mod_self. Qed.

(** A description that somebody forgot to close is dropped. *)
Lemma wp_clear_stale h x w kq p (Q : unit -> EpollShimCtx * W -> Prop) :
  inv [] None None h x w -> 0 <= kq -> open_files x !! Z.to_nat kq = Some p -> p <> 0 ->
  (forall x' w', inv [] None None h x' w' ->
     open_files x' = <[Z.to_nat kq := 0]> (open_files x) -> descs x' = delete p (descs x) ->
     Q tt (x', w')) ->
  wpg o ((let* _ := unref p in ret tt) ;; set_slot kq 0) Q (x, w).
Proof.
  intros Hi Hkq Hp Hp0 HQ. pose proof (inv_cleared _ _ _ _ _ Hi Hp Hp0) as Hy.
  destruct (to_live _ _ (si_table _ _ _ _ _ _ _ Hi) _ _ Hp Hp0) as [[d Hd] _].
  set (y := with_files (<[Z.to_nat kq := 0]> (open_files x)) x) in *.
  assert (x = with_files (open_files x) y) as Ex by (by destruct x).
  apply wp_bind, wp_bind. rewrite Ex at 1.
  eapply wp_mono; [by apply (wp_unref_last o (open_files x) h y w p d)|].
  intros ec [x1 w1] (Hi1 & Hf1 & Hd1). cbn in *. apply wp_ret, (wp_set_slot _ _ _ p); [done|congruence|].
  apply HQ; [|fields; by rewrite Hf1|done]. rewrite Hf1. exact Hi1.
Qed.

(** ** Creation *)

Definition fresh_description : FileDescription :=
  {| refcount := 1; locked := false; desc_flags := 0; ctx := no_ctx; vtable := None |}.

Lemma wp_fd_create h x w (Q : result Z -> EpollShimCtx * W -> Prop) :
  inv [] None None h x w ->
  (forall ec w', inv [] None None h x w' -> Q (Err ec) (x, w')) ->
  (forall p w', inv [] None (Some p) h (set_d p fresh_description x) w' -> descs x !! p = None ->
     p <> 0 -> Q (Ok p) (set_d p fresh_description x, w')) ->
  wpg o file_description_create Q (x, w).
Proof.
  intros Hi HErr HOk. pose proof Hi as [[Hl Hb Hs Ho Hw] Hd Hrw Hsl Hin Hc Ha Hm].
  unfold file_description_create. apply wp_bind_result, wp_call_pair.
  pose proof (law_new_block w SIZEOF_FILE_DESCRIPTION) as Hn.
  destruct (kernel_step (sys_malloc _) w) as [[p|ec] w1]; destruct Hn as [Hkeep Hnew];
    [|apply HErr; eapply inv_world; [done|]; intros q Hq; by apply Hkeep, Hm].
  destruct Hnew as (Hp0 & Hfresh & Hp). apply wp_bind, wp_call_pair.
  assert (reserved x w1) as Hm1 by (intros q Hq; by apply Hkeep, Hm).
  pose proof (neutral _ sys_mutex_init w1 eq_refl Hm1) as Hm2.
  pose proof (law_in_use sys_mutex_init w1 p eq_refl Hp) as Hp2.
  destruct (kernel_step sys_mutex_init w1) as [[u|ec] w2]; cbn [snd] in Hm2, Hp2.
  - assert (descs x !! p = None) as Hnone.
    { destruct (descs x !! p) eqn:E; [|done]. exfalso. apply Hfresh, Hm. left. eauto. }
    apply wp_bind, wp_mod_self, wp_ret, HOk; [|done..].
    assert (open_files_ptr x <> p) as Hptr.
    { intros E. apply Hfresh, Hm. right. by rewrite E. }
    split; try done.
    + split; try done.
      * intros i q Hi' Hq. destruct (Hs i q Hi' Hq) as [[dq Hlq] _].
        assert (q <> p) as Hne by congruence. split; [|congruence].
        unfold set_d. fields. rewrite lookup_insert_ne by done. eauto.
      * intros q. unfold set_d. fields. rewrite lookup_insert.
        case_decide as E; [subst q; auto|]. intros Hq. destruct (Hw q Hq) as [? [?|?]]; auto.
        done.
    + intros q dq. unfold set_d. fields. rewrite lookup_insert. case_decide as E.
      * intros [= <-]. subst q. split; cbn; auto.
      * intros Hq. destruct (Hd q dq Hq) as [? ? ? [?|[]]]; [|done]. split; auto.
    + unfold set_d. fields. rewrite jumpers_insert by done. done.
    + unfold set_d. fields. by rewrite lookup_insert_ne.
    + intros q [Hq|Hq]; [|by apply Hm2; right]. unfold set_d in Hq. fields_all.
      rewrite lookup_insert in Hq. case_decide; [by subst|]. apply Hm2. by left.
  - unfold call_. apply wp_bind, wp_bind, wp_call_pair.
    pose proof (fun q Hq => law_freed w2 p q Hq) as Hfree.
    destruct (kernel_step (sys_free p) w2) as [u w3]. cbn in Hfree. apply wp_ret, wp_ret, HErr.
    eapply inv_world; [done|]. intros q Hq. apply Hfree; [|by apply Hm2]. intros ->. by apply Hfresh, Hm.
Qed.

Lemma loose_behind x p d fd : table_ok (Some p) x -> behind (set_d p d x) fd = behind x fd.
Proof.
  intros Ht. unfold behind, set_d. fields. destruct (fd <? 0); [done|].
  destruct (open_files x !! Z.to_nat fd) as [q|] eqn:Eq; [|done].
  destruct (Z.eqb_spec q 0) as [|Hq]; [done|].
  destruct (to_live _ _ Ht _ _ Eq Hq) as [_ Hne]. by rewrite lookup_insert_ne by congruence.
Qed.

(** Some descriptors may have lost a description that was forgotten. *)
Definition forgets (x x' : EpollShimCtx) : Prop :=
  forall fd, behind x' fd = behind x fd \/ behind x' fd = None.

(** [kq] is about to get the description at [p]. *)
Record placed (x : EpollShimCtx) (kq p : Z) (s : EpollShimCtx * W) : Prop := {
  pl_inv : inv [] None (Some p) HeldWrite s.1 s.2;
  pl_fd : 0 <= kq <= INT_MAX;
  pl_slot : open_files s.1 !! Z.to_nat kq = Some 0;
  pl_others : elsewhere kq x s.1
}.

Lemma wp_place x w kq : inv [] None None HeldWrite x w -> 0 <= kq <= INT_MAX ->
  wpg o
    (try* _ := make_room kq in
     let* p := slot kq in
     when (negb (p =? 0)) ((let* _ := unref p in ret tt) ;; set_slot kq 0) ;;
     file_description_create)
    (fun ec s => match ec with
     | Ok p => placed x kq p s /\ descs s.1 !! p = Some fresh_description
     | Err _ => inv [] None None HeldWrite s.1 s.2 /\ forgets x s.1
     end) (x, w).
Proof.
  intros Hi Hkq. apply wp_bind_result, wp_make_room; [done..|].
  intros r x1 w1 Hi1 Hg Hlen _. pose proof (grown_behind _ _ kq Hg) as Hbk.
  assert (forall fd, behind x1 fd = behind x fd) as Hb1 by (intros; by apply grown_behind).
  destruct r as [u|ec]; [|split; [done|by left]]. specialize (Hlen eq_refl).
  pose proof (to_length _ _ (si_table _ _ _ _ _ _ _ Hi1)) as Hl1.
  destruct (lookup_lt_is_Some_2 (open_files x1) (Z.to_nat kq)) as [p Hp]; [lia|].
  apply wp_bind, (wp_slot _ _ _ _ p); [lia|done|].
  assert (forall x2 w2, inv [] None None HeldWrite x2 w2 -> open_files x2 !! Z.to_nat kq = Some 0 ->
    elsewhere kq x x2 -> behind x2 kq = None ->
    wpg o file_description_create (fun ec s => match ec with
     | Ok p => placed x kq p s /\ descs s.1 !! p = Some fresh_description
     | Err _ => inv [] None None HeldWrite s.1 s.2 /\ forgets x s.1
     end) (x2, w2)) as Hend.
  { intros x2 w2 Hi2 Hs2 He2 Hn2. apply (wp_fd_create HeldWrite); [done|..].
    - intros ec w3 Hi3. split; [done|]. intros fd. destruct (decide (fd = kq)) as [->|Hne]; [by right|].
      left. by apply He2.
    - intros q w3 Hi3 Hnone Hq0. split; [|apply set_d_lookup]. split; [done|done|done|].
      intros fd Hfd. cbn. rewrite <- (He2 fd Hfd). unfold behind, set_d. fields.
      destruct (fd <? 0); [done|]. destruct (open_files x2 !! Z.to_nat fd) as [r|] eqn:Er; [|done].
      destruct (Z.eqb_spec r 0) as [|Hr]; [done|]. rewrite lookup_insert_ne; [done|]. intros ->.
      destruct (to_live _ _ (si_table _ _ _ _ _ _ _ Hi2) _ _ Er Hr) as [[d Hd] _]. congruence. }
  destruct (Z.eqb_spec p 0) as [->|Hp0]; cbn [negb].
  - apply wp_bind, wp_ret, Hend; [done|done|by intros fd _|].
    unfold behind. by rewrite (proj2 (Z.ltb_ge kq 0)), Hp by lia.
  - apply wp_bind, (wp_clear_stale HeldWrite _ _ _ p); [done|lia|done|done|].
    intros x2 w2 Hi2 Hf2 Hd2.
    assert (forall fd, behind x2 fd = if fd =? kq then None else behind x1 fd) as Hb2.
    { intros fd. rewrite <- (cleared_behind x1 kq p) by (done || lia). unfold behind. rewrite Hf2, Hd2.
      destruct (fd <? 0); [done|]. unfold with_files. fields.
      destruct (<[Z.to_nat kq:=0]> (open_files x1) !! Z.to_nat fd) as [r|] eqn:Er; [|done].
      destruct (Z.eqb_spec r 0) as [|Hr]; [done|]. rewrite lookup_delete_ne; [done|]. intros ->.
      apply list_lookup_insert_Some in Er as [(_ & E & _)|[Hne Er]]; [done|].
      by apply Hne, (to_once _ _ (si_table _ _ _ _ _ _ _ Hi1) _ _ r). }
    apply Hend; [done| | |].
    + rewrite Hf2. apply list_lookup_insert_eq. by eapply lookup_lt_Some.
    + intros fd Hfd. rewrite Hb2. by rewrite (proj2 (Z.eqb_neq fd kq) Hfd).
    + by rewrite Hb2, Z.eqb_refl.
Qed.

Lemma wp_create_desc x w flags (Q : result (Z * Z) -> EpollShimCtx * W -> Prop) :
  at_rest (x, w) ->
  (forall ec s, at_rest s -> forgets x s.1 -> Q (Err ec) s) ->
  (forall kq p s, placed x kq p s -> descs s.1 !! p = Some fresh_description -> Q (Ok (kq, p)) s) ->
  wpg o (epoll_shim_ctx_create_desc flags) Q (x, w).
Proof.
  intros Hi HErr HOk. unfold epoll_shim_ctx_create_desc.
  apply wp_bind, wp_lock_write; [done|]. set (x0 := x <| rwlock := HeldWrite |>).
  assert (inv [] None None HeldWrite x0 w) as Hi0 by by eapply inv_hold.
  assert (forall fd, behind x0 fd = behind x fd) as Hb0 by done.
  assert (forall ec x1 w1, inv [] None None HeldWrite x1 w1 -> forgets x x1 ->
    wpg o (unlock_write ;; ret (Err ec)) Q (x1, w1)) as Hfail.
  { intros ec x1 w1 Hi1 Hf1. apply wp_bind, (wp_unlock_write None); [done|]. apply wp_ret, HErr.
    - by eapply inv_hold.
    - exact Hf1. }
  apply wp_bind, wp_call_pair. pose proof (law_descriptor w flags) as Hlaw.
  pose proof (neutral _ (sys_kqueue1 flags) w eq_refl (si_memory _ _ _ _ _ _ _ Hi0)) as Hm1.
  destruct (kernel_step (sys_kqueue1 flags) w) as [[kq|ec] w1]; cbn [fst snd] in Hlaw, Hm1.
  - apply wp_bind. eapply wp_mono; [apply wp_place; [by eapply inv_world|done]|].
    intros [p|ec] [x2 w2]; cbn [fst snd].
    + intros [[Hi2 Hk2 Hs2 He2] Hd2]. apply wp_ret, HOk; [by split|done].
    + intros [Hi2 Hf2]. unfold call_. apply wp_bind, wp_bind, (inv_call o _ [] None None HeldWrite);
        [done..|]. intros a w3 Hi3. by apply wp_ret, Hfail.
  - apply Hfail; [by eapply inv_world|by left].
Qed.

(** What [create_descriptor] makes: the description behind the new descriptor. *)
Record created (flags : Z) (v : file_description_vtable) (d : FileDescription) : Prop := {
  cr_refcount : refcount d = 1;
  cr_locked : locked d = false;
  cr_flags : desc_flags d = Z.land flags O_NONBLOCK;
  cr_vtable : vtable d = Some v;
  cr_kind : kind_ok o d
}.

(** The initialisation of a kind: it runs on the union of the new description. *)
Definition initialises (v : file_description_vtable) (zero : fd_ctx)
    (init : Z -> Z -> M (EpollShimCtx * W) (result unit)) : Prop :=
  forall x w p fd d, descs x !! p = Some d -> ctx d = zero -> reserved x w ->
  wpg o (init p fd) (fun r s => exists c, s.1 = set_d p (d <| ctx := c |>) x /\ reserved x s.2 /\
    (is_ok r = true -> let d' := (d <| ctx := c |>) <| vtable := Some v |> in
       kind_ok o d' /\ jump d' = 0)) (x, w).

Lemma nonblock_land flags : Z.land (Z.land flags O_NONBLOCK) O_NONBLOCK = Z.land flags O_NONBLOCK.
Proof. by rewrite <- Z.land_assoc. Qed.

Lemma wp_install x w kq p d b (Q : unit -> EpollShimCtx * W -> Prop) :
  placed b kq p (x, w) -> descs x !! p = Some d -> kind_ok o d -> refcount d = 1 ->
  (forall s, at_rest s -> elsewhere kq b s.1 -> behind s.1 kq = Some d -> Q tt s) ->
  wpg o (epoll_shim_ctx_install_desc kq p) Q (x, w).
Proof.
  intros [Hi Hkq Hs He] Hp Hk Hr HQ. cbn in Hi, Hs, He. pose proof Hi as [[Hl Hb Hli Ho Hw] Hd Hrw Hsl Hin Hc Ha Hm].
  pose proof (lookup_lt_Some _ _ _ Hs) as Hlt.
  destruct (Hw p) as [Hp0 _]; [by eauto|].
  unfold epoll_shim_ctx_install_desc. apply wp_bind, wp_getf, wp_bind, wp_assert. cbn [fst].
  rewrite u32_small by (unfold INT_MAX in *; lia). rewrite (proj2 (Z.ltb_lt kq _)) by lia.
  apply wp_bind, (wp_set_slot _ _ _ 0); [lia|done|].
  assert (length (<[Z.to_nat kq := p]> (open_files x)) = length (open_files x)) as Hlen by apply length_insert.
  assert (forall j q, q <> 0 -> <[Z.to_nat kq := p]> (open_files x) !! j = Some q ->
    open_files x !! j = Some q /\ q <> p \/ j = Z.to_nat kq /\ q = p) as Hlk.
  { intros j q Hq. rewrite list_lookup_insert_Some. intros [(<- & <- & _)|[Hne Hj]]; [by right|left].
    split; [done|]. destruct (Hli j q Hj Hq). congruence. }
  assert (inv [] None None HeldWrite (with_files (<[Z.to_nat kq := p]> (open_files x)) x) w) as Hi'.
  { assert (p ∈ <[Z.to_nat kq := p]> (open_files x)) as Hin' by (apply list_elem_of_lookup;
      exists (Z.to_nat kq); by apply list_lookup_insert_eq).
    assert (forall q, q ∈ open_files x -> q <> 0 -> q ∈ <[Z.to_nat kq := p]> (open_files x)) as Hkeep.
    { intros q Hq Hq0. apply list_elem_of_lookup in Hq as [j Hj]. apply list_elem_of_lookup. exists j.
      rewrite list_lookup_insert_ne; [done|]. intros <-. congruence. }
    revert Hlen Hlk Hin' Hkeep. generalize (<[Z.to_nat kq := p]> (open_files x)).
    intros f Hlen Hlk Hin' Hkeep. split; try done.
    - split; unfold with_files; fields.
      + congruence.
      + done.
      + intros j q Hj Hq. destruct (Hlk j q Hq Hj) as [[Hj' _]|[-> ->]]; [|by eauto].
        by destruct (Hli j q Hj' Hq).
      + intros i j q Hi1 Hj1 Hq.
        destruct (Hlk i q Hq Hi1) as [[Hi2 ?]|[? ?]], (Hlk j q Hq Hj1) as [[Hj2 ?]|[? ?]];
          [by apply (Ho i j q)|congruence..].
      + intros q Hq. destruct (Hw q Hq) as [Hq0 [[= <-]|Hq1]]; auto.
    - intros q dq Hq. change (descs x !! q = Some dq) in Hq. destruct (Hd q dq Hq) as [? ? ? Hor]. split; [done..|]. left.
      destruct Hor as [?|[[= <-] _]]; [done|]. assert (dq = d) as -> by congruence. done. }
  apply (wp_unlock_write None); [done|]. apply HQ.
  - by eapply inv_hold.
  - intros k Hk'. cbn. rewrite <- (He k Hk'). unfold behind, with_files. fields.
    destruct (Z.ltb_spec k 0); [done|]. by rewrite list_lookup_insert_ne by lia.
  - unfold behind, with_files. fields. rewrite (proj2 (Z.ltb_ge kq 0)) by lia.
    rewrite list_lookup_insert_eq by done. by rewrite (proj2 (Z.eqb_neq p 0)).
Qed.

Lemma placed_set_d x w w' kq p d d' b : placed b kq p (x, w) -> descs x !! p = Some d ->
  desc_ok o [] None (Some p) p d' -> jump d' = jump d -> reserved x w' ->
  placed b kq p (set_d p d' x, w').
Proof.
  intros [Hi Hkq Hs He] Hp Hd Hj Hm. cbn in *. split; [|done|done|]; cbn.
  - apply (inv_world _ _ _ _ _ _ w); [|intros q Hq%live_set_d; [by apply Hm|eauto]].
    by eapply inv_set_d.
  - intros k Hk. rewrite <- (He k Hk). apply loose_behind, (si_table _ _ _ _ _ _ _ Hi).
Qed.

Lemma wp_drop x w kq p d b : placed b kq p (x, w) -> descs x !! p = Some d ->
  wpg o (epoll_shim_ctx_drop_desc kq p) (fun _ s => at_rest s /\ forgets b s.1) (x, w).
Proof.
  intros [Hi Hkq Hs He] Hp. cbn in *. unfold epoll_shim_ctx_drop_desc.
  assert (x = with_files (open_files x) x) as Ex by by destruct x.
  apply wp_bind, wp_bind. rewrite Ex at 1.
  eapply wp_mono; [by apply (wp_unref_last o (open_files x) HeldWrite x w p d)|].
  intros ec [x1 w1] (Hi1 & Hf1 & Hd1). cbn in Hi1, Hf1, Hd1. apply wp_ret.
  assert (with_files (open_files x) x1 = x1) as E1 by (rewrite <- Hf1; by destruct x1).
  rewrite E1 in Hi1. unfold call_. apply wp_bind, wp_bind, (inv_call o _ [] None None HeldWrite); [done..|].
  intros a w2 Hi2. apply wp_ret, (wp_unlock_write None); [done|]. split; [by eapply inv_hold|].
  intros fd. destruct (decide (fd = kq)) as [->|Hne]; [right|left].
  - unfold behind. rewrite (proj2 (Z.ltb_ge kq 0)) by lia. fields. by rewrite Hf1, Hs.
  - rewrite <- (He fd Hne). unfold behind. fields. rewrite Hf1, Hd1. destruct (fd <? 0); [done|].
    destruct (open_files x !! Z.to_nat fd) as [q|] eqn:Eq; [|done].
    destruct (Z.eqb_spec q 0) as [|Hq]; [done|].
    destruct (to_live _ _ (si_table _ _ _ _ _ _ _ Hi) _ _ Eq Hq) as [_ Hnq].
    by rewrite lookup_delete_ne by congruence.
Qed.

Lemma wp_create_descriptor x w flags v zero init : at_rest (x, w) -> initialises v zero init ->
  wpg o (create_descriptor flags v zero init) (fun r s => at_rest s /\
    match r with
    | Ok fd => 0 <= fd <= INT_MAX /\ elsewhere fd x s.1 /\
        exists d, behind s.1 fd = Some d /\ created flags v d
    | Err _ => forgets x s.1
    end) (x, w).
Proof.
  intros Hi Hinit. unfold create_descriptor. apply wp_bind_result, wp_global; [done|].
  apply wp_bind_result, wp_create_desc; [done|done|].
  intros kq p [x1 w1] Hpl Hp. cbn [fst] in Hp.
  apply wp_bind, (wp_set_desc o p _ _ _ _ _ Hp).
  set (d2 := (fresh_description <| desc_flags := _ |>) <| ctx := zero |>).
  pose proof (nonblock_land flags) as Hnb.
  assert (placed x kq p (set_d p d2 x1, w1)) as Hpl2.
  { eapply placed_set_d; [done..| |done|apply (pl_inv _ _ _ _ Hpl)].
    split; [done|done|exact Hnb|by right]. }
  assert (reserved (set_d p d2 x1) w1) as Hm2 by apply (pl_inv _ _ _ _ Hpl2).
  apply wp_bind. eapply wp_mono; [by eapply Hinit; [apply set_d_lookup| |]|].
  intros ec [x3 w3] (c & Hx3 & Hm3 & Hok). cbn [fst snd] in Hx3, Hm3. subst x3.
  assert (placed x kq p (set_d p (d2 <| ctx := c |>) (set_d p d2 x1), w3)) as Hpl3.
  { eapply placed_set_d; [done|apply set_d_lookup| |done|done].
    split; [done|done|exact Hnb|by right]. }
  destruct ec as [u|ec].
  - destruct (Hok eq_refl) as [Hk Hj]. apply wp_bind, (wp_set_desc o p _ _ _ _ _ (set_d_lookup _ _ _)).
    apply wp_bind. eapply wp_install; [eapply placed_set_d; [done|apply set_d_lookup| | |]|apply set_d_lookup|..].
    + split; [done|done|exact Hnb|by left].
    + exact Hj.
    + apply (pl_inv _ _ _ _ Hpl3).
    + exact Hk.
    + done.
    + intros s Hr He Hb. apply wp_ret. split; [done|]. split; [apply Hpl|]. split; [done|].
      eexists. split; [done|]. by split.
  - apply wp_bind. eapply wp_mono; [eapply wp_drop; [done|apply set_d_lookup]|].
    intros u s [Hr Hf]. by apply wp_ret.
Qed.
End Ops.
