(* ===== verification/ShimCalls.v ===== *)
(** * Calls on one descriptor

    The functions of the library that create a descriptor or work on one: from
    a state at rest they return to a state at rest, and every other descriptor
    stands for the description it stood for, which is unchanged. *)

From S2P Require Import Prelude Kernel KqueueEvent Timespec Descriptors Compat EventfdCtx TimerfdCtx SignalfdCtx EpollNode EpollCtx FileDesc ShimCtx ShimIo Api Frame ShimInv ShimOps.

Section Calls.
Context {W : Type} `{!Platform, !Kernel W, !Fuel, !MemoryLaws W} (o : stop -> Prop)
  (Hfuel : o OutOfFuel).

Abbreviation at_kind := (at_kind (W := W) o).
Abbreviation at_rest := (at_rest (W := W) o).
Abbreviation F := (M (EpollShimCtx * W)).

(** ** Creation *)

Lemma eventfd_initialises initval sem : 0 <= initval < 2 ^ 32 ->
  initialises (W := W) o eventfd_vtable (eventfd zero_eventfd)
    (fun desc fd => on_eventfd desc
       (eventfd_ctx_init fd initval (if sem : bool then EVENTFD_CTX_FLAG_SEMAPHORE else 0))).
Proof.
  intros Hn x w p fd d Hp Hc Hm. apply (wp_on_eventfd o _ _ _ _ _ _ _ Hp Hc).
  eapply wp_mono; [apply (eventfd_init_framed o (reserved x)); [done|by destruct sem|done]|].
  intros r s [Hk Hm']. eexists. split; [done|]. split; [done|]. by intros _.
Qed.

Lemma timerfd_initialises clockid : o AssertFailed -> is_Some (clockid_of_int clockid) ->
  initialises (W := W) o timerfd_vtable (timerfd zero_timerfd)
    (fun desc _ => on_timerfd desc (timerfd_ctx_init clockid)).
Proof.
  intros Ho Hcl x w p fd d Hp Hc Hm. apply (wp_on_timerfd o _ _ _ _ _ _ _ Hp Hc).
  eapply wp_mono; [by apply (timerfd_init_framed o (reserved x))|].
  intros r s [Hm' Ha]. eexists. split; [done|]. split; [done|]. intros _. split; [done|].
  unfold jump, can_jump. fields. by rewrite Ha, andb_false_r.
Qed.

Lemma signalfd_initialises set : o AssertFailed ->
  initialises (W := W) o signalfd_vtable (signalfd zero_signalfd)
    (fun desc sfd => on_signalfd desc (signalfd_ctx_init sfd set)).
Proof.
  intros Ho x w p fd d Hp Hc Hm. apply (wp_on_signalfd o _ _ _ _ _ _ _ Hp Hc).
  eapply wp_mono; [by apply (signalfd_init_framed o (reserved x))|].
  intros r s [_ Hm']. eexists. split; [done|]. split; [done|]. by intros _.
Qed.

(** What a call that creates a descriptor does. *)
Definition creates (flags : Z) (v : file_description_vtable) (m : F (result Z)) : Prop :=
  forall x w, at_rest (x, w) -> wpg o m (fun r s => at_rest s /\
    match r with
    | Ok fd => 0 <= fd <= INT_MAX /\ elsewhere fd x s.1 /\
        exists d, behind s.1 fd = Some d /\ created o flags v d
    | Err _ => forgets x s.1
    end) (x, w).

Lemma refused flags v ec : creates flags v (ret (Err ec)).
Proof. intros x w Hr. apply wp_ret. split; [done|by left]. Qed.

Lemma eventfd_create_spec initval flags : 0 <= initval < 2 ^ 32 ->
  creates flags eventfd_vtable (eventfd_create initval flags).
Proof.
  intros Hn. unfold eventfd_create. destruct (other_flags _ _); [apply refused|].
  intros x w Hr. apply wp_create_descriptor; [done|by apply eventfd_initialises].
Qed.

Lemma timerfd_create_spec clockid flags : o AssertFailed ->
  creates flags timerfd_vtable (timerfd_create clockid flags).
Proof.
  intros Ho. unfold timerfd_create. case_bool_decide as E; [apply refused|].
  destruct (other_flags _ _); [apply refused|].
  intros x w Hr. apply wp_create_descriptor; [done|]. apply timerfd_initialises; [done|].
  by destruct (clockid_of_int clockid).
Qed.

(** The answer for a descriptor of another kind changes nothing. *)
Lemma wp_not_this_kind {A} fd x w (Q : result A -> EpollShimCtx * W -> Prop) : at_rest (x, w) ->
  (forall ec w', at_rest (x, w') -> Q (Err ec) (x, w')) -> wpg o (not_this_kind fd) Q (x, w).
Proof.
  intros Hr HQ. unfold not_this_kind. destruct (fd <? 0); [by apply wp_ret, HQ|].
  apply wp_bind, (inv_call o _ [] None None Released); [done..|]. intros r w' Hr'. by apply wp_ret, HQ.
Qed.

Lemma signalfd_create_spec fd set flags : o AssertFailed ->
  creates flags signalfd_vtable (signalfd_create fd set flags).
Proof.
  intros Ho. unfold signalfd_create. destruct set as [set|]; [|apply refused].
  destruct (other_flags _ _); [apply refused|]. destruct (negb _).
  - intros x w Hr. apply wp_not_this_kind; [done|]. intros ec w' Hr'. split; [done|by left].
  - intros x w Hr. apply wp_create_descriptor; [done|by apply signalfd_initialises].
Qed.

(** ** A call under the mutex of a description *)

Section Locked.
Context (b : EpollShimCtx) (e : list Z) (h : hold) (p : Z) (v : file_description_vtable).

Lemma call_at lk {A} (c : syscall A) : manages_memory c = false -> stable o (at_kind b e lk h p v) (call c).
Proof.
  intros Hc [x w] (Hi & Hd & Ha). cbn in *. eapply inv_call; [done..|]. intros a w' Hi'. by split.
Qed.

Lemma locked_section {A B} (m : F A) (k : A -> FileDescription -> F B) :
  stable o (at_kind b e (Some p) h p v) m ->
  (forall a d, stable o (at_kind b e None h p v) (k a d)) ->
  stable o (at_kind b e None h p v)
    (lock_desc p ;; let* a := m in let* d := the_desc p in unlock_desc p ;; k a d).
Proof.
  intros Hm Hk s Hs. apply wp_bind. eapply wp_mono; [by apply (wp_lock_at o b e h p v)|]. intros [] s1 Hs1.
  apply wp_bind. eapply wp_mono; [by apply Hm|]. intros a s2 Hs2.
  apply wp_bind. eapply wp_mono; [by apply (the_desc_stable o b e (Some p) h p v)|]. intros d s3 Hs3.
  apply wp_bind. eapply wp_mono; [by apply (wp_unlock_at o b e h p v)|]. intros [] s4 Hs4. by apply Hk.
Qed.

Lemma locked_call {A B} (m : F A) (k : A -> F B) :
  stable o (at_kind b e (Some p) h p v) m ->
  (forall a, stable o (at_kind b e None h p v) (k a)) ->
  stable o (at_kind b e None h p v) (lock_desc p ;; let* a := m in unlock_desc p ;; k a).
Proof.
  intros Hm Hk s Hs. apply wp_bind. eapply wp_mono; [by apply (wp_lock_at o b e h p v)|]. intros [] s1 Hs1.
  apply wp_bind. eapply wp_mono; [by apply Hm|]. intros a s2 Hs2.
  apply wp_bind. eapply wp_mono; [by apply (wp_unlock_at o b e h p v)|]. intros [] s3 Hs3. by apply Hk.
Qed.
End Locked.

(** ** Reading and writing *)

Section Kinds.
Context (b : EpollShimCtx) (e : list Z) (h : hold) (p : Z).

Lemma eventfd_read_at kq n : stable o (at_kind b e None h p eventfd_vtable) (eventfd_helper_read p kq n).
Proof.
  unfold eventfd_helper_read. destruct (negb _); [apply stable_ret|].
  apply stable_bind_result; [|intros; apply stable_ret].
  generalize fuel. intros k. induction k as [|k IH]; cbn [eventfd_ctx_read_or_block]; [by apply stable_stop|].
  apply locked_section; [apply on_eventfd_stable; intros; by apply eventfd_read_framed|].
  intros a d. destruct (_ || _); [apply stable_ret|].
  apply stable_bind_result; [by apply call_at|by intros].
Qed.

Lemma eventfd_write_at kq buf :
  stable o (at_kind b e None h p eventfd_vtable) (eventfd_helper_write p kq buf).
Proof.
  unfold eventfd_helper_write. destruct (negb _); [apply stable_ret|].
  apply locked_call; [apply on_eventfd_stable; intros; by apply eventfd_write_framed|].
  intros [u|ec]; apply stable_ret.
Qed.

Lemma timerfd_read_at kq n : stable o (at_kind b e None h p timerfd_vtable) (timerfd_read p kq n).
Proof.
  unfold timerfd_read. destruct (n <? 8); [apply stable_ret|].
  apply stable_bind_result; [|intros; apply stable_ret].
  generalize fuel. intros k. induction k as [|k IH]; cbn [timerfd_ctx_read_or_block]; [by apply stable_stop|].
  apply locked_section; [apply on_timerfd_stable; intros; by apply timerfd_read_framed|].
  intros a d. cbv zeta. destruct (_ || _); [apply stable_ret|].
  apply stable_bind_result; [by apply call_at|by intros].
Qed.

Lemma signalfd_read_at kq n : stable o (at_kind b e None h p signalfd_vtable) (signalfd_read p kq n).
Proof.
  unfold signalfd_read. destruct (n <? 128); [apply stable_ret|].
  generalize (Z.to_nat (n / 128)) false (@nil Z). intros k. induction k as [|k IH]; intros f buf;
    cbn [signalfd_read_all]; [apply stable_ret|].
  apply stable_bind; [|intros [i|ec]; [apply IH|apply stable_ret]].
  generalize fuel. intros m. induction m as [|m IHm]; cbn [signalfd_ctx_read_or_block]; [by apply stable_stop|].
  apply locked_section; [apply on_signalfd_stable; intros; by apply signalfd_read_framed|].
  intros a d. destruct (_ || _); [apply stable_ret|].
  apply stable_bind_result; [by apply call_at|by intros].
Qed.

(** [poll_fun]; with [want] it stores a value. *)
Lemma poll_stores v kq s : has_poll_fun v = true ->
  wpg (fun _ => True) (match v with
    | timerfd_vtable => timerfd_poll p kq true
    | signalfd_vtable => signalfd_poll p kq true
    | _ => stop_with DanglingPointer
    end) (fun r _ => is_Some r) s.
Proof.
  assert (forall {A B} (m : F A) (k : A -> F B) Q s,
    (forall a s', wpg (fun _ => True) (k a) Q s') -> wpg (fun _ => True) (bind m k) Q s) as Hany.
  { intros A B m k Q s1 HQ. apply wp_bind. unfold wpg at 1. destruct (m s1); [apply HQ|done]. }
  assert (forall (r : option Z) s, is_Some r -> wpg (fun _ => True) (unlock_desc p ;; ret r)
    (fun r (_ : EpollShimCtx * W) => is_Some r) s) as Hend by (intros; by apply Hany; intros).
  intros Hv. destruct v; try done.
  - unfold timerfd_poll. apply Hany. intros _ s1. apply wp_bind. unfold wpg at 1, on_timerfd.
    destruct (descs s1.1 !! p) as [d|]; [|done]. destruct (ctx d); try done. by apply Hend.
  - unfold signalfd_poll. apply Hany. intros _ s1. apply wp_bind. unfold wpg at 1, on_signalfd.
    destruct (descs s1.1 !! p) as [d|]; [|done]. destruct (ctx d) as [| | | |c]; try done.
    unfold signalfd_ctx_poll, bind. destruct (signalfd_ctx_clear_signal kq true (c, s1.2)) as [r [c' w']|]; [|done].
    by apply Hend.
Qed.

Lemma poll_fun_at v kq want s : has_poll_fun v = true -> at_kind b e None h p v s ->
  wpg o (call_poll_fun p kq want) (fun r s' => at_kind b e None h p v s' /\
    (want = true -> is_Some r)) s.
Proof.
  intros Hv Hs. unfold call_poll_fun, the_vtable. apply wp_bind, wp_bind.
  eapply wp_mono; [by apply (wp_the_desc_at o b e None h p v)|]. intros d s' (-> & _ & ->). apply wp_ret.
  pose proof (poll_stores v kq s Hv) as Hst.
  assert (forall m : F (option Z), stable o (at_kind b e None h p v) m ->
    (want = true -> wpg (fun _ => True) m (fun r _ => is_Some r) s) ->
    wpg o m (fun r s' => at_kind b e None h p v s' /\ (want = true -> is_Some r)) s) as Hboth.
  { intros m Hm Hw. specialize (Hm s Hs). unfold wpg in *. destruct (m s); [|done]. auto. }
  destruct v; try done; (apply Hboth; [|by intros ->]).
  - unfold timerfd_poll. apply locked_call; [|intros; apply stable_ret].
    apply on_timerfd_stable. intros. by apply timerfd_poll_framed.
  - unfold signalfd_poll. apply locked_call; [|intros; apply stable_ret].
    apply on_signalfd_stable. intros. by apply signalfd_poll_framed.
Qed.
End Kinds.

(** ** Calls that look a descriptor up *)

(** What a call on the descriptor [fd] does. *)
Definition touches {A} (fd : Z) (m : F A) : Prop :=
  forall x w, at_rest (x, w) -> wpg o m (fun _ s => at_rest s /\ elsewhere fd x s.1) (x, w).

(** Look [fd] up and use the description. *)
Lemma wp_borrow {A} fd x w (k : option Z -> F A) : at_rest (x, w) -> fd <= INT_MAX ->
  (forall x', at_rest (x', w) -> (forall fd, behind x' fd = behind x fd) ->
     wpg o (k None) (fun _ s => at_rest s /\ elsewhere fd x s.1) (x', w)) ->
  (forall p v s, at_kind x [p] None Released p v s ->
     wpg o (k (Some p)) (fun _ => at_kind x [] None Released p v) s) ->
  wpg o (bind (epoll_shim_ctx_find_desc fd) k) (fun _ s => at_rest s /\ elsewhere fd x s.1) (x, w).
Proof.
  intros Hr Hfd HN HS. apply wp_bind, (wp_find_desc o x w fd); [done|done| |].
  - intros x' Hr' Hf Hd. apply HN; [done|by apply behind_ext].
  - intros p v s Hfd0 Hp Hp0 Hs. eapply wp_mono; [by apply (HS p v)|]. intros a s' (Hi & _ & Ha).
    split; [done|]. eapply around_elsewhere; [apply (si_table _ _ _ _ _ _ _ Hr)|done..].
Qed.

Lemma wp_call_rest {A} (c : syscall A) x w x' fd : manages_memory c = false -> at_rest (x', w) ->
  (forall fd, behind x' fd = behind x fd) ->
  wpg o (call c) (fun _ s => at_rest s /\ elsewhere fd x s.1) (x', w).
Proof.
  intros Hc Hr Hb. apply (inv_call o _ [] None None Released); [done..|]. intros a w' Hr'.
  split; [done|]. by intros k _.
Qed.

(** The last step: the reference is given back. *)
Lemma unref_end {A} b p v (r : A) s : at_kind b [p] None Released p v s ->
  wpg o ((let* _ := unref p in ret tt) ;; ret r) (fun _ => at_kind b [] None Released p v) s.
Proof.
  intros Hs. apply wp_bind, wp_bind. eapply wp_mono; [by apply (wp_unref_borrowed o b Released p v)|].
  intros ec s' Hs'. by apply wp_ret, wp_ret.
Qed.

Lemma with_desc_touches {A} v fd (m : Z -> F (result A)) : fd <= INT_MAX ->
  (forall b p, stable o (at_kind b [p] None Released p v) (m p)) -> touches fd (with_desc v fd m).
Proof.
  intros Hfd Hm x w Hr. unfold with_desc. apply wp_bind_result, wp_global; [done|].
  apply wp_borrow; [done|done|..].
  - intros x' Hr' Hb. apply wp_not_this_kind; [done|]. intros ec w' Hr''. split; [done|]. by intros k _.
  - intros p v' s Hs. apply wp_bind. eapply wp_mono; [by apply (wp_the_desc_at o x [p] None Released p v')|].
    intros d s' (-> & _ & Hv). apply wp_bind.
    eapply wp_mono with (Q := fun _ => at_kind x [p] None Released p v'); [|intros r s' Hs'; by apply unref_end].
    case_bool_decide as E; [assert (v' = v) as -> by congruence; by apply Hm|].
    unfold not_this_kind. destruct (fd <? 0); [by apply wp_ret|].
    apply wp_bind. eapply wp_mono; [by apply (call_at x [p] Released p v' None)|]. intros r s' Hs'. by apply wp_ret.
Qed.

(** *** read and write *)

Lemma borrow_lookup {A} fd x w (k : option Z -> F A) : at_rest (x, w) -> fd <= INT_MAX ->
  (forall x', at_rest (x', w) -> (forall fd, behind x' fd = behind x fd) ->
     wpg o (k None) (fun _ s => at_rest s /\ elsewhere fd x s.1) (x', w)) ->
  (forall p v s, at_kind x [p] None Released p v s ->
     wpg o (k (Some p)) (fun _ => at_kind x [] None Released p v) s) ->
  wpg o (bind (lookup_desc fd) k) (fun _ s => at_rest s /\ elsewhere fd x s.1) (x, w).
Proof.
  intros Hr Hfd HN HS. unfold lookup_desc. apply wp_bind, wp_bind, wp_global; [done|]. cbn [is_ok negb].
  destruct (fd <? 0); cbn [orb]; [by apply wp_ret, HN|].
  apply wp_bind. by apply wp_borrow.
Qed.

Lemma read_fun_at b p v fd n : stable o (at_kind b [p] None Released p v) (read_fun v p fd n).
Proof.
  destruct v; cbn [read_fun]; [apply stable_ret|apply eventfd_read_at|apply timerfd_read_at|apply signalfd_read_at].
Qed.

Lemma write_fun_at b p v fd buf : stable o (at_kind b [p] None Released p v) (write_fun v p fd buf).
Proof. destruct v; cbn [write_fun]; first [apply stable_ret|apply eventfd_write_at]. Qed.

(** Use a function of the table, then give the reference back. *)
Lemma use_fun {A} b p v (c : bool) (r0 : A) (m : file_description_vtable -> F A) s :
  (forall v, stable o (at_kind b [p] None Released p v) (m v)) ->
  at_kind b [p] None Released p v s ->
  wpg o (let* r := if c then ret r0 else let* v := the_vtable p in m v in
         (let* _ := unref p in ret tt) ;; ret r)
    (fun _ => at_kind b [] None Released p v) s.
Proof.
  intros Hm Hs. apply wp_bind.
  eapply wp_mono with (Q := fun _ => at_kind b [p] None Released p v); [|intros r s' Hs'; by apply unref_end].
  destruct c; [by apply wp_ret|]. unfold the_vtable. apply wp_bind, wp_bind.
  eapply wp_mono; [by apply (wp_the_desc_at o b [p] None Released p v)|].
  intros d s' (-> & _ & ->). apply wp_ret. by apply Hm.
Qed.

Lemma read_touches fd n : fd <= INT_MAX -> touches fd (epoll_shim_read fd n).
Proof.
  intros Hfd x w Hr. unfold epoll_shim_read. apply borrow_lookup; [done|done|..].
  - intros. by apply wp_call_rest.
  - intros p v s Hs. apply use_fun; [|done]. intros v'. apply read_fun_at.
Qed.

Lemma write_touches fd buf : fd <= INT_MAX -> touches fd (epoll_shim_write fd buf).
Proof.
  intros Hfd x w Hr. unfold epoll_shim_write. apply borrow_lookup; [done|done|..].
  - intros. by apply wp_call_rest.
  - intros p v s Hs. apply use_fun; [|done]. intros v'. apply write_fun_at.
Qed.

(** *** fcntl *)

(** The end of a call under the mutex. *)
Lemma unlock_end {A} b p v (r : A) s : at_kind b [p] (Some p) Released p v s ->
  wpg o (unlock_desc p ;; (let* _ := unref p in ret tt) ;; ret r)
    (fun _ => at_kind b [] None Released p v) s.
Proof.
  intros Hs. apply wp_bind. eapply wp_mono; [by apply (wp_unlock_at o b [p] Released p v)|].
  intros [] s' Hs'. by apply unref_end.
Qed.

Lemma fcntl_touches fd cmd arg : fd <= INT_MAX -> touches fd (epoll_shim_fcntl fd cmd arg).
Proof.
  intros Hfd x w Hr. unfold epoll_shim_fcntl. cbv zeta.
  destruct cmd; [by apply wp_call_rest|by apply wp_call_rest|..];
    (apply borrow_lookup; [done|done|intros; by apply wp_call_rest|]); intros p v s Hs;
    (apply wp_bind; eapply wp_mono; [by apply (wp_lock_at o x [p] Released p v)|]); intros [] s1 Hs1;
    (apply wp_bind; eapply wp_mono; [by apply (call_at x [p] Released p v (Some p))|]); intros r s2 Hs2.
  - apply wp_bind. eapply wp_mono; [by apply (the_desc_stable o x [p] (Some p) Released p v)|].
    intros d s3 Hs3. by apply unlock_end.
  - apply wp_bind. eapply wp_mono with (Q := fun _ => at_kind x [p] (Some p) Released p v);
      [|intros [] s3 Hs3; by apply unlock_end].
    apply wp_when. destruct (is_ok _); [|done]. apply wp_set_flags_at; [apply nonblock_land|done].
Qed.

(** *** Timers *)

Lemma detector_bounds e lk loose h x w p d d' : shim_inv (W := W) o e lk loose h x w ->
  descs x !! p = Some d ->
  0 <= nr_fds_for_realtime_step_detector x + (jump d' - jump d) < 2 ^ 64 /\
  0 <= nr_fds_for_realtime_step_detector x.
Proof.
  intros Hi Hp. rewrite (si_count _ _ _ _ _ _ _ Hi).
  pose proof (jumpers_bounds (delete p (descs x))) as Hb. rewrite (jumpers_delete _ _ d Hp) in Hb.
  pose proof (table_size _ _ (si_table _ _ _ _ _ _ _ Hi)) as Hsz.
  rewrite map_size_delete_Some in Hb by eauto.
  pose proof (jump_bounds d). pose proof (jump_bounds d'). lia.
Qed.

Lemma gettime_touches fd : fd <= INT_MAX -> touches fd (timerfd_gettime fd).
Proof.
  intros Hfd. apply with_desc_touches; [done|]. intros b p. apply locked_call; [|intros; apply stable_ret].
  apply on_timerfd_stable. intros. by apply timerfd_gettime_framed.
Qed.

(** Setting a timer keeps the count of the step detector exact. *)
Lemma settime_at b p kq ab cos new want : stable o (at_kind b [p] None Released p timerfd_vtable)
  (lock_desc p ;;
   let* old_can_jump := on_timerfd p (getf can_jump) in
   let* (ec, old) := on_timerfd p (timerfd_ctx_settime kq ab cos new want) in
   when match ec with Ok _ => true | Err ec => ec =? ECANCELED end
     (let* new_can_jump := on_timerfd p (getf can_jump) in
      epoll_shim_ctx_update_realtime_change_monitoring (new_can_jump - old_can_jump)) ;;
   unlock_desc p ;;
   ret (Ok (ec, old))).
Proof.
  intros s Hs. apply wp_bind. eapply wp_mono; [by apply (wp_lock_at o b [p] Released p timerfd_vtable)|].
  intros [] [x w] Hs1. pose proof Hs1 as (Hi & (d & Hp & Hv) & Ha). cbn [fst snd] in *.
  pose proof (kind_at o _ _ _ _ _ _ _ _ _ Hs1 Hp) as [_ Hk]. unfold kind_ok in Hk. rewrite Hv in Hk.
  destruct (ctx d) as [| | |t|] eqn:Ec; try done.
  apply wp_bind, (wp_on_timerfd o _ _ _ _ _ _ _ Hp Ec), wp_getf. cbn [fst snd].
  assert (set_d p (d <| ctx := timerfd t |>) x = x) as ->.
  { rewrite <- Ec. replace (d <| ctx := ctx d |>) with d by by destruct d. by apply set_d_id. }
  apply wp_bind, (wp_on_timerfd o _ _ _ _ _ _ _ Hp Ec).
  eapply wp_mono; [apply (timerfd_settime_framed o Hk (reserved x)), (si_memory _ _ _ _ _ _ _ Hi)|].
  intros [ec old] [t' w'] (Hm & Hcl & Hab). cbn [fst snd] in *.
  set (d' := d <| ctx := timerfd t' |>).
  destruct (si_descs _ _ _ _ _ _ _ Hi p d Hp) as [Hr Hl Hf _].
  assert (desc_ok o [p] (Some p) None p d') as Hd'.
  { split; [done..|]. left. unfold kind_ok, d'. fields. by rewrite Hv. }
  assert (jump d = can_jump t) as Hj by (unfold jump; by rewrite Hv, Ec).
  assert (jump d' = can_jump t') as Hj' by (unfold jump, d'; fields; by rewrite Hv).
  assert (forall gen w', reserved x w' ->
    at_kind b [p] (Some p) Released p timerfd_vtable
      (with_detector (nr_fds_for_realtime_step_detector x + (jump d' - jump d)) gen (set_d p d' x), w')) as Hend.
  { intros gen w2 Hm2. split; [|split; [exists d'; split; [apply set_d_lookup|done]|by apply around_set_d]].
    apply (inv_world o _ _ _ _ _ w).
    - by eapply inv_set_counted.
    - intros q Hq. apply Hm2, (live_set_d p d' x); [eauto|done]. }
  assert (forall s2, at_kind b [p] (Some p) Released p timerfd_vtable s2 ->
    wpg o (unlock_desc p ;; ret (Ok (ec, old)))
      (fun _ => at_kind b [p] None Released p timerfd_vtable) s2) as Hlast.
  { intros s2 Hs2. apply wp_bind. eapply wp_mono; [by apply (wp_unlock_at o b [p] Released p timerfd_vtable)|].
    intros [] s3 Hs3. by apply wp_ret. }
  apply wp_bind, wp_when. destruct (match ec with Ok _ => true | Err ec => ec =? ECANCELED end) eqn:Eok.
  - apply wp_bind. eapply wp_on_timerfd; [apply set_d_lookup|done|]. apply wp_getf. cbn [fst snd].
    rewrite set_d_set_d. change (d' <| ctx := timerfd t' |>) with d'.
    destruct (detector_bounds _ _ _ _ _ _ p d d' Hi Hp) as [Hb1 Hb2].
    apply wp_update_monitoring.
    + apply (si_step_lock _ _ _ _ _ _ _ Hi).
    + intros q Hq%live_set_d; [by apply Hm|eauto].
    + rewrite <- Hj, <- Hj'. exact Hb1.
    + exact Hb2.
    + intros gen w2 Hm2. apply Hlast. rewrite <- Hj, <- Hj'. apply Hend.
      intros q Hq. apply Hm2, live_set_d; [eauto|done].
  - apply Hlast. assert (jump d' = jump d) as E.
    { rewrite Hj, Hj'. unfold can_jump. destruct ec as [u|ec]; [done|]. destruct Hab as [->|Hab]; [done|].
      by rewrite Hcl, Hab. }
    specialize (Hend (realtime_step_detector_generation x) w' Hm).
    by rewrite E, Z.sub_diag, Z.add_0_r in Hend.
Qed.

Lemma settime_touches fd flags new want : fd <= INT_MAX -> touches fd (timerfd_settime fd flags new want).
Proof.
  intros Hfd. unfold timerfd_settime. destruct new as [new|]; [|by intros x w Hr; apply wp_ret].
  destruct (other_flags _ _); [by intros x w Hr; apply wp_ret|]. intros x w Hr.
  apply wp_bind. eapply wp_mono; [apply with_desc_touches; [done|intros b p; apply settime_at|done]|].
  intros r s Hs. by apply wp_ret.
Qed.

(** ** Going through the table *)

Lemma for_each_stable (P : EpollShimCtx * W -> Prop) (f : Z -> Z -> F unit) n :
  (forall s, P s -> open_files_length s.1 = n /\ open_files_length s.1 = Z.of_nat (length (open_files s.1))) ->
  (forall p i, p <> 0 -> 0 <= i ->
     forall s, P s -> open_files s.1 !! Z.to_nat i = Some p -> wpg o (f p i) (fun _ => P) s) ->
  stable o P (epoll_shim_ctx_for_each_unlocked f).
Proof.
  intros Hn Hf s Hs. unfold epoll_shim_ctx_for_each_unlocked. apply wp_bind, wp_getf.
  destruct (Hn s Hs) as [-> _]. unfold for_each_slot. apply wp_iterM; [|done].
  intros i [x w] Hi Hs'. apply elem_of_seqZ in Hi. destruct (Hn _ Hs') as [Hl Hl']. cbn in Hl, Hl'.
  destruct (lookup_lt_is_Some_2 (open_files x) (Z.to_nat i)) as [p Hp]; [lia|].
  apply wp_bind, (wp_slot o _ _ _ p); [lia|done|]. apply wp_when.
  destruct (Z.eqb_spec p 0) as [|Hp0]; [done|]. cbn [negb]. apply Hf; [done|lia|done|done].
Qed.

(** There are no epoll instances to lock or to tell. *)
Lemma for_each_epoll loose h x w (f : Z -> Z -> F unit) (Q : unit -> EpollShimCtx * W -> Prop) :
  shim_inv o [] None loose h x w -> Q tt (x, w) ->
  (forall p i d, descs x !! p = Some d -> vtable d <> Some epollfd_vtable ->
     wpg o (f p i) (fun _ s => s = (x, w)) (x, w)) ->
  wpg o (epoll_shim_ctx_for_each_unlocked f) Q (x, w).
Proof.
  intros Hi HQ Hf. eapply (wp_mono _ _ (fun _ s => s = (x, w))); [|by intros [] s ->].
  apply (for_each_stable (fun s => s = (x, w)) f (open_files_length x)); [| |done].
  - intros s ->. split; [done|]. apply (to_length _ _ (si_table _ _ _ _ _ _ _ Hi)).
  - intros p i Hp Hi0 s -> Hl.
    destruct (to_live _ _ (si_table _ _ _ _ _ _ _ Hi) _ _ Hl Hp) as [[d Hd] Hlo].
    apply (Hf p i d Hd). destruct (si_descs _ _ _ _ _ _ _ Hi p d Hd) as [_ _ _ [Hk|[? _]]]; [|done].
    unfold kind_ok in Hk. intros E. rewrite E in Hk. by destruct (ctx d).
Qed.

Lemma epoll_only x (w : W) p d (m : F unit) : descs x !! p = Some d ->
  vtable d <> Some epollfd_vtable ->
  wpg o (let* d := the_desc p in when (bool_decide (vtable d = Some epollfd_vtable)) m)
    (fun _ s => s = (x, w)) (x, w).
Proof.
  intros Hp Hv. apply wp_bind, (wp_the_desc o p d); [done|]. by rewrite bool_decide_eq_false_2.
Qed.

(** ** close *)

Lemma no_slot x fd : (0 <= fd -> default 0 (open_files x !! Z.to_nat fd) = 0) -> behind x fd = None.
Proof.
  intros H1. unfold behind. destruct (Z.ltb_spec fd 0); [done|]. specialize (H1 ltac:(lia)).
  destruct (open_files x !! Z.to_nat fd) as [p|]; [|done]. cbn in H1. by rewrite H1.
Qed.

(** The end of [epoll_shim_ctx_remove_desc], once the description is gone. *)
Lemma close_tail x w fd ec (Q : result unit -> EpollShimCtx * W -> Prop) :
  shim_inv o [] None None HeldRead x w ->
  (forall r w', at_rest (x <| rwlock := Released |>, w') -> Q r (x <| rwlock := Released |>, w')) ->
  wpg o (let* ec_local := call (sys_close fd) in
         epoll_shim_ctx_for_each_unlocked (fun p _ => epollfd_unlock p) ;;
         unlock_read ;; ret (first_error ec ec_local)) Q (x, w).
Proof.
  intros Hi HQ. apply wp_bind, (inv_call o _ [] None None HeldRead); [done..|]. intros r w1 Hi1.
  apply wp_bind, (for_each_epoll None HeldRead); [done| |intros; by eapply epoll_only].
  apply wp_bind. unfold unlock_read. wps. rewrite (si_rwlock _ _ _ _ _ _ _ Hi1). wps. apply HQ.
  by eapply inv_hold.
Qed.

Lemma wp_shim_close x w fd : at_rest (x, w) -> fd <= INT_MAX ->
  wpg o (epoll_shim_close fd)
    (fun _ s => at_rest s /\ elsewhere fd x s.1 /\ behind s.1 fd = None) (x, w).
Proof.
  intros Hr Hfd. unfold epoll_shim_close. apply wp_bind, wp_global; [done|]. cbn [is_ok negb].
  destruct (Z.ltb_spec fd 0); cbn [orb].
  { apply (inv_call o _ [] None None Released); [done..|]. intros r w' Hr'. split; [done|].
    split; [done|]. apply no_slot. cbn. lia. }
  unfold epoll_shim_ctx_remove_desc. apply wp_bind, wp_assert. rewrite (proj2 (Z.leb_le 0 fd)) by done.
  apply wp_bind, wp_lock_write; [done|]. set (x0 := x <| rwlock := HeldWrite |>).
  assert (shim_inv o [] None None HeldWrite x0 w) as Hi0 by by eapply inv_hold.
  apply wp_bind, (wp_find_impl o [] None HeldWrite); [done|done|..].
  - intros Hno. apply wp_bind, wp_ret, wp_bind, (wp_downgrade o None); [done|].
    set (x1 := x0 <| rwlock := HeldRead |>).
    assert (shim_inv o [] None None HeldRead x1 w) as Hi1 by by eapply inv_hold.
    apply wp_bind, (for_each_epoll None HeldRead); [done| |intros; by eapply epoll_only].
    apply wp_bind, (for_each_epoll None HeldRead); [done| |intros; by eapply epoll_only].
    apply wp_bind, wp_ret. apply close_tail; [done|]. intros r w' Hr'.
    split; [done|]. split; [done|]. by apply no_slot.
  - intros p v _ Hp Hp0 _. apply wp_bind, (wp_set_slot o _ _ _ p); [done..|].
    pose proof (inv_cleared o _ _ _ _ _ Hi0 Hp Hp0) as Hi1.
    pose proof (cleared_behind x0 fd p) as Hb.
    set (x1 := with_files (<[Z.to_nat fd := 0]> (open_files x0)) x0) in *.
    destruct (to_live _ _ (si_table _ _ _ _ _ _ _ Hi0) _ _ Hp Hp0) as [[d Hd] _].
    apply wp_bind, (wp_downgrade o (Some p)); [done|]. set (x2 := x1 <| rwlock := HeldRead |>).
    assert (shim_inv o [] None (Some p) HeldRead x2 w) as Hi2 by by eapply inv_hold.
    apply wp_bind, (for_each_epoll (Some p) HeldRead); [done| |intros; by eapply epoll_only].
    apply wp_bind, (for_each_epoll (Some p) HeldRead); [done| |intros; by eapply epoll_only].
    apply wp_bind. assert (x2 = with_files (open_files x2) x2) as Ex by by destruct x2.
    rewrite Ex at 1.
    eapply wp_mono; [by apply (wp_unref_last o (open_files x2) HeldRead x2 w p d)|].
    intros ec [x3 w3] (Hi3 & Hf3 & Hd3). cbn [fst snd] in Hi3, Hf3, Hd3.
    assert (with_files (open_files x2) x3 = x3) as E3 by (rewrite <- Hf3; by destruct x3).
    rewrite E3 in Hi3. apply close_tail; [done|]. intros r w' Hr'. split; [done|].
    assert (forall k, behind (x3 <| rwlock := Released |>) k = behind x1 k) as Hb3.
    { intros k. unfold behind. fields. rewrite Hf3, Hd3. change (open_files x2) with (open_files x1).
      destruct (k <? 0); [done|]. destruct (open_files x1 !! Z.to_nat k) as [q|] eqn:Eq; [|done].
      destruct (Z.eqb_spec q 0) as [|Hq]; [done|].
      destruct (to_live _ _ (si_table _ _ _ _ _ _ _ Hi1) _ _ Eq Hq) as [_ Hnq].
      by rewrite lookup_delete_ne by congruence. }
    split.
    + intros k Hk. rewrite Hb3, Hb by done. by rewrite (proj2 (Z.eqb_neq k fd) Hk).
    + rewrite Hb3, Hb by done. by rewrite Z.eqb_refl.
Qed.
End Calls.
