(* ===== verification/ShimRun.v ===== *)
(** * Polling, the step detector and whole runs

    [poll] and [ppoll] on descriptors of the library, a round of the step
    detector, and sequences of calls. *)

From S2P Require Import Prelude Kernel Rwlock KqueueEvent Timespec Descriptors Compat EventfdCtx TimerfdCtx SignalfdCtx EpollNode EpollCtx FileDesc ShimCtx ShimIo Api Frame ShimInv ShimOps ShimCalls.

(** ** poll(2): the descriptors stay, the ready ones are counted *)

Definition ready_count (fds : list pollfd) : Z :=
  sumZ (fun f => if pfd_revents f =? 0 then 0 else 1) fds.

Class PollLaws (W : Type) `{!Kernel W} := {
  law_poll w fds timeout :
    match (kernel_step (sys_poll fds timeout) w).1 with
    | Ok (n, fds') => map pfd_fd fds' = map pfd_fd fds /\ n = ready_count fds'
    | Err _ => True
    end;
  law_ppoll w fds timeout sigmask :
    match (kernel_step (sys_ppoll fds timeout sigmask) w).1 with
    | Ok (n, fds') => map pfd_fd fds' = map pfd_fd fds /\ n = ready_count fds'
    | Err _ => True
    end;
  (** clock_gettime(2) *)
  law_clock w c :
    match (kernel_step (sys_clock_gettime c) w).1 with Ok now => timespec_ok now | Err _ => True end
}.

(** Descriptors are of type [int]. *)
Definition ints (fds : list pollfd) : Prop := Forall (fun f => pfd_fd f <= INT_MAX) fds.

Lemma ints_map fds fds' : map pfd_fd fds' = map pfd_fd fds -> ints fds -> ints fds'.
Proof.
  unfold ints. rewrite <- !(Forall_map pfd_fd (fun fd => fd <= INT_MAX)). by intros ->.
Qed.

Section Poll.
Context {W : Type} `{!Platform, !Kernel W, !Fuel, !MemoryLaws W, !PollLaws W} (o : stop -> Prop)
  (Hfuel : o OutOfFuel).

Abbreviation inv := (shim_inv (W := W) o).
Abbreviation at_rest := (at_rest (W := W) o).
Abbreviation F := (M (EpollShimCtx * W)).

(** With the table locked for reading. *)
Definition reading (s : EpollShimCtx * W) : Prop := inv [] None None HeldRead s.1 s.2.

Lemma prepare_polls_stable fds : ints fds -> stable o reading (prepare_polls fds).
Proof.
  intros Hfds s Hs. unfold prepare_polls. apply wp_iterM; [|done]. intros f [x w] Hf Hr.
  apply wp_bind, (wp_find_impl o [] None HeldRead); [done| |..].
  - by apply (proj1 (Forall_forall _ _) Hfds).
  - intros _. by apply wp_ret.
  - intros p v _ _ _ Hk. unfold the_vtable. apply wp_bind, wp_bind.
    eapply wp_mono; [by apply (wp_the_desc_at o x [] None HeldRead p v)|]. intros d s' (-> & _ & ->).
    apply wp_ret, wp_when. destruct (has_poll_fun v) eqn:Ev; [|done].
    apply wp_bind. eapply wp_mono; [by apply (poll_fun_at o Hfuel x [] HeldRead p v)|].
    intros r s' [[Hi _] _]. by apply wp_ret.
Qed.

(** The second pass keeps the count exact. *)
Lemma refine_polls_spec fds n s : ints fds -> reading s ->
  wpg o (refine_polls fds n) (fun r s' => reading s' /\ map pfd_fd r.2 = map pfd_fd fds /\
    r.1 - ready_count r.2 = n - ready_count fds) s.
Proof.
  revert n s. induction fds as [|f fds IH]; intros n [x w] Hfds Hr; cbn [refine_polls].
  { by apply wp_ret. }
  apply Forall_cons in Hfds as [Hf Hfds]. apply wp_bind.
  eapply (wp_mono _ _ (fun r s' => reading s' /\ pfd_fd r.2 = pfd_fd f /\
    r.1 - ready_count [r.2] = n - ready_count [f])).
  - assert (wpg o (ret (n, f)) (fun r s' => reading s' /\ pfd_fd r.2 = pfd_fd f /\
      r.1 - ready_count [r.2] = n - ready_count [f]) (x, w)) as Hsame by by apply wp_ret.
    destruct (Z.eqb_spec (pfd_revents f) 0) as [|Hrev]; [done|].
    apply wp_bind, (wp_find_impl o [] None HeldRead); [done|done|by intros _|].
    intros p v _ _ _ Hk. unfold the_vtable. apply wp_bind, wp_bind.
    eapply wp_mono; [by apply (wp_the_desc_at o x [] None HeldRead p v)|]. intros d s' (-> & _ & ->).
    apply wp_ret. destruct (has_poll_fun v) eqn:Ev; [|done].
    apply wp_bind. eapply wp_mono; [by apply (poll_fun_at o Hfuel x [] HeldRead p v)|].
    intros r s' [[Hi _] Hsome]. destruct (Hsome eq_refl) as [revents ->]. apply wp_ret.
    split; [done|]. split; [done|]. cbn. rewrite (proj2 (Z.eqb_neq _ _) Hrev).
    destruct (i16 revents =? 0); lia.
  - intros [n1 f1] s1 (Hr1 & Hf1 & Hc1). apply wp_bind. eapply wp_mono; [by apply IH|].
    intros [n2 fds2] s2 (Hr2 & Hf2 & Hc2). apply wp_ret. cbn in *. split; [done|].
    split; [by rewrite Hf1, Hf2|]. unfold ready_count in *. cbn in *. lia.
Qed.

Lemma wp_real_ppoll fds timeout sigmask x w (Q : result (Z * list pollfd) -> EpollShimCtx * W -> Prop) :
  at_rest (x, w) -> (is_os Apple = true -> sigmask = None) ->
  (forall ec w', at_rest (x, w') -> Q (Err ec) (x, w')) ->
  (forall n fds' w', at_rest (x, w') -> map pfd_fd fds' = map pfd_fd fds -> n = ready_count fds' ->
     Q (Ok (n, fds')) (x, w')) ->
  wpg o (real_ppoll fds timeout sigmask) Q (x, w).
Proof.
  intros Hr Happle HErr HOk. unfold real_ppoll. destruct (is_os Apple).
  - rewrite Happle by done. unfold compat_ppoll. destruct (ppoll_timeout_ms timeout) as [ms|ec]; [|by apply wp_ret, HErr].
    apply wp_bind_result, wp_ret. unfold masked_poll. apply wp_bind, wp_call_pair.
    pose proof (law_poll w fds ms) as Hl.
    pose proof (neutral _ (sys_poll fds ms) w eq_refl (si_memory _ _ _ _ _ _ _ Hr)) as Hm1.
    destruct (kernel_step (sys_poll fds ms) w) as [r w1]. cbn [fst snd] in Hl, Hm1.
    unfold call_. apply wp_bind, wp_bind, wp_call_pair.
    pose proof (fun q Hq => law_freed w1 0 q Hq) as Hfree.
    destruct (kernel_step (sys_free 0) w1) as [u w2]. cbn [snd] in Hfree.
    assert (at_rest (x, w2)) as Hr2.
    { eapply inv_world; [done|]. intros q Hq. apply Hfree; [|by apply Hm1].
      destruct Hq as [Hq|[_ Hq]]; [|done]. apply (to_owned _ _ (si_table _ _ _ _ _ _ _ Hr) q Hq). }
    apply wp_ret, wp_ret. destruct r as [[n fds']|ec]; [|by apply HErr]. by apply HOk; try apply Hl.
  - apply wp_call_pair. pose proof (law_ppoll w fds timeout sigmask) as Hl.
    pose proof (neutral _ (sys_ppoll fds timeout sigmask) w eq_refl (si_memory _ _ _ _ _ _ _ Hr)) as Hm1.
    destruct (kernel_step (sys_ppoll fds timeout sigmask) w) as [[[n fds']|ec] w1]; cbn [fst snd] in Hl, Hm1;
      assert (at_rest (x, w1)) as Hr1 by (by eapply inv_world); [by apply HOk; try apply Hl|by apply HErr].
Qed.

(** What [ppoll] answers. *)
Definition polled (fds : list pollfd) (r : result (Z * list pollfd)) : Prop :=
  match r with
  | Ok (n, fds') => map pfd_fd fds' = map pfd_fd fds /\ n = ready_count fds'
  | Err _ => True
  end.

Definition polls (fds : list pollfd) (m : F (result (Z * list pollfd))) : Prop :=
  forall s, at_rest s -> wpg o m (fun r s' => at_rest s' /\ polled fds r) s.

Lemma polls_err fds ec : polls fds (ret (Err ec)).
Proof. intros s Hs. by apply wp_ret. Qed.

Lemma map_polls fds fds' m : map pfd_fd fds' = map pfd_fd fds -> polls fds' m -> polls fds m.
Proof.
  intros E Hm s Hs. eapply wp_mono; [by apply Hm|]. intros [[n l]|ec] s' [Hr Hp]; [|done].
  cbn in *. by rewrite <- E.
Qed.

Lemma ppoll_deadline_polls k fds dt sigmask : ints fds -> (is_os Apple = true -> sigmask = None) ->
  polls fds (epoll_shim_ppoll_deadline k fds dt sigmask).
Proof.
  revert fds dt. induction k as [|k IH]; intros fds dt Hfds Ha [x w] Hr; [done|].
  cbn [epoll_shim_ppoll_deadline].
  apply wp_bind, (wp_lock_read o); [done|]. intros x1 Hr1 _ _.
  apply wp_bind. eapply wp_mono; [by apply (prepare_polls_stable fds Hfds)|]. intros [] [x2 w2] Hr2.
  apply wp_bind, (wp_unlock_read o []); [done|]. intros x3 Hr3 _ _.
  apply wp_bind_result, wp_real_ppoll; [done|done|done|]. intros n fds' w4 Hr4 Hm ->.
  destruct (Z.eqb_spec (ready_count fds') 0) as [E|_]; [by apply wp_ret|].
  apply wp_bind, (wp_lock_read o); [done|]. intros x5 Hr5 _ _.
  apply wp_bind. eapply wp_mono; [apply refine_polls_spec; [by eapply ints_map|done]|].
  intros [n2 fds2] [x6 w6] (Hr6 & Hm6 & Hc6). cbn [fst snd] in Hr6, Hm6, Hc6.
  assert (map pfd_fd fds2 = map pfd_fd fds) as Hm2 by congruence.
  assert (n2 = ready_count fds2) as -> by lia.
  apply wp_bind, (wp_unlock_read o []); [done|]. intros x7 Hr7 _ _.
  assert (forall dt s, at_rest s -> wpg o (epoll_shim_ppoll_deadline k fds2 dt sigmask)
    (fun r s' => at_rest s' /\ polled fds r) s) as Hagain.
  { intros dt'. apply (map_polls fds fds2); [done|]. apply IH; [by eapply ints_map|done]. }
  destruct dt as [[deadline timeout]|].
  - destruct (_ && _); [|by apply wp_ret]. apply wp_bind_result, (inv_call o _ [] None None Released); [done..|].
    intros [now|ec] w8 Hr8; [|done]. cbv zeta. by apply Hagain.
  - destruct (_ =? 0); [by apply Hagain|by apply wp_ret].
Qed.

(** A timeout fits its type. *)
Definition tmo_fits (tmo : option timespec) : Prop :=
  match tmo with Some t => tv_sec t <= INT64_MAX | None => True end.

Lemma ppoll_polls fds tmo sigmask : ints fds -> tmo_fits tmo -> (is_os Apple = true -> sigmask = None) ->
  polls fds (epoll_shim_ppoll fds tmo sigmask).
Proof.
  intros Hfds Htmo Ha [x w] Hr. unfold epoll_shim_ppoll. apply wp_bind, wp_global; [done|]. cbn [is_ok negb].
  unfold epoll_shim_ppoll_impl. destruct tmo as [tmo|]; [|by apply ppoll_deadline_polls].
  destruct (ts_is_zero tmo); [by apply ppoll_deadline_polls|].
  destruct (timespec_is_valid tmo) eqn:Ev; cbn [negb]; [|by apply polls_err].
  apply wp_bind_result, wp_call_pair. pose proof (law_clock w CLOCK_MONOTONIC) as Hnow.
  pose proof (neutral _ (sys_clock_gettime CLOCK_MONOTONIC) w eq_refl (si_memory _ _ _ _ _ _ _ Hr)) as Hm1.
  destruct (kernel_step _ w) as [[now|ec] w1]; cbn [fst snd] in Hnow, Hm1;
    assert (at_rest (x, w1)) as Hr1 by (by eapply inv_world); [|by apply polls_err].
  apply wp_bind. destruct (timespecadd_safe_run now tmo (x, w1) Hnow) as (r & Hrun & _); [by split|].
  unfold wpg at 1. rewrite Hrun. destruct r as [deadline|]; [|by apply polls_err].
  by apply ppoll_deadline_polls.
Qed.

Lemma poll_timeout_fits timeout : timeout <= INT_MAX -> tmo_fits (poll_timeout timeout).
Proof.
  intros Ht. unfold poll_timeout. destruct (Z.leb_spec 0 timeout); [|done]. cbn.
  rewrite Z.quot_div_nonneg by lia. unfold INT64_MAX, INT_MAX in *.
  pose proof (Z.div_mod timeout 1000). pose proof (Z.mod_pos_bound timeout 1000). lia.
Qed.

(** *** A round of the step detector *)

Lemma realtime_change_at b e h p kq :
  stable o (at_kind o b e None h p timerfd_vtable) (timerfd_realtime_change p kq).
Proof.
  intros s Hs. unfold timerfd_realtime_change. apply wp_bind.
  eapply wp_mono; [by apply (wp_lock_at o b e h p timerfd_vtable)|]. intros [] s1 Hs1. apply wp_bind.
  eapply (wp_mono _ _ (fun _ => at_kind o b e (Some p) h p timerfd_vtable)).
  - apply on_timerfd_stable; [|done]. intros. by apply realtime_change_framed.
  - intros [] s2 Hs2. by apply wp_unlock_at.
Qed.

Lemma step_round_stable gen off : stable o at_rest (realtime_step_round (W := W) gen off).
Proof.
  intros [x w] Hr. unfold realtime_step_round, timerfd_ctx_get_monotonic_offset.
  apply wp_bind, (inv_call o _ [] None None Released); [done..|]. intros u w1 Hr1.
  apply wp_bind, wp_lift, wp_call.
  pose proof (neutral _ sys_boottime w1 eq_refl (si_memory _ _ _ _ _ _ _ Hr1)) as Hm2.
  destruct (kernel_step sys_boottime w1) as [[new|ec] w2]; cbn [snd] in Hm2;
    assert (at_rest (x, w2)) as Hr2 by (by eapply inv_world); [|by apply wp_ret].
  unfold lock_step_detector, unlock_step_detector.
  pose proof (si_step_lock _ _ _ _ _ _ _ Hr2) as Hl. cbn in Hl. wps. rewrite Hl. wps.
  assert ((x <| step_detector_locked := true |>) <| step_detector_locked := false |> = x) as ->
    by (fields; rewrite <- Hl; by destruct x).
  destruct (negb _); [by wps|]. destruct (ts_differ new off); [|by wps].
  apply wp_bind, (wp_lock_read o); [done|]. intros x3 Hr3 _ _.
  set (P := fun s : EpollShimCtx * W => reading s /\ open_files s.1 = open_files x3).
  apply wp_bind, (wp_mono _ _ (fun _ => P)).
  - apply (for_each_stable o P _ (open_files_length x3)); [| |by split].
    + intros s [Hs Hf]. rewrite (to_length _ _ (si_table _ _ _ _ _ _ _ Hs)), Hf.
      by rewrite (to_length _ _ (si_table _ _ _ _ _ _ _ Hr3)).
    + intros p i Hp Hi [x4 w4] [Hs Hf] Hslot.
      destruct (slot_kind o _ _ _ _ _ _ _ Hs Hslot Hp) as [v Hv].
      unfold trigger_realtime_change_notification, the_vtable. apply wp_bind, wp_bind.
      eapply wp_mono; [by apply (wp_the_desc_at o x4 [] None HeldRead p v)|]. intros d s' (-> & _ & ->).
      apply wp_ret. destruct v; try (by apply wp_ret).
      eapply (wp_mono _ _ (fun _ => at_kind o x4 [] None HeldRead p timerfd_vtable));
        [by apply realtime_change_at|]. intros [] s (Hs' & _ & Hf' & _). split; [done|]. by rewrite Hf'.
  - intros [] [x4 w4] [Hr4 _]. apply wp_bind, (wp_unlock_read o []); [done|]. intros x5 Hr5 _ _. by apply wp_ret.
Qed.
End Poll.

(** ** Runs *)

(** The calls of a program, the rounds of the step detector, and [op_elsewhere]: what other
    code does to the system, such as closing a descriptor behind the library's back. *)
Inductive shim_op (W : Type) : Type :=
| op_eventfd (initval flags : Z)
| op_timerfd_create (clockid flags : Z)
| op_signalfd (fd : Z) (sigs : option sigset_t) (flags : Z)
| op_read (fd nbytes : Z)
| op_write (fd : Z) (buf : list Z)
| op_close (fd : Z)
| op_fcntl (fd : Z) (cmd : fcntl_cmd) (arg : Z)
| op_settime (fd flags : Z) (new : option itimerspec) (want_old : bool)
| op_gettime (fd : Z)
| op_poll (fds : list pollfd) (timeout : Z)
| op_ppoll (fds : list pollfd) (tmo : option timespec) (sigmask : option sigset_t)
| op_step_round (generation : Z) (offset : timespec)
| op_elsewhere (f : W -> W).
Arguments op_eventfd {W}. Arguments op_timerfd_create {W}. Arguments op_signalfd {W}.
Arguments op_read {W}. Arguments op_write {W}. Arguments op_close {W}. Arguments op_fcntl {W}.
Arguments op_settime {W}. Arguments op_gettime {W}. Arguments op_poll {W}. Arguments op_ppoll {W}.
Arguments op_step_round {W}. Arguments op_elsewhere {W}.

Section Run.
Context {W : Type} `{!Platform, !Kernel W, !Fuel}.

Abbreviation F := (M (EpollShimCtx * W)).

Definition ignore {A} (m : F A) : F unit := let* _ := m in ret tt.

Definition shim_step (op : shim_op W) : F unit :=
  match op with
  | op_eventfd initval flags => ignore (eventfd_create initval flags)
  | op_timerfd_create clockid flags => ignore (timerfd_create clockid flags)
  | op_signalfd fd sigs flags => ignore (signalfd_create fd sigs flags)
  | op_read fd nbytes => ignore (epoll_shim_read fd nbytes)
  | op_write fd buf => ignore (epoll_shim_write fd buf)
  | op_close fd => ignore (epoll_shim_close fd)
  | op_fcntl fd cmd arg => ignore (epoll_shim_fcntl fd cmd arg)
  | op_settime fd flags new want => ignore (timerfd_settime fd flags new want)
  | op_gettime fd => ignore (timerfd_gettime fd)
  | op_poll fds timeout => ignore (epoll_shim_poll fds timeout)
  | op_ppoll fds tmo sigmask => ignore (epoll_shim_ppoll fds tmo sigmask)
  | op_step_round generation offset => ignore (realtime_step_round generation offset)
  | op_elsewhere f => lift (modify f)
  end.

(** From the constructor on; nothing is done when it failed. *)
Definition shim_run (ops : list (shim_op W)) : F unit :=
  epoll_shim_ctx_global_init ;;
  let* g := epoll_shim_ctx_global in
  when (is_ok g) (iterM shim_step ops).

(** The arguments fit their C types.  macOS has no [ppoll]; its replacement is looked at in
    [Compat], here only without a mask. *)
Definition op_fits `{!MemoryLaws W} (op : shim_op W) : Prop :=
  match op with
  | op_eventfd initval _ => 0 <= initval < 2 ^ 32
  | op_read fd _ | op_write fd _ | op_close fd | op_fcntl fd _ _ | op_settime fd _ _ _ | op_gettime fd =>
      fd <= INT_MAX
  | op_poll fds timeout => ints fds /\ timeout <= INT_MAX
  | op_ppoll fds tmo sigmask => ints fds /\ tmo_fits tmo /\ (is_os Apple = true -> sigmask = None)
  | op_elsewhere f => forall w p, in_use w p -> in_use (f w) p
  | _ => True
  end.

(** The code of timers and of signals has assertions about the answers of the system. *)
Definition may_assert (op : shim_op W) : Prop :=
  match op with op_timerfd_create _ _ | op_signalfd _ _ _ => True | _ => False end.
End Run.

Section RunSafe.
Context {W : Type} `{!Platform, !Kernel W, !Fuel, !MemoryLaws W, !PollLaws W} (o : stop -> Prop)
  (Hfuel : o OutOfFuel).

Lemma step_stable op : op_fits op -> (may_assert op -> o AssertFailed) ->
  stable o (at_rest (W := W) o) (shim_step op).
Proof.
  intros Hfit Hmay [x w] Hr.
  assert (forall A (m : M (EpollShimCtx * W) A) Q, wpg o m Q (x, w) ->
    (forall a s, Q a s -> at_rest o s) -> wpg o (ignore m) (fun _ => at_rest o) (x, w)) as Hig.
  { intros A m Q Hm HQ. apply wp_bind. eapply wp_mono; [exact Hm|]. intros a s Hs. by eapply wp_ret, HQ. }
  destruct op; cbn in *.
  - eapply Hig; [by apply eventfd_create_spec|by intros a s []].
  - eapply Hig; [by apply timerfd_create_spec; auto|by intros a s []].
  - eapply Hig; [by apply signalfd_create_spec; auto|by intros a s []].
  - eapply Hig; [by apply read_touches|by intros a s []].
  - eapply Hig; [by apply write_touches|by intros a s []].
  - eapply Hig; [by apply wp_shim_close|by intros a s []].
  - eapply Hig; [by apply fcntl_touches|by intros a s []].
  - eapply Hig; [by apply settime_touches|by intros a s []].
  - eapply Hig; [by apply gettime_touches|by intros a s []].
  - destruct Hfit. eapply Hig; [by apply (ppoll_polls o Hfuel fds (poll_timeout timeout) None); [|apply poll_timeout_fits| |]|by intros a s []].
  - destruct Hfit as (? & ? & ?). eapply Hig; [by apply ppoll_polls|by intros a s []].
  - eapply Hig; [by apply step_round_stable|done].
  - apply wp_lift, wp_modify. eapply inv_world; [done|]. intros q Hq.
    apply Hfit. by apply (si_memory _ _ _ _ _ _ _ Hr).
Qed.

(** The constructor. *)
Lemma rwlock_init_framed (J : W -> Prop) `{!Neutral J} :
  framed o (fun _ => True) J rwlock_init.
Proof. unfold rwlock_init. stable. Qed.

Lemma init_rest x w : descs x = ∅ ->
  wpg o epoll_shim_ctx_global_init
    (fun _ s => epoll_shim_ctx_init_error s.1 = 0 -> at_rest (W := W) o s) (x, w).
Proof.
  intros Hd. unfold epoll_shim_ctx_global_init. apply wp_bind.
  set (start := fun s : EpollShimCtx * W => descs s.1 = ∅ /\ open_files_ptr s.1 = 0 /\
    open_files s.1 = [] /\ open_files_length s.1 = 0 /\ rwlock s.1 = Released /\
    step_detector_locked s.1 = false /\ nr_fds_for_realtime_step_detector s.1 = 0).
  assert (forall A (c : syscall A), stable o start (call c)) as Hcall.
  { intros A c [y w1] Hs. apply wp_call_pair. by destruct (kernel_step c w1). }
  eapply (wp_mono _ _ (fun _ => start)).
  - unfold epoll_shim_ctx_init. apply wp_bind. eapply (wp_mono _ _ (fun _ => start)).
    { apply wp_mod_self. destruct x. by split_and!. }
    intros [] s1 Hs.
    apply wp_bind_result. eapply wp_mono; [by apply Hcall|]. intros [u|ec] s2 Hs2; [|done].
    apply wp_bind. eapply (wp_mono _ _ (fun _ => start)).
    + destruct s2 as [y w2]. unfold wpg, on_rwlock. cbn.
      assert (Neutral (W := W) (fun _ => True)) as Hn by done.
      pose proof (rwlock_init_framed (fun _ => True) (rwlock_initial, w2) (conj I I)) as Hl.
      unfold wpg in Hl. by destruct (rwlock_init (rwlock_initial, w2)) as [r [l w3]|].
    + intros [u'|ec] s3 Hs3; [by apply wp_ret|]. unfold call_. apply wp_bind, wp_bind.
      eapply wp_mono; [by apply Hcall|]. intros r s4 Hs4. by apply wp_ret, wp_ret.
  - intros r [y w1] (H1 & H2 & H3 & H4 & H5 & H6 & H7). cbn in *. apply wp_mod_self. fields. intros He.
    split; fields; try done.
    + split; fields; rewrite ?H1, ?H3, ?H4; try done. intros p [d Hp]. by rewrite lookup_empty in Hp.
    + intros p d. by rewrite H1, lookup_empty.
    + by rewrite H7, H1.
    + by rewrite H1.
    + intros p [Hp|[E Hp]]; fields_all; [|congruence]. rewrite H1, lookup_empty in Hp. by destruct Hp.
Qed.

Lemma run_rest ops x w : descs x = ∅ -> Forall op_fits ops ->
  (Exists may_assert ops -> o AssertFailed) ->
  wpg o (shim_run ops)
    (fun _ s => epoll_shim_ctx_init_error s.1 = 0 -> at_rest (W := W) o s) (x, w).
Proof.
  intros Hd Hfit Hmay. unfold shim_run. apply wp_bind. eapply wp_mono; [by apply init_rest|].
  intros [] [y w1] Hr. unfold epoll_shim_ctx_global. apply wp_bind, wp_bind, wp_getf, wp_ret.
  apply wp_when. unfold of_errno. cbn [fst] in *.
  destruct (Z.eqb_spec (epoll_shim_ctx_init_error y) 0) as [E|]; cbn [is_ok]; [|done].
  eapply (wp_mono _ _ (fun _ => at_rest o)); [|done]. apply wp_iterM; [|by apply Hr].
  intros op s Hop Hs. apply step_stable; [by apply (proj1 (Forall_forall _ _) Hfit)| |done].
  intros Hm. apply Hmay, Exists_exists. eauto.
Qed.
End RunSafe.

(** ** Properties *)

(** What a program can rely on between its calls. *)
Record quiescent (x : EpollShimCtx) : Prop := {
  q_rwlock : rwlock x = Released;
  q_slots fd p : 0 <= fd -> open_files x !! Z.to_nat fd = Some p -> p <> 0 ->
    is_Some (behind x fd) /\
    forall fd', 0 <= fd' -> open_files x !! Z.to_nat fd' = Some p -> fd' = fd;
  q_desc fd d : behind x fd = Some d ->
    refcount d = 1 /\ locked d = false /\
    match vtable d, ctx d with
    | Some eventfd_vtable, eventfd c => 0 <= counter_ c <= 2 ^ 64 - 2
    | Some timerfd_vtable, timerfd _ | Some signalfd_vtable, signalfd _ => True
    | _, _ => False
    end;
  q_no_leak p : is_Some (descs x !! p) -> exists fd, 0 <= fd /\ open_files x !! Z.to_nat fd = Some p;
  q_detector : nr_fds_for_realtime_step_detector x = jumpers (descs x)
}.

Lemma rest_quiescent {W} `{!Kernel W, !MemoryLaws W} o (s : EpollShimCtx * W) :
  at_rest o s -> quiescent s.1.
Proof.
  destruct s as [x w]. intros [Ht Hd Hrw Hsl Hin Hc Ha Hm]. cbn in *. split; try done.
  - intros fd p Hfd Hp Hp0. split.
    + destruct (to_live _ _ Ht _ _ Hp Hp0) as [Hl _]. unfold behind.
      by rewrite (proj2 (Z.ltb_ge fd 0) Hfd), Hp, (proj2 (Z.eqb_neq p 0) Hp0).
    + intros fd' Hfd' Hp'. pose proof (to_once _ _ Ht _ _ _ Hp Hp' Hp0). lia.
  - intros fd d. unfold behind. destruct (fd <? 0); [done|].
    destruct (open_files x !! Z.to_nat fd) as [p|]; [|done]. destruct (p =? 0); [done|].
    intros Hp. destruct (Hd p d Hp) as [Hr Hl Hf [Hk|[]]]; [|done]. rewrite held_nil in Hr.
    split; [lia|]. split; [rewrite Hl; by apply bool_decide_eq_false|]. unfold kind_ok in Hk.
    destruct (vtable d) as [[]|]; [by destruct (ctx d)..|done].
  - intros p Hp. destruct (to_owned _ _ Ht p Hp) as [_ [?|Hin']]; [done|].
    apply list_elem_of_lookup in Hin' as [i Hi]. exists (Z.of_nat i). split; [lia|]. by rewrite Nat2Z.id.
Qed.

(** C2: the life of the library.  From the constructor on, any sequence of calls that create,
    read, write, set, poll and close eventfds, timerfds and signalfds, with rounds of the
    step detector and whatever other code does in between, on any system: no lock is taken
    twice, no freed description is used, no slot outside of the array is touched, and no
    assertion of the table fails (only the code of timers and signals can fail one, when
    there are any).  Between calls the lock is free, every description is in exactly one
    slot with one reference, none is leaked, no counter has overflowed, and the step
    detector works for exactly the timers it concerns. *)
Theorem shim_run_safe `{!Platform, !Kernel W, !Fuel, !MemoryLaws W, !PollLaws W} ops x (w : W) :
  descs x = ∅ -> Forall op_fits ops ->
  wpg (fun why => why = OutOfFuel \/ why = AssertFailed /\ Exists may_assert ops)
    (shim_run ops) (fun _ s => epoll_shim_ctx_init_error s.1 = 0 -> quiescent s.1) (x, w).
Proof.
  intros Hd Hfit. set (o := fun why => why = OutOfFuel \/ why = AssertFailed /\ Exists may_assert ops).
  eapply wp_mono; [apply (run_rest o (or_introl eq_refl) ops); [done|done|by right]|].
  intros [] s Hs He. by apply (rest_quiescent o), Hs.
Qed.

(** C18: a call on one descriptor (read, write, fcntl, timerfd_settime, timerfd_gettime, close)
    leaves every other descriptor with the description it had, in the same state. *)
Theorem shim_isolation `{!Platform, !Kernel W, !Fuel, !MemoryLaws W} o op fd x (w : W) :
  o OutOfFuel -> at_rest o (x, w) -> fd <= INT_MAX ->
  match op with
  | op_read fd' _ | op_write fd' _ | op_close fd' | op_fcntl fd' _ _ | op_settime fd' _ _ _
  | op_gettime fd' => fd' = fd
  | _ => False
  end ->
  wpg o (shim_step op)
    (fun _ s => at_rest o s /\ forall k, k <> fd -> behind s.1 k = behind x k) (x, w).
Proof.
  intros Hfuel Hr Hfd Hop.
  assert (forall A (m : M (EpollShimCtx * W) A), touches o fd m ->
    wpg o (ignore m) (fun _ s => at_rest o s /\ forall k, k <> fd -> behind s.1 k = behind x k) (x, w)) as Hig.
  { intros A m Hm. apply wp_bind. eapply wp_mono; [by apply Hm|]. intros a s Hs. by apply wp_ret. }
  destruct op; try done; subst; apply Hig.
  - by apply read_touches.
  - by apply write_touches.
  - intros y w1 Hr1. eapply wp_mono; [by apply wp_shim_close|]. by intros a s (? & ? & _).
  - by apply fcntl_touches.
  - by apply settime_touches.
  - by apply gettime_touches.
Qed.

(** C20: closing a descriptor empties its slot and changes no other; as every description that is
    left is in a slot, its own is freed. *)
Theorem shim_close_correct `{!Platform, !Kernel W, !Fuel, !MemoryLaws W} o fd x (w : W) :
  at_rest o (x, w) -> fd <= INT_MAX ->
  wpg o (epoll_shim_close fd) (fun _ s => at_rest o s /\ behind s.1 fd = None /\
    forall k, k <> fd -> behind s.1 k = behind x k) (x, w).
Proof.
  intros Hr Hfd. eapply wp_mono; [by apply wp_shim_close|]. intros r s (? & ? & ?). by split_and!.
Qed.

(** C19: creating an eventfd, a timerfd or a signalfd.  On success the new descriptor stands for
    a description of its kind, with one reference, its mutex free and the O_NONBLOCK flag
    that was asked for, and every other descriptor for the one it stood for.  On any
    failure, invalid arguments included, no descriptor gains a description; one whose
    descriptor was closed behind the library's back may have been dropped. *)
Theorem shim_create_correct `{!Platform, !Kernel W, !Fuel, !MemoryLaws W} o op x (w : W)
    v flags (m : M (EpollShimCtx * W) (result Z)) :
  o OutOfFuel -> (may_assert op -> o AssertFailed) -> op_fits op -> at_rest o (x, w) ->
  match op with
  | op_eventfd initval flags => Some (eventfd_vtable, flags, eventfd_create initval flags)
  | op_timerfd_create clockid flags => Some (timerfd_vtable, flags, timerfd_create clockid flags)
  | op_signalfd fd sigs flags => Some (signalfd_vtable, flags, signalfd_create fd sigs flags)
  | _ => None
  end = Some (v, flags, m) ->
  wpg o m (fun r s => at_rest o s /\
    match r with
    | Ok fd => 0 <= fd <= INT_MAX /\ (forall k, k <> fd -> behind s.1 k = behind x k) /\
        exists d, behind s.1 fd = Some d /\ vtable d = Some v /\ refcount d = 1 /\
          locked d = false /\ desc_flags d = Z.land flags O_NONBLOCK /\ kind_ok o d
    | Err _ => forall fd, behind s.1 fd = behind x fd \/ behind s.1 fd = None
    end) (x, w).
Proof.
  intros Hfuel Hmay Hfit Hr Hop.
  assert (creates o flags v m) as Hm.
  { destruct op; simplify_eq.
    - by apply eventfd_create_spec.
    - apply timerfd_create_spec, Hmay, I.
    - apply signalfd_create_spec, Hmay, I. }
  eapply wp_mono; [by apply Hm|]. intros [fd|ec] s [Hs Hres]; (split; [done|]); [|done].
  destruct Hres as (? & ? & d & ? & [? ? ? ? ?]). split; [done|]. split; [done|]. by exists d.
Qed.

(** C21: [poll] and [ppoll] return the number of entries of the array with a non-zero
    [revents], after timers and signals had their say; the descriptors in the array
    are the caller's. *)
Theorem shim_ppoll_counts `{!Platform, !Kernel W, !Fuel, !MemoryLaws W, !PollLaws W} o fds timeout tmo
    sigmask x (w : W) :
  o OutOfFuel -> at_rest o (x, w) -> ints fds -> timeout <= INT_MAX -> tmo_fits tmo ->
  (is_os Apple = true -> sigmask = None) ->
  let counted (r : result (Z * list pollfd)) (s : EpollShimCtx * W) := at_rest o s /\
    match r with
    | Ok (n, fds') => map pfd_fd fds' = map pfd_fd fds /\
        n = Z.of_nat (length (filter (fun f => pfd_revents f <> 0) fds'))
    | Err _ => True
    end in
  wpg o (epoll_shim_poll fds timeout) counted (x, w) /\
  wpg o (epoll_shim_ppoll fds tmo sigmask) counted (x, w).
Proof.
  intros Hfuel Hr Hfds Ht Htmo Ha counted.
  assert (forall l, ready_count l = Z.of_nat (length (filter (fun f => pfd_revents f <> 0) l))) as Hcount.
  { induction l as [|f l IH]; [done|]. rewrite filter_cons. unfold ready_count in *. cbn [sumZ].
    rewrite IH. destruct (Z.eqb_spec (pfd_revents f) 0).
    - by rewrite decide_False by auto.
    - rewrite decide_True by done. cbn [length]. lia. }
  assert (forall m, polls o fds m -> wpg o m counted (x, w)) as Hp.
  { intros m Hm. eapply wp_mono; [by apply Hm|]. intros [[n fds']|ec] s [Hs Hp]; (split; [done|]); [|done].
    destruct Hp as [Hmap ->]. by rewrite Hcount. }
  split; apply Hp; unfold epoll_shim_poll; apply ppoll_polls; auto using poll_timeout_fits.
Qed.
