(* ===== verification/ShimExact.v ===== *)
(** * Exact runs of single calls

    What a call on one descriptor answers and how it leaves the description, when nothing
    of the table is in use: the eventfd functions against the abstract counter, [fcntl] and
    the O_NONBLOCK flag, the growth of the array, and deadlines. *)

From S2P Require Import Prelude Kernel KqueueEvent Timespec EventfdCtx TimerfdCtx EpollNode EpollCtx FileDesc ShimCtx ShimIo Api ShimInv ShimOps.

(** ** Bytes *)

Lemma le_bytes_length n v : length (le_bytes n v) = n.
Proof. revert v. induction n as [|n IH]; intros v; cbn; [done|by rewrite IH]. Qed.

Lemma le_bytes_range n v : Forall (fun b => 0 <= b < 256) (le_bytes n v).
Proof.
  revert v. induction n as [|n IH]; intros v; cbn; [done|]. constructor; [|apply IH].
  by apply Z.mod_pos_bound.
Qed.

(** [memcpy] there and back. *)
Lemma le_bytes_roundtrip n v : 0 <= v < 256 ^ Z.of_nat n -> of_le_bytes (le_bytes n v) = v.
Proof.
  revert v. induction n as [|n IH]; intros v Hv; cbn [le_bytes of_le_bytes].
  - change (256 ^ Z.of_nat 0) with 1 in Hv. lia.
  - rewrite IH; [pose proof (Z.div_mod v 256); lia|].
    rewrite Nat2Z.inj_succ, Z.pow_succ_r in Hv by lia.
    split; [apply Z.div_pos; lia|apply Z.div_lt_upper_bound; lia].
Qed.

#[local] Arguments le_bytes : simpl never.
#[local] Arguments of_le_bytes : simpl never.

(** ** A description at rest *)

(** [fd] stands for the description [d] at the address [p], which nobody uses. *)
Record stands (x : EpollShimCtx) (fd p : Z) (d : FileDescription) : Prop := {
  st_init : epoll_shim_ctx_init_error x = 0;
  st_rwlock : rwlock x = Released;
  st_fd : 0 <= fd < open_files_length x;
  st_length : open_files_length x <= 2 ^ 31;
  st_slot : open_files x !! Z.to_nat fd = Some p;
  st_pointer : p <> 0;
  st_desc : descs x !! p = Some d;
  st_refcount : refcount d = 1;
  st_locked : locked d = false
}.

Lemma stands_set_d x fd p d d' : stands x fd p d -> refcount d' = 1 -> locked d' = false ->
  stands (set_d p d' x) fd p d'.
Proof. intros [] Hr Hl. split; try done. apply set_d_lookup. Qed.

Lemma stands_behind x fd p d : stands x fd p d -> behind x fd = Some d.
Proof.
  intros [Hi Hrw [Hfd _] _ Hs Hp Hd _ _]. unfold behind.
  by rewrite (proj2 (Z.ltb_ge fd 0) Hfd), Hs, (proj2 (Z.eqb_neq p 0) Hp).
Qed.

Section Exact.
Context {W : Type} `{!Platform, !Kernel W, !Fuel} (o : stop -> Prop).

Abbreviation F := (M (EpollShimCtx * W)).

Lemma rest_stands `{!MemoryLaws W} x (w : W) fd d : at_rest o (x, w) -> behind x fd = Some d ->
  exists p, stands x fd p d.
Proof.
  intros [Ht Hd Hrw Hsl Hin Hc Ha Hm] Hb. cbn in *. unfold behind in Hb.
  destruct (Z.ltb_spec fd 0); [done|]. destruct (open_files x !! Z.to_nat fd) as [p|] eqn:Es; [|done].
  destruct (Z.eqb_spec p 0); [done|]. exists p.
  destruct (Hd p d Hb) as [Hr Hl _ _]. rewrite held_nil in Hr.
  pose proof (to_length _ _ Ht). pose proof (lookup_lt_Some _ _ _ Es).
  split; try done; [lia|apply (to_bound _ _ Ht)].
Qed.

(** *** The steps of a call *)

Lemma run_lookup x (w : W) fd p d (Q : option Z -> EpollShimCtx * W -> Prop) : stands x fd p d ->
  Q (Some p) (set_d p (d <| refcount := 2 |>) x, w) -> wpg o (lookup_desc fd) Q (x, w).
Proof.
  intros [Hi Hrw Hfd Hlen Hs Hp Hd Hr Hl] HQ.
  unfold lookup_desc, epoll_shim_ctx_global, epoll_shim_ctx_find_desc, lock_read, unlock_read,
    epoll_shim_ctx_find_desc_impl, slot, file_description_ref, the_desc, set_desc.
  unfold wpg, bind, getf, gets, ret, mod_self, c_assert. cbn.
  rewrite Hi, (proj2 (Z.ltb_ge fd 0)) by lia. cbn.
  rewrite Hrw. fields. rewrite u32_small, (proj2 (Z.leb_gt _ _)) by lia.
  cbn. rewrite Hs, (proj2 (Z.leb_le 0 fd)) by lia. cbn. rewrite (proj2 (Z.eqb_neq p 0) Hp). cbn.
  rewrite Hd. cbn. rewrite Hr. unfold ret. cbn. rewrite Hd. revert HQ. unfold set_d. fields.
  by rewrite Hr, Hrw.
Qed.

Lemma run_lock p d x (w : W) (Q : unit -> EpollShimCtx * W -> Prop) : locked d = false ->
  Q tt (set_d p (d <| locked := true |>) x, w) -> wpg o (lock_desc p) Q (set_d p d x, w).
Proof.
  intros Hl HQ. unfold lock_desc. apply wp_bind, (wp_the_desc o p d); [apply set_d_lookup|].
  rewrite Hl. apply (wp_set_desc o p d); [apply set_d_lookup|]. by rewrite set_d_set_d.
Qed.

Lemma run_set p d f x (w : W) (Q : unit -> EpollShimCtx * W -> Prop) :
  Q tt (set_d p (f d) x, w) -> wpg o (set_desc p f) Q (set_d p d x, w).
Proof. intros HQ. apply (wp_set_desc o p d); [apply set_d_lookup|]. by rewrite set_d_set_d. Qed.

Lemma run_the_desc p d x (w : W) (Q : FileDescription -> EpollShimCtx * W -> Prop) :
  Q d (set_d p d x, w) -> wpg o (the_desc p) Q (set_d p d x, w).
Proof. intros HQ. by apply (wp_the_desc o p d); [apply set_d_lookup|]. Qed.

Lemma run_unref p d x (w : W) (Q : result unit -> EpollShimCtx * W -> Prop) : refcount d = 2 ->
  Q (Ok tt) (set_d p (d <| refcount := 1 |>) x, w) -> wpg o (unref p) Q (set_d p d x, w).
Proof.
  intros Hr HQ. unfold unref, unref_depth. cbn [file_description_unref].
  apply wp_bind, run_the_desc. rewrite Hr. cbv zeta. apply wp_bind, wp_assert, wp_bind, run_set.
  rewrite Hr. by apply wp_ret.
Qed.

Lemma run_eventfd {A} (m : M (EventFDCtx * W) A) p d e x w (Q : A -> EpollShimCtx * W -> Prop) :
  ctx d = eventfd e ->
  wpg o m (fun a s => Q a (set_d p (d <| ctx := eventfd s.1 |>) x, s.2)) (e, w) ->
  wpg o (on_eventfd p m) Q (set_d p d x, w).
Proof.
  intros He Hm. apply (wp_on_eventfd o _ _ d e); [apply set_d_lookup|done|].
  eapply wp_mono; [exact Hm|]. intros a s HQ. by rewrite set_d_set_d.
Qed.
End Exact.

(** ** The eventfd functions against the abstract counter *)

Section Eventfd.
Context {W : Type} `{!Platform, !Kernel W, !Fuel, !SelfEvent W}.

Abbreviation F := (M (EpollShimCtx * W)).

(** The operations of the abstract counter on a descriptor. *)
Definition eventfd_call (fd : Z) (op : EventfdSpec.op) : F (result Z) :=
  match op with
  | EventfdSpec.Write v => try* _ := eventfd_write fd v in ret (Ok 0)
  | EventfdSpec.Read => try* l := eventfd_read fd in ret (Ok (of_le_bytes l))
  end.

Fixpoint eventfd_calls (fd : Z) (l : list EventfdSpec.op) : F (list (result Z)) :=
  match l with
  | [] => ret []
  | op :: l' =>
      let* r := eventfd_call fd op in
      let* rs := eventfd_calls fd l' in
      ret (r :: rs)
  end.

(** The description of an eventfd whose counter is [c]. *)
Definition counts (c : Z) (fd : Z) (e : EventFDCtx) (d : FileDescription) (w : W) : Prop :=
  vtable d = Some eventfd_vtable /\ ctx d = eventfd e /\ represents c fd e w /\ is_nonblock d = true.

(** Triggering the event of a registered kqueue succeeds. *)
Hypothesis trigger_succeeds : forall e kq w, sound e kq w ->
  wp (kqueue_event_trigger kq) (fun r _ => r = Ok tt) (e, w).
Hypothesis enough_fuel : fuel <> 0%nat.

Lemma eventfd_call_spec fd p op c e d x w : EventfdSpec.valid op -> stands x fd p d ->
  counts c fd e d w ->
  wp (eventfd_call fd op) (fun r s =>
    let (r', c') := EventfdSpec.step (is_semaphore e) c op in
    r = r' /\ exists d' e', s.1 = set_d p d' x /\ stands s.1 fd p d' /\
      counts c' fd e' d' s.2 /\ is_semaphore e' = is_semaphore e) (x, w).
Proof.
  intros Hv Hst (Hvt & Hctx & Hrep & Hnb).
  pose proof (step_refines trigger_succeeds fd op c e w Hv Hrep) as Hstep.
  destruct (EventfdSpec.step (is_semaphore e) c op) as [r' c'] eqn:Es.
  assert (forall e' w', flags_ e' = flags_ e -> represents c' fd e' w' ->
    let d' := ((((d <| refcount := 2 |>) <| locked := true |>) <| ctx := eventfd e' |>)
      <| locked := false |>) <| refcount := 1 |> in
    exists d'' e'', set_d p d' x = set_d p d'' x /\ stands (set_d p d' x) fd p d'' /\
      counts c' fd e'' d'' w' /\ is_semaphore e'' = is_semaphore e) as Hend.
  { intros e' w' Hf Hr d'. exists d', e'. split; [done|]. split; [by eapply stands_set_d|].
    split; [done|]. unfold is_semaphore. by rewrite Hf. }
  destruct op as [v|]; cbn [eventfd_call].
  - unfold eventfd_write, epoll_shim_write, eventfd_step in *.
    apply wp_bind_result, wp_bind, wp_bind, (run_lookup _ _ _ _ p d); [done|].
    rewrite le_bytes_length. change (SSIZE_MAX <? Z.of_nat 8) with false. cbn iota.
    apply wp_bind. unfold the_vtable. apply wp_bind, wp_bind, run_the_desc.
    change (vtable (d <| refcount := 2 |>)) with (vtable d). rewrite Hvt.
    apply wp_ret. cbn [write_fun]. unfold eventfd_helper_write. rewrite le_bytes_length. cbn [negb Z.of_nat Z.eqb Pos.eqb].
    apply wp_bind, run_lock; [apply Hst|]. rewrite le_bytes_roundtrip by (cbn in Hv |- *; lia).
    apply wp_bind, (run_eventfd _ _ _ _ e); [done|].
    apply wp_bind_result in Hstep. eapply wp_mono; [exact Hstep|]. intros r [e1 w1] Hr. cbn [fst snd] in *.
    apply wp_bind, run_set. destruct r as [[]|ec].
    + apply wp_ret in Hr as (<- & Hf & Hrep' & _). apply wp_ret, wp_bind, wp_bind, run_unref; [done|].
      apply wp_ret, wp_ret. split; [done|]. by apply (Hend e1 w1).
    + destruct Hr as (<- & Hf & Hrep' & _). apply wp_ret, wp_bind, wp_bind, run_unref; [done|].
      apply wp_ret, wp_ret. split; [done|]. by apply (Hend e1 w1).
  - unfold eventfd_read, epoll_shim_read, eventfd_step in *.
    apply wp_bind_result, wp_bind, wp_bind, (run_lookup _ _ _ _ p d); [done|].
    change (SSIZE_MAX <? 8) with false. cbn iota.
    apply wp_bind. unfold the_vtable. apply wp_bind, wp_bind, run_the_desc.
    change (vtable (d <| refcount := 2 |>)) with (vtable d). rewrite Hvt.
    apply wp_ret. cbn [read_fun]. unfold eventfd_helper_read. cbn [negb Z.eqb Pos.eqb].
    destruct fuel as [|n]; [done|]. cbn [eventfd_ctx_read_or_block].
    apply wp_bind_result, wp_bind, run_lock; [apply Hst|].
    apply wp_bind, (run_eventfd _ _ _ _ e); [done|].
    eapply wp_mono; [exact Hstep|]. intros r [e1 w1] (-> & Hf & Hrep' & _). cbn [fst snd] in *.
    apply wp_bind, run_the_desc, wp_bind, run_set.
    change (is_nonblock _) with (is_nonblock d). rewrite Hnb. cbn [orb]. apply wp_ret.
    destruct r' as [value|ec].
    + apply wp_ret, wp_bind, wp_bind, run_unref; [done|]. apply wp_ret, wp_ret.
      rewrite le_bytes_length. apply wp_ret, wp_ret. split; [|by apply (Hend e1 w1)].
      f_equal. apply le_bytes_roundtrip. cbn in Es. destruct Hrep as (_ & Hb & _).
      unfold EventfdSpec.read, EventfdSpec.max_count in *.
      destruct (c =? 0), (is_semaphore e); simplify_eq; lia.
    + apply wp_bind, wp_bind, run_unref; [done|]. apply wp_ret, wp_ret, wp_ret.
      split; [done|]. by apply (Hend e1 w1).
Qed.

Lemma eventfd_calls_spec fd p l c e d x w : Forall EventfdSpec.valid l -> stands x fd p d ->
  counts c fd e d w ->
  wp (eventfd_calls fd l) (fun rs s =>
    let (rs', c') := EventfdSpec.run (is_semaphore e) c l in
    rs = rs' /\ exists d' e', s.1 = set_d p d' x /\ stands s.1 fd p d' /\ counts c' fd e' d' s.2) (x, w).
Proof.
  revert c e d x w. induction l as [|op l IH]; intros c e d x w Hl Hst Hc.
  { apply wp_ret. split; [done|]. exists d, e. rewrite set_d_id by apply Hst. done. }
  apply Forall_cons in Hl as [Hop Hl]. cbn [eventfd_calls EventfdSpec.run].
  apply wp_bind. eapply wp_mono; [by apply (eventfd_call_spec fd p op c e d)|]. intros r [x1 w1].
  destruct (EventfdSpec.step (is_semaphore e) c op) as [r' c']. cbn [fst snd].
  intros (-> & d1 & e1 & -> & Hst1 & Hc1 & <-).
  apply wp_bind. eapply wp_mono; [by apply (IH c' e1 d1)|]. intros rs [x2 w2].
  destruct (EventfdSpec.run (is_semaphore e1) c' l) as [rs' c'']. cbn [fst snd].
  intros (-> & d2 & e2 & -> & Hst2 & Hc2). apply wp_ret. split; [done|]. exists d2, e2.
  by rewrite set_d_set_d in *.
Qed.
End Eventfd.

(** ** fcntl *)

Section Fcntl.
Context {W : Type} `{!Platform, !Kernel W, !Fuel} (o : stop -> Prop).

(** What [fcntl] makes of the answer of FIONBIO. *)
Definition setfl_result (set : result unit) : result Z :=
  match set with Ok _ => Ok 0 | Err ec => if ec =? ENOTTY then Ok 0 else Err ec end.

Lemma run_setfl fd arg p d x w (Q : result Z -> EpollShimCtx * W -> Prop) : stands x fd p d ->
  (let (set, w1) := kernel_step (sys_ioctl_fionbio fd (if has arg O_NONBLOCK then 1 else 0)) w in
   Q (setfl_result set)
     (set_d p (if is_ok (setfl_result set) then d <| desc_flags := Z.land arg O_NONBLOCK |> else d) x, w1)) ->
  wpg o (epoll_shim_fcntl fd F_SETFL arg) Q (x, w).
Proof.
  intros Hst HQ. pose proof (st_refcount _ _ _ _ Hst) as Hr. pose proof (st_locked _ _ _ _ Hst) as Hl.
  unfold epoll_shim_fcntl. apply wp_bind, (run_lookup _ _ _ _ p d); [done|].
  apply wp_bind, run_lock; [done|]. apply wp_bind, wp_call_pair.
  destruct (kernel_step (sys_ioctl_fionbio _ _) w) as [set w1]. cbv zeta.
  assert (forall d' r, refcount d' = 2 -> Q r (set_d p (d' <| locked := false |> <| refcount := 1 |>) x, w1) ->
    wpg o (unlock_desc p ;; (let* _ := unref p in ret tt) ;; ret r) Q (set_d p d' x, w1)) as Hend.
  { intros d' r Hr' HQ'. apply wp_bind, run_set, wp_bind, wp_bind, run_unref; [done|]. by apply wp_ret, wp_ret. }
  assert (forall f, ((((d <| refcount := 2 |>) <| locked := true |>) <| desc_flags := f |>)
    <| locked := false |>) <| refcount := 1 |> = d <| desc_flags := f |>) as Hset
    by (intros f; destruct d; fields_all; by rewrite Hr, Hl).
  assert ((((d <| refcount := 2 |>) <| locked := true |>) <| locked := false |>) <| refcount := 1 |> = d) as Hsame
    by (destruct d; fields_all; by rewrite Hr, Hl).
  unfold setfl_result in HQ. apply wp_bind, wp_when.
  destruct set as [u|ec]; [|destruct (ec =? ENOTTY)]; cbn [is_ok] in *.
  - apply run_set, Hend; [done|]. by rewrite Hset.
  - apply run_set, Hend; [done|]. by rewrite Hset.
  - apply Hend; [done|]. by rewrite Hsame.
Qed.

Lemma run_getfl fd arg p d x w (Q : result Z -> EpollShimCtx * W -> Prop) : stands x fd p d ->
  (let (got, w1) := kernel_step (sys_fcntl fd F_GETFL 0) w in
   Q (match got with
      | Ok flags => Ok (Z.lor flags (Z.land (desc_flags d) O_NONBLOCK))
      | Err ec => Err ec
      end) (x, w1)) ->
  wpg o (epoll_shim_fcntl fd F_GETFL arg) Q (x, w).
Proof.
  intros Hst HQ. pose proof (st_refcount _ _ _ _ Hst) as Hr. pose proof (st_locked _ _ _ _ Hst) as Hl.
  unfold epoll_shim_fcntl. apply wp_bind, (run_lookup _ _ _ _ p d); [done|].
  apply wp_bind, run_lock; [done|]. apply wp_bind, wp_call_pair.
  destruct (kernel_step (sys_fcntl fd F_GETFL 0) w) as [got w1].
  apply wp_bind, run_the_desc, wp_bind, run_set, wp_bind, wp_bind, run_unref; [done|]. apply wp_ret, wp_ret.
  assert (set_d p ((((d <| refcount := 2 |>) <| locked := true |>) <| locked := false |>) <| refcount := 1 |>) x = x)
    as ->; [|exact HQ].
  rewrite <- (set_d_id p d x (st_desc _ _ _ _ Hst)) at 2. f_equal. destruct d; fields_all. by rewrite Hr, Hl.
Qed.
End Fcntl.

(** ** Properties *)

(** C11: the eventfd functions of the library implement the abstract counter of eventfd(2).
    On a non-blocking eventfd any sequence of [eventfd_write] and [eventfd_read], through
    the look-up of the description, its references, its mutex and the byte buffers,
    answers exactly like the abstract counter and ends; the descriptor then stands for a
    description that represents the abstract value, and all others are unchanged. *)
Theorem eventfd_api_refines `{!Platform, !Kernel W, !Fuel, !SelfEvent W, !MemoryLaws W} o fd l c e d x (w : W) :
  (forall e kq w, sound e kq w -> wp (kqueue_event_trigger kq) (fun r _ => r = Ok tt) (e, w)) ->
  fuel <> 0%nat -> Forall EventfdSpec.valid l -> at_rest o (x, w) -> behind x fd = Some d ->
  vtable d = Some eventfd_vtable -> ctx d = eventfd e -> represents c fd e w -> is_nonblock d = true ->
  wp (eventfd_calls fd l) (fun rs s =>
    let (rs', c') := EventfdSpec.run (is_semaphore e) c l in
    rs = rs' /\ (forall k, k <> fd -> behind s.1 k = behind x k) /\
    exists d' e', behind s.1 fd = Some d' /\ ctx d' = eventfd e' /\ represents c' fd e' s.2) (x, w).
Proof.
  intros Htrig Hfuel Hl Hr Hb Hv Hc Hrep Hnb. destruct (rest_stands o x w fd d Hr Hb) as [p Hst].
  eapply wp_mono; [by apply (eventfd_calls_spec Htrig Hfuel fd p l c e d)|]. intros rs [x' w'].
  destruct (EventfdSpec.run (is_semaphore e) c l) as [rs' c']. cbn [fst snd].
  intros (-> & d' & e' & -> & Hst' & _ & Hc' & Hrep' & _). split; [done|]. split.
  - apply (around_elsewhere None x _ fd p); [apply (si_table _ _ _ _ _ _ _ Hr)|apply Hst..|].
    by apply around_set_d.
  - exists d', e'. split; [by eapply stands_behind|done].
Qed.

(** C24: [fcntl] keeps the O_NONBLOCK flag itself: after F_SETFL, F_GETFL answers the flags of the
    kernel's kqueue with O_NONBLOCK as it was set, and the other descriptors are unchanged.
    That the kernel does not implement FIONBIO on a kqueue (ENOTTY) is not an error;
    another error is reported and leaves the flag as it was. *)
Theorem fcntl_nonblock_roundtrip `{!Platform, !Kernel W, !Fuel, !MemoryLaws W} o fd arg d x (w : W) :
  at_rest o (x, w) -> behind x fd = Some d ->
  wp (let* r := epoll_shim_fcntl fd F_SETFL arg in
      let* r' := epoll_shim_fcntl fd F_GETFL 0 in ret (r, r')) (fun rr s =>
    let (set, w1) := kernel_step (sys_ioctl_fionbio fd (if has arg O_NONBLOCK then 1 else 0)) w in
    let (got, w2) := kernel_step (sys_fcntl fd F_GETFL 0) w1 in
    let done := match set with Ok _ => true | Err ec => ec =? ENOTTY end in
    rr.1 = (if done then Ok 0 else match set with Ok _ => Ok 0 | Err ec => Err ec end) /\
    rr.2 = match got with
           | Ok flags => Ok (Z.lor flags (if done then Z.land arg O_NONBLOCK else desc_flags d))
           | Err ec => Err ec
           end /\
    s.2 = w2 /\ (forall k, k <> fd -> behind s.1 k = behind x k)) (x, w).
Proof.
  intros Hr Hb. destruct (rest_stands o x w fd d Hr Hb) as [p Hst].
  pose proof (do_flags _ _ _ _ _ _ (si_descs _ _ _ _ _ _ _ Hr p d (st_desc _ _ _ _ Hst))) as Hnb.
  assert (forall d', refcount d' = 1 -> locked d' = false -> stands (set_d p d' x) fd p d' /\
    forall k, k <> fd -> behind (set_d p d' x) k = behind x k) as Hset.
  { intros d' Hr' Hl'. split; [by eapply stands_set_d|].
    apply (around_elsewhere None x _ fd p); [apply (si_table _ _ _ _ _ _ _ Hr)|apply Hst..|].
    by apply around_set_d. }
  pose proof (st_refcount _ _ _ _ Hst) as Hrc. pose proof (st_locked _ _ _ _ Hst) as Hl.
  apply wp_bind, (run_setfl _ fd arg p d); [done|].
  destruct (kernel_step (sys_ioctl_fionbio _ _) w) as [set w1].
  set (d' := if is_ok (setfl_result set) then _ else d).
  destruct (Hset d') as [Hst' Hoth]; [by unfold d'; destruct (is_ok _)..|].
  apply wp_bind, (run_getfl _ fd 0 p d'); [done|].
  destruct (kernel_step (sys_fcntl fd F_GETFL 0) w1) as [got w2]. apply wp_ret. cbn [fst snd].
  unfold d', setfl_result. split_and!; [| |done|done].
  - destruct set as [u|ec]; [done|]. by destruct (ec =? ENOTTY).
  - destruct got as [flags|ec]; [|done]. do 2 f_equal.
    destruct set as [u|ec]; [|destruct (ec =? ENOTTY)]; cbn [is_ok]; fields; by rewrite ?nonblock_land.
Qed.

(** C25: the array of slots grows as far as it has to and the doubling ends: it always has room
    for the new descriptor, its length is the least power of two from 32 on that is
    enough, no 32-bit arithmetic wraps, the slots keep what they held and the new ones
    are NULL.  When there is no memory, nothing changes. *)
Theorem make_room_correct `{!Platform, !Kernel W, !Fuel} kq x (w : W) :
  open_files_length x = Z.of_nat (length (open_files x)) -> 0 <= kq <= INT_MAX ->
  wp (make_room kq) (fun r s =>
    match r with
    | Ok _ =>
        kq < open_files_length s.1 /\ open_files_length s.1 = Z.of_nat (length (open_files s.1)) /\
        (kq < open_files_length x -> s = (x, w)) /\
        (open_files_length x <= kq -> exists k n, 5 <= k <= 31 /\ open_files_length s.1 = 2 ^ k /\
           (forall j, 5 <= j -> kq < 2 ^ j -> k <= j) /\
           open_files s.1 = open_files x ++ repeat 0 n) /\
        descs s.1 = descs x
    | Err _ => s.1 = x
    end) (x, w).
Proof.
  intros Hlen Hkq. unfold make_room. apply wp_bind, wp_getf. cbn [fst].
  destruct (Z.leb_spec (open_files_length x) kq) as [Hle|Hlt]; [|apply wp_ret; split_and!; try done; lia].
  apply wp_bind. eapply wp_mono;
    [change 32 with (2 ^ 5); apply grow_space_spec; unfold INT_MAX in *; lia|].
  intros space s (-> & k & Hk & -> & Hlt & Hor).
  assert (0 < 2 ^ k <= 2 ^ 31) as Hsp
    by (split; [apply Z.pow_pos_nonneg; lia|apply Z.pow_le_mono_r; lia]).
  unfold checked. assert (fits_u64 (2 ^ k * 8) = true) as ->
    by (apply andb_true_iff; split; apply Z.leb_le; unfold UINT64_MAX; lia).
  apply wp_bind, wp_getf, wp_bind_result, wp_call_pair. cbn [fst].
  destruct (kernel_step _ w) as [[p|ec] w1]; [|done].
  apply wp_bind, wp_mod_self, wp_ret. fields. rewrite length_app, repeat_length.
  split_and!; [done|lia|lia| |done]. intros _. exists k, (Z.to_nat (2 ^ k - open_files_length x)).
  split_and!; [lia|lia|done| |done]. intros j Hj Hkj. destruct Hor as [->|Hor]; [done|].
  apply Z.lt_succ_r, (Z.pow_lt_mono_r_iff 2); [lia|lia|]. rewrite Z.pow_succ_r by lia. lia.
Qed.

(** C26: the deadline of [epoll_wait]: the timeout in milliseconds is exact, the deadline is the
    current time plus the timeout, both are valid times, and a deadline that does not fit
    is refused; a timeout of 0 does not look at the clock. *)
Theorem timeout_to_deadline_correct `{!Platform, !Kernel W, !Fuel} to now x (w w' : W) :
  0 <= to <= INT_MAX -> kernel_step (sys_clock_gettime CLOCK_MONOTONIC) w = (Ok now, w') -> timespec_ok now ->
  wp (timeout_to_deadline to) (fun r s =>
    if to =? 0 then r = Ok (ts_zero, ts_zero) /\ s = (x, w)
    else s = (x, w') /\
      match r with
      | Ok (deadline, timeout) => timespec_ok deadline /\ timespec_ok timeout /\
          nanos timeout = to * 10 ^ 6 /\ nanos deadline = nanos now + to * 10 ^ 6
      | Err ec => ec = EINVAL /\ 2 ^ 63 * 10 ^ 9 <= nanos now + to * 10 ^ 6
      end) (x, w).
Proof.
  intros Hto Hnow Hok. unfold timeout_to_deadline. apply wp_bind, wp_assert.
  rewrite (proj2 (Z.leb_le 0 to)) by lia. destruct (to =? 0); [by apply wp_ret|].
  apply wp_bind_result, wp_call_pair. rewrite Hnow.
  set (timeout := {| tv_sec := Z.quot to 1000; tv_nsec := Z.rem to 1000 * 1000000 |}).
  pose proof (Z.div_mod to 1000) as Hdm. pose proof (Z.mod_pos_bound to 1000) as Hmb.
  assert (timespec_ok timeout /\ nanos timeout = to * 10 ^ 6) as [Ht Hn].
  { unfold timeout. rewrite Z.quot_div_nonneg, Z.rem_mod_nonneg, timespec_ok_spec by lia.
    unfold nsec_ok, nanos, NSEC_PER_SEC, INT64_MAX, INT_MAX in *. cbn. lia. }
  apply wp_bind. destruct (timespecadd_safe_run now timeout (x, w') Hok Ht) as (r & Hrun & Hr).
  unfold wpg at 1. rewrite Hrun. destruct r as [deadline|]; apply wp_ret; (split; [done|]).
  - destruct Hr as [Hd Hs]. by rewrite <- Hn.
  - rewrite <- Hn. unfold INT64_MAX, NSEC_PER_SEC in Hr. split; [done|lia].
Qed.
