(* ===== verification/ShimSim.v ===== *)
(** * Runs of the whole library on the concrete system

    [sim] meets the laws the theorems of [ShimInv] and [ShimRun] assume; concrete runs
    that open, use and close descriptors. *)

From S2P Require Import Prelude Kernel Sim SimLaws KqueueEvent Timespec Descriptors Compat EventfdCtx TimerfdCtx SignalfdCtx EpollNode EpollLaws EpollCtx EpollSim FileDesc ShimCtx ShimIo Api Frame ShimInv ShimOps ShimCalls ShimRun ShimExact.

#[local] Existing Instance freebsd.

#[export] Instance sim_memory_laws : MemoryLaws sim.
Proof.
  refine {| in_use := sim_allocated |}; unfold sim_allocated.
  - intros A c w p Hc Hp.
    assert (quiet c = true -> p < sim_new (kernel_step c w).2) as Hq.
    { intros Hq. pose proof (calm_quiet c w Hq) as [? _]. lia. }
    destruct c; try (by apply Hq); try done. by rewrite kevent_call, kevent_new.
  - done.
  - intros w n. unfold kernel_step, sim_kernel, sim_alloc.
    destruct (sim_malloc_error w); [done|]. rewrite use_new. unfold sim_new. split; [lia|]. split_and!; lia.
  - intros w q n. unfold kernel_step, sim_kernel, sim_alloc.
    destruct (sim_malloc_error w); [done|]. rewrite use_new. unfold sim_new. split; [lia|]. split_and!; lia.
  - intros w fl. unfold kernel_step, sim_kernel, sim_new_kq.
    destruct (Z.ltb_spec INT_MAX (sim_new w)); [done|]. cbn. unfold sim_new in *. lia.
Defined.

Lemma ready_filter l :
  Z.of_nat (length (List.filter (fun p => negb (pfd_revents p =? 0)) l)) = ready_count l.
Proof.
  induction l as [|p l IH]; [done|]. unfold ready_count in *. cbn.
  destruct (pfd_revents p =? 0); cbn [negb length]; lia.
Qed.

#[export] Instance sim_poll_laws : PollLaws sim.
Proof.
  assert (forall t w fds, match (sim_poll fds t w).1 with
    | Ok (n, fds') => map pfd_fd fds' = map pfd_fd fds /\ n = ready_count fds'
    | Err _ => True
    end) as Hpoll.
  { intros t w fds. cbn. split; [by rewrite map_map|apply ready_filter]. }
  split.
  - intros w fds timeout. apply Hpoll.
  - intros w fds timeout sigmask. apply Hpoll.
  - assert (forall ts, match sim_clock ts with Ok now => timespec_ok now | Err _ => True end) as Hc.
    { intros ts. unfold sim_clock. destruct (_ && _) eqn:E; [|done]. b2p. apply timespec_ok_spec.
      split; [lia|]. unfold nsec_ok, NSEC_PER_SEC. lia. }
    intros w []; apply Hc.
Qed.

(** ** Concrete runs

    The first descriptor is 3; the system hands out odd numbers, addresses included. *)

#[local] Existing Instances EventfdCtx.Witness.fuel2 EventfdCtx.Witness.self2.

Module Witness.

(** Static storage before the constructor has run. *)
Definition blank : EpollShimCtx :=
  {| descs := ∅; open_files_ptr := 0; open_files := []; open_files_length := 0; rwlock := Released;
     step_detector_locked := false; nr_fds_for_realtime_step_detector := 0;
     realtime_step_detector_generation := 0; epoll_shim_ctx_init_error := 0 |}.

Definition pollin (fd : Z) : pollfd := {| pfd_fd := fd; pfd_events := POLLIN; pfd_revents := 0 |}.

(** An eventfd is written, polled, read and closed; a timer is set while time passes. *)
Definition program : list (shim_op sim) :=
  [op_eventfd 3 EFD_NONBLOCK; op_write 3 (le_bytes 8 4); op_poll [pollin 3] 100; op_read 3 8;
   op_timerfd_create 0 TFD_NONBLOCK;
   op_settime 9 TFD_TIMER_ABSTIME
     (Some {| it_interval := ts_zero; it_value := {| tv_sec := 1000005; tv_nsec := 0 |} |}) false;
   op_elsewhere (sim_sleep 10); op_read 9 8; op_close 9; op_close 3].

Definition after (ops : list (shim_op sim)) : EpollShimCtx * sim :=
  match shim_run ops (blank, sim_init) with Done _ s => s | Stop _ => (blank, sim_init) end.

(** Assertions and fuel are no concern here: all runs below are evaluated. *)
Definition cut (why : stop) : Prop := why = OutOfFuel \/ why = AssertFailed.

(** The state after opening a non-blocking eventfd with the counter 3. *)
Definition table : EpollShimCtx := (after [op_eventfd 3 EFD_NONBLOCK]).1.
Definition system : sim := (after [op_eventfd 3 EFD_NONBLOCK]).2.

Lemma sleep_keeps w p : in_use w p -> in_use (sim_sleep 10 w) p.
Proof. done. Qed.

Lemma program_fits : Forall op_fits program.
Proof.
  unfold program. rewrite !Forall_cons. cbn. unfold INT_MAX. split_and!; try done.
  by repeat constructor.
Qed.

Lemma opened_run : shim_run [op_eventfd 3 EFD_NONBLOCK] (blank, sim_init) = Done tt (table, system).
Proof. vm_compute. reflexivity. Qed.

Definition counter : EventFDCtx :=
  {| flags_ := 0; kqueue_event_ := {| is_triggered_ := true; self_pipe_ := (-1, -1) |};
     counter_ := 3 |}.

Definition description : FileDescription :=
  {| refcount := 1; locked := false; desc_flags := O_NONBLOCK; ctx := eventfd counter;
     vtable := Some eventfd_vtable |}.

Lemma opened_behind : behind table 3 = Some description.
Proof. vm_compute. reflexivity. Qed.

(** Evaluated by the virtual machine only. *)
#[global] Opaque table system.

Lemma opened_rest : at_rest cut (table, system).
Proof.
  assert (epoll_shim_ctx_init_error table = 0 -> at_rest cut (table, system)) as Hr; [|by apply Hr; vm_compute].
  apply (proj1 (wp_run cut _ (fun _ s => epoll_shim_ctx_init_error s.1 = 0 -> at_rest cut s) _ _ _ opened_run)).
  apply (run_rest cut (or_introl eq_refl)); [done| |by right]. repeat constructor; cbn; lia.
Qed.

Lemma opened_represents :
  represents 3 3 counter system.
Proof.
  assert (sim_kqs system !! 3 = Some {[ (0, EVFILT_USER) := {| kn_udata := 0; kn_active := true |} ]}) as Hk
    by (vm_compute; reflexivity).
  split; [done|]. split; [unfold EventfdSpec.max_count; lia|]. split; [|done].
  split; [split; [by vm_compute|by exists true]|].
  split; [|done]. by apply (readable_singleton _ 3 (0, EVFILT_USER) true).
Qed.
End Witness.

(** *** Witnesses *)

Lemma shim_run_safe_witness :
  (wpg (fun why => why = OutOfFuel \/ why = AssertFailed /\ Exists may_assert Witness.program)
    (shim_run Witness.program) (fun _ s => epoll_shim_ctx_init_error s.1 = 0 -> quiescent s.1)
    (Witness.blank, sim_init)) /\
  exists s, shim_run Witness.program (Witness.blank, sim_init) = Done tt s /\
    epoll_shim_ctx_init_error s.1 = 0.
Proof.
  split.
  - apply (shim_run_safe Witness.program Witness.blank sim_init); [reflexivity|apply Witness.program_fits].
  - exists (Witness.after Witness.program). split; vm_compute; reflexivity.
Defined.

Lemma shim_isolation_witness :
  wpg Witness.cut (shim_step (op_write 3 (le_bytes 8 5)))
    (fun _ s => at_rest Witness.cut s /\ forall k, k <> 3 -> behind s.1 k = behind Witness.table k)
    (Witness.table, Witness.system).
Proof.
  apply (shim_isolation Witness.cut (op_write 3 (le_bytes 8 5)) 3 Witness.table Witness.system);
    [by left|apply Witness.opened_rest|done|done].
Defined.

Lemma shim_close_correct_witness :
  wpg Witness.cut (epoll_shim_close 3)
    (fun _ s => at_rest Witness.cut s /\ behind s.1 3 = None /\
      forall k, k <> 3 -> behind s.1 k = behind Witness.table k) (Witness.table, Witness.system).
Proof.
  apply (shim_close_correct Witness.cut 3 Witness.table Witness.system);
    [apply Witness.opened_rest|done].
Defined.

Lemma shim_create_correct_witness :
  wpg Witness.cut (eventfd_create 7 EFD_SEMAPHORE) (fun r s => at_rest Witness.cut s /\
    match r with
    | Ok fd => 0 <= fd <= INT_MAX /\ (forall k, k <> fd -> behind s.1 k = behind Witness.table k) /\
        exists d, behind s.1 fd = Some d /\ vtable d = Some eventfd_vtable /\ refcount d = 1 /\
          locked d = false /\ desc_flags d = Z.land EFD_SEMAPHORE O_NONBLOCK /\ kind_ok Witness.cut d
    | Err _ => forall fd, behind s.1 fd = behind Witness.table fd \/ behind s.1 fd = None
    end) (Witness.table, Witness.system).
Proof.
  apply (shim_create_correct Witness.cut (op_eventfd 7 EFD_SEMAPHORE) Witness.table Witness.system);
    [by left|by right|by split|apply Witness.opened_rest|reflexivity].
Defined.

Lemma shim_ppoll_counts_witness :
  wpg Witness.cut (epoll_shim_poll [Witness.pollin 3] 100) (fun r s => at_rest Witness.cut s /\
    match r with
    | Ok (n, fds') => map pfd_fd fds' = [3] /\
        n = Z.of_nat (length (filter (fun f => pfd_revents f <> 0) fds'))
    | Err _ => True
    end) (Witness.table, Witness.system).
Proof.
  apply (proj1 (shim_ppoll_counts Witness.cut [Witness.pollin 3] 100 None None Witness.table
    Witness.system (or_introl eq_refl) Witness.opened_rest ltac:(by repeat constructor) ltac:(done) I
    ltac:(done))).
Defined.

Lemma eventfd_api_refines_witness :
  let l := [EventfdSpec.Read; EventfdSpec.Read; EventfdSpec.Write 8] in
  exists d e, behind Witness.table 3 = Some d /\ ctx d = eventfd e /\
  wp (eventfd_calls 3 l) (fun rs s =>
    let (rs', c') := EventfdSpec.run (is_semaphore e) 3 l in
    rs = rs' /\ (forall k, k <> 3 -> behind s.1 k = behind Witness.table k) /\
    exists d' e', behind s.1 3 = Some d' /\ ctx d' = eventfd e' /\ represents c' 3 e' s.2) (Witness.table, Witness.system).
Proof.
  intros l. exists Witness.description, Witness.counter.
  split; [apply Witness.opened_behind|]. split; [reflexivity|].
  apply (eventfd_api_refines Witness.cut 3 l 3 Witness.counter Witness.description Witness.table Witness.system).
  - apply EventfdCtx.Witness.trigger_ok.
  - done.
  - repeat constructor; cbn; lia.
  - apply Witness.opened_rest.
  - apply Witness.opened_behind.
  - reflexivity.
  - reflexivity.
  - apply Witness.opened_represents.
  - reflexivity.
Defined.

Lemma fcntl_nonblock_roundtrip_witness :
  exists d, behind Witness.table 3 = Some d /\
  wp (let* r := epoll_shim_fcntl 3 F_SETFL 0 in
      let* r' := epoll_shim_fcntl 3 F_GETFL 0 in ret (r, r'))
    (fun rr _ => rr = (Ok 0, Ok 0)) (Witness.table, Witness.system).
Proof.
  exists Witness.description. split; [apply Witness.opened_behind|]. eapply wp_mono.
  - apply (fcntl_nonblock_roundtrip Witness.cut 3 0 Witness.description Witness.table Witness.system);
      [apply Witness.opened_rest|apply Witness.opened_behind].
  - intros [r r'] s. cbn. intros (-> & -> & _). reflexivity.
Defined.

Lemma make_room_correct_witness :
  wp (make_room 40) (fun r s =>
    match r with
    | Ok _ => 40 < open_files_length s.1 /\ descs s.1 = descs Witness.table
    | Err _ => s.1 = Witness.table
    end) (Witness.table, Witness.system).
Proof.
  eapply wp_mono.
  - apply (make_room_correct 40 Witness.table Witness.system); [vm_compute; reflexivity|unfold INT_MAX; lia].
  - intros [u|ec] s Hs; [|exact Hs]. split; apply Hs.
Defined.

Lemma timeout_to_deadline_correct_witness :
  wp (timeout_to_deadline 2500) (fun r _ =>
    match r with
    | Ok (deadline, timeout) => nanos timeout = 2500000000 /\ nanos deadline = 1002500000000
    | Err _ => False
    end) (Witness.table, Witness.system).
Proof.
  eapply wp_mono.
  - apply (timeout_to_deadline_correct 2500 {| tv_sec := 1000; tv_nsec := 0 |} Witness.table
      Witness.system Witness.system);
      [unfold INT_MAX; lia|vm_compute; reflexivity|apply timespec_ok_spec; unfold nsec_ok; cbn; unfold INT64_MAX, NSEC_PER_SEC; lia].
  - intros [[deadline timeout]|ec] s [_ Hs]; cbn in Hs; [by destruct Hs as (_ & _ & -> & ->)|].
    destruct Hs as [_ Hs]. revert Hs. by vm_compute.
Defined.
