(* ===== verification/Deadline.v ===== *)
(** * Timeouts

    [epoll_wait] and [poll] give up only when their timeout has elapsed.  The
    clock never runs backwards, whatever the library does in between: every
    function is [timely]. *)

From S2P Require Import Prelude Kernel KqueueEvent Timespec Compat EventfdCtx TimerfdCtx SignalfdCtx EpollNode EpollCtx FileDesc ShimCtx ShimIo Api Frame.

(** ** What the code relies on: clock_gettime(2), ppoll(2) *)

Class ClockLaws (W : Type) `{!Kernel W} := {
  mono : W -> Z;
  law_monotone {A} (c : syscall A) w : mono w <= mono (kernel_step c w).2;
  law_clock_reading w :
    match kernel_step (sys_clock_gettime CLOCK_MONOTONIC) w with
    | (Ok now, w') => timespec_ok now /\ mono w <= nanos now <= mono w'
    | (Err _, _) => True
    end;
  law_ppoll_elapsed w fds timeout sigmask :
    match kernel_step (sys_ppoll fds (Some timeout) sigmask) w with
    | (Ok (n, _), w') => n = 0 -> mono w + nanos timeout <= mono w'
    | (Err _, _) => True
    end
}.

(** Memory of the program next to the world does not slow its clock. *)
#[export] Instance clock_prod {C W} `{!Kernel W, !ClockLaws W} : ClockLaws (C * W).
Proof.
  refine {| mono := fun s => mono s.2 |}.
  - intros A c [x w]. pose proof (law_monotone c w) as Hc. unfold kernel_step at 1, kernel_prod. cbn.
    by destruct (kernel_step c w).
  - intros [x w]. pose proof (law_clock_reading w) as Hc. unfold kernel_step at 1, kernel_prod. cbn.
    by destruct (kernel_step _ w) as [[now|ec] w'].
  - intros [x w] fds timeout sigmask. pose proof (law_ppoll_elapsed w fds timeout sigmask) as Hc.
    unfold kernel_step at 1, kernel_prod. cbn. by destruct (kernel_step _ w) as [[[n l]|ec] w'].
Defined.

(** Wherever [m] ends, time has not run backwards. *)
Definition timely {S A} `{!Kernel S, !ClockLaws S} (m : M S A) : Prop :=
  forall T, stable (fun _ => True) (fun s => T <= mono s) m.

Section Rules.
Context {S : Type} `{!Kernel S, !ClockLaws S}.

Lemma timely_ret {A} (a : A) : timely (ret a).
Proof. by intros T s Hs. Qed.

Lemma timely_gets {A} (f : S -> A) : timely (gets f).
Proof. by intros T s Hs. Qed.

Lemma timely_bind {A B} (m : M S A) (k : A -> M S B) :
  timely m -> (forall a, timely (k a)) -> timely (bind m k).
Proof. intros Hm Hk T. apply stable_bind; [apply Hm|intros a; apply Hk]. Qed.

Lemma timely_bind_result {A B} (m : M S (result A)) (k : A -> M S (result B)) :
  timely m -> (forall a, timely (k a)) -> timely (bind_result m k).
Proof. intros Hm Hk. apply timely_bind; [done|]. intros [a|ec]; [done|apply timely_ret]. Qed.

Lemma timely_assert b : timely (c_assert b).
Proof. intros T. by apply stable_assert. Qed.

Lemma timely_stop {A} why : timely (stop_with (A := A) why).
Proof. intros T. by apply stable_stop. Qed.

Lemma timely_when b m : timely m -> timely (when b m).
Proof. intros Hm. destruct b; [done|apply timely_ret]. Qed.

Lemma timely_iterM {A} (f : A -> M S unit) l : (forall a, timely (f a)) -> timely (iterM f l).
Proof. intros Hf. induction l as [|a l IH]; cbn; [apply timely_ret|by apply timely_bind]. Qed.

Lemma timely_call {A} (c : syscall A) : timely (call c).
Proof.
  intros T w Hw. apply wp_call. pose proof (law_monotone c w). destruct (kernel_step c w). cbn in *. lia.
Qed.
End Rules.

Section World.
Context {C W : Type} `{!Kernel W, !ClockLaws W}.

Lemma timely_getf {A} (f : C -> A) : timely (getf (W := W) f).
Proof. by intros T s Hs. Qed.

Lemma timely_get : timely (get (C := C) (W := W)).
Proof. by intros T s Hs. Qed.

Lemma timely_mod (f : C -> C) : timely (mod_self (W := W) f).
Proof. by intros T s Hs. Qed.

Lemma timely_put (c : C) : timely (put (W := W) c).
Proof. by intros T s Hs. Qed.

Lemma timely_lift {A} (m : M W A) : timely m -> timely (lift (C := C) m).
Proof.
  intros Hm T [c w] Hs. apply wp_lift. eapply wp_mono; [by apply (Hm T)|]. by intros.
Qed.

Lemma timely_zoom {F A} (f : C -> F) `{!Upd f} (m : M (F * W) A) : timely m -> timely (zoom f m).
Proof.
  intros Hm T [c w] Hs. apply wp_zoom. eapply wp_mono; [by apply (Hm T)|]. by intros.
Qed.
End World.

(** Code that runs on a part of the state. *)
Section Parts.
Context {W : Type} `{!Kernel W, !ClockLaws W}.

Lemma timely_on_node {A} p (m : M (RegisteredFDsNode * W) A) : timely m -> timely (on_node p m).
Proof.
  intros Hm T [c w] Hs. unfold wpg, on_node. cbn. destruct (nodes c !! p) as [n|]; [|done].
  pose proof (Hm T (n, w) Hs) as Hw. unfold wpg in Hw. by destruct (m (n, w)) as [a [n' w']|].
Qed.

Ltac timely_union Hm T :=
  intros [x w] Hs; unfold wpg; cbn; destruct (descs x !! _) as [d|]; [|done];
  destruct (ctx d) as [|c|c|c|c]; try done;
  pose proof (Hm T (c, w) Hs) as Hw; unfold wpg in Hw;
  match goal with |- match match ?r with _ => _ end with _ => _ end => by destruct r as [a [c' w']|] end.

Lemma timely_on_eventfd {A} p (m : M (EventFDCtx * W) A) : timely m -> timely (on_eventfd p m).
Proof. intros Hm T. unfold on_eventfd. timely_union Hm T. Qed.

Lemma timely_on_timerfd {A} p (m : M (TimerFDCtx * W) A) : timely m -> timely (on_timerfd p m).
Proof. intros Hm T. unfold on_timerfd. timely_union Hm T. Qed.

Lemma timely_on_signalfd {A} p (m : M (SignalFDCtx * W) A) : timely m -> timely (on_signalfd p m).
Proof. intros Hm T. unfold on_signalfd. timely_union Hm T. Qed.

Lemma timely_on_epollfd {A} p (m : M (EpollFDCtx * (EpollShimCtx * W)) A) :
  timely m -> timely (on_epollfd p m).
Proof.
  intros Hm T [x w] Hs. unfold wpg, on_epollfd. cbn. destruct (descs x !! p) as [d|]; [|done].
  destruct (ctx d) as [|c|c|c|c]; try done.
  pose proof (Hm T (c, (x, w)) Hs) as Hw. unfold wpg in Hw.
  destruct (m (c, (x, w))) as [a [c' [x' w']]|]; [|done]. cbn. by destruct (descs x' !! p).
Qed.

Lemma timely_the_desc p : timely (the_desc (W := W) p).
Proof. intros T [x w] Hs. unfold wpg, the_desc. cbn. by destruct (descs x !! p). Qed.

Lemma timely_set_desc p f : timely (set_desc (W := W) p f).
Proof. intros T [x w] Hs. unfold wpg, set_desc. cbn. by destruct (descs x !! p). Qed.
End Parts.

(** A file description does not turn the clock back either. *)
Class TimelyPollable (W : Type) `{!Kernel W, !ClockLaws W, !Pollable W} := {
  poll_timely d fd r : timely (poll_fun d fd r);
  ref_timely d : timely (ref_fun d);
  unref_timely d : timely (unref_fun d)
}.

#[export] Instance timely_pollable_prod {C W} `{TimelyPollable W} : TimelyPollable (C * W).
Proof. split; intros; apply timely_lift; apply poll_timely || apply ref_timely || apply unref_timely. Qed.

(** Take code apart down to its calls; a function is replaced by its definition. *)
Create HintDb timely.
#[export] Hint Resolve timely_ret timely_gets timely_assert timely_stop timely_call timely_getf timely_get
  timely_mod timely_put
  timely_the_desc timely_set_desc : timely.

Ltac head_of m := lazymatch m with ?f _ => head_of f | _ => m end.

Ltac timely_step :=
  lazymatch goal with
  | |- forall _, _ => intros
  | |- timely (bind _ _) => apply timely_bind
  | |- timely (bind_result _ _) => apply timely_bind_result
  | |- timely (when _ _) => apply timely_when
  | |- timely (iterM _ _) => apply timely_iterM
  | |- timely (lift _) => apply timely_lift
  | |- timely (poll_fun _ _ _) => apply poll_timely
  | |- timely (ref_fun _) => apply ref_timely
  | |- timely (unref_fun _) => apply unref_timely
  | |- timely (zoom _ _) => apply timely_zoom
  | |- timely (on_node _ _) => apply timely_on_node
  | |- timely (on_eventfd _ _) => apply timely_on_eventfd
  | |- timely (on_timerfd _ _) => apply timely_on_timerfd
  | |- timely (on_signalfd _ _) => apply timely_on_signalfd
  | |- timely (on_epollfd _ _) => apply timely_on_epollfd
  | |- timely (match ?x with _ => _ end) => destruct x
  | |- timely ?m =>
      first [ solve [eauto 2 with timely typeclass_instances] | progress cbv zeta beta
            | let h := head_of m in unfold h; cbv beta ]
  end.
Ltac timely := repeat timely_step.

(** ** The loops *)

Section Loops.
Context {W : Type} `{!Platform, !Kernel W, !Fuel, !ClockLaws W}.

Lemma read_until_error_timely n fd : timely (read_until_error (W := W) n fd).
Proof. induction n as [|n IH]; cbn; timely. Qed.

Lemma kevent_until_empty_timely n kq : timely (kevent_until_empty (W := W) n kq).
Proof. induction n as [|n IH]; cbn; timely. Qed.

Lemma grab_signal_timely n : timely (grab_signal (W := W) n).
Proof. induction n as [|n IH]; cbn; timely. Qed.
End Loops.
#[export] Hint Resolve read_until_error_timely kevent_until_empty_timely grab_signal_timely : timely.

Section Kinds.
Context {W : Type} `{!Platform, !Kernel W, !Fuel, !ClockLaws W}.

Lemma timerfd_poll_timely kq want : timely (timerfd_ctx_poll (W := W) kq want).
Proof. timely. Qed.

Lemma signalfd_poll_timely kq want : timely (signalfd_ctx_poll (W := W) kq want).
Proof. timely. Qed.
End Kinds.
#[export] Hint Resolve timerfd_poll_timely signalfd_poll_timely : timely.

(** ** An epoll instance *)

Section Epoll.
Context {W : Type} `{!Platform, !Kernel W, !Fuel, !ClockLaws W, !Pollable W, !TimelyPollable W}.

Abbreviation E := (M (EpollFDCtx * W)).

Lemma feed_event_timely ptr kq kev : timely (registered_fds_node_feed_event (W := W) ptr kq kev).
Proof. timely. Qed.

Lemma destroy_timely ptr n : timely (registered_fds_node_destroy (W := W) ptr n).
Proof. timely. Qed.

#[local] Hint Resolve feed_event_timely destroy_timely : timely.

Lemma remove_node_timely kq ptr : timely (epollfd_ctx_remove_node (W := W) kq ptr).
Proof. timely. Qed.

Lemma check_receipts_timely kq ptr f l : forall i, timely (check_receipts (W := W) kq ptr f i l).
Proof. induction l as [|k l IH]; intros i; cbn; timely. Qed.

#[local] Hint Resolve remove_node_timely check_receipts_timely : timely.

Lemma register_events_timely kq ptr : timely (epollfd_ctx__register_events (W := W) kq ptr).
Proof. timely. Qed.

#[local] Hint Resolve register_events_timely : timely.

Lemma dispatch_timely kq l : timely (dispatch_polled (W := W) kq l).
Proof. induction l as [|[p f] l IH]; cbn; timely. Qed.

Lemma process_events_timely kq l : timely (process_events (W := W) kq l).
Proof. induction l as [|k l IH]; cbn; timely. Qed.

Lemma drain_completion_timely n kq : timely (drain_completion (W := W) n kq).
Proof. induction n as [|n IH]; cbn; timely. Qed.

Lemma register_completions_timely full l : forall kq, timely (register_completions (W := W) full kq l).
Proof. induction l as [|p l IH]; intros kq; cbn; timely. Qed.

Lemma collect_events_timely kq l : timely (collect_events (W := W) kq l).
Proof. induction l as [|p l IH]; cbn; timely. Qed.

#[local] Hint Resolve dispatch_timely process_events_timely drain_completion_timely
  register_completions_timely collect_events_timely : timely.

Lemma wait_again_timely n kq cnt : timely (wait_again (W := W) n kq cnt).
Proof. induction n as [|n IH]; cbn; timely. Qed.

Lemma poll_entries_timely l : timely (poll_entries (W := W) l).
Proof. induction l as [|p l IH]; cbn; timely. Qed.

#[local] Hint Resolve wait_again_timely poll_entries_timely : timely.

Lemma wait_timely kq cnt : timely (epollfd_ctx_wait (W := W) kq cnt).
Proof. timely. Qed.

Lemma terminate_timely : timely (epollfd_ctx_terminate (W := W)).
Proof. timely. Qed.

Lemma fill_pollfds_timely kq : timely (epollfd_ctx_fill_pollfds (W := W) kq).
Proof. timely. Qed.
End Epoll.
#[export] Hint Resolve wait_timely terminate_timely fill_pollfds_timely : timely.

(** ** The table of file descriptions *)

Section Table.
Context {W : Type} `{!Platform, !Kernel W, !Fuel, !ClockLaws W}.

Lemma fd_poll_timely p fd r : timely (fd_poll (W := W) p fd r).
Proof. timely. Qed.

Lemma unref_depth_timely n p : timely (file_description_unref (W := W) n p).
Proof.
  revert p. induction n as [|n IH]; intros p; cbn [file_description_unref]; [apply timely_stop|].
  cbv zeta. set (P := {| poll_fun := _ |}).
  assert (TimelyPollable (EpollShimCtx * W)) as HP by (split; intros; cbn; timely).
  timely.
Qed.

#[local] Hint Resolve fd_poll_timely unref_depth_timely : timely.

#[export] Instance fd_timely : TimelyPollable (EpollShimCtx * W).
Proof.
  split; intros.
  - apply fd_poll_timely.
  - cbn [ref_fun fd_pollable]. timely.
  - apply timely_bind; [apply unref_depth_timely|intros; apply timely_ret].
Qed.

Lemma unref_timely_fd p : timely (unref (W := W) p).
Proof. apply unref_depth_timely. Qed.

Lemma find_desc_timely fd : timely (epoll_shim_ctx_find_desc (W := W) fd).
Proof. timely. Qed.
End Table.
#[export] Hint Resolve unref_timely_fd find_desc_timely : timely.

(** ** Waiting *)

Section Waiting.
Context {W : Type} `{!Platform, !Kernel W, !Fuel, !ClockLaws W}.

Abbreviation F := (M (EpollShimCtx * W)).
Abbreviation any := (fun _ : stop => True).

Lemma zero_nanos t : ts_is_zero t = true -> nanos t = 0.
Proof. unfold ts_is_zero, nanos. intros Hz. apply andb_true_iff in Hz as [Hs Hn]. apply Z.eqb_eq in Hs, Hn. by rewrite Hs, Hn. Qed.

(** The timeout that is left at [now]. *)
Definition left_at (deadline now : timespec) : timespec :=
  let t := timespecsub deadline now in if tv_sec t <? 0 then ts_zero else t.

Lemma left_at_spec deadline now : nsec_ok deadline -> nsec_ok now ->
  nanos deadline <= nanos now + nanos (left_at deadline now).
Proof.
  intros Hd Hn. destruct (timespecsub_nanos deadline now Hd Hn) as [Hs E]. unfold left_at. cbv zeta.
  destruct (Z.ltb_spec (tv_sec (timespecsub deadline now)) 0) as [Hneg|]; [|lia].
  change (nanos ts_zero) with 0. unfold nanos, nsec_ok, NSEC_PER_SEC in *. lia.
Qed.

(** Giving up at the end of the timeout is in order from the time [D] on. *)
Definition due (D : Z) (dt : option (timespec * timespec)) (s : EpollShimCtx * W) : Prop :=
  match dt with
  | Some (deadline, timeout) =>
      D <= mono s + nanos timeout /\ (ts_is_zero timeout = true \/ nsec_ok deadline /\ D <= nanos deadline)
  | None => True
  end.

Lemma due_stable {A} D dt (m : F A) : timely m -> stable any (due D dt) m.
Proof.
  intros Hm s Hs. destruct dt as [[deadline timeout]|].
  - destruct Hs as [Hs Ho]. eapply wp_mono; [apply (Hm (D - nanos timeout)); lia|].
    intros a s' Hs'. split; [cbn in *; lia|done].
  - unfold wpg. by destruct (m s).
Qed.

(** Reading the clock and going on with what is left. *)
Lemma due_next {B} D deadline timeout s (k : timespec -> F (result B)) (Q : result B -> EpollShimCtx * W -> Prop) :
  due D (Some (deadline, timeout)) s -> ts_is_zero timeout = false ->
  (forall ec s', Q (Err ec) s') ->
  (forall now s', due D (Some (deadline, left_at deadline now)) s' -> wpg any (k now) Q s') ->
  wpg any (try* now := call (sys_clock_gettime CLOCK_MONOTONIC) in k now) Q s.
Proof.
  destruct s as [x w]. intros [_ [?|[Hok Hd]]] Hz HErr HQ; [congruence|].
  apply wp_bind_result, wp_call_pair. pose proof (law_clock_reading w) as Hl.
  destruct (kernel_step _ w) as [[now|ec] w1]; [|by apply HErr]. destruct Hl as [Hnow Hm].
  apply HQ. split; [|by right]. pose proof (left_at_spec deadline now Hok (timespec_ok_nsec _ Hnow)).
  cbn. lia.
Qed.

Lemma block_on_timely desc kq timeout sigs : is_os Apple = false ->
  timely (block_on (W := W) desc kq timeout sigs).
Proof. intros Ha. unfold block_on, real_ppoll. rewrite Ha. timely. Qed.

Lemma wait_or_block_due D n desc kq cnt dt sigs s : is_os Apple = false -> due D dt s ->
  wpg any (epollfd_ctx_wait_or_block n desc kq cnt dt sigs)
    (fun r s' => r = Ok [] -> is_Some dt /\ D <= mono s') s.
Proof.
  intros Ha. revert dt s. induction n as [|n IH]; intros dt s Hs; [done|].
  cbn [epollfd_ctx_wait_or_block].
  apply wp_bind. eapply wp_mono; [apply (due_stable D dt); [timely|done]|]. intros [] s1 Hs1.
  apply wp_bind. eapply wp_mono; [apply (due_stable D dt); [timely|done]|]. intros r s2 Hs2.
  apply wp_bind. eapply wp_mono; [apply (due_stable D dt); [timely|done]|]. intros [] s3 Hs3.
  destruct r as [[|ev evs]|ec]; [|apply wp_ret; intros Hr; discriminate Hr..].
  destruct dt as [[deadline timeout]|].
  - destruct (ts_is_zero timeout) eqn:Ez.
    { apply wp_ret. intros _. split; [done|]. destruct Hs3 as [Hs3 _]. rewrite (zero_nanos _ Ez) in Hs3. lia. }
    apply wp_bind_result. eapply wp_mono; [apply (due_stable D (Some (deadline, timeout)) _ (block_on_timely _ _ _ _ Ha)), Hs3|].
    intros [u|ec] s4 Hs4; [|done]. apply (due_next D deadline timeout); [done|done|done|].
    intros now s5 Hs5. eapply wp_mono; [by apply IH|]. intros r s6 Hr E. destruct (Hr E) as [_ Ht]. by split.
  - apply wp_bind_result. eapply wp_mono; [apply (due_stable D None _ (block_on_timely _ _ _ _ Ha)), Hs3|].
    intros [u|ec] s4 Hs4; [|done]. by apply IH.
Qed.

(** *** poll *)

Lemma prepare_polls_timely fds : timely (prepare_polls (W := W) fds).
Proof. timely. Qed.

Lemma refine_polls_timely fds : forall n, timely (refine_polls (W := W) fds n).
Proof. induction fds as [|f fds IH]; intros n; cbn; timely. Qed.

Lemma ppoll_deadline_due D k fds deadline timeout sigmask s : is_os Apple = false ->
  due D (Some (deadline, timeout)) s ->
  wpg any (epoll_shim_ppoll_deadline k fds (Some (deadline, timeout)) sigmask)
    (fun r s' => forall fds', r = Ok (0, fds') -> D <= mono s') s.
Proof.
  intros Ha. revert fds timeout s. induction k as [|k IH]; intros fds timeout s Hs; [done|].
  cbn [epoll_shim_ppoll_deadline]. set (dt := Some (deadline, timeout)) in *.
  apply wp_bind. eapply wp_mono; [apply (due_stable D dt); [timely|done]|]. intros [] s1 Hs1.
  apply wp_bind. eapply wp_mono; [apply (due_stable D dt), Hs1; apply prepare_polls_timely|]. intros [] s2 Hs2.
  apply wp_bind. eapply wp_mono; [apply (due_stable D dt); [timely|done]|]. intros [] [x3 w3] Hs3.
  unfold real_ppoll. rewrite Ha. apply wp_bind_result, wp_call_pair.
  pose proof (law_ppoll_elapsed w3 fds timeout sigmask) as He.
  pose proof (law_monotone (sys_ppoll fds (Some timeout) sigmask) w3) as Hm. cbn [fmap option_fmap option_map dt snd].
  destruct (kernel_step (sys_ppoll fds (Some timeout) sigmask) w3) as [[[n fds1]|ec] w4]; [cbn beta iota|done].
  cbn [snd] in Hm. destruct Hs3 as [Hs3 Hd].
  destruct (Z.eqb_spec n 0) as [->|Hn].
  { apply wp_ret. intros fds' _. specialize (He eq_refl). cbn in *. lia. }
  assert (due D dt (x3, w4)) as Hs4 by (split; [cbn in *; lia|done]).
  apply wp_bind. eapply wp_mono; [apply (due_stable D dt); [timely|done]|]. intros [] s5 Hs5.
  apply wp_bind. eapply wp_mono; [apply (due_stable D dt), Hs5; apply refine_polls_timely|].
  intros [n2 fds2] s6 Hs6.
  apply wp_bind. eapply wp_mono; [apply (due_stable D dt); [timely|done]|]. intros [] s7 Hs7.
  cbn [dt]. destruct (Z.eqb_spec n2 0) as [->|Hn2]; cbn [andb]; [|by apply wp_ret; intros fds' [= -> _]].
  destruct (ts_is_zero timeout) eqn:Ez; cbn [negb].
  - apply wp_ret. intros fds' _. destruct Hs7 as [Hs7 _]. rewrite (zero_nanos _ Ez) in Hs7. lia.
  - apply (due_next D deadline timeout); [done|done|done|]. intros now s8 Hs8. by apply IH.
Qed.

(** *** Where the deadlines come from *)

(** A deadline made from the clock now and a timeout [tmo]. *)
Lemma deadline_due {B} tmo s (k : timespec -> F (result B)) (Q : result B -> EpollShimCtx * W -> Prop) :
  timespec_ok tmo -> (forall ec s', Q (Err ec) s') ->
  (forall deadline s', due (mono s + nanos tmo) (Some (deadline, tmo)) s' -> wpg any (k deadline) Q s') ->
  wpg any (try* now := call (sys_clock_gettime CLOCK_MONOTONIC) in
           let* deadline := timespecadd_safe now tmo in
           match deadline with None => ret (Err EINVAL) | Some deadline => k deadline end) Q s.
Proof.
  destruct s as [x w]. intros Ht HErr HQ. apply wp_bind_result, wp_call_pair.
  pose proof (law_clock_reading w) as Hl. destruct (kernel_step _ w) as [[now|ec] w1]; [|by apply HErr].
  destruct Hl as (Hok & Hlow & Hhigh).
  destruct (timespecadd_safe_run now tmo (x, w1) Hok Ht) as (r & Hrun & Hr).
  apply wp_bind. unfold wpg at 1. rewrite Hrun. destruct r as [d|]; [|by apply wp_ret, HErr].
  destruct Hr as [Hd Hn]. apply HQ. split; [cbn; lia|right]. split; [by apply timespec_ok_nsec|]. cbn. lia.
Qed.

Lemma due_now D s : D <= mono s -> due D (Some (ts_zero, ts_zero)) s.
Proof. intros Hs. split; [change (nanos ts_zero) with 0; lia|by left]. Qed.

Lemma milliseconds to : 0 <= to <= INT_MAX ->
  let tmo := {| tv_sec := Z.quot to 1000; tv_nsec := Z.rem to 1000 * 1000000 |} in
  timespec_ok tmo /\ nanos tmo = to * 10 ^ 6.
Proof.
  intros Hto tmo. pose proof (Z.div_mod to 1000) as Hdm. pose proof (Z.mod_pos_bound to 1000) as Hmb.
  unfold tmo. rewrite Z.quot_div_nonneg, Z.rem_mod_nonneg, timespec_ok_spec by lia.
  unfold nsec_ok, nanos, NSEC_PER_SEC, INT64_MAX, INT_MAX in *. cbn. lia.
Qed.

Lemma timeout_to_deadline_due to s : 0 <= to <= INT_MAX ->
  wpg any (timeout_to_deadline to)
    (fun r s' => match r with Ok dt => due (mono s + to * 10 ^ 6) (Some dt) s' | Err _ => True end) s.
Proof.
  intros Hto. destruct (milliseconds to Hto) as [Ht Hn]. unfold timeout_to_deadline.
  apply wp_bind, wp_assert. rewrite (proj2 (Z.leb_le 0 to)) by lia.
  destruct (Z.eqb_spec to 0) as [->|]; [apply wp_ret, due_now; lia|].
  cbv zeta. apply deadline_due; [done|done|]. intros deadline s' Hs. apply wp_ret. by rewrite <- Hn.
Qed.

(** A call on a descriptor of the kind [v] answers what [m] answers. *)
Lemma with_desc_since {A} v fd (m : Z -> F (result A)) T D (good : result A -> Prop) s :
  T <= mono s -> (forall ec, ~ good (Err ec)) ->
  (forall p s', T <= mono s' -> wpg any (m p) (fun r s'' => good r -> D <= mono s'') s') ->
  wpg any (with_desc v fd m) (fun r s' => good r -> D <= mono s') s.
Proof.
  intros Hs Herr Hm.
  assert (forall s', T <= mono s' -> wpg any (not_this_kind (A := A) fd) (fun r s'' => good r -> D <= mono s'') s') as Hno.
  { intros [x w] _. unfold not_this_kind. destruct (fd <? 0); [apply wp_ret; intros Hg; by destruct (Herr _ Hg)|].
    apply wp_bind, wp_call_pair. destruct (kernel_step _ w) as [r w1]. apply wp_ret.
    intros Hg. by destruct (Herr _ Hg). }
  unfold with_desc. apply wp_bind_result.
  eapply wp_mono; [assert (timely epoll_shim_ctx_global) as Hg by timely; apply (Hg T s Hs)|].
  intros [u|ec] s1 Hs1; [|intros Hg; by destruct (Herr _ Hg)].
  apply wp_bind. eapply wp_mono; [apply (find_desc_timely fd T s1 Hs1)|]. intros [p|] s2 Hs2; [|by apply Hno].
  apply wp_bind. eapply wp_mono; [apply (timely_the_desc p T s2 Hs2)|]. intros d s3 Hs3.
  apply wp_bind. eapply (wp_mono _ _ (fun r s' => good r -> D <= mono s')).
  { case_bool_decide; [by apply Hm|by apply Hno]. }
  intros r s4 Hs4. apply wp_bind.
  destruct (decide (D <= mono s4)) as [HD|HD].
  - eapply wp_mono; [assert (timely (let* _ := unref p in ret tt)) as Hu by timely; apply (Hu D s4 HD)|].
    intros [] s5 Hs5. apply wp_ret. done.
  - eapply wp_mono; [assert (timely (let* _ := unref p in ret tt)) as Hu by timely; apply (Hu (mono s4) s4); lia|].
    intros [] s5 _. apply wp_ret. intros Hg. by destruct (HD (Hs4 Hg)).
Qed.
End Waiting.

(** C22: [epoll_wait] and [epoll_pwait] answer with no event only when a timeout was given and has
    elapsed in full, whatever wakes the thread up in between, whatever the kernel, signals and
    spurious events of the descriptors do. *)
Theorem epoll_wait_not_early {W} `{!Platform, !Kernel W, !Fuel, !ClockLaws W} fd cnt to sigs x (w : W) :
  is_os Apple = false -> to <= INT_MAX ->
  wpg (fun _ => True) (epoll_pwait fd cnt to sigs)
    (fun r s => r = Ok [] -> 0 <= to /\ mono w + to * 10 ^ 6 <= mono s.2) (x, w).
Proof.
  intros Ha Hto. unfold epoll_pwait. destruct (_ || _); [by apply wp_ret|].
  destruct (Z.leb_spec 0 to) as [Hto0|Hto0].
  - eapply (wp_mono _ _ (fun r s => r = Ok [] -> mono w + to * 10 ^ 6 <= mono s));
      [|intros r s Hr E; split; [done|by apply Hr]].
    apply (with_desc_since _ _ _ (mono w)); [done|done|]. intros p s Hs.
    apply wp_bind_result. eapply wp_mono; [by apply timeout_to_deadline_due|].
    intros [dt|ec] s1 Hs1; [|done].
    eapply wp_mono; [by apply (wait_or_block_due _ _ _ _ _ _ _ _ Ha Hs1)|].
    intros r s2 Hr E. destruct (Hr E) as [_ Hd]. lia.
  - assert (forall D, wpg (fun _ => True)
      (with_desc epollfd_vtable fd (fun desc => epollfd_ctx_wait_or_block fuel desc fd cnt None sigs))
      (fun r s => r = Ok [] -> D <= mono s) (x, w)) as Hnever.
    { intros D. apply (with_desc_since _ _ _ (mono w)); [done|done|]. intros p s _.
      eapply wp_mono; [by apply (wait_or_block_due D _ _ _ _ None)|].
      intros r s2 Hr E. by destruct (Hr E) as [[? ?] _]. }
    unfold wpg in *. destruct (with_desc _ _ _ _) as [r s|]; [|done]. intros E.
    specialize (Hnever (mono s + 1) E). lia.
Qed.

(** C23: [ppoll] and [poll] with a timeout answer 0 only when it has elapsed in full, also when the
    kernel reported kqueues readable in which the library then found nothing. *)
Theorem ppoll_not_early {W} `{!Platform, !Kernel W, !Fuel, !ClockLaws W} fds tmo sigmask x (w : W) :
  is_os Apple = false -> tv_sec tmo <= INT64_MAX ->
  wpg (fun _ => True) (epoll_shim_ppoll fds (Some tmo) sigmask)
    (fun r s => forall fds', r = Ok (0, fds') -> mono w + nanos tmo <= mono s.2) (x, w).
Proof.
  intros Ha Hrange. unfold epoll_shim_ppoll. apply wp_bind.
  eapply wp_mono; [assert (timely epoll_shim_ctx_global) as Hg by timely; by apply (Hg (mono w))|].
  intros g [x1 w1] Hs1. cbn [mono clock_prod snd] in Hs1. destruct (negb (is_ok g)).
  { unfold real_ppoll. rewrite Ha. apply wp_call_pair.
    pose proof (law_ppoll_elapsed w1 fds tmo sigmask) as He.
    destruct (kernel_step _ w1) as [[[n fds']|ec] w2]; [|done]. intros fds2 [= -> ->].
    specialize (He eq_refl). cbn. lia. }
  unfold epoll_shim_ppoll_impl. destruct (ts_is_zero tmo) eqn:Ez.
  { rewrite (zero_nanos _ Ez). eapply wp_mono.
    { apply (ppoll_deadline_due (mono w)); [done|]. by apply due_now. }
    intros r s Hr fds' E. specialize (Hr fds' E). cbn in *. lia. }
  destruct (timespec_is_valid tmo) eqn:Ev; cbn [negb]; [|by apply wp_ret].
  apply deadline_due; [|done|].
  - by split.
  - intros deadline s Hs. eapply wp_mono; [by apply (ppoll_deadline_due _ _ _ _ _ _ _ Ha Hs)|].
    intros r s2 Hr fds' E. specialize (Hr fds' E). cbn in *. lia.
Qed.
