(* ===== verification/DeadlineSim.v ===== *)
(** * Waiting on the concrete system

    [sim] meets the laws of the clock; an epoll instance that watches an eventfd reports
    it, and waits in vain for exactly its timeout. *)

From S2P Require Import Prelude Kernel Sim SimLaws KqueueEvent Timespec EventfdCtx TimerfdCtx SignalfdCtx EpollNode EpollCtx FileDesc ShimCtx ShimIo Api ShimSim Deadline.

#[local] Existing Instance freebsd.
#[local] Instance fuel5 : Fuel := 5%nat.

Lemma sim_pass_now n s : sim_now (sim_pass n s) = sim_now s + Z.max 0 n.
Proof.
  unfold sim_pass. cbv zeta. set (now := _ + _). unfold sim_now. fields.
  pose proof (Z.div_mod now (10 ^ 9) ltac:(lia)). lia.
Qed.

Lemma sim_poll_now fds n s : sim_now s <= sim_now (sim_poll fds n s).2.
Proof. unfold sim_poll. cbn. destruct (_ =? 0); rewrite ?sim_pass_now; lia. Qed.

#[export] Instance sim_clock_laws : ClockLaws sim.
Proof.
  refine {| mono := sim_now |}.
  - intros A c w.
    assert (sim_mono (kernel_step c w).2 = sim_mono w -> sim_now w <= sim_now (kernel_step c w).2) as Hkept.
    { unfold sim_now. intros ->. done. }
    destruct c; try apply sim_poll_now; apply Hkept; clear Hkept;
      unfold kernel_step, sim_kernel, sim_new_kq, sim_kevent, sim_read, sim_write, sim_new_pipe, sim_alloc, sim_sigtimedwait;
      repeat first [done | case_match]; done.
  - intros w. unfold kernel_step, sim_kernel, sim_clock.
    destruct (_ && _) eqn:E; [|done]. b2p. split; [|unfold sim_now, nanos, NSEC_PER_SEC; lia].
    apply timespec_ok_spec. split; [lia|]. unfold nsec_ok, NSEC_PER_SEC. lia.
  - intros w fds timeout sigmask. unfold kernel_step, sim_kernel, sim_poll. cbv zeta.
    set (n := Z.of_nat _). intros Hn. rewrite Hn. cbn [Z.eqb]. rewrite sim_pass_now.
    unfold nanos, NSEC_PER_SEC. lia.
Defined.

(** ** Runs *)

Module Waiting.

(** An epoll instance at 3 watches an eventfd at 9 whose counter is 6. *)
Definition open : M (EpollShimCtx * sim) unit :=
  let* _ := epoll_create1 0 in
  let* _ := eventfd_create 6 EFD_NONBLOCK in
  let* _ := epoll_ctl 3 EPOLL_CTL_ADD 9 (Some {| ev_events := EPOLLIN; ev_data := 42 |}) in
  ret tt.

Definition opened : EpollShimCtx * sim :=
  match open (Witness.blank, sim_init) with Done _ s => s | Stop _ => (Witness.blank, sim_init) end.

Definition table : EpollShimCtx := opened.1.
Definition system : sim := opened.2.
#[global] Opaque table system.

(** Wait, read the eventfd, wait again. *)
Definition session : M (EpollShimCtx * sim) (result (list epoll_event) * result (list epoll_event)) :=
  let* a := epoll_wait 3 8 100 in
  let* _ := eventfd_read 9 in
  let* b := epoll_wait 3 8 100 in
  ret (a, b).
End Waiting.

(** The eventfd is reported with the data given for it; after it has been read, nothing is
    reported and 100 milliseconds have passed. *)
Example epoll_of_an_eventfd :
  match Waiting.session (Waiting.table, Waiting.system) with
  | Done r s => r = (Ok [{| ev_events := EPOLLIN; ev_data := 42 |}], Ok []) /\
      mono s.2 = mono Waiting.system + 100 * 10 ^ 6
  | Stop _ => False
  end.
Proof. vm_compute. split; reflexivity. Qed.

Lemma epoll_wait_not_early_witness :
  wpg (fun _ => True) (epoll_pwait 3 8 100 None)
    (fun r s => r = Ok [] -> 0 <= 100 /\ mono Waiting.system + 100 * 10 ^ 6 <= mono s.2)
    (Waiting.table, Waiting.system) /\
  match Waiting.session (Waiting.table, Waiting.system) with Done r _ => r.2 = Ok [] | Stop _ => False end.
Proof.
  split.
  - apply (epoll_wait_not_early 3 8 100 None Waiting.table Waiting.system); [reflexivity|unfold INT_MAX; lia].
  - vm_compute. reflexivity.
Defined.

Lemma ppoll_not_early_witness :
  wpg (fun _ => True) (epoll_shim_ppoll [] (Some {| tv_sec := 2; tv_nsec := 7 |}) None)
    (fun r s => forall fds', r = Ok (0, fds') ->
       mono Waiting.system + nanos {| tv_sec := 2; tv_nsec := 7 |} <= mono s.2)
    (Waiting.table, Waiting.system) /\
  match epoll_shim_ppoll [] (Some {| tv_sec := 2; tv_nsec := 7 |}) None (Waiting.table, Waiting.system) with
  | Done r s => r = Ok (0, []) /\ mono s.2 = mono Waiting.system + 2000000007
  | Stop _ => False
  end.
Proof.
  split.
  - apply (ppoll_not_early [] {| tv_sec := 2; tv_nsec := 7 |} None Waiting.table Waiting.system);
      [reflexivity|cbn; unfold INT64_MAX; lia].
  - vm_compute. split; reflexivity.
Defined.
