(* ===== verification/Memory.v ===== *)
(** * Memory

    The containers of src/external (the lists of [Tailq], the balanced tree of [RbTree]) are
    pointer structures, so their code runs on a memory of words.  A word is an address, an
    address with colour bits, or an [int]; the fields of a structure are words at fixed
    distances from its address.  Loads and stores outside the memory stop with
    [DanglingPointer].

    The proofs are in separation logic (Iris): [a ↦ v] owns the word at [a], [wpm m Q]
    says that [m] ends, with a result and words as [Q] says.  [wpm_run] turns such a triple
    into a statement about runs on a concrete memory, in which every word that the triple
    does not own keeps its value. *)

From S2P Require Export Prelude.
From iris.proofmode Require Export proofmode.
From iris.proofmode Require Import coq_tactics reduction.
From iris.base_logic.lib Require Export ghost_map own.

#[global] Open Scope Z_scope.
#[global] Open Scope c_scope.

(** ** Code *)

Abbreviation ptr := Z (only parsing).

Definition mem : Type := gmap ptr Z.

(** [*p] and [*p = v;] *)
Definition load (p : ptr) : M mem Z := fun h =>
  match h !! p with Some v => Done v h | None => Stop DanglingPointer end.

Definition store (p : ptr) (v : Z) : M mem unit := fun h =>
  match h !! p with Some _ => Done tt (<[p := v]> h) | None => Stop DanglingPointer end.

Definition NULL : ptr := 0.

(** Cells of a memory: pairwise distinct addresses with their values. *)
Definition stored (l : list (ptr * Z)) (h : mem) : Prop :=
  NoDup l.*1 /\ forall p v, (p, v) ∈ l -> h !! p = Some v.

(** ** Separation logic *)

Class memG (Σ : gFunctors) := MemG { #[global] mem_inG :: ghost_mapG Σ Z Z; mem_name : gname }.

Definition word_at `{!memG Σ} (p : ptr) (v : Z) : iProp Σ := p ↪[mem_name] v.
Notation "p ↦ v" := (word_at p v) (at level 20, format "p  ↦  v") : bi_scope.

Definition wpm `{!memG Σ} {A} (m : M mem A) (Q : A -> iProp Σ) : iProp Σ :=
  ∀ h, ghost_map_auth mem_name 1 h ==∗
       ∃ a h', ⌜m h = Done a h' /\ dom h' = dom h⌝ ∗ ghost_map_auth mem_name 1 h' ∗ Q a.

Notation "'WP' m {{ v , Q } }" := (wpm m (fun v => Q%I))
  (at level 0, m at level 200, v name, Q at level 200) : bi_scope.

Section Rules.
Context `{!memG Σ}.
Implicit Types (p : ptr) (v w : Z).

#[export] Instance word_at_timeless p v : Timeless (p ↦ v).
Proof. unfold word_at. apply _. Qed.

Lemma word_at_ne p q v w : p ↦ v -∗ q ↦ w -∗ ⌜p <> q⌝.
Proof. apply ghost_map_elem_ne. Qed.

Lemma wpm_ret {A} (a : A) (Q : A -> iProp Σ) : Q a ⊢ wpm (ret a) Q.
Proof. iIntros "H" (h) "Hh !>". iExists a, h. by iFrame. Qed.

Lemma wpm_bind {A B} (m : M mem A) (k : A -> M mem B) Q :
  WP m {{ a, wpm (k a) Q }} ⊢ wpm (bind m k) Q.
Proof.
  iIntros "H" (h) "Hh". iMod ("H" with "Hh") as (a h' [Hm Hd]) "[Hh H]".
  iMod ("H" with "Hh") as (b h'' [Hk Hd']) "[Hh H]". iModIntro. iExists b, h''. iFrame.
  iPureIntro. unfold bind. rw Hm. by rw Hd' Hd.
Qed.

Lemma wpm_wand {A} (m : M mem A) (P Q : A -> iProp Σ) :
  wpm m P -∗ (∀ a, P a -∗ Q a) -∗ wpm m Q.
Proof.
  iIntros "H HPQ" (h) "Hh". iMod ("H" with "Hh") as (a h' Hm) "[Hh H]".
  iModIntro. iExists a, h'. iFrame "%∗". by iApply "HPQ".
Qed.

(** Calling a function whose specification is known. *)
Lemma wpm_call {A B} (m : M mem A) (k : A -> M mem B) P Q :
  wpm m P -∗ (∀ a, P a -∗ wpm (k a) Q) -∗ wpm (bind m k) Q.
Proof. iIntros "H HPQ". iApply wpm_bind. by iApply (wpm_wand with "H"). Qed.

Lemma wpm_bind_ret {A B} (a : A) (k : A -> M mem B) Q : wpm (k a) Q ⊢ wpm (bind (ret a) k) Q.
Proof. iIntros "H". iApply wpm_bind. by iApply wpm_ret. Qed.

Lemma wpm_assoc {A B C} (m : M mem A) (f : A -> M mem B) (k : B -> M mem C) Q :
  wpm (bind (bind m f) k) Q ⊢ wpm (bind m (fun a => bind (f a) k)) Q.
Proof.
  iIntros "H" (h) "Hh". iMod ("H" with "Hh") as (c h' [Hm Hd]) "H". iModIntro. iExists c, h'.
  iFrame "H". iPureIntro. split; [|done]. rw -Hm. unfold bind. by destruct (m h).
Qed.

Lemma wpm_load p v Q : p ↦ v -∗ (p ↦ v -∗ Q v) -∗ wpm (load p) Q.
Proof.
  iIntros "Hp HQ" (h) "Hh". iDestruct (ghost_map_lookup with "Hh Hp") as %Hl.
  iModIntro. iExists v, h. iFrame. rw /load Hl. iSplit; [done|]. by iApply "HQ".
Qed.

Lemma wpm_store p v w Q : p ↦ v -∗ (p ↦ w -∗ Q tt) -∗ wpm (store p w) Q.
Proof.
  iIntros "Hp HQ" (h) "Hh". iDestruct (ghost_map_lookup with "Hh Hp") as %Hl.
  iMod (ghost_map_update w with "Hh Hp") as "[Hh Hp]".
  iModIntro. iExists tt, _. iFrame. rw /store Hl dom_insert_lookup_L //. iSplit; [done|]. by iApply "HQ".
Qed.

(** The rules against the proof mode's context: the word is looked up there. *)
Lemma tac_load {B} Δ i p v (k : Z -> M mem B) Q :
  envs_lookup i Δ = Some (false, p ↦ v)%I ->
  envs_entails Δ (wpm (k v) Q) -> envs_entails Δ (wpm (bind (load p) k) Q).
Proof.
  rw envs_entails_unseal => Hi Hk. rw envs_lookup_split //=.
  iIntros "[Hp HΔ]". iApply wpm_bind. iApply (wpm_load with "Hp"). iIntros "Hp".
  iApply Hk. by iApply "HΔ".
Qed.

Lemma tac_store {B} Δ i p v w (k : unit -> M mem B) Q :
  envs_lookup i Δ = Some (false, p ↦ v)%I ->
  match envs_simple_replace i false (Esnoc Enil i (p ↦ w)%I) Δ with
  | Some Δ' => envs_entails Δ' (wpm (k tt) Q)
  | None => False
  end ->
  envs_entails Δ (wpm (bind (store p w) k) Q).
Proof.
  rw envs_entails_unseal => Hi Hk.
  destruct (envs_simple_replace _ _ _ _) as [Δ'|] eqn:HΔ; [|done].
  rw envs_simple_replace_sound //=.
  iIntros "[Hp HΔ]". iApply wpm_bind. iApply (wpm_store with "Hp"). iIntros "Hp".
  iApply Hk. iApply "HΔ". by iFrame.
Qed.
End Rules.

Ltac wpm_word := first [iAssumptionCore | fail 1 "no such word in the context"].

(** One step of straight-line code. *)
Ltac wpm_step :=
  lazymatch goal with
  | |- envs_entails _ (wpm (bind (load _) _) _) => eapply tac_load; [wpm_word|cbv beta]
  | |- envs_entails _ (wpm (bind (store _ _) _) _) => eapply tac_store; [wpm_word|pm_reduce; cbv beta]
  | |- envs_entails _ (wpm (bind (ret _) _) _) => iApply wpm_bind_ret; cbv beta
  | |- envs_entails _ (wpm (ret _) _) => iApply wpm_ret; cbv beta
  end.

(** ** From triples to runs *)

Definition cells `{!memG Σ} (l : list (ptr * Z)) : iProp Σ := [∗ list] c ∈ l, c.1 ↦ c.2.

Section Cells.
Context `{!memG Σ}.

Lemma cells_cons p v l : cells ((p, v) :: l) ⊣⊢ p ↦ v ∗ cells l.
Proof. apply big_sepL_cons. Qed.

Lemma cells_nil : ⊢ cells [].
Proof. by rw /cells /=. Qed.

Lemma cells_one p v : cells [(p, v)] ⊣⊢ p ↦ v.
Proof. rw cells_cons /cells /=. apply bi.sep_emp. Qed.

Lemma cells_app l l' : cells (l ++ l') ⊣⊢ cells l ∗ cells l'.
Proof. apply big_sepL_app. Qed.
End Cells.

Lemma cells_NoDup `{!memG Σ} l : cells l ⊢ ⌜NoDup l.*1⌝.
Proof.
  induction l as [|[p v] l IH]; [iIntros "_"; iPureIntro; constructor|].
  rw /cells big_sepL_cons. iIntros "[Hp Hl]".
  iAssert ⌜p ∉ l.*1⌝%I as %Hn.
  { iIntros (Hin). apply list_elem_of_fmap in Hin as ([q w] & -> & Hin).
    iDestruct (big_sepL_elem_of with "Hl") as "Hq"; [done|].
    by iDestruct (word_at_ne with "Hp Hq") as %?. }
  iDestruct (IH with "Hl") as %?. iPureIntro. by constructor.
Qed.

Lemma stored_subseteq l h : stored l h <-> NoDup l.*1 /\ (list_to_map l : mem) ⊆ h.
Proof.
  unfold stored. split; intros [Hd Hl]; (split; [done|]).
  - apply map_subseteq_spec. intros p v. rw -elem_of_list_to_map //. apply Hl.
  - intros p v Hin. apply (proj1 (map_subseteq_spec _ _) Hl). by apply elem_of_list_to_map.
Qed.


Lemma stored_app l l' h :
  stored l h -> stored l' h -> (forall p, p ∈ l.*1 -> p ∈ l'.*1 -> False) -> stored (l ++ l') h.
Proof.
  intros [Hd Hl] [Hd' Hl'] Hdis. split.
  - rw fmap_app. by apply NoDup_app.
  - intros p v [H|H]%elem_of_app; auto.
Qed.

Lemma stored_agree l h h' :
  stored l h -> stored l h' -> (forall p, p ∉ l.*1 -> h' !! p = h !! p) -> h' = h.
Proof.
  intros [_ Hl] [_ Hl'] Hrest. apply map_eq. intros p. destruct (decide (p ∈ l.*1)) as [Hp|Hp]; [|auto].
  apply list_elem_of_fmap in Hp as ([q v] & -> & Hin). cbn. by rw (Hl _ _ Hin) (Hl' _ _ Hin).
Qed.

(** Words of structures that do not overlap. *)
Lemma flat_map_apart {A} (f : A -> list Z) l x y p :
  NoDup (flat_map f l) -> x ∈ l -> y ∈ l -> p ∈ f x -> p ∈ f y -> x = y.
Proof.
  induction l as [|z l IH]; cbn; intros Hd Hx Hy Hpx Hpy; [by apply elem_of_nil in Hx|].
  apply NoDup_app in Hd as (_ & Hdis & Hd).
  assert (forall w, w ∈ l -> p ∈ f w -> p ∈ flat_map f l) as Hin.
  { intros w Hw Hp. apply list_elem_of_In, in_flat_map. exists w. by rw -!list_elem_of_In. }
  apply elem_of_cons in Hx as [->|Hx]; apply elem_of_cons in Hy as [->|Hy]; [done| | |by apply IH].
  - by destruct (Hdis p Hpx); apply (Hin y).
  - by destruct (Hdis p Hpy); apply (Hin x).
Qed.

(** Every run on a memory that holds the cells [l] ends as the triple says, and leaves the
    rest of the memory as it was. *)
Lemma wpm_run {A} (m : M mem A) (l : list (ptr * Z)) (h : mem)
    (Q : A -> list (ptr * Z) -> Prop) :
  stored l h ->
  (forall (Σ : gFunctors) (G : memG Σ), cells l ⊢ WP m {{ a, ∃ l', ⌜Q a l'⌝ ∗ cells l' }}) ->
  exists a h' l', m h = Done a h' /\ Q a l' /\ stored l' h' /\
    (forall p, p ∉ l.*1 -> h' !! p = h !! p) /\ dom h' = dom h.
Proof.
  intros [Hd Hl]%stored_subseteq Hm.
  apply (pure_soundness (PROP := iPropI (ghost_mapΣ Z Z))), uPred.bupd_soundness; [apply _|].
  iMod (ghost_map_alloc (K := Z) (V := Z) h) as (γ) "[Hh Hc]".
  iAssert (([∗ map] p↦v ∈ (list_to_map l : mem), p ↪[γ] v) ∗
           ([∗ map] p↦v ∈ (h ∖ list_to_map l), p ↪[γ] v))%I with "[Hc]" as "[Hc Hrest]".
  { rw -big_sepM_union; [|by apply map_disjoint_difference_r1].
    by rw map_difference_union. }
  rw big_sepM_list_to_map //.
  iMod (Hm _ (MemG _ _ γ) with "Hc Hh") as (a h' [Hrun Hdom]) "(Hh & %l' & %HQ & Hc)".
  iDestruct (cells_NoDup with "Hc") as %Hd'.
  iDestruct (ghost_map_lookup_big with "Hh Hrest") as %Hrest.
  rw /cells -(big_sepM_list_to_map (fun p v => p ↦ v)%I l') //.
  iDestruct (ghost_map_lookup_big with "Hh Hc") as %Hl'.
  iModIntro. iPureIntro. exists a, h', l'. split_and!; [done|done|by apply stored_subseteq| |done].
  intros p Hp. apply not_elem_of_list_to_map_1 in Hp as Hn.
  destruct (h !! p) as [v|] eqn:Hv.
  - apply (proj1 (map_subseteq_spec _ _) Hrest). by apply lookup_difference_Some.
  - apply not_elem_of_dom. rw Hdom. by apply not_elem_of_dom.
Qed.
