(* ===== verification/RbRank.v ===== *)
(** * Rank-balanced trees as values

    The trees that the pointers of [RbTree] form, and what [RB_INSERT], [RB_REMOVE] and their
    repair loops do to them, as functions.  A node in the middle of a repair is a subtree with
    its context, the list of the nodes above it.  Ranks are not stored: a red side has a child
    of rank two less than the node, a side that is not red one of rank one less.  [ranked] is
    the invariant; both repairs restore it, keep the order of the nodes, and it bounds the
    height by twice the logarithm of the size. *)

From S2P Require Export Prelude.
From Stdlib Require Export Sorting.Sorted.

(** The sides of a node: the mirrored macros differ in it. *)
Inductive dir : Type := L | R.

Definition opp (d : dir) : dir := match d with L => R | R => L end.

(** ** Trees and contexts *)

Inductive tree : Type := Nil | Node (a : Z) (k : Z) (bl br : bool) (l r : tree).

(** A node by the side [d] and the other side. *)
Definition mk (d : dir) (a : Z) (k : Z) (x y : bool) (s o : tree) : tree :=
  match d with L => Node a k x y s o | R => Node a k y x o s end.

(** [Fr d a k x y o]: the node [a] above a subtree on its side [d]; [o] is its other child. *)
Inductive frame : Type := Fr (d : dir) (a : Z) (k : Z) (x y : bool) (o : tree).
Abbreviation ctx := (list frame).

Fixpoint plug (t : tree) (c : ctx) : tree :=
  match c with
  | [] => t
  | Fr d a k x y o :: c => plug (mk d a k x y t o) c
  end.

(** ** The repairs *)

(** [view d t]: [t] as [mk d]. *)
Definition view (d : dir) (t : tree) : option (Z * Z * bool * bool * tree * tree) :=
  match t with
  | Nil => None
  | Node a k bl br l r =>
      Some match d with L => (a, k, bl, br, l, r) | R => (a, k, br, bl, r, l) end
  end.

(** [RB_INSERT_COLOR]; [None] is an access through a null pointer. *)
Fixpoint ins_fix (t : tree) (c : ctx) : option tree :=
  match c with
  | [] => Some t
  | Fr d p k x y o :: c =>
      if x then Some (plug (mk d p k false y t o) c)
      else if negb y then ins_fix (mk d p k false true t o) c
      else
        '(e, ke, ex, ey, es, eo) ← view d t;
        if ey : bool then Some (plug (mk d e ke false false es (mk d p k false false eo o)) c)
        else
          '(h, kh, hx, hy, hs, ho) ← view d eo;
          let ey := hx in
          let x := negb hx && hy in
          Some (plug (mk d h kh false false
                        (mk d e ke (negb ex) ey es hs) (mk d p k x false ho o)) c)
  end.

(** The rotations at the end of [RB_REMOVE_COLOR]: the tree that takes the place of the node
    [p], whose side [d] is red and has lost a rank; its other child is [s]. *)
Definition rem_rotate (d : dir) (p k : Z) (t : tree) (s ks : Z) (sx sy : bool) (ss so : tree) :
    option tree :=
  if sx then Some (mk d s ks sx (negb sy) (mk d p k false false t ss) so)
  else if negb sy then Some (mk d s ks sx (negb sy) (mk d p k true false t ss) so)
  else
    '(e, ke, ex, ey, es, eo) ← view d ss;
    Some (mk d e ke true true (mk d p k false ex t es) (mk d s ks ey false eo so)).

(** The loop of [RB_REMOVE_COLOR] *)
Fixpoint rem_fix (t : tree) (c : ctx) : option tree :=
  match c with
  | [] => Some t
  | Fr d p k x y o :: c =>
      if negb x then Some (plug (mk d p k true y t o) c)
      else if y then rem_fix (mk d p k true false t o) c
      else
        '(s, ks, sx, sy, ss, so) ← view d o;
        if sx && sy then rem_fix (mk d p k true false t (mk d s ks false false ss so)) c
        else r ← rem_rotate d p k t s ks sx sy ss so; Some (plug r c)
  end.

Definition rem_color (t : tree) (c : ctx) : option tree :=
  match t, c with
  | Nil, Fr d p k x y Nil :: c => rem_fix (mk d p k false false Nil Nil) c
  | _, _ => rem_fix t c
  end.

(** ** The operations *)

(** The place of the key [k]: its node, or the empty place where it belongs. *)
Fixpoint descend (k : Z) (t : tree) (c : ctx) : tree * ctx :=
  match t with
  | Nil => (Nil, c)
  | Node a k' bl br l r =>
      if k <? k' then descend k l (Fr L a k' bl br r :: c)
      else if k' <? k then descend k r (Fr R a k' br bl l :: c)
      else (t, c)
  end.

(** The first node of a tree, with what is right of it and what is above it. *)
Fixpoint pop_min (t : tree) (c : ctx) : option (Z * Z * bool * bool * tree * ctx) :=
  match t with
  | Nil => None
  | Node a k bl br l r =>
      match l with
      | Nil => Some (a, k, bl, br, r, c)
      | _ => pop_min l (Fr L a k bl br r :: c)
      end
  end.

(** [RB_REMOVE] of the node at the root of [t], below [c] *)
Definition rem_node (t : tree) (c : ctx) : option tree :=
  match t with
  | Nil => None
  | Node a k bl br l r =>
      match l, r with
      | Nil, _ => rem_color r c
      | _, Nil => rem_color l c
      | _, _ =>
          '(s, ks, _, _, sr, p) ← pop_min r [];
          rem_color sr (p ++ Fr R s ks br bl l :: c)
      end
  end.

(** ** Order *)

Fixpoint inorder (t : tree) : list (Z * Z) :=
  match t with
  | Nil => []
  | Node a k _ _ l r => inorder l ++ (k, a) :: inorder r
  end.

(** The nodes of a context that come before and after its subtree. *)
Fixpoint before (c : ctx) : list (Z * Z) :=
  match c with
  | [] => []
  | Fr L _ _ _ _ _ :: c => before c
  | Fr R a k _ _ o :: c => before c ++ inorder o ++ [(k, a)]
  end.

Fixpoint after (c : ctx) : list (Z * Z) :=
  match c with
  | [] => []
  | Fr L a k _ _ o :: c => (k, a) :: inorder o ++ after c
  | Fr R _ _ _ _ _ :: c => after c
  end.

Lemma inorder_plug t c : inorder (plug t c) = before c ++ inorder t ++ after c.
Proof.
  revert t. induction c as [|[d a k x y o] c IH]; intros t; cbn; [by rewrite app_nil_r|].
  rewrite IH. destruct d; cbn; by rewrite <- ?app_assoc.
Qed.

Lemma inorder_plug_eq t t' c : inorder t = inorder t' -> inorder (plug t c) = inorder (plug t' c).
Proof. intros H. by rewrite !inorder_plug, H. Qed.

Lemma before_app p c : before (p ++ c) = before c ++ before p.
Proof.
  induction p as [|[[] a k x y o] p IH]; cbn; [by rewrite app_nil_r|done|].
  by rewrite IH, <- app_assoc.
Qed.

Lemma after_app p c : after (p ++ c) = after p ++ after c.
Proof.
  induction p as [|[[] a k x y o] p IH]; cbn; [done| |done]. by rewrite IH, <- app_assoc.
Qed.

(** ** Ranks *)

Fixpoint ranked (t : tree) (n : Z) : Prop :=
  match t with
  | Nil => n = 0
  | Node _ _ bl br l r =>
      ranked l (n - 1 - Z.b2z bl) /\ ranked r (n - 1 - Z.b2z br) /\ (l = Nil -> r = Nil -> n = 1)
  end.

(** A context that wants a subtree of rank [n]. *)
Fixpoint fits (n : Z) (c : ctx) : Prop :=
  match c with
  | [] => True
  | Fr _ _ _ x y o :: c =>
      let m := n + 1 + Z.b2z x in
      ranked o (m - 1 - Z.b2z y) /\ (n = 0 -> o = Nil -> m = 1) /\ fits m c
  end.

Definition balanced (t : tree) : Prop := exists n, ranked t n.

(** [destruct]s [view d t] in the style of the code: [t] is empty or a node by its sides. *)
Lemma view_spec d t :
  match view d t with
  | None => t = Nil
  | Some (a, k, x, y, s, o) => t = mk d a k x y s o
  end.
Proof. destruct t, d; reflexivity. Qed.

Ltac dview d t :=
  let H := fresh "Hview" in
  pose proof (view_spec d t) as H; destruct (view d t) as [[[[[[? ?] ?] ?] ?] ?]|]; cbn [mbind option_bind] in *;
  subst t.

Lemma mk_Nil d a k x y s o : mk d a k x y s o = Nil <-> False.
Proof. by destruct d. Qed.

Lemma ranked_mk d a k x y s o n :
  ranked (mk d a k x y s o) n <->
  ranked s (n - 1 - Z.b2z x) /\ ranked o (n - 1 - Z.b2z y) /\ (s = Nil -> o = Nil -> n = 1).
Proof. destruct d; cbn; tauto. Qed.

Lemma ranked_nonneg t n : ranked t n -> 0 <= n /\ (n = 0 <-> t = Nil).
Proof.
  revert n. induction t as [|a k bl br l IHl r IHr]; intros n H; cbn in H; [by subst|].
  destruct H as ([? ?]%IHl & ? & ?). split; [destruct bl; cbn [Z.b2z] in *; lia|].
  split; [destruct bl; cbn [Z.b2z] in *; lia|done].
Qed.

Lemma plug_ranked t n c : ranked t n -> fits n c -> balanced (plug t c).
Proof.
  revert t n. induction c as [|[d a k x y o] c IH]; intros t n Ht Hc; [by exists n|].
  destruct Hc as (Ho & Hl & Hc). cbn. apply (IH _ (n + 1 + Z.b2z x)); [|done].
  apply ranked_mk. split_and!; [by replace (_ - _ - _) with n by lia|done|].
  intros ->. cbn in Ht. by apply Hl.
Qed.

Lemma ranked_plug t c : balanced (plug t c) -> exists n, ranked t n /\ fits n c.
Proof.
  revert t. induction c as [|[d a k x y o] c IH]; intros t H; [by destruct H as [n ?]; exists n|].
  apply IH in H as (n & (Hs & Ho & Hl)%ranked_mk & Hc).
  exists (n - 1 - Z.b2z x). split; [done|]. cbn.
  replace (n - 1 - Z.b2z x + 1 + Z.b2z x) with n by lia. split_and!; [done| |done].
  intros H0 ->. apply Hl; [|done]. by apply (ranked_nonneg _ _ Hs).
Qed.

(** The repairs keep what they are given, up to the shape of the tree. *)
Definition repaired (t : tree) (c : ctx) (r : option tree) : Prop :=
  exists t', r = Some t' /\ balanced t' /\ inorder t' = inorder (plug t c).

Lemma repaired_done t c n : ranked t n -> fits n c -> repaired t c (Some (plug t c)).
Proof. intros Ht Hc. eexists. split_and!; [done|by eapply plug_ranked|done]. Qed.

Lemma repaired_up d p k x y o t c t2 r :
  inorder t2 = inorder (mk d p k x y t o) -> repaired t2 c r ->
  repaired t (Fr d p k x y o :: c) r.
Proof.
  intros Hi (t' & -> & Hb & Hi'). exists t'. split_and!; [done|done|].
  rewrite Hi'. cbn [plug]. by apply inorder_plug_eq.
Qed.

Ltac bits := repeat match goal with b : bool |- _ => destruct b; try discriminate end; cbn [Z.b2z negb andb] in *.

(** A tree whose rank an insertion has just raised: a new leaf, or a node that is one rank
    above a grown child and two above the other.  [RB_INSERT_COLOR] relies on this shape: its
    double rotation does not allow for a child with two red sides. *)
Fixpoint grown (t : tree) : Prop :=
  match t with
  | Nil => False
  | Node _ _ bl br l r =>
      (bl = false /\ br = false /\ l = Nil /\ r = Nil) \/
      (bl = false /\ br = true /\ grown l) \/ (bl = true /\ br = false /\ grown r)
  end.

Lemma grown_mk d a k x y s o :
  grown (mk d a k x y s o) <->
  (x = false /\ y = false /\ s = Nil /\ o = Nil) \/
  (x = false /\ y = true /\ grown s) \/ (x = true /\ y = false /\ grown o).
Proof. destruct d; cbn; tauto. Qed.

Lemma ranked_eq t n m : ranked t n -> n = m -> ranked t m.
Proof. congruence. Qed.

Lemma fits_eq c n m : fits n c -> n = m -> fits m c.
Proof. congruence. Qed.

(** Facts about the ranks at hand, then arithmetic. *)
Ltac rank_facts :=
  subst; bits;
  repeat match goal with
  | H : mk ?d _ _ _ _ _ _ = Nil |- _ => exfalso; by destruct d
  | H : ranked (mk _ _ _ _ _ _ _) _ |- _ => apply ranked_mk in H as (? & ? & ?)
  | H : ranked Nil ?n |- _ => change (n = 0) in H
  | H : ranked ?t ?n |- _ =>
      lazymatch goal with
      | _ : 0 <= n |- _ => fail
      | _ => pose proof (proj1 (ranked_nonneg _ _ H))
      end
  end;
  cbn [Z.b2z] in *.

Ltac rank_solve :=
  repeat (apply ranked_mk; split_and!);
  first [ eapply ranked_eq; [eassumption|cbn [Z.b2z]; lia]
        | intros; exfalso; by auto
        | intros; rank_facts; lia ].

Ltac fits_solve := eapply fits_eq; [eassumption|cbn [Z.b2z]; lia].

Ltac inorder_solve :=
  repeat match goal with d : dir |- _ => destruct d end; cbn [mk inorder];
  by repeat (rewrite <- ?app_assoc; cbn).

Lemma ins_fix_repairs t c n :
  grown t -> ranked t (n + 1) -> fits n c -> repaired t c (ins_fix t c).
Proof.
  revert t n. induction c as [|[d p k x y o] c IH]; intros t n Hg Ht Hc; cbn [ins_fix].
  { by apply (repaired_done t [] (n + 1)). }
  destruct Hc as (Ho & Hl & Hc).
  destruct x; cbn [Z.b2z] in *.
  { eapply repaired_up; [|apply (repaired_done _ _ (n + 2));
      [rank_solve|fits_solve]]. inorder_solve. }
  destruct y; cbn [negb Z.b2z] in *.
  2: { eapply repaired_up; [|apply (IH _ (n + 1));
         [apply grown_mk; naive_solver|rank_solve|fits_solve]]. inorder_solve. }
  dview d t; [|done].
  apply grown_mk in Hg as [(-> & -> & -> & ->)|[(-> & -> & Hg)|(-> & -> & Hg)]].
  - rank_facts. lia.
  - rank_facts.
    eapply repaired_up; [|apply (repaired_done _ _ (n + 1)); [rank_solve|fits_solve]].
    inorder_solve.
  - dview d t1; [|done]. apply grown_mk in Hg. rank_facts; [naive_solver|..].
    all: eapply repaired_up; [|apply (repaired_done _ _ (n + 1)); [rank_solve|fits_solve]];
      inorder_solve.
Qed.

(** A removal has lowered the rank of [t] by one; [RB_REMOVE_COLOR] has seen to it that an
    empty tree has a sibling. *)
Definition lone (t : tree) (c : ctx) : Prop :=
  match t, c with Nil, Fr _ _ _ _ _ Nil :: _ => True | _, _ => False end.

Lemma lone_mk d a k x y s o c : lone (mk d a k x y s o) c <-> False.
Proof. by destruct d. Qed.

Lemma rem_fix_repairs t c n :
  ranked t n -> fits (n + 1) c -> ~ lone t c -> repaired t c (rem_fix t c).
Proof.
  revert t n. induction c as [|[d p k x y o] c IH]; intros t n Ht Hc Hl; cbn [rem_fix].
  { by apply (repaired_done t [] n). }
  destruct Hc as (Ho & _ & Hc). pose proof (proj1 (ranked_nonneg _ _ Ht)).
  assert (t = Nil -> o = Nil -> False) as Hl' by (intros -> ->; by apply Hl).
  destruct x; cbn [Z.b2z negb] in *.
  2: { eapply repaired_up; [|apply (repaired_done _ _ (n + 2)); [|fits_solve]]; [inorder_solve|].
       rank_solve. }
  destruct y; cbn [negb Z.b2z] in *.
  { eapply repaired_up; [|apply (IH _ (n + 2)); [rank_solve|fits_solve|by intros ?%lone_mk]].
    inorder_solve. }
  dview d o; [|rank_facts; lia]. destruct b, b0; cbn [andb negb rem_rotate mbind option_bind]; rank_facts.
  - eapply repaired_up; [|apply (IH _ (n + 2)); [rank_solve|fits_solve|by intros ?%lone_mk]].
    inorder_solve.
  - eapply repaired_up; [|apply (repaired_done _ _ (n + 3)); [rank_solve|fits_solve]].
    inorder_solve.
  - dview d t0; [|rank_facts; lia]. rank_facts.
    all: eapply repaired_up; [|apply (repaired_done _ _ (n + 3)); [rank_solve|fits_solve]];
      inorder_solve.
  - eapply repaired_up; [|apply (repaired_done _ _ (n + 3)); [rank_solve|fits_solve]].
    inorder_solve.
Qed.

Lemma rem_color_repairs t c n :
  ranked t n -> fits (n + 1) c -> repaired t c (rem_color t c).
Proof.
  intros Ht Hc. destruct t as [|a k bl br l r]; [destruct c as [|[d p k x y [|a0 k0 bl br l r]] c]|].
  - by apply (rem_fix_repairs _ _ n); [..|intros []].
  - destruct Hc as (Ho & _ & Hc). cbn [rem_color]. cbn [ranked] in *.
    eapply repaired_up; [|apply (rem_fix_repairs _ _ 1); [rank_solve| |by intros ?%lone_mk]].
    + inorder_solve.
    + rank_facts; try lia. fits_solve.
  - by apply (rem_fix_repairs _ _ n); [..|intros []].
  - by apply (rem_fix_repairs _ _ n); [..|intros []].
Qed.

(** A node with an empty side has a child one rank below it on the other. *)
Lemma ranked_one_child d a k x y o n : ranked (mk d a k x y Nil o) n -> ranked o (n - 1).
Proof.
  intros (Hs & Ho & Hl)%ranked_mk. cbn [ranked] in Hs.
  destruct o; [cbn [ranked] in *; rewrite Hl; done|].
  pose proof (ranked_nonneg _ _ Ho) as [? [Hn _]].
  eapply ranked_eq; [done|]. destruct x, y; cbn [Z.b2z] in *; try lia. all: discriminate (Hn ltac:(lia)).
Qed.

(** Which node stands in a frame does not matter to the ranks. *)
Lemma fits_relabel p d a k a' k' x y o c n :
  fits n (p ++ Fr d a k x y o :: c) -> fits n (p ++ Fr d a' k' x y o :: c).
Proof.
  revert n. induction p as [|[] p IH]; intros n; cbn; [done|]. intros (? & ? & ?). split_and!; auto.
Qed.

Lemma pop_min_spec t c0 :
  t <> Nil ->
  exists a k bl br r p, pop_min t c0 = Some (a, k, bl, br, r, p ++ c0) /\
    t = plug (Node a k bl br Nil r) p /\ before p = [].
Proof.
  revert c0. induction t as [|a k bl br l IH r _]; intros c0 Ht; [done|].
  destruct l as [|a' k' bl' br' l' r']; [by exists a, k, bl, br, r, []|].
  destruct (IH (Fr L a k bl br r :: c0)) as (a1 & k1 & bl1 & br1 & r1 & p & Hp & Hl & Hb); [done|].
  exists a1, k1, bl1, br1, r1, (p ++ [Fr L a k bl br r]). split_and!.
  - cbn [pop_min] in *. by rewrite Hp, <- app_assoc.
  - rewrite Hl. clear. generalize (Node a1 k1 bl1 br1 Nil r1).
    induction p as [|[] p IH]; intros t; cbn; auto.
  - by rewrite before_app.
Qed.

Lemma plug_app t p c : plug t (p ++ c) = plug (plug t p) c.
Proof. revert t. induction p as [|[] p IH]; intros t; cbn; auto. Qed.

Definition children (t : tree) : list (Z * Z) :=
  match t with Nil => [] | Node _ _ _ _ l r => inorder l ++ inorder r end.

(** A node with one child at most: its child takes its place. *)
Lemma rem_one_child d a k x y o c :
  balanced (plug (mk d a k x y Nil o) c) ->
  exists t', rem_color o c = Some t' /\ balanced t' /\
             inorder t' = before c ++ inorder o ++ after c.
Proof.
  intros (n & Ht%ranked_one_child & Hc)%ranked_plug.
  destruct (rem_color_repairs o c (n - 1)) as (t' & Hr & Hb & Hi); [done|fits_solve|].
  exists t'. by rewrite <- inorder_plug.
Qed.

Lemma rem_node_repairs t c :
  t <> Nil -> balanced (plug t c) ->
  exists t', rem_node t c = Some t' /\ balanced t' /\
             inorder t' = before c ++ children t ++ after c.
Proof.
  destruct t as [|a k bl br l r]; [done|]. intros _ Hb. cbn [rem_node children].
  destruct l as [|la lk lbl lbr ll lr] eqn:Hl; [by apply (rem_one_child L a k bl br)|].
  destruct r as [|ra rk rbl rbr rl rr] eqn:Hr.
  { rewrite app_nil_r. by apply (rem_one_child R a k br bl). }
  rewrite <- Hl, <- Hr in *. clear Hl.
  destruct (pop_min_spec r []) as (s & ks & sbl & sbr & sr & p & Hp & Hsr & Hbef); [by rewrite Hr|].
  rewrite Hp, app_nil_r. cbn [mbind option_bind].
  assert (plug (Node a k bl br l r) c =
          plug (Node s ks sbl sbr Nil sr) (p ++ Fr R a k br bl l :: c)) as Hplug.
  { by rewrite plug_app, <- Hsr. }
  rewrite Hplug in Hb. apply ranked_plug in Hb as (n & Ht%(ranked_one_child L) & Hc).
  destruct (rem_color_repairs sr (p ++ Fr R s ks br bl l :: c) (n - 1)) as (t' & Ht' & Hbal & Hi).
  { done. }
  { eapply fits_eq; [eapply fits_relabel; eassumption|lia]. }
  exists t'. split_and!; [done|done|]. rewrite Hi, inorder_plug, before_app, after_app, Hbef.
  rewrite Hsr, inorder_plug, Hbef, app_nil_r. cbn. by repeat (rewrite <- app_assoc; cbn).
Qed.

(** ** Keys *)

(** Keys grow strictly from left to right. *)
Definition ordered (t : tree) : Prop := StronglySorted Z.lt (inorder t).*1.

(** The registered descriptors of the tree: key to node. *)
Definition tree_map (t : tree) : gmap Z Z := list_to_map (inorder t).

(** A list split at a key. *)
Definition split_at (k : Z) (l r : list (Z * Z)) : Prop :=
  Forall (fun k' => k' < k) l.*1 /\ Forall (fun k' => k < k') r.*1.

Lemma sorted_split k a l r :
  StronglySorted Z.lt (l ++ (k, a) :: r).*1 <->
  StronglySorted Z.lt (l ++ r).*1 /\ split_at k l r.
Proof.
  unfold split_at. rewrite !fmap_app, fmap_cons. cbn [fst].
  generalize l.*1 r.*1. clear l r. intros l r. induction l as [|k' l IH]; cbn.
  - split; [intros [? ?]%StronglySorted_inv; auto|intros (? & _ & ?); by constructor].
  - split.
    + intros [(H1 & H2 & H3)%IH Hk]%StronglySorted_inv. apply Forall_app in Hk as [Hl [Hk Hr]%Forall_cons].
      split_and!; [constructor; [done|by apply Forall_app]|by constructor|done].
    + intros ([H1 Hk]%StronglySorted_inv & [Hk' H2]%Forall_cons & H3). apply Forall_app in Hk as [Hl Hr].
      constructor; [by apply IH|]. by apply Forall_app; split; [|constructor].
Qed.

Lemma split_at_lookup k l r : split_at k l r -> (list_to_map (l ++ r) : gmap Z Z) !! k = None.
Proof.
  intros [Hl Hr]. apply not_elem_of_list_to_map_1. rewrite fmap_app, elem_of_app, !Forall_forall in *.
  intros [H%Hl|H%Hr]; lia.
Qed.

Lemma list_to_map_split k a l r :
  split_at k l r -> (list_to_map (l ++ (k, a) :: r) : gmap Z Z) = <[k := a]> (list_to_map (l ++ r)).
Proof.
  intros [Hl _]. rewrite !list_to_map_app. cbn. rewrite insert_union_r; [done|].
  apply not_elem_of_list_to_map_1. rewrite Forall_forall in Hl. intros H%Hl. lia.
Qed.

(** Where the search for [k] ends. *)
Lemma descend_spec k t c :
  ordered (plug t c) -> split_at k (before c) (after c) ->
  let (t', c') := descend k t c in
  plug t' c' = plug t c /\
  match t' with
  | Nil => split_at k (before c') (after c')
  | Node a k' bl br l r => k' = k
  end.
Proof.
  revert c. induction t as [|a k' bl br l IHl r IHr]; intros c Ho Hs; cbn [descend]; [done|].
  pose proof Ho as Hs'. unfold ordered in Hs'. rewrite inorder_plug in Hs'. cbn [inorder] in Hs'.
  rewrite <- app_assoc, <- app_comm_cons, app_assoc in Hs'.
  apply sorted_split in Hs' as [_ [Hlt Hgt]]. destruct Hs as [Hs1 Hs2].
  destruct (Z.ltb_spec k k'); [|destruct (Z.ltb_spec k' k)].
  - apply (IHl (Fr L a k' bl br r :: c)); [done|]. split; [done|]. cbn. constructor; [done|].
    eapply Forall_impl; [done|]. cbn. lia.
  - apply (IHr (Fr R a k' br bl l :: c)); [done|]. split; [|done]. cbn.
    rewrite app_assoc, fmap_app. apply Forall_app. split; [|by repeat constructor].
    eapply Forall_impl; [done|]. cbn. lia.
  - split; [done|]. lia.
Qed.

(** A subtree's root in the order of the whole. *)
Lemma ordered_node a k bl br l r c :
  let t := plug (Node a k bl br l r) c in
  ordered t ->
  split_at k (before c ++ inorder l) (inorder r ++ after c) /\
  inorder t = (before c ++ inorder l) ++ (k, a) :: (inorder r ++ after c).
Proof.
  intros t Ho. assert (inorder t = (before c ++ inorder l) ++ (k, a) :: inorder r ++ after c) as Hi.
  { unfold t. rewrite inorder_plug. cbn. by rewrite <- !app_assoc. }
  unfold ordered in Ho. rewrite Hi in Ho. apply sorted_split in Ho as [_ ?]. done.
Qed.

Lemma tree_map_node a k bl br l r c :
  ordered (plug (Node a k bl br l r) c) -> tree_map (plug (Node a k bl br l r) c) !! k = Some a.
Proof.
  intros [Hs Hi]%ordered_node. unfold tree_map. rewrite Hi, list_to_map_split; [|done].
  apply lookup_insert_eq.
Qed.

Lemma tree_map_empty k c :
  split_at k (before c) (after c) -> tree_map (plug Nil c) !! k = None.
Proof. intros H. unfold tree_map. rewrite inorder_plug. by apply split_at_lookup. Qed.

Lemma descend_found k a t :
  ordered t -> tree_map t !! k = Some a ->
  exists bl br l r c, descend k t [] = (Node a k bl br l r, c) /\ t = plug (Node a k bl br l r) c.
Proof.
  intros Ho Hk. pose proof (descend_spec k t [] Ho) as H. destruct (descend k t []) as [t' c].
  destruct H as [Hp H]; [by split; constructor|]. cbn in Hp. subst t.
  destruct t' as [|a' k' bl br l r]; [by rewrite tree_map_empty in Hk|]. subst k'.
  rewrite tree_map_node in Hk by done. injection Hk as ->. by exists bl, br, l, r, c.
Qed.

Lemma descend_missing k t :
  ordered t -> tree_map t !! k = None ->
  exists c, descend k t [] = (Nil, c) /\ t = plug Nil c /\ split_at k (before c) (after c).
Proof.
  intros Ho Hk. pose proof (descend_spec k t [] Ho) as H. destruct (descend k t []) as [t' c].
  destruct H as [Hp H]; [by split; constructor|]. cbn in Hp. subst t.
  destruct t' as [|a' k' bl br l r]; [by exists c|]. subst k'. by rewrite tree_map_node in Hk.
Qed.

Definition search_tree (t : tree) : Prop := balanced t /\ ordered t.

Lemma tree_insert_repairs a k c :
  search_tree (plug Nil c) -> split_at k (before c) (after c) ->
  exists t', ins_fix (Node a k false false Nil Nil) c = Some t' /\ search_tree t' /\
             tree_map t' = <[k := a]> (tree_map (plug Nil c)) /\
             inorder t' = before c ++ (k, a) :: after c.
Proof.
  intros [Hb Ho] Hs. apply ranked_plug in Hb as (n & Hn & Hc). cbn in Hn. subst n.
  destruct (ins_fix_repairs (Node a k false false Nil Nil) c 0) as (t' & Ht' & Hb & Hi);
    [by left|cbn; split_and!; done || lia|done|].
  rewrite inorder_plug in Hi. cbn in Hi. exists t'. split_and!; [done| | |done].
  - split; [done|]. unfold ordered in *. rewrite Hi. rewrite inorder_plug in Ho.
    by apply sorted_split.
  - unfold tree_map. rewrite Hi, inorder_plug. by apply list_to_map_split.
Qed.

Lemma tree_remove_repairs a k bl br l r c :
  search_tree (plug (Node a k bl br l r) c) ->
  exists t', rem_node (Node a k bl br l r) c = Some t' /\ search_tree t' /\
             tree_map t' = delete k (tree_map (plug (Node a k bl br l r) c)) /\
             inorder t' = before c ++ (inorder l ++ inorder r) ++ after c.
Proof.
  intros [Hb Ho]. destruct (rem_node_repairs (Node a k bl br l r) c) as (t' & Ht' & Hb' & Hi); [done..|].
  cbn [children] in Hi. pose proof (ordered_node _ _ _ _ _ _ _ Ho) as [Hs Hin].
  assert (inorder t' = (before c ++ inorder l) ++ inorder r ++ after c) as Hi'.
  { by rewrite Hi, <- !app_assoc. }
  exists t'. split_and!; [done| | |done].
  - split; [done|]. unfold ordered in *. rewrite Hi'. rewrite Hin in Ho. by apply sorted_split in Ho as [? _].
  - unfold tree_map. rewrite Hi', Hin, list_to_map_split, delete_insert_id; [done| |done].
    by apply split_at_lookup.
Qed.

(** ** Height *)

Fixpoint count (t : tree) : Z :=
  match t with Nil => 0 | Node _ _ _ _ l r => count l + 1 + count r end.

Fixpoint height (t : tree) : nat :=
  match t with Nil => 0 | Node _ _ _ _ l r => S (Nat.max (height l) (height r)) end.

Lemma ranked_height t n : ranked t n -> Z.of_nat (height t) <= n.
Proof.
  revert n. induction t as [|a k bl br l IHl r IHr]; intros n; cbn [ranked height]; [lia|].
  intros (?%IHl & ?%IHr & _). destruct bl, br; cbn [Z.b2z] in *; lia.
Qed.

Lemma ranked_size t n : ranked t n -> 2 ^ ((n + 1) / 2) <= count t + 1.
Proof.
  revert n. induction t as [|a k bl br l IHl r IHr]; intros n; cbn [ranked count]; [by intros ->|].
  intros (Hl & Hr & _).
  assert (forall m, 0 <= m -> n - 2 <= m -> 2 ^ ((n + 1) / 2) <= 2 * 2 ^ ((m + 1) / 2)) as Hpow.
  { intros m Hm Hn. rewrite <- Z.pow_succ_r by (apply Z.div_pos; lia).
    apply Z.pow_le_mono_r; [lia|]. unfold Z.succ. rewrite <- Z.div_add by lia.
    apply Z.div_le_mono; lia. }
  pose proof (proj1 (ranked_nonneg _ _ Hl)). pose proof (proj1 (ranked_nonneg _ _ Hr)).
  apply IHl in Hl as Hl'. apply IHr in Hr as Hr'.
  pose proof (Hpow (n - 1 - Z.b2z bl)) as H1. pose proof (Hpow (n - 1 - Z.b2z br)) as H2.
  destruct bl, br; cbn [Z.b2z] in *; lia.
Qed.

Lemma balanced_height t : balanced t -> Z.of_nat (height t) <= 2 * Z.log2 (count t + 1).
Proof.
  intros [n Ht]. pose proof (ranked_height _ _ Ht). pose proof (ranked_size _ _ Ht) as Hs.
  pose proof (proj1 (ranked_nonneg _ _ Ht)).
  apply Z.log2_le_pow2 in Hs; [|pose proof (Z.pow_pos_nonneg 2 ((n + 1) / 2) ltac:(lia) ltac:(apply Z.div_pos; lia)); lia].
  pose proof (Z.div_mod (n + 1) 2 ltac:(lia)). pose proof (Z.mod_pos_bound (n + 1) 2). lia.
Qed.

Lemma height_plug t c : (height t + length c <= height (plug t c))%nat.
Proof.
  revert t. induction c as [|[d a k x y o] c IH]; intros t; cbn [plug length]; [lia|].
  specialize (IH (mk d a k x y t o)).
  assert (height t < height (mk d a k x y t o))%nat by (destruct d; cbn; lia). lia.
Qed.

(** ** Neighbours *)

(** The nodes of a tree, and those beyond the subtree of a context, going away from side [d]:
    in order for [L], in reverse for [R]. *)
Definition sided (d : dir) (t : tree) : list (Z * Z) :=
  match d with L => inorder t | R => rev (inorder t) end.

Definition beyond (d : dir) (c : ctx) : list (Z * Z) :=
  match d with L => after c | R => rev (before c) end.

Definition first_addr (l : list (Z * Z)) : Z := match l with [] => 0 | (_, a) :: _ => a end.

(** The outermost node of a tree on a side. *)
Fixpoint outermost (d : dir) (t : tree) : Z :=
  match t with
  | Nil => 0
  | Node a _ _ _ l r =>
      let s := match d with L => l | R => r end in
      match s with Nil => a | _ => outermost d s end
  end.

(** The nearest node above whose subtree on side [d] is the one at hand. *)
Fixpoint climb (d : dir) (c : ctx) : Z :=
  match c with
  | [] => 0
  | Fr d' a _ _ _ _ :: c =>
      match d, d' with L, L | R, R => a | _, _ => climb d c end
  end.

Lemma sided_mk d a k x y s o :
  sided d (mk d a k x y s o) = sided d s ++ (k, a) :: sided d o.
Proof. destruct d; cbn; [done|]. rewrite rev_app_distr. cbn. by rewrite <- app_assoc. Qed.

Lemma sided_nil d t : sided d t = [] <-> t = Nil.
Proof.
  split; [|intros ->; by destruct d]. pose proof (view_spec d t) as H.
  destruct (view d t) as [[[[[[? ?] ?] ?] ?] ?]|]; [subst t|done].
  rewrite sided_mk. intros H%eq_sym. by apply app_cons_not_nil in H.
Qed.

Lemma first_addr_app l l' : l <> [] -> first_addr (l ++ l') = first_addr l.
Proof. by destruct l. Qed.

Lemma outermost_mk d a k x y s o :
  outermost d (mk d a k x y s o) = match s with Nil => a | _ => outermost d s end.
Proof. by destruct d. Qed.

Lemma outermost_first d t : outermost d t = first_addr (sided d t).
Proof.
  induction t as [|a k bl br l IHl r IHr]; [by destruct d|].
  assert (exists x y s o, Node a k bl br l r = mk d a k x y s o /\ outermost d s = first_addr (sided d s))
    as (x & y & s & o & -> & IH).
  { destruct d; [by exists bl, br, l, r|by exists br, bl, r, l]. }
  rewrite outermost_mk, sided_mk. destruct s as [|sa sk sbl sbr sl sr] eqn:Hs; [by destruct d|].
  rewrite IH, first_addr_app; [done|]. by intros ?%sided_nil.
Qed.

Lemma climb_first d c : climb d c = first_addr (beyond d c).
Proof.
  induction c as [|[d' a k x y o] c IH]; [by destruct d|].
  destruct d, d'; cbn in *; [done|done|done|].
  by rewrite !rev_app_distr.
Qed.

(** [RB_NEXT] (at [L]) and [RB_PREV] (at [R]) of the node at the root of [t] below [c] *)
Definition tree_step (d : dir) (t : tree) (c : ctx) : Z :=
  match view d t with
  | None => 0
  | Some (_, _, _, _, _, o) => match o with Nil => climb d c | _ => outermost d o end
  end.

Lemma tree_step_first d a k x y s o c :
  tree_step d (mk d a k x y s o) c = first_addr (sided d o ++ beyond d c).
Proof.
  unfold tree_step. replace (view d (mk d a k x y s o)) with (Some (a, k, x, y, s, o)) by by destruct d.
  destruct o as [|oa ok obl obr ol or] eqn:Ho; [rewrite climb_first; by destruct d|].
  rewrite outermost_first, first_addr_app; [done|]. by intros ?%sided_nil.
Qed.
