(* ===== verification/RbTree.v ===== *)
(** * Rank-balanced trees (src/external/tree-macros/include/sys/tree.h)

    The functions RB_GENERATE makes for [struct registered_fds_node_] (src/src/epollfd_ctx.c),
    on a memory of words.  The macros come in mirrored pairs and the functions in mirrored
    branches; a [dir] names the side, and the code for LEFT is the code at [L].

    A macro argument is evaluated once here; the source evaluates it at every use, without a
    change of its value in between.  [RB_AUGMENT] is [break]: the loops and statements that end
    in it do nothing more.  The loops take the number of rounds granted. *)

From S2P Require Export Memory RbRank.

(** ** The structure

    Distances of the fields from the address of a node, on a 64-bit system: [entry] is the
    first member of [struct registered_fds_node_], [fd] comes after the list entry. *)

(** [&RB_LEFT(elm, field)] and [&RB_RIGHT(elm, field)] *)
Definition rb_child (d : dir) (elm : ptr) : ptr := match d with L => elm | R => elm + 8 end.

(** [&RB_UP(elm, field)] *)
Definition rb_up (elm : ptr) : ptr := elm + 16.

(** [&elm->fd] *)
Definition node_fd (elm : ptr) : ptr := elm + 40.

Definition RB_RED (d : dir) : Z := match d with L => 1 | R => 2 end.
Definition RB_RED_MASK : Z := 3.

Definition RB_INIT (head : ptr) : M mem unit := store head NULL.

Definition RB_FLIP (d : dir) (elm : ptr) : M mem unit :=
  let* bits := load (rb_up elm) in
  store (rb_up elm) (Z.lxor bits (RB_RED d)).

(** [RB_RED_LEFT] and [RB_RED_RIGHT] *)
Definition RB_IS_RED (d : dir) (elm : ptr) : M mem bool :=
  let* bits := load (rb_up elm) in
  ret (has bits (RB_RED d)).

Definition RB_PARENT (elm : ptr) : M mem ptr :=
  let* bits := load (rb_up elm) in
  ret (Z.land bits (Z.lnot RB_RED_MASK)).

Definition RB_SET_PARENT (dst src : ptr) : M mem unit :=
  let* bits := load (rb_up dst) in
  store (rb_up dst) (Z.land bits RB_RED_MASK) ;;
  let* bits := load (rb_up dst) in
  store (rb_up dst) (Z.lor bits src).

(** [RB_BITS(elm, field) &= ~RB_RED_MASK] and [|= RB_RED_MASK] *)
Definition rb_clear_bits (elm : ptr) : M mem unit :=
  let* bits := load (rb_up elm) in
  store (rb_up elm) (Z.land bits (Z.lnot RB_RED_MASK)).

Definition rb_set_bits (elm : ptr) : M mem unit :=
  let* bits := load (rb_up elm) in
  store (rb_up elm) (Z.lor bits RB_RED_MASK).

(** [(~RB_BITS(elm, field) & RB_RED_MASK) == 0] *)
Definition rb_both_red (elm : ptr) : M mem bool :=
  let* bits := load (rb_up elm) in
  ret (Z.land (Z.lnot bits) RB_RED_MASK =? 0).

Definition RB_SET (elm parent : ptr) : M mem unit :=
  store (rb_up elm) parent ;;
  store (rb_child R elm) NULL ;;
  store (rb_child L elm) NULL.

Definition RB_SWAP_CHILD (head out new : ptr) : M mem unit :=
  let* parent := RB_PARENT out in
  if parent =? NULL then store head new
  else
    let* l := load (rb_child L parent) in
    if out =? l then store (rb_child L parent) new else store (rb_child R parent) new.

(** [RB_ROTATE_LEFT] and [RB_ROTATE_RIGHT]; the result is what they leave in [tmp]. *)
Definition RB_ROTATE (d : dir) (head elm : ptr) : M mem ptr :=
  let* tmp := load (rb_child (opp d) elm) in
  let* inner := load (rb_child d tmp) in
  store (rb_child (opp d) elm) inner ;;
  when (negb (inner =? NULL)) (RB_SET_PARENT inner elm) ;;
  let* parent := RB_PARENT elm in
  RB_SET_PARENT tmp parent ;;
  RB_SWAP_CHILD head elm tmp ;;
  store (rb_child d tmp) elm ;;
  RB_SET_PARENT elm tmp ;;
  ret tmp.

(** The side of [parent] on which the code takes [elm] to be. *)
Definition rb_side (parent elm : ptr) : M mem dir :=
  let* l := load (rb_child L parent) in
  ret (if l =? elm then L else R).

(** The branches [if (!RB_RED_RIGHT(elm, field))] of [RB_INSERT_COLOR]. *)
Definition insert_rotate_child (d : dir) (head parent elm : ptr) : M mem unit :=
  RB_FLIP d elm ;;
  let* child := RB_ROTATE d head elm in
  let* red := RB_IS_RED d child in
  if red then RB_FLIP (opp d) elm
  else
    let* red := RB_IS_RED (opp d) child in
    when red (RB_FLIP d parent).

Fixpoint RB_INSERT_COLOR (fuel : nat) (head elm : ptr) : M mem unit :=
  match fuel with
  | O => stop_with OutOfFuel
  | S fuel =>
      let* parent := RB_PARENT elm in
      if parent =? NULL then ret tt
      else
        let* d := rb_side parent elm in
        let* red := RB_IS_RED d parent in
        if red then RB_FLIP d parent
        else
          RB_FLIP (opp d) parent ;;
          let* red := RB_IS_RED (opp d) parent in
          if red then RB_INSERT_COLOR fuel head parent
          else
            let* red := RB_IS_RED (opp d) elm in
            when (negb red) (insert_rotate_child d head parent elm) ;;
            let* elm := RB_ROTATE (opp d) head parent in
            rb_clear_bits elm
  end.

(** The branches [else if (!RB_RED_RIGHT(sib, field))] of [RB_REMOVE_COLOR]. *)
Definition remove_rotate_sib (d : dir) (head parent sib : ptr) : M mem unit :=
  RB_FLIP d parent ;;
  let* elm := RB_ROTATE (opp d) head sib in
  let* red := RB_IS_RED (opp d) elm in
  when red (RB_FLIP d sib) ;;
  let* red := RB_IS_RED d elm in
  when red (RB_FLIP (opp d) parent) ;;
  rb_set_bits elm.

(** The end of a round that rotates, from [RB_FLIP_RIGHT(sib, field)] on. *)
Definition remove_rotate (d : dir) (head parent sib : ptr) : M mem unit :=
  RB_FLIP (opp d) sib ;;
  let* red := RB_IS_RED d sib in
  (if red then RB_FLIP d parent
   else
     let* red := RB_IS_RED (opp d) sib in
     when (negb red) (remove_rotate_sib d head parent sib)) ;;
  let* _ := RB_ROTATE d head parent in
  ret tt.

(** The [do] loop of [RB_REMOVE_COLOR]. *)
Fixpoint remove_color_loop (fuel : nat) (head parent elm : ptr) : M mem unit :=
  match fuel with
  | O => stop_with OutOfFuel
  | S fuel =>
      let continue elm :=
        let* parent := RB_PARENT elm in
        if parent =? NULL then ret tt else remove_color_loop fuel head parent elm in
      let* d := rb_side parent elm in
      let* red := RB_IS_RED d parent in
      if negb red then RB_FLIP d parent
      else
        let* red := RB_IS_RED (opp d) parent in
        if red then RB_FLIP (opp d) parent ;; continue parent
        else
          let* sib := load (rb_child (opp d) parent) in
          let* both := rb_both_red sib in
          if both then rb_clear_bits sib ;; continue parent
          else remove_rotate d head parent sib
  end.

Definition RB_REMOVE_COLOR (fuel : nat) (head parent elm : ptr) : M mem unit :=
  let* l := load (rb_child L parent) in
  let* r := load (rb_child R parent) in
  if (l =? elm) && (r =? elm) then
    rb_clear_bits parent ;;
    let elm := parent in
    let* parent := RB_PARENT elm in
    if parent =? NULL then ret tt else remove_color_loop fuel head parent elm
  else remove_color_loop fuel head parent elm.

(** [do elm = child; while ((child = RB_LEFT(elm, field)) != NULL);] at [L]; the same loop ends
    [RB_NEXT] (at [L]), [RB_PREV] (at [R]) and [RB_MINMAX]. *)
Fixpoint rb_outermost (fuel : nat) (d : dir) (elm : ptr) : M mem ptr :=
  match fuel with
  | O => stop_with OutOfFuel
  | S fuel =>
      let* child := load (rb_child d elm) in
      if child =? NULL then ret elm else rb_outermost fuel d child
  end.

(** The node that takes the place of [old], the child that moves up in its stead and the
    parent of that child: the three branches at the start of [RB_REMOVE]. *)
Definition remove_splice (fuel : nat) (old : ptr) : M mem (ptr * ptr * ptr) :=
  let* parent := RB_PARENT old in
  let* r := load (rb_child R old) in
  let* l := load (rb_child L old) in
  if l =? NULL then ret (r, r, parent)
  else if r =? NULL then ret (l, l, parent)
  else
    let* child := load (rb_child L r) in
    let* (elm, child, parent) :=
      (if child =? NULL then
         let* child := load (rb_child R r) in
         store (rb_child R old) child ;;
         ret (r, child, r)
       else
         let* elm := rb_outermost fuel L child in
         let* child := load (rb_child R elm) in
         let* parent := RB_PARENT elm in
         store (rb_child L parent) child ;;
         let* old_right := load (rb_child R old) in
         RB_SET_PARENT old_right elm ;;
         ret (elm, child, parent)) in
    let* old_left := load (rb_child L old) in
    RB_SET_PARENT old_left elm ;;
    (* elm->field = old->field *)
    let* l := load (rb_child L old) in
    store (rb_child L elm) l ;;
    let* r := load (rb_child R old) in
    store (rb_child R elm) r ;;
    let* bits := load (rb_up old) in
    store (rb_up elm) bits ;;
    ret (elm, child, parent).

Definition RB_REMOVE (fuel : nat) (head elm : ptr) : M mem ptr :=
  let old := elm in
  let* (elm, child, parent) := remove_splice fuel old in
  RB_SWAP_CHILD head old elm ;;
  when (negb (child =? NULL)) (RB_SET_PARENT child parent) ;;
  when (negb (parent =? NULL)) (RB_REMOVE_COLOR fuel head parent child) ;;
  ret old.

(** [fd_cmp] of src/src/epollfd_ctx.c *)
Definition fd_cmp (e1 e2 : ptr) : M mem Z :=
  let* fd1 := load (node_fd e1) in
  let* fd2 := load (node_fd e2) in
  ret (if fd1 <? fd2 then -1 else if fd2 <? fd1 then 1 else 0).

(** The loop of [RB_INSERT]: the node with the key of [elm], or the last [parent] with the last
    [comp]. *)
Fixpoint insert_descend (fuel : nat) (elm tmp parent : ptr) (comp : Z) : M mem (ptr + ptr * Z) :=
  if tmp =? NULL then ret (inr (parent, comp))
  else
    match fuel with
    | O => stop_with OutOfFuel
    | S fuel =>
        let parent := tmp in
        let* comp := fd_cmp elm parent in
        if comp <? 0 then
          let* tmp := load (rb_child L tmp) in insert_descend fuel elm tmp parent comp
        else if 0 <? comp then
          let* tmp := load (rb_child R tmp) in insert_descend fuel elm tmp parent comp
        else ret (inl tmp)
    end.

Definition RB_INSERT (fuel : nat) (head elm : ptr) : M mem ptr :=
  let* tmp := load head in
  let* r := insert_descend fuel elm tmp NULL 0 in
  match r with
  | inl found => ret found
  | inr (parent, comp) =>
      RB_SET elm parent ;;
      (if parent =? NULL then store head elm
       else if comp <? 0 then store (rb_child L parent) elm
       else store (rb_child R parent) elm) ;;
      RB_INSERT_COLOR fuel head elm ;;
      ret NULL
  end.

(** The loop of [RB_FIND] *)
Fixpoint find_descend (fuel : nat) (elm tmp : ptr) : M mem ptr :=
  if tmp =? NULL then ret NULL
  else
    match fuel with
    | O => stop_with OutOfFuel
    | S fuel =>
        let* comp := fd_cmp elm tmp in
        if comp <? 0 then let* tmp := load (rb_child L tmp) in find_descend fuel elm tmp
        else if 0 <? comp then let* tmp := load (rb_child R tmp) in find_descend fuel elm tmp
        else ret tmp
    end.

Definition RB_FIND (fuel : nat) (head elm : ptr) : M mem ptr :=
  let* tmp := load head in find_descend fuel elm tmp.

(** The loop of [RB_NFIND] *)
Fixpoint nfind_descend (fuel : nat) (elm tmp res : ptr) : M mem ptr :=
  if tmp =? NULL then ret res
  else
    match fuel with
    | O => stop_with OutOfFuel
    | S fuel =>
        let* comp := fd_cmp elm tmp in
        if comp <? 0 then let* tmp' := load (rb_child L tmp) in nfind_descend fuel elm tmp' tmp
        else if 0 <? comp then let* tmp := load (rb_child R tmp) in nfind_descend fuel elm tmp res
        else ret tmp
    end.

Definition RB_NFIND (fuel : nat) (head elm : ptr) : M mem ptr :=
  let* tmp := load head in nfind_descend fuel elm tmp NULL.

(** [RB_MIN] (at [L]) and [RB_MAX] (at [R]): [RB_MINMAX] goes left when [val] is negative. *)
Definition RB_MINMAX (fuel : nat) (head : ptr) (val : Z) : M mem ptr :=
  let* tmp := load head in
  if tmp =? NULL then ret NULL else rb_outermost fuel (if val <? 0 then L else R) tmp.

(** The last loop of [RB_NEXT] (at [L]) and [RB_PREV] (at [R]): up to the parent of the first
    node on the way that is not its parent's child on the other side. *)
Fixpoint rb_climb (fuel : nat) (d : dir) (elm : ptr) : M mem ptr :=
  match fuel with
  | O => stop_with OutOfFuel
  | S fuel =>
      let* parent := RB_PARENT elm in
      if parent =? NULL then ret NULL
      else
        let* child := load (rb_child (opp d) parent) in
        if elm =? child then rb_climb fuel d parent else ret parent
  end.

(** [RB_NEXT] is the step at [L], [RB_PREV] the one at [R]. *)
Definition rb_step (d : dir) (fuel : nat) (elm : ptr) : M mem ptr :=
  let* child := load (rb_child (opp d) elm) in
  if negb (child =? NULL) then rb_outermost fuel d child
  else
    let* parent := RB_PARENT elm in
    if parent =? NULL then rb_climb fuel d elm
    else
      let* child := load (rb_child d parent) in
      if elm =? child then ret parent else rb_climb fuel d elm.

Definition RB_NEXT : nat -> ptr -> M mem ptr := rb_step L.
Definition RB_PREV : nat -> ptr -> M mem ptr := rb_step R.

Definition RB_REINSERT (fuel : nat) (head elm : ptr) : M mem ptr :=
  let* prev := RB_PREV fuel elm in
  let* before := (if prev =? NULL then ret false else let* c := fd_cmp prev elm in ret (0 <=? c)) in
  let* misplaced :=
    (if before then ret true
     else
       let* next := RB_NEXT fuel elm in
       if next =? NULL then ret false else let* c := fd_cmp elm next in ret (0 <=? c)) in
  if misplaced then let* _ := RB_REMOVE fuel head elm in RB_INSERT fuel head elm else ret NULL.

(** [RB_FOREACH (x, name, head)] with a body that notes [x] down. *)
Fixpoint rb_visit (rounds fuel : nat) (x : ptr) : M mem (list ptr) :=
  if x =? NULL then ret []
  else
    match rounds with
    | O => stop_with OutOfFuel
    | S rounds =>
        let* y := RB_NEXT fuel x in
        let* xs := rb_visit rounds fuel y in
        ret (x :: xs)
    end.

Definition RB_FOREACH (rounds fuel : nat) (head : ptr) : M mem (list ptr) :=
  let* x := RB_MINMAX fuel head (-1) in
  rb_visit rounds fuel x.

(** [RB_FOREACH_SAFE (x, name, head, y) body]: [y] is fetched before the body runs.  At most
    [rounds] nodes are visited. *)
Fixpoint rb_foreach_from (rounds fuel : nat) (x : ptr) (body : ptr -> M mem unit) : M mem unit :=
  if x =? NULL then ret tt
  else
    match rounds with
    | O => stop_with OutOfFuel
    | S rounds =>
        let* y := RB_NEXT fuel x in
        body x ;;
        rb_foreach_from rounds fuel y body
    end.

Definition RB_FOREACH_SAFE (rounds fuel : nat) (head : ptr) (body : ptr -> M mem unit) : M mem unit :=
  let* x := RB_MINMAX fuel head (-1) in
  rb_foreach_from rounds fuel x body.
