(* ===== verification/RbHeap.v ===== *)
(** * The trees of [RbTree] on memory

    What the macros do to memory, in separation logic: [tree_at head t] owns the words of a tree
    of [RbRank] and of its head.  Each macro has a rule on whole nodes ([node]); the loops are
    then followed with the current subtree and its context.  [RbMap] draws the conclusions. *)

From S2P Require Export RbTree.

(** ** Colour bits *)

(** The word of a node below [up] with the colours [x] on side [d] and [y] on the other. *)
Definition up_word (d : dir) (up : ptr) (x y : bool) : Z :=
  Z.lor up (Z.lor (if x then RB_RED d else 0) (if y then RB_RED (opp d) else 0)).

(** Addresses of nodes are multiples of 4. *)
Definition aligned (a : ptr) : Prop := a mod 4 = 0.
Definition node_ptr (a : ptr) : Prop := a <> NULL /\ aligned a.

Lemma small_bits c i : 0 <= c < 4 -> 2 <= i -> Z.testbit c i = false.
Proof.
  intros Hc Hi. destruct (Z.eq_dec c 0) as [->|]; [apply Z.bits_0|].
  apply Z.bits_above_log2; [lia|]. assert (Z.log2 c < 2) by (apply Z.log2_lt_pow2; lia). lia.
Qed.

Lemma aligned_bits a i : aligned a -> 0 <= i < 2 -> Z.testbit a i = false.
Proof.
  intros Ha Hi. rw -(Z.mod_pow2_bits_low a 2); [|lia]. change (2 ^ 2) with 4.
  rw Ha. apply Z.bits_0.
Qed.

Lemma opp_opp d : opp (opp d) = d.
Proof. by destruct d. Qed.

Lemma up_word_opp d up x y : up_word (opp d) up y x = up_word d up x y.
Proof. unfold up_word. rw opp_opp. f_equal. apply Z.lor_comm. Qed.

(** Equality of words, bit by bit: the two colour bits are computed, the others are the
    parent's. *)
Ltac by_bits :=
  intros; apply Z.bits_inj'; intros i Hi; unfold up_word;
  rw ?Z.lxor_spec ?Z.lor_spec ?Z.land_spec ?Z.lnot_spec ?Z.lor_spec //;
  destruct (Z_lt_le_dec i 2) as [Hlt|Hge];
  [ repeat match goal with
    | Ha : aligned ?a |- context [Z.testbit ?a i] => rw (aligned_bits a i Ha) //
    end;
    assert (i = 0 \/ i = 1) as [-> | ->] by lia
  | ];
  repeat match goal with b : bool |- _ => destruct b | d : dir |- _ => destruct d end;
  cbn [opp RB_RED negb]; unfold RB_RED_MASK;
  first [ reflexivity
        | rw ?Z.bits_0 ?(small_bits 1 i) ?(small_bits 2 i) ?(small_bits 3 i) //;
          by rw ?orb_false_r ?xorb_false_r ?andb_true_r ?andb_false_r ].

Lemma up_word_flip d up x y : aligned up -> Z.lxor (up_word d up x y) (RB_RED d) = up_word d up (negb x) y.
Proof. by_bits. Qed.
Lemma up_word_set d up x y : aligned up -> Z.lor (up_word d up x y) RB_RED_MASK = up_word d up true true.
Proof. by_bits. Qed.
Lemma up_word_clear d up x y :
  aligned up -> Z.land (up_word d up x y) (Z.lnot RB_RED_MASK) = up_word d up false false.
Proof. by_bits. Qed.
Lemma up_word_parent d up x y : aligned up -> Z.land (up_word d up x y) (Z.lnot RB_RED_MASK) = up.
Proof. by_bits. Qed.
Lemma up_word_bits d up x y p :
  aligned up -> aligned p -> Z.lor (Z.land (up_word d up x y) RB_RED_MASK) p = up_word d p x y.
Proof. by_bits. Qed.
Lemma up_word_red d up x y : aligned up -> has (up_word d up x y) (RB_RED d) = x.
Proof.
  intros Ha. unfold has.
  assert (Z.land (up_word d up x y) (RB_RED d) = if x then RB_RED d else 0) as -> by by_bits.
  by destruct x, d.
Qed.
Lemma up_word_both d up x y :
  aligned up -> (Z.land (Z.lnot (up_word d up x y)) RB_RED_MASK =? 0) = x && y.
Proof.
  intros Ha.
  assert (Z.land (Z.lnot (up_word d up x y)) RB_RED_MASK =
          Z.lor (if x then 0 else RB_RED d) (if y then 0 else RB_RED (opp d))) as -> by by_bits.
  by destruct x, y, d.
Qed.

Lemma up_word_plain d up : up_word d up false false = up.
Proof. unfold up_word. by rw !Z.lor_0_r. Qed.

Section Heap.
Context `{!memG Σ}.

(** ** Nodes, trees and contexts in memory *)

Definition node (d : dir) (a k up : Z) (x y : bool) (s o : ptr) : iProp Σ :=
  rb_child d a ↦ s ∗ rb_child (opp d) a ↦ o ∗ rb_up a ↦ up_word d up x y ∗ node_fd a ↦ k ∗
  ⌜node_ptr a /\ aligned up⌝.

Lemma node_opp d a k up x y s o : node d a k up x y s o ⊣⊢ node (opp d) a k up y x o s.
Proof.
  unfold node. rw opp_opp -(up_word_opp d).
  by iSplit; iIntros "($ & $ & $ & $ & $)".
Qed.

Lemma node_flip d a k up x y s o : node d a k up x y s o ⊢ node (opp d) a k up y x o s.
Proof. by rw node_opp. Qed.
Lemma node_unflip d a k up x y s o : node (opp d) a k up y x o s ⊢ node d a k up x y s o.
Proof. by rw -node_opp. Qed.

Definition root (t : tree) : ptr := match t with Nil => NULL | Node a _ _ _ _ _ => a end.

Fixpoint tree_below (up : ptr) (t : tree) : iProp Σ :=
  match t with
  | Nil => emp
  | Node a k bl br l r =>
      node L a k up bl br (root l) (root r) ∗ tree_below a l ∗ tree_below a r
  end.

Definition up_of (c : ctx) : ptr := match c with [] => NULL | Fr _ a _ _ _ _ :: _ => a end.

(** The nodes of a context whose empty place holds the pointer [x]. *)
Fixpoint context_at (head : ptr) (c : ctx) (x : ptr) : iProp Σ :=
  match c with
  | [] => head ↦ x
  | Fr d a k bx bo o :: c =>
      node d a k (up_of c) bx bo x (root o) ∗ tree_below a o ∗ context_at head c a
  end.

Definition tree_at (head : ptr) (t : tree) : iProp Σ := head ↦ root t ∗ tree_below NULL t.

Lemma tree_below_mk d up a k x y s o :
  tree_below up (mk d a k x y s o) ⊣⊢
  node d a k up x y (root s) (root o) ∗ tree_below a s ∗ tree_below a o.
Proof.
  destruct d; cbn; [done|]. rw node_opp. iSplit; iIntros "($ & $ & $)".
Qed.

Lemma root_mk d a k x y s o : root (mk d a k x y s o) = a.
Proof. by destruct d. Qed.

Lemma tree_at_plug head t c :
  tree_at head (plug t c) ⊣⊢ tree_below (up_of c) t ∗ context_at head c (root t).
Proof.
  revert t. induction c as [|[d a k x y o] c IH]; intros t; cbn.
  - unfold tree_at. iSplit; iIntros "[$ $]".
  - rw IH tree_below_mk root_mk.
    iSplit; [iIntros "(($ & $ & $) & $)"|iIntros "($ & $ & $ & $)"].
Qed.

Lemma node_facts d a k up x y s o : node d a k up x y s o ⊢ ⌜node_ptr a /\ aligned up⌝.
Proof. iIntros "(_ & _ & _ & _ & $)". Qed.

Lemma context_aligned head c x : context_at head c x ⊢ ⌜aligned (up_of c)⌝.
Proof.
  destruct c as [|[d a k bx bo o] c]; cbn; [by iIntros "_"|]. iIntros "(H & _)".
  by iDestruct (node_facts with "H") as %[[]].
Qed.

Lemma node_ne d d' a a' k k' up up' x y x' y' s o s' o' :
  node d a k up x y s o -∗ node d' a' k' up' x' y' s' o' -∗ ⌜a <> a'⌝.
Proof.
  iIntros "(_ & _ & H & _) (_ & _ & H' & _)". iDestruct (word_at_ne with "H H'") as %Hne.
  iPureIntro. congruence.
Qed.

(** A node is not the root of a tree beside it. *)
Lemma node_not_root d a k up x y s o up' t :
  node d a k up x y s o -∗ tree_below up' t -∗ ⌜a <> root t⌝.
Proof.
  iIntros "H Ht". iDestruct (node_facts with "H") as %[[??] _].
  destruct t as [|a' k' bl br l r]; cbn; [done|]. iDestruct "Ht" as "[H' _]".
  by iApply (node_ne with "H H'").
Qed.

Lemma root_null up t : tree_below up t ⊢ ⌜(root t =? NULL) = match t with Nil => true | _ => false end⌝.
Proof.
  destruct t as [|a k bl br l r]; cbn [root tree_below]; [by iIntros "_"|]. iIntros "[H _]".
  iDestruct (node_facts with "H") as %[[? _] _]. iPureIntro. by apply Z.eqb_neq.
Qed.

Lemma root_not_null up t : t <> Nil -> tree_below up t ⊢ ⌜(root t =? NULL) = false⌝.
Proof. rw root_null. by destruct t. Qed.

(** ** The macros on whole nodes *)

(** A call in the middle of a body, by a rule that takes and returns the resources [H]. *)
Tactic Notation "call" constr(rule) "on" constr(H) :=
  iApply wpm_bind; iApply (rule with H); iIntros H.

Implicit Types Q : Z -> iProp Σ.

Ltac start := iIntros "(Hs & Ho & Hu & Hk & %Ha) HQ".

Lemma wpm_child d a k up x y s o Q :
  node d a k up x y s o -∗ (node d a k up x y s o -∗ Q s) -∗ wpm (load (rb_child d a)) Q.
Proof. start. iApply (wpm_load with "Hs"). iIntros "Hs". iApply "HQ". by iFrame. Qed.

Lemma wpm_set_child d a k up x y s o w (Q : unit -> iProp Σ) :
  node d a k up x y s o -∗ (node d a k up x y w o -∗ Q tt) -∗ wpm (store (rb_child d a) w) Q.
Proof. start. iApply (wpm_store with "Hs"). iIntros "Hs". iApply "HQ". by iFrame. Qed.

Lemma wpm_child_opp d a k up x y s o Q :
  node d a k up x y s o -∗ (node d a k up x y s o -∗ Q o) -∗ wpm (load (rb_child (opp d) a)) Q.
Proof. rw node_opp. apply wpm_child. Qed.

Lemma wpm_set_child_opp d a k up x y s o w (Q : unit -> iProp Σ) :
  node d a k up x y s o -∗ (node d a k up x y s w -∗ Q tt) -∗ wpm (store (rb_child (opp d) a) w) Q.
Proof. rw !(node_opp d). apply wpm_set_child. Qed.

Lemma wpm_flip d a k up x y s o (Q : unit -> iProp Σ) :
  node d a k up x y s o -∗ (node d a k up (negb x) y s o -∗ Q tt) -∗ wpm (RB_FLIP d a) Q.
Proof.
  start. unfold RB_FLIP. wpm_step. iApply (wpm_store with "Hu"). iIntros "Hu".
  rw up_word_flip; [|tauto]. iApply "HQ". by iFrame.
Qed.

Lemma wpm_flip_opp d a k up x y s o (Q : unit -> iProp Σ) :
  node d a k up x y s o -∗ (node d a k up x (negb y) s o -∗ Q tt) -∗ wpm (RB_FLIP (opp d) a) Q.
Proof. rw !(node_opp d). apply wpm_flip. Qed.

(** A flip that depends on another colour, of a side that is not red. *)
Lemma wpm_flip_when (b : bool) d a k up y s o (Q : unit -> iProp Σ) :
  node d a k up false y s o -∗ (node d a k up b y s o -∗ Q tt) -∗ wpm (when b (RB_FLIP d a)) Q.
Proof. iIntros "H HQ". destruct b; [iApply (wpm_flip with "H HQ")|iApply wpm_ret; by iApply "HQ"]. Qed.

Lemma wpm_flip_opp_when (b : bool) d a k up x s o (Q : unit -> iProp Σ) :
  node d a k up x false s o -∗ (node d a k up x b s o -∗ Q tt) -∗
  wpm (when b (RB_FLIP (opp d) a)) Q.
Proof. rw !(node_opp d). apply wpm_flip_when. Qed.

Lemma wpm_red d a k up x y s o (Q : bool -> iProp Σ) :
  node d a k up x y s o -∗ (node d a k up x y s o -∗ Q x) -∗ wpm (RB_IS_RED d a) Q.
Proof.
  start. unfold RB_IS_RED. wpm_step. wpm_step.
  rw up_word_red; [|tauto]. iApply "HQ". by iFrame.
Qed.

Lemma wpm_red_opp d a k up x y s o (Q : bool -> iProp Σ) :
  node d a k up x y s o -∗ (node d a k up x y s o -∗ Q y) -∗ wpm (RB_IS_RED (opp d) a) Q.
Proof. rw !(node_opp d). apply wpm_red. Qed.

Lemma wpm_parent d a k up x y s o Q :
  node d a k up x y s o -∗ (node d a k up x y s o -∗ Q up) -∗ wpm (RB_PARENT a) Q.
Proof.
  start. unfold RB_PARENT. wpm_step. wpm_step.
  rw up_word_parent; [|tauto]. iApply "HQ". by iFrame.
Qed.

Lemma wpm_set_parent d a k up x y s o p (Q : unit -> iProp Σ) :
  aligned p ->
  node d a k up x y s o -∗ (node d a k p x y s o -∗ Q tt) -∗ wpm (RB_SET_PARENT a p) Q.
Proof.
  iIntros (Hp). start. unfold RB_SET_PARENT. wpm_step. wpm_step. wpm_step.
  iApply (wpm_store with "Hu"). iIntros "Hu".
  rw up_word_bits; [|tauto|done]. iApply "HQ". iFrame. iPureIntro. tauto.
Qed.

Lemma wpm_clear d a k up x y s o (Q : unit -> iProp Σ) :
  node d a k up x y s o -∗ (node d a k up false false s o -∗ Q tt) -∗ wpm (rb_clear_bits a) Q.
Proof.
  start. unfold rb_clear_bits. wpm_step. iApply (wpm_store with "Hu"). iIntros "Hu".
  rw up_word_clear; [|tauto]. iApply "HQ". by iFrame.
Qed.

Lemma wpm_set_bits d a k up x y s o (Q : unit -> iProp Σ) :
  node d a k up x y s o -∗ (node d a k up true true s o -∗ Q tt) -∗ wpm (rb_set_bits a) Q.
Proof.
  start. unfold rb_set_bits. wpm_step. iApply (wpm_store with "Hu"). iIntros "Hu".
  rw up_word_set; [|tauto]. iApply "HQ". by iFrame.
Qed.

Lemma wpm_both_red d a k up x y s o (Q : bool -> iProp Σ) :
  node d a k up x y s o -∗ (node d a k up x y s o -∗ Q (x && y)) -∗ wpm (rb_both_red a) Q.
Proof.
  start. unfold rb_both_red. wpm_step. wpm_step.
  rw up_word_both; [|tauto]. iApply "HQ". by iFrame.
Qed.

(** The side on which a pointer [s] hangs below a node is recognised, if the other side has
    another pointer. *)
Lemma wpm_side d a k up x y s o (Q : dir -> iProp Σ) :
  s <> o -> node d a k up x y s o -∗ (node d a k up x y s o -∗ Q d) -∗ wpm (rb_side a s) Q.
Proof.
  iIntros (Hne) "H HQ". unfold rb_side. iApply wpm_bind. destruct d.
  - iApply (wpm_child with "H"). iIntros "H". wpm_step. rw Z.eqb_refl. by iApply "HQ".
  - iApply (wpm_child_opp R with "H"). iIntros "H". wpm_step.
    rw (proj2 (Z.eqb_neq o s)) //. by iApply "HQ".
Qed.

(** A subtree gets another parent. *)
Lemma wpm_move up p t (Q : unit -> iProp Σ) :
  aligned p -> tree_below up t -∗ (tree_below p t -∗ Q tt) -∗
  wpm (when (negb (root t =? NULL)) (RB_SET_PARENT (root t) p)) Q.
Proof.
  iIntros (Hp) "Ht HQ". destruct t as [|a k bl br l r]; cbn [root].
  { iApply wpm_ret. by iApply "HQ". }
  iDestruct "Ht" as "(H & Hl & Hr)". iDestruct (node_facts with "H") as %[[Hn _] _].
  rw (proj2 (Z.eqb_neq a NULL)) //. iApply (wpm_set_parent with "H"); [done|]. iIntros "H".
  iApply "HQ". iFrame.
Qed.

(** [out] is replaced by [new] at the place it hangs. *)
Lemma wpm_swap_child head c d a k x y s o new (Q : unit -> iProp Σ) :
  node d a k (up_of c) x y s o -∗ context_at head c a -∗
  (node d a k (up_of c) x y s o -∗ context_at head c new -∗ Q tt) -∗
  wpm (RB_SWAP_CHILD head a new) Q.
Proof.
  iIntros "H Hc HQ". unfold RB_SWAP_CHILD. call wpm_parent on "H".
  destruct c as [|[d' p k' bx bo o'] c]; cbn [up_of context_at].
  { rw Z.eqb_refl. iApply (wpm_store with "Hc"). iIntros "Hc". iApply ("HQ" with "H Hc"). }
  iDestruct "Hc" as "(Hp & Ho & Hc)". iDestruct (node_facts with "Hp") as %[[Hn _] _].
  rw (proj2 (Z.eqb_neq p NULL)) //.
  iDestruct (node_not_root with "H Ho") as %Hne. iApply wpm_bind. destruct d'.
  - iApply (wpm_child with "Hp"). iIntros "Hp". rw Z.eqb_refl.
    iApply (wpm_set_child with "Hp"). iIntros "Hp". iApply ("HQ" with "H"). iFrame.
  - iApply (wpm_child_opp R with "Hp"). iIntros "Hp". rw (proj2 (Z.eqb_neq a _)) //.
    iApply (wpm_set_child R with "Hp"). iIntros "Hp". iApply ("HQ" with "H"). iFrame.
Qed.

(** A rotation lifts the child [b] of [a] from side [d]; [i] is the subtree that changes hands. *)
Lemma wpm_rotate head d d' c a ka xa ya b o kb xb yb i w Q :
  d' = opp d ->
  node d a ka (up_of c) xa ya b o -∗ node d' b kb a xb yb (root i) w -∗ tree_below b i -∗
  context_at head c a -∗
  (node d' b kb (up_of c) xb yb a w -∗ node d a ka b xa ya (root i) o -∗ tree_below a i -∗
   context_at head c b -∗ Q b) -∗
  wpm (RB_ROTATE d' head a) Q.
Proof.
  iIntros (->) "Ha Hb Hi Hc HQ".
  iDestruct (node_facts with "Ha") as %[[_ Haa] Hup]. iDestruct (node_facts with "Hb") as %[[_ Hba] _].
  unfold RB_ROTATE. rw opp_opp. call wpm_child on "Ha". call wpm_child on "Hb". call wpm_set_child on "Ha". iApply wpm_bind.
  iApply (wpm_move with "Hi"); [done|]. iIntros "Hi". call wpm_parent on "Ha". iApply wpm_bind.
  iApply (wpm_set_parent with "Hb"); [done|]. iIntros "Hb". iApply wpm_bind.
  iApply (wpm_swap_child with "Ha Hc"). iIntros "Ha Hc". call wpm_set_child on "Hb". iApply wpm_bind.
  iApply (wpm_set_parent with "Ha"); [done|]. iIntros "Ha". wpm_step.
  iApply ("HQ" with "Hb Ha Hi Hc").
Qed.

(** ** The loops *)

(** The end of a function: the words in hand are the tree promised. *)
Ltac finish := iApply "HQ"; rw tree_at_plug ?tree_below_mk ?root_mk; iFrame.

(** The double rotation of an insertion: [h] rises above [e]. *)
Lemma wpm_insert_rotate_child head d c p kp yp op e ke ex es h kh hx hy hs ho (Q : unit -> iProp Σ) :
  tree_below p (mk d e ke ex false es (mk d h kh hx hy hs ho)) -∗
  context_at head (Fr d p kp false yp op :: c) e -∗
  (tree_below p (mk d h kh hx hy (mk d e ke (negb ex) hx es hs) ho) -∗
   context_at head (Fr d p kp (negb hx && hy) yp op :: c) h -∗ Q tt) -∗
  wpm (insert_rotate_child d head p e) Q.
Proof.
  iIntros "Ht Hc HQ". rw !tree_below_mk !root_mk. iDestruct "Ht" as "(He & Hes & Hh & Hhs & Hho)".
  unfold insert_rotate_child. call wpm_flip on "He". cbn [negb]. iApply wpm_bind.
  iDestruct (node_flip with "He") as "He".
  iApply (wpm_rotate _ (opp d) d (Fr d p kp false yp op :: c) with "He Hh Hhs Hc");
    [by rw opp_opp|]. iIntros "Hh He Hhs (Hp & Hop & Hc)". iDestruct (node_unflip with "He") as "He".
  call wpm_red on "Hh". destruct hx; cbn [negb andb].
  - iApply (wpm_flip_opp with "He"). iIntros "He". iApply ("HQ" with "[$] [$]").
  - call wpm_red_opp on "Hh". destruct hy.
    + iApply (wpm_flip with "Hp"). iIntros "Hp". iApply ("HQ" with "[$] [$]").
    + iApply wpm_ret. iApply ("HQ" with "[$] [$]").
Qed.

Lemma wpm_insert_color head c t t' fuel (Q : unit -> iProp Σ) :
  ins_fix t c = Some t' -> t <> Nil -> (length c < fuel)%nat ->
  tree_below (up_of c) t -∗ context_at head c (root t) -∗ (tree_at head t' -∗ Q tt) -∗
  wpm (RB_INSERT_COLOR fuel head (root t)) Q.
Proof.
  revert t fuel. induction c as [|[d p kp xp yp op] c IH]; intros t fuel Hfix Ht Hfuel;
    iIntros "Ht Hc HQ"; (destruct fuel as [|fuel]; [lia|]); cbn [RB_INSERT_COLOR].
  { injection Hfix as ->. destruct t' as [|a k bl br l r]; [done|]. cbn [root tree_below].
    iDestruct "Ht" as "(Ha & Hl & Hr)". call wpm_parent on "Ha". cbn [up_of]. rw Z.eqb_refl.
    wpm_step. iApply "HQ". iFrame. }
  cbn [ins_fix length up_of context_at] in *. dview d t; [|done].
  rw tree_below_mk root_mk. iDestruct "Ht" as "(Ha & Hs & Ho)". iDestruct "Hc" as "(Hp & Hop & Hc)".
  iDestruct (node_facts with "Hp") as %[[Hp0 Hpa] Hup].
  call wpm_parent on "Ha". rw (proj2 (Z.eqb_neq p NULL)) //.
  iDestruct (node_not_root with "Ha Hop") as %Hne.
  iApply wpm_bind. iApply (wpm_side with "Hp"); [done|]. iIntros "Hp".
  call wpm_red on "Hp". destruct xp.
  { injection Hfix as <-. iApply (wpm_flip with "Hp"). iIntros "Hp". finish. }
  call wpm_flip_opp on "Hp". call wpm_red_opp on "Hp". destruct yp; cbn [negb] in *.
  2: { specialize (IH (mk d p kp false true (mk d z z0 b b0 t0 t1) op) fuel).
       rw tree_below_mk !root_mk mk_Nil tree_below_mk in IH.
       iApply (IH with "[-Hc HQ] Hc HQ"); [done|tauto|lia|]. iFrame. }
  call wpm_red_opp on "Ha". destruct b0; cbn [negb].
  - iApply wpm_bind_ret. injection Hfix as <-. iApply wpm_bind. iDestruct (node_flip with "Ha") as "Ha".
    iApply (wpm_rotate with "Hp Ha Ho Hc"); [done|]. iIntros "Ha Hp Ho Hc".
    iApply (wpm_clear with "Ha"). iIntros "Ha". iDestruct (node_unflip with "Ha") as "Ha". finish.
  - dview d t1; [|done]. injection Hfix as <-. rw !root_mk.
    iApply wpm_bind.
    iAssert (tree_below p (mk d z z0 b false t0 (mk d z1 z2 b0 b1 t t2))) with "[Ha Hs Ho]" as "Ht".
    { rw (tree_below_mk _ _ z) root_mk. iFrame. }
    iApply (wpm_insert_rotate_child _ _ c p kp false op with "Ht [$Hp $Hop $Hc]").
    rw !tree_below_mk !root_mk. iIntros "(Hh & (He & Hs & Hhs) & Hho) (Hp & Hop & Hc)".
    iApply wpm_bind. iDestruct (node_flip with "Hh") as "Hh".
    iApply (wpm_rotate with "Hp Hh Hho Hc"); [done|]. iIntros "Hh Hp Hho Hc".
    iApply (wpm_clear with "Hh"). iIntros "Hh". iDestruct (node_unflip with "Hh") as "Hh". finish.
Qed.

(** The double rotation of a removal: [e] rises above [s]. *)
Lemma wpm_remove_rotate_sib head d c p kp t s ks e ke ex ey es eo so (Q : unit -> iProp Σ) :
  node d p kp (up_of c) true false (root t) s -∗ tree_below p t -∗ context_at head c p -∗
  tree_below p (mk d s ks false false (mk d e ke ex ey es eo) so) -∗
  (node d p kp (up_of c) false ex (root t) e -∗ tree_below p t -∗ context_at head c p -∗
   tree_below p (mk d e ke true true es (mk d s ks ey false eo so)) -∗ Q tt) -∗
  wpm (remove_rotate_sib d head p s) Q.
Proof.
  iIntros "Hp Ht Hc Hs HQ". rw !tree_below_mk !root_mk.
  iDestruct "Hs" as "(Hs & (He & Hes & Heo) & Hso)".
  unfold remove_rotate_sib. call wpm_flip on "Hp". cbn [negb].
  iDestruct (node_flip with "Hp") as "Hp". iDestruct (node_flip with "He") as "He".
  iApply wpm_bind.
  iApply (wpm_rotate _ d (opp d) (Fr (opp d) p kp false false t :: c) with "Hs He Heo [$Hp $Ht $Hc]");
    [done|]. iIntros "He Hs Heo (Hp & Ht & Hc)".
  iDestruct (node_unflip with "Hp") as "Hp". iDestruct (node_unflip with "He") as "He".
  call wpm_red_opp on "He".
  call wpm_flip_when on "Hs". call wpm_red on "He". call wpm_flip_opp_when on "Hp".
  iApply (wpm_set_bits with "He"). iIntros "He".
  iApply ("HQ" with "Hp Ht Hc"). iFrame.
Qed.

(** The end of the round in [RB_REMOVE_COLOR] that rotates. *)
Lemma wpm_remove_rotate head d c p kp t s ks sx sy ss so r (Q : unit -> iProp Σ) :
  rem_rotate d p kp t s ks sx sy ss so = Some r -> sx && sy = false ->
  node d p kp (up_of c) true false (root t) s -∗ tree_below p t -∗ context_at head c p -∗
  tree_below p (mk d s ks sx sy ss so) -∗
  (tree_at head (plug r c) -∗ Q tt) -∗
  wpm (remove_rotate d head p s) Q.
Proof.
  intros Hr Hxy. iIntros "Hp Ht Hc Hs HQ". rw tree_below_mk. iDestruct "Hs" as "(Hs & Hss & Hso)".
  unfold remove_rotate, rem_rotate in *. call wpm_flip_opp on "Hs". call wpm_red on "Hs".
  destruct sx; [|destruct sy; cbn [negb andb] in *].
  - destruct sy; [done|]. injection Hr as <-. iApply wpm_bind.
    iApply (wpm_flip with "Hp"). iIntros "Hp". cbn [negb]. iApply wpm_bind.
    iDestruct (node_flip with "Hp") as "Hp".
    iApply (wpm_rotate _ (opp d) d with "Hp Hs Hss Hc"); [by rw opp_opp|]. iIntros "Hs Hp Hss Hc".
    iDestruct (node_unflip with "Hp") as "Hp". wpm_step. finish.
  - dview d ss; [|done]. injection Hr as <-. iApply wpm_bind.
    call wpm_red_opp on "Hs". cbn [negb].
    iAssert (tree_below p (mk d s ks false false (mk d z z0 b b0 t0 t1) so)) with "[Hs Hss Hso]" as "Hs".
    { rw (tree_below_mk _ _ s) root_mk. iFrame. }
    iApply (wpm_remove_rotate_sib with "Hp Ht Hc Hs"). iIntros "Hp Ht Hc Hs".
    rw !tree_below_mk !root_mk. iDestruct "Hs" as "(He & Hes & Hs & Heo & Hso)".
    iApply wpm_bind. iDestruct (node_flip with "Hp") as "Hp".
    iApply (wpm_rotate _ (opp d) d with "Hp He Hes Hc"); [by rw opp_opp|]. iIntros "He Hp Hes Hc".
    iDestruct (node_unflip with "Hp") as "Hp". wpm_step. finish.
  - injection Hr as <-. iApply wpm_bind. call wpm_red_opp on "Hs". cbn [negb]. iApply wpm_ret.
    iApply wpm_bind. iDestruct (node_flip with "Hp") as "Hp".
    iApply (wpm_rotate _ (opp d) d with "Hp Hs Hss Hc"); [by rw opp_opp|]. iIntros "Hs Hp Hss Hc".
    iDestruct (node_unflip with "Hp") as "Hp". wpm_step. finish.
Qed.

(** [continue] of a loop that climbs the tree: nothing is left to do at the root. *)
Lemma wpm_continue head c t t' (loop : ptr -> ptr -> M mem unit) (Q : unit -> iProp Σ) :
  rem_fix t c = Some t' -> t <> Nil ->
  (forall d p kp xp yp op c', c = Fr d p kp xp yp op :: c' ->
   tree_below p t -∗ context_at head c (root t) -∗ (tree_at head t' -∗ Q tt) -∗
   wpm (loop p (root t)) Q) ->
  tree_below (up_of c) t -∗ context_at head c (root t) -∗ (tree_at head t' -∗ Q tt) -∗
  wpm (let* parent := RB_PARENT (root t) in
       if parent =? NULL then ret tt else loop parent (root t)) Q.
Proof.
  intros Hfix Ht Hloop. iIntros "Ht Hc HQ". destruct t as [|a k bl br l r]; [done|]. cbn [root tree_below].
  iDestruct "Ht" as "(Ha & Hlr)". call wpm_parent on "Ha".
  destruct c as [|[d p kp xp yp op] c]; cbn [up_of].
  - injection Hfix as <-. rw Z.eqb_refl. iApply wpm_ret. iApply "HQ". iFrame.
  - iAssert ⌜p <> NULL⌝%I as %Hp.
    { iDestruct "Hc" as "(Hp & _)". by iDestruct (node_facts with "Hp") as %[[? _] _]. }
    rw (proj2 (Z.eqb_neq p NULL)) //. iApply (Hloop with "[Ha Hlr] Hc HQ"); [done|]. iFrame.
Qed.

(** What the loop needs to tell the sides apart: an empty tree has a sibling. *)
Lemma beside d p kp up xp yp s o t :
  ~ (t = Nil /\ o = Nil) ->
  node d p kp up xp yp s (root o) -∗ tree_below p t -∗ tree_below p o -∗ ⌜root t <> root o⌝.
Proof.
  iIntros (Hl) "_ Ht Ho". destruct t as [|a k bl br l r]; cbn [root tree_below].
  - destruct o as [|a k bl br l r]; [naive_solver|]. iDestruct "Ho" as "[Ha _]".
    iDestruct (node_facts with "Ha") as %[[? _] _]. by iPureIntro.
  - iDestruct "Ht" as "[Ha _]". iApply (node_not_root with "Ha Ho").
Qed.

(** What the loop of [RB_REMOVE_COLOR] does below the context [c]. *)
Definition loop_spec (head : ptr) (fuel : nat) (c : ctx) : Prop :=
  forall d p kp xp yp op t t' (Q : unit -> iProp Σ),
  rem_fix t (Fr d p kp xp yp op :: c) = Some t' -> ~ (t = Nil /\ op = Nil) ->
  tree_below p t -∗ context_at head (Fr d p kp xp yp op :: c) (root t) -∗
  (tree_at head t' -∗ Q tt) -∗
  wpm (remove_color_loop fuel head p (root t)) Q.

Lemma wpm_remove_color_continue head fuel c t t' (Q : unit -> iProp Σ) :
  (forall d p kp xp yp op c', c = Fr d p kp xp yp op :: c' -> loop_spec head fuel c') ->
  rem_fix t c = Some t' -> t <> Nil ->
  tree_below (up_of c) t -∗ context_at head c (root t) -∗ (tree_at head t' -∗ Q tt) -∗
  wpm (let* parent := RB_PARENT (root t) in
       if parent =? NULL then ret tt else remove_color_loop fuel head parent (root t)) Q.
Proof.
  intros IH Hfix Ht. apply (wpm_continue _ _ _ _ (remove_color_loop fuel head)); [done..|].
  intros d p kp xp yp op c' ->. apply (IH d p kp xp yp op c'); [done|done|]. by intros [-> _].
Qed.

Lemma wpm_remove_color_round head fuel c :
  (forall d p kp xp yp op c', c = Fr d p kp xp yp op :: c' -> loop_spec head fuel c') ->
  loop_spec head (S fuel) c.
Proof.
  intros IH d p kp xp yp op t t' Q Hfix Hl. iIntros "Ht (Hp & Hop & Hc) HQ".
  cbn [remove_color_loop rem_fix] in *.
  iDestruct (beside with "Hp Ht Hop") as %Hne; [done|].
  iApply wpm_bind. iApply (wpm_side with "Hp"); [done|]. iIntros "Hp".
  call wpm_red on "Hp". destruct xp; cbn [negb] in *.
  2: { injection Hfix as <-. iApply (wpm_flip with "Hp"). iIntros "Hp". finish. }
  call wpm_red_opp on "Hp". destruct yp; cbn [negb] in *.
  { iApply wpm_bind. iApply (wpm_flip_opp with "Hp"). iIntros "Hp".
    pose proof (wpm_remove_color_continue head fuel c (mk d p kp true false t op) t' Q IH) as Hcont.
    rw tree_below_mk !root_mk mk_Nil in Hcont.
    iApply (Hcont with "[$Hp $Ht $Hop] Hc HQ"); [done|tauto]. }
  call wpm_child_opp on "Hp". dview d op; [|done]. rw tree_below_mk root_mk.
  iDestruct "Hop" as "(Hs & Hss & Hso)". call wpm_both_red on "Hs".
  destruct (b && b0) eqn:Hbb.
  - iApply wpm_bind. iApply (wpm_clear with "Hs"). iIntros "Hs".
    pose proof (wpm_remove_color_continue head fuel c
      (mk d p kp true false t (mk d z z0 false false t0 t1)) t' Q IH) as Hcont.
    rw !tree_below_mk !root_mk mk_Nil in Hcont.
    iApply (Hcont with "[$Hp $Ht $Hs $Hss $Hso] Hc HQ"); [done|tauto].
  - destruct (rem_rotate _ _ _ _ _ _ _ _ _) as [r|] eqn:Hr; [|done]. injection Hfix as <-.
    iApply (wpm_remove_rotate with "Hp Ht Hc [Hs Hss Hso] HQ"); [done|done|].
    rw tree_below_mk. iFrame.
Qed.

Lemma wpm_remove_color_loop head fuel c : (length c < fuel)%nat -> loop_spec head fuel c.
Proof.
  revert fuel. induction c as [|f c IH]; intros [|fuel] Hfuel; cbn in Hfuel; [lia|..|lia|];
    apply wpm_remove_color_round; [done|].
  intros d p kp xp yp op c' [= -> ->]. apply IH. lia.
Qed.

(** The test for two empty sides. *)
Lemma wpm_test_children d a k up x y s o v (m1 m2 : M mem unit) (Q : unit -> iProp Σ) :
  node d a k up x y s o -∗
  (node d a k up x y s o -∗ wpm (if (s =? v) && (o =? v) then m1 else m2) Q) -∗
  wpm (let* l := load (rb_child L a) in let* r := load (rb_child R a) in
       if (l =? v) && (r =? v) then m1 else m2) Q.
Proof.
  iIntros "H HQ". destruct d.
  - call wpm_child on "H". call (wpm_child_opp L) on "H". by iApply "HQ".
  - call (wpm_child_opp R) on "H". call (wpm_child R) on "H". rw andb_comm. by iApply "HQ".
Qed.

Lemma wpm_remove_color head fuel d p kp xp yp op c t t' (Q : unit -> iProp Σ) :
  rem_color t (Fr d p kp xp yp op :: c) = Some t' -> (length c < fuel)%nat ->
  tree_below p t -∗ context_at head (Fr d p kp xp yp op :: c) (root t) -∗
  (tree_at head t' -∗ Q tt) -∗
  wpm (RB_REMOVE_COLOR fuel head p (root t)) Q.
Proof.
  intros Hfix Hfuel. iIntros "Ht (Hp & Hop & Hc) HQ". unfold RB_REMOVE_COLOR.
  iApply (wpm_test_children with "Hp"). iIntros "Hp". rw Z.eqb_refl.
  assert ((t = Nil /\ op = Nil) \/ ~ (t = Nil /\ op = Nil)) as [[-> ->]|Hl]
    by (destruct t, op; [by left|right; by intros []..]); cbn [root].
  - rw Z.eqb_refl. iApply wpm_bind. iApply (wpm_clear with "Hp"). iIntros "Hp".
    pose proof (wpm_remove_color_continue head fuel c (mk d p kp false false Nil Nil) t' Q) as Hcont.
    rw tree_below_mk !root_mk mk_Nil in Hcont.
    iApply (Hcont with "[$Hp] Hc HQ"); [|done|tauto|done].
    intros d' p' kp' xp' yp' op' c' ->. apply wpm_remove_color_loop. cbn in Hfuel. lia.
  - iDestruct (beside with "Hp Ht Hop") as %Hne; [done|]. rw (proj2 (Z.eqb_neq (root op) _)) //.
    iApply (wpm_remove_color_loop with "Ht [$Hp $Hop $Hc] HQ"); [done|..|done].
    by destruct t, op.
Qed.

(** ** Removal *)

(** The nodes of the path [p] below [top]; its empty place holds [x], and [entry p x] is the
    pointer from [top] into it. *)
Definition up_in (top : ptr) (p : ctx) : ptr := match p with [] => top | Fr _ a _ _ _ _ :: _ => a end.

Fixpoint path_at (top : ptr) (p : ctx) (x : ptr) : iProp Σ :=
  match p with
  | [] => emp
  | Fr d a k bx bo o :: p =>
      node d a k (up_in top p) bx bo x (root o) ∗ tree_below a o ∗ path_at top p a
  end.

Fixpoint entry (p : ctx) (x : ptr) : ptr :=
  match p with [] => x | Fr _ a _ _ _ _ :: p => entry p a end.

Lemma tree_below_path top p t :
  tree_below top (plug t p) ⊣⊢ tree_below (up_in top p) t ∗ path_at top p (root t).
Proof.
  revert t. induction p as [|[d a k x y o] p IH]; intros t; cbn; [by rw bi.sep_emp|].
  rw IH tree_below_mk root_mk.
  iSplit; [iIntros "(($ & $ & $) & $)"|iIntros "($ & $ & $ & $)"].
Qed.

Lemma root_plug t p : root (plug t p) = entry p (root t).
Proof. revert t. induction p as [|[d a k x y o] p IH]; intros t; cbn; [done|]. by rw IH root_mk. Qed.

Lemma context_at_path head p d a k x y o c v :
  context_at head (p ++ Fr d a k x y o :: c) v ⊣⊢
  path_at a p v ∗ context_at head (Fr d a k x y o :: c) (entry p v).
Proof.
  revert v. induction p as [|[d' a' k' x' y' o'] p IH]; intros v; cbn -[context_at].
  { by rw bi.emp_sep. }
  cbn [context_at]. rw IH.
  assert (up_of (p ++ Fr d a k x y o :: c) = up_in a p) as -> by by destruct p as [|[]].
  cbn [context_at]. iSplit; [iIntros "($ & $ & $ & $)"|iIntros "(($ & $ & $) & $)"].
Qed.

Lemma up_of_path p d a k x y o c : up_of (p ++ Fr d a k x y o :: c) = up_in a p.
Proof. by destruct p as [|[]]. Qed.

(** The first node of the path gets another parent. *)
Lemma wpm_path_set_parent top top' p x (Q : unit -> iProp Σ) :
  p <> [] -> aligned top' -> path_at top p x -∗ (path_at top' p x -∗ Q tt) -∗
  wpm (RB_SET_PARENT (entry p x) top') Q.
Proof.
  intros Hp Ha. revert x. induction p as [|[d a k bx bo o] p IH]; intros x; [done|].
  iIntros "(Hn & Ho & Hp) HQ". cbn [entry]. destruct p as [|f p].
  - cbn. iApply (wpm_set_parent with "Hn"); [done|]. iIntros "Hn". iApply "HQ". iFrame.
  - iApply (IH with "Hp"); [done|]. iIntros "Hp". iApply "HQ". iFrame.
Qed.

Lemma wpm_outermost d up t fuel Q :
  t <> Nil -> (height t <= fuel)%nat ->
  tree_below up t -∗ (tree_below up t -∗ Q (outermost d t)) -∗ wpm (rb_outermost fuel d (root t)) Q.
Proof.
  revert up fuel. induction t as [|a k bl br l IHl r IHr]; intros up fuel Ht Hf; [done|].
  iIntros "(Ha & Hl & Hr) HQ". destruct fuel as [|fuel]; [cbn in Hf; lia|].
  cbn [rb_outermost root height outermost] in *. destruct d.
  - call wpm_child on "Ha". iDestruct (root_null with "Hl") as %->. destruct l as [|a' k' bl' br' l' r'].
    + iApply wpm_ret. iApply "HQ". iFrame.
    + iApply (IHl with "Hl"); [done|lia|]. iIntros "Hl". iApply "HQ". iFrame.
  - call (wpm_child_opp L) on "Ha". iDestruct (root_null with "Hr") as %->.
    destruct r as [|a' k' bl' br' l' r'].
    + iApply wpm_ret. iApply "HQ". iFrame.
    + iApply (IHr with "Hr"); [done|lia|]. iIntros "Hr". iApply "HQ". iFrame.
Qed.

Lemma pop_min_outermost t c0 s ks bl br r p :
  pop_min t c0 = Some (s, ks, bl, br, r, p) -> outermost L t = s.
Proof.
  revert c0. induction t as [|a k bl' br' l IH r' _]; intros c0; cbn [pop_min outermost]; [done|].
  destruct l; [congruence|apply IH].
Qed.

(** The second half of the splice, the same for both places of [s]: the node [s] takes over the
    fields and the left subtree of [a]. *)
Lemma wpm_take_over a k c bl br l r' s ks up x y sl sr (child parent : ptr) (Q : ptr * ptr * ptr -> iProp Σ) :
  node_ptr s -> l <> Nil ->
  node L a k (up_of c) bl br (root l) r' -∗ tree_below a l -∗ node L s ks up x y sl sr -∗
  (node L a k (up_of c) bl br (root l) r' -∗ tree_below s l -∗
   node L s ks (up_of c) bl br (root l) r' -∗ Q (s, child, parent)) -∗
  wpm (let* old_left := load (rb_child L a) in
       RB_SET_PARENT old_left s ;;
       let* l := load (rb_child L a) in
       store (rb_child L s) l ;;
       let* r := load (rb_child R a) in
       store (rb_child R s) r ;;
       let* bits := load (rb_up a) in
       store (rb_up s) bits ;;
       ret (s, child, parent)) Q.
Proof.
  iIntros ([_ Hs] Hl) "Ha Hl Hs HQ". iDestruct (root_null with "Hl") as %Hn.
  iDestruct (wpm_move _ s with "Hl") as "Hmove"; [done|]. destruct l as [|la lk lbl lbr ll lr]; [done|].
  rw Hn. cbn [negb when]. call wpm_child on "Ha". iApply wpm_bind. iApply "Hmove". iIntros "Hl".
  iDestruct "Ha" as "(Hal & Har & Hau & Hak & %Ha)". iDestruct "Hs" as "(Hsl & Hsr & Hsu & Hsk & %Hsa)".
  cbn [opp]. do 7 wpm_step. iApply ("HQ" with "[-Hl Hsl Hsr Hsu Hsk] Hl"); iFrame; iPureIntro; tauto.
Qed.

Lemma tree_nil t : t = Nil \/ t <> Nil.
Proof. destruct t; [by left|by right]. Qed.

Lemma pop_min_frame t s ks bl br r d q kq x y o p :
  t <> Nil -> pop_min t [] = Some (s, ks, bl, br, r, Fr d q kq x y o :: p) -> d = L.
Proof.
  intros Ht Hp. destruct (pop_min_spec t [] Ht) as (? & ? & ? & ? & ? & p' & Hp' & _ & Hb).
  rw Hp' app_nil_r in Hp. injection Hp as -> -> -> -> -> ->. destruct d; [done|].
  cbn in Hb. by destruct (before p), (inorder o).
Qed.

(** The node [s] after [a] in the tree takes its place: the third branch of [RB_REMOVE]. *)
Lemma wpm_splice fuel a k bl br l r c s ks sbl sbr sr p (Q : ptr * ptr * ptr -> iProp Σ) :
  l <> Nil -> r <> Nil -> pop_min r [] = Some (s, ks, sbl, sbr, sr, p) -> (height r <= fuel)%nat ->
  tree_below (up_of c) (Node a k bl br l r) -∗
  (∀ r', node L a k (up_of c) bl br (root l) r' -∗
   node L s ks (up_of c) bl br (root l) (entry p (root sr)) -∗ tree_below s l -∗
   path_at s p (root sr) -∗ tree_below s sr -∗ Q (s, root sr, up_in s p)) -∗
  wpm (remove_splice fuel a) Q.
Proof.
  intros Hl Hr Hp Hf. iIntros "(Ha & Hl & Hr) HQ". unfold remove_splice.
  iDestruct (root_not_null with "Hl") as %Hln; [done|].
  iDestruct (root_not_null with "Hr") as %Hrn; [done|].
  iDestruct (node_facts with "Ha") as %[[_ Haa] _].
  call wpm_parent on "Ha". call (wpm_child_opp L) on "Ha". call wpm_child on "Ha". rw Hln Hrn.
  destruct r as [|ra rk rbl rbr rl rr]; [done|]. cbn [root].
  iDestruct "Hr" as "(Hra & Hrl & Hrr)". iDestruct (node_facts with "Hra") as %[Hran _].
  call wpm_child on "Hra". destruct (tree_nil rl) as [->|Hrl].
  - injection Hp as <- <- <- <- <- <-. cbn [root]. rw Z.eqb_refl. iApply wpm_bind.
    call (wpm_child_opp L) on "Hra". iApply wpm_bind. iApply (wpm_set_child_opp L with "Ha").
    iIntros "Ha". iApply wpm_ret. cbv beta iota.
    iApply (wpm_take_over with "Ha Hl Hra"); [done|done|]. iIntros "Ha Hl Hra".
    iApply ("HQ" with "Ha Hra Hl [//] Hrr").
  - iDestruct (root_not_null with "Hrl") as %->; [done|]. iApply wpm_bind.
    pose proof (pop_min_outermost _ _ _ _ _ _ _ _ Hp) as Hs.
    iApply wpm_bind. iApply (wpm_outermost L with "Hrl"); [done|cbn in Hf; lia|]. iIntros "Hrl".
    assert (outermost L rl = s) as -> by by destruct rl.
    iAssert (tree_below a (Node ra rk rbl rbr rl rr)) with "[$Hra $Hrl $Hrr]" as "Hr".
    destruct (pop_min_spec (Node ra rk rbl rbr rl rr) []) as (? & ? & ? & ? & ? & p' & Hp' & Hplug & _); [done|].
    rw Hp app_nil_r in Hp'. injection Hp' as <- <- <- <- <- <-.
    assert (ra = entry p s) as Hra by (change ra with (root (Node ra rk rbl rbr rl rr)); by rw Hplug root_plug).
    destruct p as [|[d q kq xq yq oq] p]; [by injection Hplug as _ _ _ _ ->|].
    apply pop_min_frame in Hp as ->; [|done].
    rw Hplug tree_below_path. cbn [root]. iDestruct "Hr" as "((Hs & _ & Hsr) & (Hq & Hoq & Hp))".
    iDestruct (node_facts with "Hs") as %[Hsn _].
    call (wpm_child_opp L) on "Hs". call wpm_parent on "Hs". cbn [up_in].
    iApply wpm_bind. iApply (wpm_set_child with "Hq"). iIntros "Hq".
    call (wpm_child_opp L) on "Ha". iApply wpm_bind. rw Hra.
    iApply (wpm_path_set_parent a s (Fr L q kq xq yq oq :: p) (root sr) with "[$Hq $Hoq $Hp]");
      [done|by destruct Hsn|]. iIntros "Hp". iApply wpm_ret. cbv beta iota.
    iApply (wpm_take_over with "Ha Hl Hs"); [done|done|]. iIntros "Ha Hl Hs".
    iApply ("HQ" with "Ha Hs Hl Hp Hsr").
Qed.

(** The last steps of [RB_REMOVE]: [t] hangs below [c] and learns its parent. *)
Lemma wpm_remove_tail head fuel up t c t' (old : ptr) Q :
  rem_color t c = Some t' -> (length c <= fuel)%nat ->
  tree_below up t -∗ context_at head c (root t) -∗ (tree_at head t' -∗ Q old) -∗
  wpm (when (negb (root t =? NULL)) (RB_SET_PARENT (root t) (up_of c)) ;;
       when (negb (up_of c =? NULL)) (RB_REMOVE_COLOR fuel head (up_of c) (root t)) ;;
       ret old) Q.
Proof.
  intros Hfix Hf. iIntros "Ht Hc HQ". iDestruct (context_aligned with "Hc") as %Ha.
  iApply wpm_bind. iApply (wpm_move with "Ht"); [done|]. iIntros "Ht". iApply wpm_bind.
  destruct c as [|[d p kp xp yp op] c]; cbn [up_of].
  - rw Z.eqb_refl. iApply wpm_ret. iApply wpm_ret. iApply "HQ".
    assert (t = t') as -> by by destruct t; injection Hfix. iFrame.
  - iAssert ⌜p <> NULL⌝%I as %Hp.
    { iDestruct "Hc" as "(Hp & _)". by iDestruct (node_facts with "Hp") as %[[? _] _]. }
    rw (proj2 (Z.eqb_neq p NULL)) //. iApply (wpm_remove_color with "Ht Hc"); [done|done|].
    iIntros "Ht". iApply wpm_ret. by iApply "HQ".
Qed.

(** The words of a node that is in no tree. *)
Definition loose (a k : Z) : iProp Σ :=
  ∃ l r u, rb_child L a ↦ l ∗ rb_child R a ↦ r ∗ rb_up a ↦ u ∗ node_fd a ↦ k.

Lemma node_loose a k up x y s o : node L a k up x y s o ⊢ loose a k.
Proof. iIntros "($ & $ & $ & $ & _)". Qed.

Lemma pop_min_length t c0 s ks bl br r p :
  pop_min t c0 = Some (s, ks, bl, br, r, p) -> (length p < length c0 + height t)%nat.
Proof.
  revert c0. induction t as [|a k bl' br' l IH r' _]; intros c0; cbn [pop_min height]; [done|].
  destruct l as [|la lk lbl lbr ll lr]; [intros [= <- <- <- <- <- <-]; lia|].
  intros H%IH. cbn [length] in H. lia.
Qed.

(** A node with one empty side: its other child moves up. *)
Lemma wpm_remove_short head fuel d a k x y o c t' Q :
  rem_color o c = Some t' -> (length c <= fuel)%nat ->
  node d a k (up_of c) x y NULL (root o) -∗ tree_below a o -∗ context_at head c a -∗
  (node d a k (up_of c) x y NULL (root o) -∗ tree_at head t' -∗ Q a) -∗
  wpm (RB_SWAP_CHILD head a (root o) ;;
       when (negb (root o =? NULL)) (RB_SET_PARENT (root o) (up_of c)) ;;
       when (negb (up_of c =? NULL)) (RB_REMOVE_COLOR fuel head (up_of c) (root o)) ;;
       ret a) Q.
Proof.
  intros Hfix Hf. iIntros "Ha Ho Hc HQ". iApply wpm_bind.
  iApply (wpm_swap_child with "Ha Hc"). iIntros "Ha Hc".
  iApply (wpm_remove_tail with "Ho Hc"); [done|done|]. by iApply "HQ".
Qed.

Lemma wpm_remove head fuel a k bl br l r c t' Q :
  rem_node (Node a k bl br l r) c = Some t' -> (height r + length c < fuel)%nat ->
  tree_below (up_of c) (Node a k bl br l r) -∗ context_at head c a -∗
  (loose a k -∗ tree_at head t' -∗ Q a) -∗
  wpm (RB_REMOVE fuel head a) Q.
Proof.
  intros Hrem Hf. iIntros "Ht Hc HQ". unfold RB_REMOVE. iApply wpm_bind.
  destruct (tree_nil l) as [->|Hl]; [|destruct (tree_nil r) as [->|Hr]].
  - iDestruct "Ht" as "(Ha & _ & Hr)". unfold remove_splice.
    call wpm_parent on "Ha". call (wpm_child_opp L) on "Ha". call wpm_child on "Ha".
    rw Z.eqb_refl. iApply wpm_ret. cbv beta iota.
    iApply (wpm_remove_short with "Ha Hr Hc"); [done|lia|]. iIntros "Ha".
    iApply "HQ". by iApply node_loose.
  - iDestruct "Ht" as "(Ha & Hl & _)". iDestruct (root_not_null with "Hl") as %Hln; [done|].
    unfold remove_splice.
    call wpm_parent on "Ha". call (wpm_child_opp L) on "Ha". call wpm_child on "Ha".
    rw Hln Z.eqb_refl. iApply wpm_ret. cbv beta iota. iDestruct (node_flip with "Ha") as "Ha".
    iApply (wpm_remove_short with "Ha Hl Hc"); [by destruct l|lia|]. iIntros "Ha".
    iDestruct (node_unflip with "Ha") as "Ha". iApply "HQ". by iApply node_loose.
  - assert (exists s ks sbl sbr sr p, pop_min r [] = Some (s, ks, sbl, sbr, sr, p) /\
            rem_color sr (p ++ Fr R s ks br bl l :: c) = Some t') as (s & ks & sbl & sbr & sr & p & Hp & Hfix).
    { destruct (pop_min_spec r [] Hr) as (s & ks & sbl & sbr & sr & p & Hp & _). rw app_nil_r in Hp.
      cbn [rem_node] in Hrem. rw Hp in Hrem. exists s, ks, sbl, sbr, sr, p. split; [done|].
      by destruct l, r. }
    pose proof (pop_min_length _ _ _ _ _ _ _ _ Hp) as Hlen. cbn [length] in Hlen.
    iApply (wpm_splice with "Ht"); [done|done|done|lia|].
    iIntros (r') "Ha Hs Hl Hp Hsr". iApply wpm_bind.
    iApply (wpm_swap_child with "Ha Hc"). iIntros "Ha Hc".
    iDestruct (node_flip with "Hs") as "Hs".
    iAssert (context_at head (p ++ Fr R s ks br bl l :: c) (root sr)) with "[Hp Hs Hl Hc]" as "Hc".
    { rw context_at_path. iFrame. }
    rw -(up_of_path p R s ks br bl l c).
    iApply (wpm_remove_tail with "Hsr Hc"); [done|rw length_app; cbn; lia|].
    iApply "HQ". by iApply node_loose.
Qed.

(** ** Search and insertion *)

(** The sign of a comparison at the frame above. *)
Definition comp_side (comp : Z) (c : ctx) : Prop :=
  match c with [] => True | Fr L _ _ _ _ _ :: _ => comp < 0 | Fr R _ _ _ _ _ :: _ => 0 < comp end.

Lemma wpm_fd_cmp e1 e2 k1 k2 Q :
  node_fd e1 ↦ k1 -∗ node_fd e2 ↦ k2 -∗
  (node_fd e1 ↦ k1 -∗ node_fd e2 ↦ k2 -∗
   Q (if k1 <? k2 then -1 else if k2 <? k1 then 1 else 0)) -∗
  wpm (fd_cmp e1 e2) Q.
Proof.
  iIntros "H1 H2 HQ". unfold fd_cmp. do 3 wpm_step. iApply ("HQ" with "H1 H2").
Qed.

Lemma wpm_cmp_node elm k d a ka up x y s o Q :
  node_fd elm ↦ k -∗ node d a ka up x y s o -∗
  (node_fd elm ↦ k -∗ node d a ka up x y s o -∗
   Q (if k <? ka then -1 else if ka <? k then 1 else 0)) -∗
  wpm (fd_cmp elm a) Q.
Proof.
  iIntros "He (Hs & Ho & Hu & Hk & Ha) HQ". iApply (wpm_fd_cmp with "He Hk").
  iIntros "He Hk". iApply ("HQ" with "He"). iFrame.
Qed.

Lemma wpm_insert_descend head fuel elm k t c comp (Q : ptr + ptr * Z -> iProp Σ) :
  (height t <= fuel)%nat -> comp_side comp c ->
  node_fd elm ↦ k -∗ tree_below (up_of c) t -∗ context_at head c (root t) -∗
  (∀ comp', let (t', c') := descend k t c in
     ⌜comp_side comp' c'⌝ -∗
     node_fd elm ↦ k -∗ tree_below (up_of c') t' -∗ context_at head c' (root t') -∗
     Q match t' with Nil => inr (up_of c', comp') | _ => inl (root t') end) -∗
  wpm (insert_descend fuel elm (root t) (up_of c) comp) Q.
Proof.
  revert c fuel comp. induction t as [|a ka bl br l IHl r IHr]; intros c fuel comp Hf Hcomp;
    iIntros "He Ht Hc HQ"; cbn [descend].
  { destruct fuel; cbn [insert_descend root]; rw Z.eqb_refl;
      iApply wpm_ret; by iApply ("HQ" $! comp with "[//] He Ht Hc"). }
  iDestruct (root_not_null with "Ht") as %Hn; [done|].
  cbn [height] in Hf. destruct fuel as [|fuel]; [lia|]. cbn [insert_descend root] in *. rw Hn.
  iDestruct "Ht" as "(Ha & Hl & Hr)". iApply wpm_bind.
  iApply (wpm_cmp_node with "He Ha"). iIntros "He Ha".
  destruct (k <? ka) eqn:Hlt; [|destruct (ka <? k) eqn:Hgt]; cbn [Z.ltb Z.compare].
  - call wpm_child on "Ha".
    iApply (IHl (Fr L a ka bl br r :: c) with "He Hl [Ha Hr Hc] HQ"); [lia|done|]. iFrame.
  - call (wpm_child_opp L) on "Ha". iDestruct (node_flip with "Ha") as "Ha".
    iApply (IHr (Fr R a ka br bl l :: c) with "He Hr [Ha Hl Hc] HQ"); [lia|done|]. iFrame.
  - iApply wpm_ret. iApply ("HQ" $! comp with "[//] He [Ha Hl Hr] Hc"). iFrame.
Qed.

(** The new leaf is hung into the empty place. *)
Lemma wpm_hang head c comp elm (Q : unit -> iProp Σ) :
  comp_side comp c ->
  context_at head c NULL -∗ (context_at head c elm -∗ Q tt) -∗
  wpm (if up_of c =? NULL then store head elm
       else if comp <? 0 then store (rb_child L (up_of c)) elm
       else store (rb_child R (up_of c)) elm) Q.
Proof.
  iIntros (Hcomp) "Hc HQ". destruct c as [|[d p kp xp yp op] c]; cbn [up_of].
  { rw Z.eqb_refl. iApply (wpm_store with "Hc HQ"). }
  iDestruct "Hc" as "(Hp & Ho & Hc)". iDestruct (node_facts with "Hp") as %[[Hn _] _].
  rw (proj2 (Z.eqb_neq p NULL)) //. destruct d; cbn [comp_side] in Hcomp.
  - rw (proj2 (Z.ltb_lt comp 0)) //. iApply (wpm_set_child with "Hp"). iIntros "Hp". iApply "HQ". iFrame.
  - rw (proj2 (Z.ltb_ge comp 0)); [|lia].
    iApply (wpm_set_child with "Hp"). iIntros "Hp". iApply "HQ". iFrame.
Qed.

(** [RB_INSERT] of a node whose key is not in the tree. *)
Lemma wpm_insert head fuel a k t c t' Q :
  node_ptr a -> (height t <= fuel)%nat -> (length c < fuel)%nat ->
  descend k t [] = (Nil, c) -> ins_fix (Node a k false false Nil Nil) c = Some t' ->
  tree_at head t -∗ loose a k -∗ (tree_at head t' -∗ Q NULL) -∗
  wpm (RB_INSERT fuel head a) Q.
Proof.
  intros Ha Hf Hf' Hd Hfix. iIntros "[Hh Ht] (%l & %r & %u & Hl & Hr & Hu & Hk) HQ".
  unfold RB_INSERT. wpm_step. iApply wpm_bind.
  iApply (wpm_insert_descend head fuel a k t [] 0 with "Hk Ht Hh"); [lia|done|].
  iIntros (comp'). rw Hd. iIntros (Hcomp) "Hk _ Hc".
  iDestruct (context_aligned with "Hc") as %Hup.
  unfold RB_SET. iApply wpm_bind. do 2 wpm_step. iApply (wpm_store with "Hl"). iIntros "Hl".
  iApply wpm_bind. iApply (wpm_hang with "Hc"); [done|]. iIntros "Hc". iApply wpm_bind.
  iAssert (tree_below (up_of c) (Node a k false false Nil Nil)) with "[Hl Hr Hu Hk]" as "Ht".
  { cbn. unfold node. rw up_word_plain. by iFrame. }
  iApply (wpm_insert_color head c (Node a k false false Nil Nil) with "Ht Hc"); [done|done|lia|].
  iIntros "Ht". iApply wpm_ret. by iApply "HQ".
Qed.

(** [RB_INSERT] of a node whose key is in the tree: the tree's node is returned. *)
Lemma wpm_insert_found head fuel a k t b bl br l r c Q :
  (height t <= fuel)%nat -> descend k t [] = (Node b k bl br l r, c) ->
  t = plug (Node b k bl br l r) c ->
  tree_at head t -∗ node_fd a ↦ k -∗ (tree_at head t -∗ node_fd a ↦ k -∗ Q b) -∗
  wpm (RB_INSERT fuel head a) Q.
Proof.
  intros Hf Hd Ht. iIntros "[Hh Ht] Hk HQ". unfold RB_INSERT. wpm_step. iApply wpm_bind.
  iApply (wpm_insert_descend head fuel a k t [] 0 with "Hk Ht Hh"); [lia|done|].
  iIntros (comp'). rw Hd. iIntros (Hcomp) "Hk Hb Hc". iApply wpm_ret.
  iApply ("HQ" with "[Hb Hc] Hk"). rw Ht tree_at_plug. iFrame.
Qed.

(** [RB_FIND]: the place where the search ends. *)
Lemma wpm_find_descend fuel elm k up t c Q :
  (height t <= fuel)%nat ->
  node_fd elm ↦ k -∗ tree_below up t -∗
  (node_fd elm ↦ k -∗ tree_below up t -∗ Q (root (descend k t c).1)) -∗
  wpm (find_descend fuel elm (root t)) Q.
Proof.
  revert c up fuel. induction t as [|a ka bl br l IHl r IHr]; intros c up fuel Hf;
    iIntros "He Ht HQ"; cbn [descend].
  { destruct fuel; cbn [find_descend root]; rw Z.eqb_refl; iApply wpm_ret;
      by iApply ("HQ" with "He Ht"). }
  iDestruct (root_not_null with "Ht") as %Hn; [done|].
  cbn [height] in Hf. destruct fuel as [|fuel]; [lia|]. cbn [find_descend root] in *. rw Hn.
  iDestruct "Ht" as "(Ha & Hl & Hr)". iApply wpm_bind.
  iApply (wpm_cmp_node with "He Ha"). iIntros "He Ha".
  destruct (k <? ka) eqn:Hlt; [|destruct (ka <? k) eqn:Hgt]; cbn [Z.ltb Z.compare].
  - call wpm_child on "Ha". iApply (IHl (Fr L a ka bl br r :: c) with "He Hl"); [lia|].
    iIntros "He Hl". iApply ("HQ" with "He"). iFrame.
  - call (wpm_child_opp L) on "Ha". iApply (IHr (Fr R a ka br bl l :: c) with "He Hr"); [lia|].
    iIntros "He Hr". iApply ("HQ" with "He"). iFrame.
  - iApply wpm_ret. iApply ("HQ" with "He"). iFrame.
Qed.

Lemma wpm_find head fuel elm k t Q :
  (height t <= fuel)%nat ->
  tree_at head t -∗ node_fd elm ↦ k -∗
  (tree_at head t -∗ node_fd elm ↦ k -∗ Q (root (descend k t []).1)) -∗
  wpm (RB_FIND fuel head elm) Q.
Proof.
  iIntros (Hf) "[Hh Ht] He HQ". unfold RB_FIND. wpm_step.
  iApply (wpm_find_descend with "He Ht"); [done|]. iIntros "He Ht". iApply ("HQ" with "[$Hh $Ht] He").
Qed.

(** [RB_NFIND]: the node found, or the next one after the place where the search ends. *)
Definition nfind (k : Z) (t : tree) (c : ctx) : ptr :=
  match descend k t c with (Nil, c') => climb L c' | (t', _) => root t' end.

Lemma wpm_nfind_descend fuel elm k up t c Q :
  (height t <= fuel)%nat ->
  node_fd elm ↦ k -∗ tree_below up t -∗
  (node_fd elm ↦ k -∗ tree_below up t -∗ Q (nfind k t c)) -∗
  wpm (nfind_descend fuel elm (root t) (climb L c)) Q.
Proof.
  unfold nfind. revert c up fuel. induction t as [|a ka bl br l IHl r IHr]; intros c up fuel Hf;
    iIntros "He Ht HQ"; cbn [descend].
  { destruct fuel; cbn [nfind_descend root]; rw Z.eqb_refl; iApply wpm_ret;
      by iApply ("HQ" with "He Ht"). }
  iDestruct (root_not_null with "Ht") as %Hn; [done|].
  cbn [height] in Hf. destruct fuel as [|fuel]; [lia|]. cbn [nfind_descend root] in *. rw Hn.
  iDestruct "Ht" as "(Ha & Hl & Hr)". iApply wpm_bind.
  iApply (wpm_cmp_node with "He Ha"). iIntros "He Ha".
  destruct (k <? ka) eqn:Hlt; [|destruct (ka <? k) eqn:Hgt]; cbn [Z.ltb Z.compare].
  - call wpm_child on "Ha". iApply (IHl (Fr L a ka bl br r :: c) with "He Hl"); [lia|].
    iIntros "He Hl". iApply ("HQ" with "He"). iFrame.
  - call (wpm_child_opp L) on "Ha". iApply (IHr (Fr R a ka br bl l :: c) with "He Hr"); [lia|].
    iIntros "He Hr". iApply ("HQ" with "He"). iFrame.
  - iApply wpm_ret. iApply ("HQ" with "He"). iFrame.
Qed.

Lemma wpm_nfind head fuel elm k t Q :
  (height t <= fuel)%nat ->
  tree_at head t -∗ node_fd elm ↦ k -∗
  (tree_at head t -∗ node_fd elm ↦ k -∗ Q (nfind k t [])) -∗
  wpm (RB_NFIND fuel head elm) Q.
Proof.
  iIntros (Hf) "[Hh Ht] He HQ". unfold RB_NFIND. wpm_step.
  iApply (wpm_nfind_descend _ _ _ _ _ [] with "He Ht"); [done|].
  iIntros "He Ht". iApply ("HQ" with "[$Hh $Ht] He").
Qed.

(** [RB_MIN] and [RB_MAX] *)
Lemma wpm_minmax head fuel val t Q :
  (height t <= fuel)%nat ->
  tree_at head t -∗
  (tree_at head t -∗ Q (outermost (if val <? 0 then L else R) t)) -∗
  wpm (RB_MINMAX fuel head val) Q.
Proof.
  iIntros (Hf) "[Hh Ht] HQ". unfold RB_MINMAX. wpm_step. destruct (tree_nil t) as [->|Hn].
  - rw Z.eqb_refl. iApply wpm_ret. iApply "HQ". iFrame.
  - iDestruct (root_not_null with "Ht") as %->; [done|].
    iApply (wpm_outermost with "Ht"); [done|done|]. iIntros "Ht". iApply "HQ". iFrame.
Qed.

(** [RB_NEXT] and [RB_PREV] *)
Lemma wpm_climb head d c t fuel Q :
  t <> Nil -> (length c < fuel)%nat ->
  tree_below (up_of c) t -∗ context_at head c (root t) -∗
  (tree_below (up_of c) t -∗ context_at head c (root t) -∗ Q (climb d c)) -∗
  wpm (rb_climb fuel d (root t)) Q.
Proof.
  revert t fuel. induction c as [|[d' p kp xp yp op] c IH]; intros t fuel Ht Hf;
    iIntros "Ht Hc HQ"; (destruct fuel as [|fuel]; [lia|]); cbn [rb_climb climb].
  { destruct t as [|a k bl br l r]; [done|]. iDestruct "Ht" as "(Ha & Hlr)".
    call wpm_parent on "Ha". rw Z.eqb_refl. iApply wpm_ret. iApply ("HQ" with "[$Ha $Hlr] Hc"). }
  dview d' t; [|done]. rw tree_below_mk root_mk.
  iDestruct "Ht" as "(Ha & Hs & Ho)". iDestruct "Hc" as "(Hp & Hop & Hc)".
  iDestruct (node_facts with "Hp") as %[[Hp0 _] _]. cbn [up_of].
  call wpm_parent on "Ha". rw (proj2 (Z.eqb_neq p NULL)) //.
  iDestruct (node_not_root with "Ha Hop") as %Hne.
  assert (d' = d \/ d' = opp d) as [->| ->] by by destruct d, d'; auto.
  - call wpm_child_opp on "Hp". rw (proj2 (Z.eqb_neq z _)) //.
    replace (match d with L => _ | R => _ end) with p by by destruct d.
    iApply wpm_ret. iApply ("HQ" with "[$Ha $Hs $Ho]"). iFrame.
  - call wpm_child on "Hp". rw Z.eqb_refl.
    specialize (IH (mk (opp d) p kp xp yp (mk (opp d) z z0 b b0 t0 t1) op) fuel).
    rw tree_below_mk !root_mk mk_Nil tree_below_mk in IH.
    iApply (IH with "[$Hp $Hop $Ha $Hs $Ho] Hc"); [tauto|cbn in Hf; lia|].
    iIntros "(Hp & (Ha & Hs & Ho) & Hop) Hc".
    replace (match d with L => _ | R => _ end) with (climb d c) by by destruct d.
    iApply ("HQ" with "[$Ha $Hs $Ho]"). iFrame.
Qed.

Lemma wpm_rb_step head d c t fuel Q :
  t <> Nil -> (height t + length c < fuel)%nat ->
  tree_below (up_of c) t -∗ context_at head c (root t) -∗
  (tree_below (up_of c) t -∗ context_at head c (root t) -∗ Q (tree_step d t c)) -∗
  wpm (rb_step d fuel (root t)) Q.
Proof.
  iIntros (Ht Hf) "Ht Hc HQ". unfold rb_step, tree_step. dview d t; [|done].
  rw tree_below_mk root_mk. iDestruct "Ht" as "(Ha & Hs & Ho)". call wpm_child_opp on "Ha".
  assert (height t1 < height (mk d z z0 b b0 t0 t1))%nat as Hh by (destruct d; cbn; lia).
  destruct (tree_nil t1) as [->|Hn].
  2: { iDestruct (root_not_null with "Ho") as %->; [done|]. cbn [negb].
       iApply (wpm_outermost with "Ho"); [done|lia|]. iIntros "Ho".
       replace (match t1 with Nil => _ | _ => _ end) with (outermost d t1) by by destruct t1.
       iApply ("HQ" with "[$Ha $Hs $Ho] Hc"). }
  cbn [root]. rw Z.eqb_refl. cbn [negb].
  pose proof (wpm_climb head d c (mk d z z0 b b0 t0 Nil) fuel Q) as Hclimb.
  rw tree_below_mk !root_mk mk_Nil in Hclimb. call wpm_parent on "Ha".
  destruct c as [|[d' p kp xp yp op] c]; cbn [up_of].
  { rw Z.eqb_refl. iApply (Hclimb with "[$Ha $Hs $Ho] Hc HQ"); [tauto|lia]. }
  iDestruct "Hc" as "(Hp & Hop & Hc)". iDestruct (node_facts with "Hp") as %[[Hp0 _] _].
  rw (proj2 (Z.eqb_neq p NULL)) //. iDestruct (node_not_root with "Ha Hop") as %Hne.
  assert (d' = d \/ d' = opp d) as [->| ->] by by destruct d, d'; auto.
  - call wpm_child on "Hp". rw Z.eqb_refl. iApply wpm_ret. cbn [climb].
    replace (match d with L => _ | R => _ end) with p by by destruct d.
    iApply ("HQ" with "[$Ha $Hs $Ho]"). iFrame.
  - iDestruct (node_unflip with "Hp") as "Hp". call wpm_child on "Hp".
    rw (proj2 (Z.eqb_neq z _)) //. iDestruct (node_flip with "Hp") as "Hp".
    iApply (Hclimb with "[$Ha $Hs $Ho] [$Hp $Hop $Hc] HQ"); [tauto|lia].
Qed.
End Heap.
