(* ===== verification/RbMap.v ===== *)
(** * The tree macros implement a map

    [holds h head m]: the memory [h] holds, at [head], a rank-balanced search tree with the
    nodes of [m], a map from keys (descriptors) to the addresses of nodes.  The theorems say
    what each macro does to such a memory and that it touches nothing else; [rb_run_refines]
    says it for whole runs.  [EpollCtx] uses such a map for [registered_fds]. *)

From S2P Require Export RbHeap.

(** ** Trees in a memory *)

Definition node_words (a : ptr) : list ptr := [rb_child L a; rb_child R a; rb_up a; node_fd a].

Fixpoint tree_cells (up : ptr) (t : tree) : list (ptr * Z) :=
  match t with
  | Nil => []
  | Node a k bl br l r =>
      (rb_child L a, root l) :: (rb_child R a, root r) :: (rb_up a, up_word L up bl br) ::
      (node_fd a, k) :: tree_cells a l ++ tree_cells a r
  end.

Definition all_cells (head : ptr) (t : tree) : list (ptr * Z) := (head, root t) :: tree_cells NULL t.

Fixpoint nodes_ok (t : tree) : Prop :=
  match t with Nil => True | Node a _ _ _ l r => node_ptr a /\ nodes_ok l /\ nodes_ok r end.

Definition holds (h : mem) (head : ptr) (m : gmap Z ptr) : Prop :=
  exists t, search_tree t /\ nodes_ok t /\ tree_map t = m /\ stored (all_cells head t) h.

(** The words that belong to the tree with the nodes [m]. *)
Definition tree_word (head : ptr) (m : gmap Z ptr) (p : ptr) : Prop :=
  p = head \/ exists k a, m !! k = Some a /\ p ∈ node_words a.

(** A node with key [k] that is not in the tree. *)
Definition loose_in (h : mem) (head : ptr) (m : gmap Z ptr) (a k : Z) : Prop :=
  node_ptr a /\ h !! node_fd a = Some k /\
  forall p, p ∈ node_words a -> is_Some (h !! p) /\ ~ tree_word head m p.

(** Rounds that are enough for every loop on the tree. *)
Definition enough (fuel : nat) (m : gmap Z ptr) : Prop :=
  2 * Z.log2 (Z.of_nat (size m) + 1) < Z.of_nat fuel.

Lemma inorder_count t : Z.of_nat (length (inorder t)) = count t.
Proof. induction t; cbn; [done|]. rw length_app. cbn. lia. Qed.

Lemma ordered_NoDup t : ordered t -> NoDup (inorder t).*1.
Proof.
  unfold ordered. generalize (inorder t).*1. intros l. induction 1 as [|k l Hl IH Hk]; constructor; [|done].
  intros H. apply (proj1 (Forall_forall _ _) Hk) in H. lia.
Qed.

Lemma inorder_map t k a : ordered t -> (k, a) ∈ inorder t <-> tree_map t !! k = Some a.
Proof. intros H. apply elem_of_list_to_map. by apply ordered_NoDup. Qed.

Lemma enough_height fuel t :
  search_tree t -> enough fuel (tree_map t) -> (height t < fuel)%nat.
Proof.
  intros [Hb Ho] Hf. apply balanced_height in Hb. unfold enough, tree_map in Hf.
  rewrite ->map_size_list_to_map in Hf; [|by apply ordered_NoDup].
  rewrite ->inorder_count in Hf. lia.
Qed.

(** ** The words of a tree *)

Lemma tree_cells_words up t p :
  p ∈ (tree_cells up t).*1 <-> exists k a, (k, a) ∈ inorder t /\ p ∈ node_words a.
Proof.
  revert up. induction t as [|a k bl br l IHl r IHr]; intros up; cbn [tree_cells inorder].
  { split; [by intros ?%elem_of_nil|]. intros (k & a & H & _). by apply elem_of_nil in H. }
  rw !fmap_cons fmap_app !elem_of_cons elem_of_app IHl IHr. cbn [fst]. split.
  - intros [->|[->|[->|[->|[(k' & a' & ? & ?)|(k' & a' & ? & ?)]]]]];
      [exists k, a|exists k, a|exists k, a|exists k, a|exists k', a'|exists k', a']; set_solver.
  - intros (k' & a' & H & Hp). apply elem_of_app in H as [H|[[= -> ->]|H]%elem_of_cons]; [|set_solver|].
    + do 4 right. left. eauto.
    + do 5 right. eauto.
Qed.

Lemma tree_cells_word head t p :
  ordered t -> p ∈ (all_cells head t).*1 <-> tree_word head (tree_map t) p.
Proof.
  intros Ho. unfold all_cells, tree_word. rw fmap_cons elem_of_cons tree_cells_words.
  by setoid_rewrite inorder_map.
Qed.

Section Cells.
Context `{!memG Σ}.

Lemma tree_below_cells up t :
  aligned up -> nodes_ok t -> cells (tree_cells up t) ⊢ tree_below up t.
Proof.
  revert up. induction t as [|a k bl br l IHl r IHr]; intros up Hup Hok; [by iIntros "_"|].
  destruct Hok as (Ha & Hl & Hr). cbn [tree_cells tree_below].
  rw !cells_cons cells_app IHl; [|by destruct Ha|done]. rw IHr; [|by destruct Ha|done].
  unfold node. iIntros "($ & $ & $ & $ & $ & $)". done.
Qed.

Lemma cells_tree_below up t : tree_below up t ⊢ cells (tree_cells up t) ∗ ⌜nodes_ok t⌝.
Proof.
  revert up. induction t as [|a k bl br l IHl r IHr]; intros up; cbn [tree_cells tree_below].
  { iIntros "_". by rw /cells /=. }
  rw !cells_cons cells_app IHl IHr. iIntros "(($ & $ & $ & $ & %H) & ($ & %) & ($ & %))".
  iPureIntro. cbn. tauto.
Qed.
End Cells.

(** A function that works on a tree and on some further words. *)
Lemma run_tree {A} (m : M mem A) h head t extra (P : A -> tree -> list (ptr * Z) -> Prop) :
  stored (all_cells head t ++ extra) h -> nodes_ok t ->
  (forall (Σ : gFunctors) (G : memG Σ), tree_at head t ∗ cells extra ⊢
     WP m {{ a, ∃ t' extra', ⌜P a t' extra'⌝ ∗ tree_at head t' ∗ cells extra' }}) ->
  exists a h' t' extra', m h = Done a h' /\ P a t' extra' /\ nodes_ok t' /\
    stored (all_cells head t' ++ extra') h' /\
    (forall p, p ∉ (all_cells head t ++ extra).*1 -> h' !! p = h !! p).
Proof.
  intros Hst Hok Hm.
  destruct (wpm_run m (all_cells head t ++ extra) h (fun a l => exists t' extra',
      P a t' extra' /\ nodes_ok t' /\ l = all_cells head t' ++ extra') Hst)
    as (a & h' & l' & Hrun & (t' & extra' & HP & Hok' & ->) & Hst' & Hframe & _).
  - intros Σ G. rw cells_app cells_cons tree_below_cells //. rw Hm. iIntros "Hm".
    iApply (wpm_wand with "Hm"). iIntros (a) "(%t' & %extra' & %HP & [Hh Ht] & He)".
    rw cells_tree_below. iDestruct "Ht" as "[Ht %Hok']".
    iExists (all_cells head t' ++ extra'). rw cells_app cells_cons. iFrame. iPureIntro. eauto.
  - by exists a, h', t', extra'.
Qed.

(** A function that only reads. *)
Lemma run_reader {A} (m : M mem A) h head t extra (a : A) :
  stored (all_cells head t ++ extra) h -> nodes_ok t ->
  (forall (Σ : gFunctors) (G : memG Σ) (Q : A -> iProp Σ),
     tree_at head t -∗ cells extra -∗ (tree_at head t -∗ cells extra -∗ Q a) -∗ wpm m Q) ->
  m h = Done a h.
Proof.
  intros Hst Hok Hm.
  destruct (run_tree m h head t extra (fun a' t' e' => a' = a /\ t' = t /\ e' = extra) Hst Hok)
    as (a' & h' & t' & e' & Hrun & (-> & -> & ->) & _ & Hst' & Hrest).
  - intros Σ G. iIntros "[Ht He]". iApply (Hm with "Ht He"). iIntros "Ht He". iExists t, extra. by iFrame.
  - by rw Hrun (stored_agree _ _ _ Hst Hst' Hrest).
Qed.

Definition node_cells (a l r u k : Z) : list (ptr * Z) :=
  [(rb_child L a, l); (rb_child R a, r); (rb_up a, u); (node_fd a, k)].

Lemma node_cells_words a l r u k : (node_cells a l r u k).*1 = node_words a.
Proof. done. Qed.

Lemma node_words_NoDup a : NoDup (node_words a).
Proof.
  unfold node_words, rb_child, rb_up, node_fd.
  repeat constructor; rw ?elem_of_cons ?elem_of_nil; lia.
Qed.

Lemma loose_stored h head t a k :
  ordered t -> stored (all_cells head t) h -> loose_in h head (tree_map t) a k ->
  exists l r u, stored (all_cells head t ++ node_cells a l r u k) h.
Proof.
  intros Ho Hst (Hn & Hk & Hw).
  destruct (proj1 (Hw (rb_child L a) ltac:(set_solver))) as [l Hl].
  destruct (proj1 (Hw (rb_child R a) ltac:(set_solver))) as [r Hr].
  destruct (proj1 (Hw (rb_up a) ltac:(set_solver))) as [u Hu].
  exists l, r, u. apply stored_app; [done| |].
  - split; [apply node_words_NoDup|].
    intros p v H. unfold node_cells in H. rewrite ->!elem_of_cons, elem_of_nil in H. naive_solver.
  - intros p Hp. rw node_cells_words. intros Hin. apply (Hw p Hin). by apply tree_cells_word.
Qed.

(** The key word of a search key. *)
Definition key_at (h : mem) (head : ptr) (m : gmap Z ptr) (elm k : Z) : Prop :=
  h !! node_fd elm = Some k /\ ~ tree_word head m (node_fd elm).

Lemma key_stored h head t elm k :
  ordered t -> stored (all_cells head t) h -> key_at h head (tree_map t) elm k ->
  stored (all_cells head t ++ [(node_fd elm, k)]) h.
Proof.
  intros Ho Hst [Hk Hw]. apply stored_app; [done| |].
  - split; [apply NoDup_singleton|]. intros p v H. set_solver.
  - intros p Hp Hp'. apply Hw. apply tree_cells_word in Hp; [|done]. set_solver.
Qed.

Lemma loose_key h head m a k : loose_in h head m a k -> key_at h head m a k.
Proof. intros (_ & Hk & Hw). split; [done|]. apply Hw. set_solver. Qed.

Ltac open H := destruct H as (t & Hs & Hok & <- & Hst); pose proof (proj2 Hs) as Ho.

Lemma root_descend k t : ordered t -> root (descend k t []).1 = default NULL (tree_map t !! k).
Proof.
  intros Ho. destruct (tree_map t !! k) as [a|] eqn:Hk.
  - destruct (descend_found _ _ _ Ho Hk) as (bl & br & l & r & c & -> & _). done.
  - destruct (descend_missing _ _ Ho Hk) as (c & -> & _). done.
Qed.

(** ** The operations *)

(** RB_FIND looks the key up in the map, and reads only. *)
Theorem rb_find_lookup fuel h head m elm k :
  holds h head m -> key_at h head m elm k -> enough fuel m ->
  RB_FIND fuel head elm h = Done (default NULL (m !! k)) h.
Proof.
  intros H Hk Hf. open H. pose proof (enough_height _ _ Hs Hf).
  rw -root_descend //. eapply run_reader; [by apply key_stored|done|].
  intros Σ G Q. rw cells_one. iIntros "Ht He HQ". iApply (wpm_find with "Ht He HQ"). lia.
Qed.

(** RB_INSERT of a node whose key is new adds it; only words of the tree and of the node change. *)
Theorem rb_insert_new fuel h head m a k :
  holds h head m -> m !! k = None -> loose_in h head m a k -> enough fuel m ->
  exists h', RB_INSERT fuel head a h = Done NULL h' /\ holds h' head (<[k := a]> m) /\
    (forall p, ~ tree_word head (<[k := a]> m) p -> h' !! p = h !! p).
Proof.
  intros H Hk Hl Hf. open H. pose proof (enough_height _ _ Hs Hf) as Hh.
  destruct (loose_stored _ _ _ _ _ Ho Hst Hl) as (l & r & u & Hst').
  destruct (descend_missing _ _ Ho Hk) as (c & Hd & Ht & Hsplit).
  assert (length c < fuel)%nat as Hc by (pose proof (height_plug Nil c); rewrite ->Ht in Hh; cbn in *; lia).
  destruct (tree_insert_repairs a k c) as (t' & Hfix & Hs' & Hm & _); [by rw -Ht|done|]. rewrite <-Ht in Hm.
  destruct (run_tree (RB_INSERT fuel head a) h head t (node_cells a l r u k)
      (fun v t1 e => v = NULL /\ t1 = t' /\ e = []) Hst' Hok)
    as (v & h' & t1 & e & Hrun & (-> & -> & ->) & Hok' & Hst1 & Hrest).
  - intros Σ G. unfold node_cells. rw !cells_cons. iIntros "(Ht & Hl & Hr & Hu & Hk & _)".
    iApply (wpm_insert head fuel a k t c t' with "Ht [Hl Hr Hu Hk]"); [by destruct Hl|lia|done..| |].
    { iExists l, r, u. iFrame. }
    iIntros "Ht". iExists t', []. iFrame. iSplit; [done|]. iApply cells_nil.
  - exists h'. split; [done|]. split; [exists t'; rewrite ->app_nil_r in Hst1; by rw -Hm|].
    intros p Hp. apply Hrest. rw fmap_app elem_of_app tree_cells_word // node_cells_words.
    intros [Hin|Hin]; apply Hp; [|right; exists k, a; by rw lookup_insert_eq].
    destruct Hin as [->|(k' & b & Hb & Hin)]; [by left|]. right. exists k', b.
    rw lookup_insert_ne; [done|]. intros ->. by rewrite ->Hb in Hk.
Qed.

(** RB_INSERT of a node whose key is taken returns the node that has it, and changes nothing. *)
Theorem rb_insert_taken fuel h head m a k b :
  holds h head m -> m !! k = Some b -> key_at h head m a k -> enough fuel m ->
  RB_INSERT fuel head a h = Done b h.
Proof.
  intros H Hb Hk Hf. open H. pose proof (enough_height _ _ Hs Hf).
  destruct (descend_found _ _ _ Ho Hb) as (bl & br & l & r & c & Hd & Ht).
  eapply run_reader; [by apply key_stored|done|].
  intros Σ G Q. rw cells_one. iIntros "Ht He HQ".
  iApply (wpm_insert_found with "Ht He HQ"); [lia|done|done].
Qed.

Lemma nodes_ok_plug t c : nodes_ok (plug t c) -> nodes_ok t.
Proof.
  revert t. induction c as [|[d a k x y o] c IH]; intros t; cbn [plug]; [done|].
  intros H%IH. destruct d; cbn in H; tauto.
Qed.

(** RB_REMOVE takes the node out; its words are its own again. *)
Theorem rb_remove_delete fuel h head m a k :
  holds h head m -> m !! k = Some a -> enough fuel m ->
  exists h', RB_REMOVE fuel head a h = Done a h' /\ holds h' head (delete k m) /\
    loose_in h' head (delete k m) a k /\
    (forall p, ~ tree_word head m p -> h' !! p = h !! p).
Proof.
  intros H Ha Hf. open H. pose proof (enough_height _ _ Hs Hf) as Hh.
  destruct (descend_found _ _ _ Ho Ha) as (bl & br & l & r & c & _ & Ht).
  pose proof (height_plug (Node a k bl br l r) c) as Hp. rewrite <-Ht in Hp. cbn [height] in Hp.
  destruct (tree_remove_repairs a k bl br l r c) as (t' & Hrem & Hs' & Hm & _); [by rw -Ht|].
  rewrite <-Ht in Hm.
  assert (stored (all_cells head t ++ []) h) as Hst' by by rw app_nil_r.
  destruct (run_tree (RB_REMOVE fuel head a) h head t []
      (fun v t1 e => v = a /\ t1 = t' /\ exists l r u, e = node_cells a l r u k) Hst' Hok)
    as (v & h' & t1 & e & Hrun & (-> & -> & (nl & nr & nu & ->)) & Hok' & Hst1 & Hrest).
  - intros Σ G. rw Ht tree_at_plug. iIntros "[[Ht Hc] _]".
    iApply (wpm_remove with "Ht Hc"); [done|lia|].
    iIntros "(%nl & %nr & %nu & Hl & Hr & Hu & Hk) Ht". iExists t', (node_cells a nl nr nu k).
    iFrame "Ht". iSplit; [iPureIntro; eauto 10|]. unfold node_cells. rw !cells_cons. iFrame.
    iApply cells_nil.
  - exists h'. destruct Hst1 as [Hd Hc].
    assert (holds h' head (delete k (tree_map t))) as Hh'.
    { exists t'. split_and!; [done|done|done|]. split; [|intros p v Hin; apply Hc; set_solver].
      rewrite ->fmap_app in Hd. by apply NoDup_app in Hd as [? _]. }
    split_and!; [done|done| |].
    + split_and!; [|apply Hc, elem_of_app; right; unfold node_cells; do 3 right; by left|].
      { rewrite ->Ht in Hok. by apply nodes_ok_plug in Hok as [? _]. }
      intros p Hin. split.
      * assert (exists v, (p, v) ∈ node_cells a nl nr nu k) as [v Hv].
        { rewrite <-(node_cells_words a nl nr nu k) in Hin.
          apply list_elem_of_fmap in Hin as ([q v] & -> & ?). by exists v. }
        exists v. apply Hc. set_solver.
      * rw -Hm. intros Hw. apply (tree_cells_word head t' p) in Hw; [|by destruct Hs'].
        rewrite ->fmap_app in Hd. apply NoDup_app in Hd as (_ & Hdis & _). by apply (Hdis p).
    + intros p Hno. apply Hrest. rw app_nil_r tree_cells_word //.
Qed.

(** ** Neighbours *)

(** [k'] lies beyond [k], seen from side [d]. *)
Definition past (d : dir) (k k' : Z) : Prop := match d with L => k < k' | R => k' < k end.

(** [a] is the first node with a key that satisfies [P], seen from side [d], or NULL if there is
    none. *)
Definition nearest (d : dir) (m : gmap Z ptr) (P : Z -> Prop) (a : ptr) : Prop :=
  (a = NULL /\ forall k b, m !! k = Some b -> ~ P k) \/
  (exists k, m !! k = Some a /\ P k /\ forall k' b, m !! k' = Some b -> P k' -> k = k' \/ past d k k').

Lemma sided_map d t k a : ordered t -> (k, a) ∈ sided d t <-> tree_map t !! k = Some a.
Proof.
  intros Ho. rw -inorder_map //. destruct d; [done|].
  cbn. by rw !list_elem_of_In -in_rev.
Qed.

Lemma past_rev l : StronglySorted Z.lt l -> StronglySorted (past R) (rev l).
Proof.
  induction 1 as [|k l Hl IH Hk]; cbn; [constructor|].
  assert (forall l', Forall (fun k' => past R k' k) l' -> StronglySorted (past R) l' ->
          StronglySorted (past R) (l' ++ [k])) as Happ.
  { clear. induction l' as [|k' l' IH]; intros Hf Hs; cbn; [by repeat constructor|].
    apply Forall_cons in Hf as [Hk Hf]. apply StronglySorted_inv in Hs as [Hs Hk'].
    constructor; [by apply IH|]. apply Forall_app. by repeat constructor. }
  apply Happ; [|done]. by apply Forall_rev.
Qed.

Lemma sided_sorted d t : ordered t -> StronglySorted (past d) (sided d t).*1.
Proof.
  intros Ho. destruct d; [done|]. cbn. change (rev (inorder t)).*1 with (map fst (rev (inorder t))). rw map_rev. by apply past_rev.
Qed.

Lemma past_split d k a (X Y : list (Z * Z)) :
  StronglySorted (past d) (X ++ (k, a) :: Y).*1 ->
  Forall (fun k' => past d k' k) X.*1 /\ Forall (past d k) Y.*1.
Proof.
  rw fmap_app fmap_cons. cbn [fst]. generalize X.*1 Y.*1. clear. intros X Y.
  induction X as [|k' X IH]; cbn.
  - by intros [_ ?]%StronglySorted_inv.
  - intros [[? ?]%IH Hf]%StronglySorted_inv. split; [|done]. constructor; [|done].
    by apply Forall_app in Hf as [_ [? _]%Forall_cons].
Qed.

Lemma nearest_suffix d t (P : Z -> Prop) (X Y : list (Z * Z)) :
  ordered t -> sided d t = X ++ Y ->
  Forall (fun k => ~ P k) X.*1 -> Forall P Y.*1 -> nearest d (tree_map t) P (first_addr Y).
Proof.
  intros Ho HS HX HY. pose proof (sided_sorted d t Ho) as Hs. rw HS in Hs.
  assert (forall k b, tree_map t !! k = Some b -> (k, b) ∈ X \/ (k, b) ∈ Y) as Hin.
  { intros k b H. apply elem_of_app. rw -HS. by apply sided_map. }
  assert (forall k b, (k, b) ∈ X -> ~ P k) as HX'.
  { intros k b H. apply (proj1 (Forall_forall _ _) HX). apply list_elem_of_fmap. by exists (k, b). }
  destruct Y as [|[k a] Y].
  - left. split; [done|]. intros k b [H|H]%Hin; [by eapply HX'|by apply elem_of_nil in H].
  - right. exists k. apply past_split in Hs as [_ Hp]. split_and!.
    + apply (sided_map d); [done|]. rw HS. set_solver.
    + by apply Forall_cons in HY as [? _].
    + intros k' b [H|[[= -> ->]|H]%elem_of_cons]%Hin HP; [by apply HX' in H|by left|right].
      apply (proj1 (Forall_forall _ _) Hp). apply list_elem_of_fmap. by exists (k', b).
Qed.

(** What lies before a context, seen from side [d]. *)
Definition behind (d : dir) (c : ctx) : list (Z * Z) :=
  match d with L => before c | R => rev (after c) end.

Lemma sided_plug d t c : sided d (plug t c) = behind d c ++ sided d t ++ beyond d c.
Proof. destruct d; cbn; rw inorder_plug; [done|]. by rw !rev_app_distr app_assoc. Qed.

(** RB_NEXT (at [L]) and RB_PREV (at [R]) of a node of the tree: the node with the next key, or
    NULL at the end; they only read. *)
Theorem rb_step_nearest d fuel h head m a k :
  holds h head m -> m !! k = Some a -> enough fuel m ->
  exists r, rb_step d fuel a h = Done r h /\ nearest d m (past d k) r.
Proof.
  intros H Ha Hf. open H. pose proof (enough_height _ _ Hs Hf) as Hh.
  destruct (descend_found _ _ _ Ho Ha) as (bl & br & l & r & c & _ & Ht).
  pose proof (height_plug (Node a k bl br l r) c) as Hp. rewrite <-Ht in Hp.
  assert (exists x y s o, Node a k bl br l r = mk d a k x y s o) as (x & y & s & o & Hmk).
  { destruct d; [by exists bl, br, l, r|by exists br, bl, r, l]. }
  exists (tree_step d (mk d a k x y s o) c). split.
  - eapply (run_reader _ _ head t []); [by rw app_nil_r|done|].
    intros Σ G Q. rw Ht tree_at_plug. iIntros "[Ht Hc] He HQ".
    iApply (wpm_rb_step head d c (Node a k bl br l r) with "Ht Hc"); [done|lia|].
    iIntros "Ht Hc". rw -Hmk. iApply ("HQ" with "[$Ht $Hc] He").
  - rw tree_step_first. rewrite ->Ht, Hmk in Ho. rw Ht Hmk.
    assert (sided d (plug (mk d a k x y s o) c) =
            (behind d c ++ sided d s) ++ (k, a) :: (sided d o ++ beyond d c)) as Hsd.
    { by rw sided_plug sided_mk -!app_assoc. }
    pose proof (sided_sorted d _ Ho) as Hsort. rewrite ->Hsd in Hsort.
    apply past_split in Hsort as [Hb Hn].
    apply (nearest_suffix d _ _ ((behind d c ++ sided d s) ++ [(k, a)])); [done| | |done].
    + by rw -app_assoc Hsd.
    + rw fmap_app. apply Forall_app. split.
      * eapply Forall_impl; [done|]. intros k'. destruct d; cbn; lia.
      * repeat constructor. destruct d; cbn; lia.
Qed.

(** RB_MIN (a negative [val]) and RB_MAX: the node with the least or the greatest key. *)
Theorem rb_minmax_nearest fuel h head m val :
  holds h head m -> enough fuel m ->
  exists r, RB_MINMAX fuel head val h = Done r h /\
            nearest (if val <? 0 then L else R) m (fun _ => True) r.
Proof.
  intros H Hf. open H. pose proof (enough_height _ _ Hs Hf).
  set (d := if val <? 0 then L else R). exists (outermost d t). split.
  - eapply (run_reader _ _ head t []); [by rw app_nil_r|done|].
    intros Σ G Q. iIntros "Ht He HQ". iApply (wpm_minmax with "Ht"); [lia|].
    iIntros "Ht". iApply ("HQ" with "Ht He").
  - rw outermost_first. apply (nearest_suffix d t _ []); [done|done|constructor|by apply Forall_true].
Qed.

(** RB_NFIND: the node with the least key that is not less than the one asked for. *)
Theorem rb_nfind_nearest fuel h head m elm k :
  holds h head m -> key_at h head m elm k -> enough fuel m ->
  exists r, RB_NFIND fuel head elm h = Done r h /\ nearest L m (fun k' => k <= k') r.
Proof.
  intros H Hk Hf. open H. pose proof (enough_height _ _ Hs Hf).
  exists (nfind k t []). split.
  - eapply run_reader; [by apply key_stored|done|].
    intros Σ G Q. rw cells_one. iIntros "Ht He HQ". iApply (wpm_nfind with "Ht He HQ"). lia.
  - unfold nfind. destruct (tree_map t !! k) as [a|] eqn:Ha.
    + destruct (descend_found _ _ _ Ho Ha) as (bl & br & l & r & c & -> & _). right. exists k.
      cbn. split_and!; [done|lia|]. intros k' b _ ?. destruct (Z.eq_dec k k'); [by left|right; lia].
    + destruct (descend_missing _ _ Ho Ha) as (c & -> & Ht & [Hlt Hgt]). rw climb_first.
      apply (nearest_suffix L t _ (before c)); [done|by rw {1}Ht sided_plug| |].
      * eapply Forall_impl; [done|]. intros; cbn in *; lia.
      * eapply Forall_impl; [done|]. intros; cbn in *; lia.
Qed.

(** ** Traversal *)

Lemma inorder_in_order t : ordered t -> inorder t = in_order (tree_map t).
Proof.
  intros Ho. apply (StronglySorted_unique_strong key_le).
  - intros [k a] [k' a'] H H'%in_order_elem Hle Hle'. apply inorder_map in H; [|done].
    unfold key_le in *. cbn in *. assert (k = k') as <- by lia. congruence.
  - unfold ordered in Ho. induction (inorder t) as [|[k a] l IH]; [constructor|].
    cbn in Ho. apply StronglySorted_inv in Ho as [Hs Hk]. constructor; [by apply IH|].
    apply Forall_forall. intros [k' a'] Hin. unfold key_le. cbn.
    assert (k < k'); [|lia]. apply (proj1 (Forall_forall _ _) Hk). apply list_elem_of_fmap. by exists (k', a').
  - unfold in_order. apply StronglySorted_merge_sort; apply _.
  - rw in_order_permutation. apply NoDup_Permutation.
    + apply (NoDup_fmap_1 fst). by apply ordered_NoDup.
    + apply NoDup_map_to_list.
    + intros [k a]. by rw elem_of_map_to_list inorder_map.
Qed.

Lemma nearest_unique d m P a b :
  (forall k c, m !! k = Some c -> c <> NULL) -> nearest d m P a -> nearest d m P b -> a = b.
Proof.
  intros Hn [[-> Ha]|(k & Hk & HP & Hmin)] [[-> Hb]|(k' & Hk' & HP' & Hmin')]; [done| | |].
  - by destruct (Ha _ _ Hk').
  - by destruct (Hb _ _ Hk).
  - destruct (Hmin _ _ Hk' HP') as [->|H1]; [congruence|].
    destruct (Hmin' _ _ Hk HP) as [->|H2]; [congruence|]. destruct d; cbn in *; lia.
Qed.

Lemma holds_node_ptr h head m k a : holds h head m -> m !! k = Some a -> node_ptr a.
Proof.
  intros H Ha. open H. destruct (descend_found _ _ _ Ho Ha) as (bl & br & l & r & c & _ & Ht).
  rewrite ->Ht in Hok. by apply nodes_ok_plug in Hok as [? _].
Qed.

Lemma holds_key h head m k a : holds h head m -> m !! k = Some a -> h !! node_fd a = Some k.
Proof.
  intros H Ha. open H. apply inorder_map in Ha; [|done]. destruct Hst as [_ Hc]. apply Hc. right.
  clear -Ha. generalize NULL. induction t as [|b kb bl br l IHl r IHr]; intros up; cbn [tree_cells inorder] in *.
  { by apply elem_of_nil in Ha. }
  do 3 right. apply elem_of_app in Ha as [Ha|[[= -> ->]|Ha]%elem_of_cons]; [|by left|]; right; apply elem_of_app.
  - left. by apply IHl.
  - right. by apply IHr.
Qed.

Lemma fd_cmp_run h head m k k' a b :
  holds h head m -> m !! k = Some a -> m !! k' = Some b ->
  fd_cmp a b h = Done (if k <? k' then -1 else if k' <? k then 1 else 0) h.
Proof.
  intros Hh Ha Hb. unfold fd_cmp, bind, load. by rw (holds_key _ _ _ _ _ Hh Ha) (holds_key _ _ _ _ _ Hh Hb).
Qed.

(** RB_REINSERT leaves a node alone that stands between its neighbours. *)
Lemma rb_reinsert_in_place fuel h head m a k :
  holds h head m -> m !! k = Some a -> enough fuel m -> RB_REINSERT fuel head a h = Done NULL h.
Proof.
  intros Hh Ha Hf.
  destruct (rb_step_nearest R fuel h head m a k Hh Ha Hf) as (p & Hp & Hprev).
  destruct (rb_step_nearest L fuel h head m a k Hh Ha Hf) as (n & Hn & Hnext).
  assert ((let* next := RB_NEXT fuel a in
           if next =? NULL then ret false else let* c := fd_cmp a next in ret (0 <=? c)) h = Done false h) as Hok.
  { unfold RB_NEXT, bind. rw Hn. destruct Hnext as [[-> _]|(kn & Hkn & Hgt & _)]; [done|].
    destruct (holds_node_ptr _ _ _ _ _ Hh Hkn) as [Hne _]. rw (proj2 (Z.eqb_neq n NULL)) //.
    by rw (fd_cmp_run _ _ _ _ _ _ _ Hh Ha Hkn) (proj2 (Z.ltb_lt k kn)). }
  unfold RB_REINSERT, RB_PREV. unfold bind at 1. rw Hp.
  destruct Hprev as [[-> _]|(kp & Hkp & Hlt & _)].
  - rw Z.eqb_refl. unfold bind at 1, ret at 1. unfold bind at 1. by rw Hok.
  - destruct (holds_node_ptr _ _ _ _ _ Hh Hkp) as [Hne _]. rw (proj2 (Z.eqb_neq p NULL)) //.
    unfold bind at 1 2. rw (fd_cmp_run _ _ _ _ _ _ _ Hh Hkp Ha) (proj2 (Z.ltb_lt kp k)) //.
    unfold ret at 1. cbn [Z.leb Z.compare]. unfold bind at 1. by rw Hok.
Qed.

Lemma visit_in_order rounds fuel h head m X Y :
  holds h head m -> enough fuel m -> in_order m = X ++ Y -> (length Y <= rounds)%nat ->
  rb_visit rounds fuel (first_addr Y) h = Done Y.*2 h.
Proof.
  intros Hh Hf. revert X rounds. induction Y as [|[k a] Y IH]; intros X rounds HXY Hr.
  { destruct rounds; reflexivity. }
  assert (m !! k = Some a) as Ha by (apply in_order_elem; rw HXY; set_solver).
  destruct (holds_node_ptr _ _ _ _ _ Hh Ha) as [Hne _].
  destruct rounds as [|rounds]; [cbn in Hr; lia|]. cbn [first_addr rb_visit].
  rw (proj2 (Z.eqb_neq a NULL)) //.
  destruct (rb_step_nearest L fuel h head m a k Hh Ha Hf) as (r & Hrun & Hn).
  assert (r = first_addr Y) as ->.
  { apply (nearest_unique L m (past L k)); [intros k' b Hb; by destruct (holds_node_ptr _ _ _ _ _ Hh Hb)|done|].
    open Hh. rw -(inorder_in_order t Ho) in HXY.
    pose proof Ho as Hsort. unfold ordered in Hsort. rw HXY in Hsort.
    apply (past_split L) in Hsort as [Hb Hafter].
    apply (nearest_suffix L t _ (X ++ [(k, a)])); [done|by rw -app_assoc| |done].
    rw fmap_app. apply Forall_app. split; [|repeat constructor; cbn; lia].
    eapply Forall_impl; [done|]. intros k'. cbn. lia. }
  unfold bind at 1, RB_NEXT. rw Hrun. unfold bind. rw (IH (X ++ [(k, a)])); [done|by rw -app_assoc|cbn in Hr; lia].
Qed.

(** RB_FOREACH visits the nodes in the order of their keys and only reads. *)
Lemma rb_foreach_in_order rounds fuel h head m :
  holds h head m -> enough fuel m -> (size m <= rounds)%nat ->
  RB_FOREACH rounds fuel head h = Done (in_order m).*2 h.
Proof.
  intros Hh Hf Hr. unfold RB_FOREACH.
  destruct (rb_minmax_nearest fuel h head m (-1) Hh Hf) as (x & Hx & Hmin).
  unfold bind. rw Hx. cbn in Hmin.
  assert (x = first_addr (in_order m)) as ->.
  { apply (nearest_unique L m (fun _ => True)); [intros k' b Hb; by destruct (holds_node_ptr _ _ _ _ _ Hh Hb)|done|].
    open Hh. rw -inorder_in_order //. apply (nearest_suffix L t _ []); [done|done|by constructor|].
    apply Forall_forall. auto. }
  apply (visit_in_order rounds fuel h head m []); [done|done|done|].
  by rw in_order_permutation length_map_to_list.
Qed.

(** ** Whole runs *)

Lemma holds_init h head :
  is_Some (h !! head) -> exists h', RB_INIT head h = Done tt h' /\ holds h' head ∅ /\
    forall p, p <> head -> h' !! p = h !! p.
Proof.
  intros [v Hv]. exists (<[head := NULL]> h). unfold RB_INIT, store. rw Hv. split_and!; [done| |].
  - exists Nil. split_and!; [split; [by exists 0|constructor]|done|done|].
    split; [apply NoDup_singleton|]. intros p w [[= -> ->]|H]%elem_of_cons; [|by apply elem_of_nil in H].
    apply lookup_insert_eq.
  - intros p Hp. by apply lookup_insert_ne.
Qed.

(** A tree survives changes of other words. *)
Lemma holds_frame h h' head m :
  holds h head m -> (forall p, tree_word head m p -> h' !! p = h !! p) -> holds h' head m.
Proof.
  intros H Hsame. open H. exists t. split_and!; [done|done|done|]. destruct Hst as [Hd Hc].
  split; [done|]. intros p v Hin. rw Hsame; [by apply Hc|]. apply tree_cells_word; [done|].
  apply list_elem_of_fmap. by exists (p, v).
Qed.

(** The nodes that exist, with their keys: they do not overlap, and each is in the tree or has
    its words to itself. *)
Record pool (h : mem) (head : ptr) (N : gmap ptr Z) (m : gmap Z ptr) : Prop := {
  pool_nodes a k : N !! a = Some k -> m !! k = Some a \/ loose_in h head m a k;
  pool_tree k a : m !! k = Some a -> N !! a = Some k;
  pool_apart a b k k' p : N !! a = Some k -> N !! b = Some k' -> p ∈ node_words a -> p ∈ node_words b -> a = b;
  pool_head a k : N !! a = Some k -> head ∉ node_words a;
}.

Inductive rb_op : Type := OpInsert (a : ptr) | OpRemove (a : ptr) | OpFind (a : ptr).

Definition run_op (fuel : nat) (head : ptr) (o : rb_op) : M mem ptr :=
  match o with
  | OpInsert a => RB_INSERT fuel head a
  | OpRemove a => RB_REMOVE fuel head a
  | OpFind a => RB_FIND fuel head a
  end.

Fixpoint run_ops (fuel : nat) (head : ptr) (ops : list rb_op) : M mem (list ptr) :=
  match ops with
  | [] => ret []
  | o :: ops =>
      let* r := run_op fuel head o in
      let* rs := run_ops fuel head ops in
      ret (r :: rs)
  end.

(** The same operations on a map.  Only a node of the tree is removed; a node of the tree is not
    inserted again, nor used as a search key. *)
Definition spec_op (N : gmap ptr Z) (o : rb_op) (m : gmap Z ptr) : option (ptr * gmap Z ptr) :=
  match o with
  | OpInsert a =>
      k ← N !! a;
      match m !! k with
      | Some b => if decide (b = a) then None else Some (b, m)
      | None => Some (NULL, <[k := a]> m)
      end
  | OpRemove a => k ← N !! a; if decide (m !! k = Some a) then Some (a, delete k m) else None
  | OpFind a => k ← N !! a; if decide (m !! k = Some a) then None else Some (default NULL (m !! k), m)
  end.

Fixpoint spec_ops (N : gmap ptr Z) (ops : list rb_op) (m : gmap Z ptr) :
    option (list ptr * gmap Z ptr) :=
  match ops with
  | [] => Some ([], m)
  | o :: ops =>
      '(r, m) ← spec_op N o m;
      '(rs, m) ← spec_ops N ops m;
      Some (r :: rs, m)
  end.

(** The words that a run may change. *)
Definition pool_word (head : ptr) (N : gmap ptr Z) (p : ptr) : Prop :=
  p = head \/ exists a k, N !! a = Some k /\ p ∈ node_words a.

Lemma tree_word_pool h head N m p : pool h head N m -> tree_word head m p -> pool_word head N p.
Proof.
  intros Hp [->|(k & a & Ha & Hin)]; [by left|]. right. exists a, k. split; [|done].
  by apply (pool_tree _ _ _ _ Hp).
Qed.

Lemma pool_enough h head N m fuel : pool h head N m -> enough fuel N -> enough fuel m.
Proof.
  intros Hp Hf. assert (size m <= size N)%nat as Hle.
  { rw -!length_map_to_list -(length_fmap fst) -(length_fmap snd (map_to_list N)).
    apply submseteq_length, NoDup_submseteq; [apply NoDup_fst_map_to_list|].
    intros k ([k' a] & -> & H%elem_of_map_to_list)%list_elem_of_fmap.
    apply (pool_tree _ _ _ _ Hp) in H. apply list_elem_of_fmap. exists (a, k').
    split; [done|]. by apply elem_of_map_to_list. }
  unfold enough in *. pose proof (Z.log2_le_mono (Z.of_nat (size m) + 1) (Z.of_nat (size N) + 1)). lia.
Qed.

Lemma loose_keep h h' head m m' b k :
  loose_in h head m b k ->
  (forall p, p ∈ node_words b -> ~ tree_word head m' p /\ h' !! p = h !! p) ->
  loose_in h' head m' b k.
Proof.
  intros (Hn & Hk & Hw) Hp. split_and!; [done| |].
  - rw (proj2 (Hp (node_fd b) ltac:(set_solver))) //.
  - intros p Hin. destruct (Hp p Hin) as [? ->]. by split; [apply Hw|].
Qed.

Lemma insert_pool h h' head N m a k :
  pool h head N m -> N !! a = Some k -> m !! k = None ->
  (forall p, ~ tree_word head (<[k := a]> m) p -> h' !! p = h !! p) ->
  pool h' head N (<[k := a]> m).
Proof.
  intros Hp Ha Hk Hsame. split; [|..|apply Hp|apply Hp].
  - intros b k' Hb. destruct (pool_nodes _ _ _ _ Hp b k' Hb) as [Hin|Hl].
    + left. rw lookup_insert_ne; [done|]. intros ->. by rewrite ->Hk in Hin.
    + destruct (decide (a = b)) as [<-|Hne].
      { left. assert (k = k') as -> by congruence. apply lookup_insert_eq. }
      right. apply (loose_keep _ _ _ _ _ _ _ Hl). intros p Hin.
      assert (~ tree_word head (<[k := a]> m) p) as Hno; [|split; [done|by apply Hsame]].
      destruct Hl as (_ & _ & Hw). intros [->|(k1 & a1 & H1 & Hin1)]; [apply (Hw head Hin); by left|].
      destruct (decide (k1 = k)) as [->|Hk1].
      * rewrite ->lookup_insert_eq in H1. injection H1 as <-. apply Hne.
        by apply (pool_apart _ _ _ _ Hp a b k k' p).
      * rewrite ->lookup_insert_ne in H1; [|done]. apply (Hw p Hin). right. eauto.
  - intros k1 a1 H1. destruct (decide (k1 = k)) as [->|Hk1].
    + rewrite ->lookup_insert_eq in H1. by injection H1 as <-.
    + rewrite ->lookup_insert_ne in H1; [|done]. by apply (pool_tree _ _ _ _ Hp).
Qed.

Lemma delete_pool h h' head N m a k :
  pool h head N m -> m !! k = Some a -> loose_in h' head (delete k m) a k ->
  (forall p, ~ tree_word head m p -> h' !! p = h !! p) ->
  pool h' head N (delete k m).
Proof.
  intros Hp Ha Hloose Hsame. split; [|..|apply Hp|apply Hp].
  - intros b k' Hb. destruct (pool_nodes _ _ _ _ Hp b k' Hb) as [Hin|Hl].
    + destruct (decide (k = k')) as [<-|Hne]; [|left; by rw lookup_delete_ne].
      right. by assert (a = b) as <- by congruence.
    + right. apply (loose_keep _ _ _ _ _ _ _ Hl). intros p Hin. destruct Hl as (_ & _ & Hw).
      split; [|by apply Hsame, Hw]. intros [->|(k1 & a1 & H1 & Hin1)]; [apply (Hw head Hin); by left|].
      apply lookup_delete_Some in H1 as [_ H1]. apply (Hw p Hin). right. eauto.
  - intros k1 a1 [_ H1]%lookup_delete_Some. by apply (pool_tree _ _ _ _ Hp).
Qed.

Lemma outside_pool h head N m p : pool h head N m -> ~ pool_word head N p -> ~ tree_word head m p.
Proof. intros Hp Hno Hin. by apply Hno, (tree_word_pool _ _ _ _ _ Hp). Qed.

Lemma pool_key h head N m a k :
  pool h head N m -> N !! a = Some k -> m !! k <> Some a -> key_at h head m a k.
Proof. intros Hp Ha Hm. destruct (pool_nodes _ _ _ _ Hp a k Ha); [done|]. by apply loose_key. Qed.

Lemma run_op_refines fuel h head N m o r m' :
  holds h head m -> pool h head N m -> enough fuel N -> spec_op N o m = Some (r, m') ->
  exists h', run_op fuel head o h = Done r h' /\ holds h' head m' /\ pool h' head N m' /\
    forall p, ~ pool_word head N p -> h' !! p = h !! p.
Proof.
  intros Hh Hp Hf Hspec. pose proof (pool_enough _ _ _ _ _ Hp Hf) as Hfm.
  destruct o as [a|a|a]; cbn [spec_op run_op] in *; destruct (N !! a) as [k|] eqn:Ha; try done;
    cbn [mbind option_bind] in Hspec.
  - destruct (m !! k) as [b|] eqn:Hk.
    + destruct (decide (b = a)) as [|Hne]; [done|]. injection Hspec as <- <-. exists h.
      split; [|done]. apply (rb_insert_taken fuel h head m a k b); [done..| |done].
      apply (pool_key _ _ N); [done|done|congruence].
    + injection Hspec as <- <-.
      destruct (rb_insert_new fuel h head m a k) as (h' & Hrun & Hh' & Hsame); [done|done| |done|].
      { destruct (pool_nodes _ _ _ _ Hp a k Ha); [congruence|done]. }
      assert (pool h' head N (<[k := a]> m)) as Hp' by by eapply insert_pool.
      exists h'. split_and!; [done|done|done|]. intros p Hno. apply Hsame. by eapply outside_pool.
  - destruct (decide _) as [Hk|]; [|done]. injection Hspec as <- <-.
    destruct (rb_remove_delete fuel h head m a k) as (h' & Hrun & Hh' & Hl & Hsame); [done..|].
    exists h'. split_and!; [done|done|by eapply delete_pool|].
    intros p Hno. apply Hsame. by eapply outside_pool.
  - destruct (decide _) as [|Hk]; [done|]. injection Hspec as <- <-. exists h. split; [|done].
    apply rb_find_lookup; [done| |done]. by apply (pool_key _ _ N).
Qed.

Lemma run_ops_refines fuel head N ops h m rs m' :
  holds h head m -> pool h head N m -> enough fuel N -> spec_ops N ops m = Some (rs, m') ->
  exists h', run_ops fuel head ops h = Done rs h' /\ holds h' head m' /\ pool h' head N m' /\
    forall p, ~ pool_word head N p -> h' !! p = h !! p.
Proof.
  intros Hh Hp Hf. revert h m rs Hh Hp.
  induction ops as [|o ops IH]; intros h m rs Hh Hp Hspec; cbn [spec_ops run_ops] in *.
  { injection Hspec as <- <-. by exists h. }
  destruct (spec_op N o m) as [[r m1]|] eqn:Ho; [|done]. cbn [mbind option_bind] in Hspec.
  destruct (spec_ops N ops m1) as [[rs1 m2]|] eqn:Hops; [|done]. injection Hspec as <- <-.
  destruct (run_op_refines fuel h head N m o r m1) as (h1 & Hrun & Hh1 & Hp1 & Hsame1); [done..|].
  destruct (IH h1 m1 rs1) as (h2 & Hrun2 & Hh2 & Hp2 & Hsame2); [done..|].
  exists h2. split_and!; [|done|done|intros p Hno; rw Hsame2 //; by apply Hsame1].
  unfold bind. by rw Hrun Hrun2.
Qed.

(** RB_INIT, then any operations. *)
Lemma init_run fuel h head N ops rs m :
  is_Some (h !! head) -> pool h head N ∅ -> enough fuel N ->
  spec_ops N ops ∅ = Some (rs, m) ->
  exists h', (RB_INIT head ;; run_ops fuel head ops) h = Done rs h' /\ holds h' head m /\ enough fuel m /\
    forall p, ~ pool_word head N p -> h' !! p = h !! p.
Proof.
  intros Hhead Hp Hf Hspec. destruct (holds_init h head Hhead) as (h0 & Hinit & Hh & Hsame).
  assert (pool h0 head N ∅) as Hp0.
  { split; [|apply Hp..]. intros a k Ha. right. destruct (pool_nodes _ _ _ _ Hp a k Ha) as [|Hl]; [done|].
    apply (loose_keep _ _ _ _ _ _ _ Hl). intros p Hin. split; [by apply Hl|]. apply Hsame. intros ->.
    by apply (pool_head _ _ _ _ Hp a k). }
  destruct (run_ops_refines fuel head N ops h0 ∅ rs m) as (h' & Hrun & Hh' & Hp' & Hsame'); [done..|].
  exists h'. split_and!; [unfold bind; by rw Hinit|done|by eapply pool_enough|].
  intros p Hno. rw Hsame' //. apply Hsame. intros ->. apply Hno. by left.
Qed.

(** C4: any run of insertions, removals and searches from RB_INIT on answers as the operations on a
    map do; afterwards RB_FIND, RB_NEXT and RB_PREV answer from that map
    and RB_FOREACH visits it in the order of the keys.  The run ends, follows
    no pointer out of the nodes, and changes no other word. *)
Theorem rb_run_refines fuel h head N ops rs m :
  is_Some (h !! head) -> pool h head N ∅ -> enough fuel N ->
  spec_ops N ops ∅ = Some (rs, m) ->
  exists h', (RB_INIT head ;; run_ops fuel head ops) h = Done rs h' /\
    (forall elm k, key_at h' head m elm k ->
       RB_FIND fuel head elm h' = Done (default NULL (m !! k)) h') /\
    (forall d k a, m !! k = Some a ->
       exists r, rb_step d fuel a h' = Done r h' /\ nearest d m (past d k) r) /\
    (forall rounds, (size m <= rounds)%nat ->
       RB_FOREACH rounds fuel head h' = Done (in_order m).*2 h') /\
    (forall p, ~ pool_word head N p -> h' !! p = h !! p).
Proof.
  intros Hhead Hp Hf Hspec.
  destruct (init_run fuel h head N ops rs m) as (h' & Hrun & Hh & Hm & Hsame); [done..|].
  exists h'. split_and!; [done| | | |done].
  - intros elm k Hk. by apply rb_find_lookup.
  - intros d k a Ha. by apply (rb_step_nearest _ _ _ head).
  - intros rounds Hr. by apply rb_foreach_in_order.
Qed.

(** What the comment at the top of tree.h promises of a tree of [n] nodes: the pointers form a
    tree with right parent pointers, keys in order, rank differences of 1 and 2 as the colour bits
    say, and a height of at most 2 lg (n + 1). *)
Definition well_formed (h : mem) (head : ptr) (n : Z) : Prop :=
  exists t, stored (all_cells head t) h /\ nodes_ok t /\ ordered t /\ (exists r, ranked t r) /\
    count t = n /\ Z.of_nat (height t) <= 2 * Z.log2 (n + 1).

Lemma holds_well_formed h head m : holds h head m -> well_formed h head (Z.of_nat (size m)).
Proof.
  intros H. open H. destruct Hs as [Hb _]. exists t.
  assert (count t = Z.of_nat (size (tree_map t))) as Hn.
  { unfold tree_map. rw map_size_list_to_map; [by rw inorder_count|by apply ordered_NoDup]. }
  split_and!; [done..|]. rw -Hn. by apply balanced_height.
Qed.

(** C5: after any run from RB_INIT on the tree is well-formed, and has the nodes it should. *)
Theorem rb_run_well_formed fuel h head N ops rs m :
  is_Some (h !! head) -> pool h head N ∅ -> enough fuel N ->
  spec_ops N ops ∅ = Some (rs, m) ->
  exists h', (RB_INIT head ;; run_ops fuel head ops) h = Done rs h' /\
    well_formed h' head (Z.of_nat (size m)).
Proof.
  intros Hhead Hp Hf Hspec.
  destruct (init_run fuel h head N ops rs m) as (h' & Hrun & Hh & _); [done..|].
  exists h'. split; [done|]. by apply holds_well_formed.
Qed.

(** ** The end of an instance *)

(** [free(np)]: the words of the node are gone. *)
Definition node_free (a : ptr) : M mem unit := fun h =>
  if forallb (fun p => match h !! p with Some _ => true | None => false end) (node_words a)
  then Done tt (foldr delete h (node_words a)) else Stop DanglingPointer.

(** The loop of [epollfd_ctx_terminate]. *)
Definition destroy_nodes (rounds fuel : nat) (head : ptr) : M mem unit :=
  RB_FOREACH_SAFE rounds fuel head (fun np =>
    let* _ := RB_REMOVE fuel head np in
    node_free np).

Lemma foldr_delete_lookup (h : mem) l p :
  foldr delete h l !! p = if decide (p ∈ l) then None else h !! p.
Proof.
  induction l as [|q l IH]; cbn.
  { by destruct (decide _) as [H%elem_of_nil|]. }
  destruct (decide (p = q)) as [->|Hne].
  - rw lookup_delete_eq decide_True //. by left.
  - rw lookup_delete_ne; [|done]. rw IH. apply decide_ext. rw elem_of_cons. tauto.
Qed.

Lemma node_free_run h head m a k :
  loose_in h head m a k -> holds h head m ->
  exists h', node_free a h = Done tt h' /\ holds h' head m /\
    forall p, h' !! p = if decide (p ∈ node_words a) then None else h !! p.
Proof.
  intros (_ & _ & Hw) Hh. exists (foldr delete h (node_words a)).
  split_and!; [| |intros p; apply foldr_delete_lookup].
  - unfold node_free. rw (proj2 (forallb_forall _ _)) //. intros p Hin.
    destruct (proj1 (Hw p (proj2 (list_elem_of_In _ _) Hin))) as [v ->]. done.
  - apply (holds_frame h); [done|]. intros p Hp. rw foldr_delete_lookup.
    destruct (decide _) as [Hin|]; [|done]. by destruct (Hw p Hin).
Qed.

(** The next node is the first one of the rest. *)
Lemma nearest_rest m k r a :
  m !! k = Some a -> (forall k' b, m !! k' = Some b -> k = k' \/ k < k') ->
  nearest L m (past L k) r -> nearest L (delete k m) (fun _ => True) r.
Proof.
  intros Ha Hmin [[-> Hno]|(k1 & H1 & Hk1 & Hnext)].
  - left. split; [done|]. intros k' b [Hne H]%lookup_delete_Some _.
    destruct (Hmin _ _ H); [done|]. by eapply Hno.
  - right. exists k1. split_and!; [|done|].
    + apply lookup_delete_Some. split; [cbn in Hk1; lia|done].
    + intros k' b [Hne H]%lookup_delete_Some _. destruct (Hmin _ _ H); [done|]. by apply (Hnext _ b).
Qed.

Lemma enough_delete fuel m k a : m !! k = Some a -> enough fuel m -> enough fuel (delete k m).
Proof.
  unfold enough. intros Ha H. rw map_size_delete Ha.
  pose proof (Z.log2_le_mono (Z.of_nat (pred (size m)) + 1) (Z.of_nat (size m) + 1)). lia.
Qed.

Lemma tree_word_delete head m k p : tree_word head (delete k m) p -> tree_word head m p.
Proof.
  intros [->|(k' & a & [_ H]%lookup_delete_Some & Hin)]; [by left|]. right. eauto.
Qed.

(** One round: the first node is taken out and freed, the next one is the first of the rest. *)
Lemma destroy_round fuel h head m x :
  holds h head m -> enough fuel m -> nearest L m (fun _ => True) x -> x <> NULL ->
  exists k y h1 h2, m !! k = Some x /\ RB_NEXT fuel x h = Done y h /\
    RB_REMOVE fuel head x h = Done x h1 /\ node_free x h1 = Done tt h2 /\
    holds h2 head (delete k m) /\ nearest L (delete k m) (fun _ => True) y /\
    (forall p, p ∈ node_words x -> ~ tree_word head (delete k m) p /\ h2 !! p = None) /\
    (forall p, ~ tree_word head m p -> h2 !! p = h !! p).
Proof.
  intros Hh Hf Hmin Hx. destruct Hmin as [[-> _]|(k & Hk & _ & Hmin)]; [done|].
  destruct (rb_step_nearest L fuel h head m x k) as (y & Hy & Hnext); [done..|].
  destruct (rb_remove_delete fuel h head m x k) as (h1 & Hrem & Hh1 & Hloose & Hsame); [done..|].
  destruct (node_free_run h1 head (delete k m) x k) as (h2 & Hfree & Hh2 & Hsame2); [done..|].
  exists k, y, h1, h2. split_and!; [done..| | |].
  - apply (nearest_rest _ _ _ x); [done| |done]. intros k' b H. by apply (Hmin _ b).
  - intros p Hin. split; [by apply Hloose|]. by rw Hsame2 decide_True.
  - intros p Hno. rw Hsame2 decide_False; [by apply Hsame|]. intros Hin. apply Hno. right. eauto.
Qed.

(** C6: the loop of epollfd_ctx_terminate takes every node out of the tree and frees it.  RB_FOREACH_SAFE
    fetches the successor first, so no freed node is read; nothing else is touched. *)
Theorem destroy_nodes_frees rounds fuel h head m :
  holds h head m -> enough fuel m -> (size m <= rounds)%nat ->
  exists h', destroy_nodes rounds fuel head h = Done tt h' /\ holds h' head ∅ /\
    (forall p, ~ tree_word head m p -> h' !! p = h !! p) /\
    (forall k a p, m !! k = Some a -> p ∈ node_words a -> h' !! p = None).
Proof.
  intros Hh Hf Hr. unfold destroy_nodes, RB_FOREACH_SAFE.
  destruct (rb_minmax_nearest fuel h head m (-1) Hh Hf) as (x & Hx & Hmin).
  unfold bind at 1. rw Hx. cbn in Hmin. clear Hx.
  revert h m x Hh Hf Hr Hmin. induction rounds as [|rounds IH]; intros h m x Hh Hf Hr Hmin;
    (destruct (decide (x = NULL)) as [->|Hx]; [destruct Hmin as [[_ Hno]|(k & Hk & _)]|]).
  1, 4: assert (m = ∅) as -> by (apply map_empty; intros k; destruct (m !! k) eqn:Hk; naive_solver);
    exists h; cbn; split_and!; [done|done|done|]; intros k a p Hk; by rewrite ->lookup_empty in Hk.
  1, 3: by destruct (holds_node_ptr _ _ _ _ _ Hh Hk).
  all: destruct (destroy_round fuel h head m x)
    as (k & y & h1 & h2 & Hk & Hy & Hrem & Hfree & Hh2 & Hmin2 & Hgone & Hsame); [done..|].
  - apply Nat.le_0_r, map_size_empty_inv in Hr as ->. by rewrite ->lookup_empty in Hk.
  - destruct (IH h2 (delete k m) y) as (h' & Hrun & Hh' & Hsame' & Hnone); [done|by eapply enough_delete| |done|].
    { rw map_size_delete Hk. lia. }
    exists h'. split_and!; [|done| |].
    + cbn [rb_foreach_from]. rw (proj2 (Z.eqb_neq x NULL)) //. unfold bind at 1. rw Hy.
      unfold bind at 1 2. by rw Hrem Hfree.
    + intros p Hno. rw Hsame'; [by apply Hsame|]. by intros ?%tree_word_delete.
    + intros k' a p Hk' Hin. destruct (decide (k' = k)) as [->|Hne].
      * assert (a = x) as -> by congruence. destruct (Hgone p Hin). by rw Hsame'.
      * apply (Hnone k' a); [|done]. by rw lookup_delete_ne.
Qed.
