(* ===== verification/Tailq.v ===== *)
(** * Tail queues (src/external/queue-macros/include/sys/queue.h)

    The list [poll_fds] of an epoll instance: doubly linked, with the address of the previous
    "next" field in every element, so that removal needs neither the list's head nor a case for
    the first element.  [queued h head l] says that the memory [h] holds the list [l] at [head];
    the macros implement the operations of [EpollCtx] on lists. *)

From S2P Require Export Memory.

(** ** The macros

    Distances on a 64-bit system; [pollfd_list_entry] follows the tree entry.  The QMD_ and TRASHIT
    macros are empty outside the kernel. *)

Definition tqh_first (head : ptr) : ptr := head.
Definition tqh_last (head : ptr) : ptr := head + 8.
Definition tqe_next (elm : ptr) : ptr := elm + 24.
Definition tqe_prev (elm : ptr) : ptr := elm + 32.

Definition TAILQ_INIT (head : ptr) : M mem unit :=
  store (tqh_first head) NULL ;;
  store (tqh_last head) (tqh_first head).

Definition TAILQ_INSERT_TAIL (head elm : ptr) : M mem unit :=
  store (tqe_next elm) NULL ;;
  let* last := load (tqh_last head) in
  store (tqe_prev elm) last ;;
  let* last := load (tqh_last head) in
  store last elm ;;
  store (tqh_last head) (tqe_next elm).

Definition TAILQ_REMOVE (head elm : ptr) : M mem unit :=
  let* next := load (tqe_next elm) in
  (if negb (next =? NULL) then
     let* prev := load (tqe_prev elm) in store (tqe_prev next) prev
   else
     let* prev := load (tqe_prev elm) in store (tqh_last head) prev) ;;
  let* prev := load (tqe_prev elm) in
  let* next := load (tqe_next elm) in
  store prev next.

(** [TAILQ_FOREACH (var, head, field)] with a body that notes [var] down; [TAILQ_FOREACH_SAFE]
    fetches the next element first, which makes no difference to a body that leaves the list
    alone. *)
Fixpoint tailq_from (rounds : nat) (var : ptr) : M mem (list ptr) :=
  if var =? NULL then ret []
  else
    match rounds with
    | O => stop_with OutOfFuel
    | S rounds =>
        let* next := load (tqe_next var) in
        let* vars := tailq_from rounds next in
        ret (var :: vars)
    end.

Definition TAILQ_FOREACH (rounds : nat) (head : ptr) : M mem (list ptr) :=
  let* var := load (tqh_first head) in tailq_from rounds var.

(** ** Lists in memory *)

(** The field that points behind [l], when [pf] points to its first element. *)
Fixpoint last_field (pf : ptr) (l : list ptr) : ptr :=
  match l with [] => pf | x :: l => last_field (tqe_next x) l end.

Fixpoint chain_cells (pf : ptr) (l : list ptr) : list (ptr * Z) :=
  match l with
  | [] => [(pf, NULL)]
  | x :: l => (pf, x) :: (tqe_prev x, pf) :: chain_cells (tqe_next x) l
  end.

Definition queue_cells (head : ptr) (l : list ptr) : list (ptr * Z) :=
  (tqh_last head, last_field (tqh_first head) l) :: chain_cells (tqh_first head) l.

Definition queued (h : mem) (head : ptr) (l : list ptr) : Prop :=
  Forall (fun x => x <> NULL) l /\ stored (queue_cells head l) h.

(** The words that belong to the queue. *)
Definition queue_word (head : ptr) (l : list ptr) (p : ptr) : Prop :=
  p = tqh_first head \/ p = tqh_last head \/ exists x, x ∈ l /\ (p = tqe_next x \/ p = tqe_prev x).

Lemma chain_cells_words pf l p :
  p ∈ (chain_cells pf l).*1 <-> p = pf \/ exists x, x ∈ l /\ (p = tqe_next x \/ p = tqe_prev x).
Proof.
  revert pf. induction l as [|x l IH]; intros pf; cbn [chain_cells]; rw !fmap_cons !elem_of_cons /=.
  - split; [|intros [|(x & H%elem_of_nil & _)]; [by left|done]]. intros [|H%elem_of_nil]; [by left|done].
  - rw IH. split.
    + intros [->|[->|[->|(y & Hy & Hp)]]]; [by left|right; exists x|right; exists x|right; exists y]; set_solver.
    + intros [->|(y & [->|Hy]%elem_of_cons & Hp)]; [by left| |].
      * destruct Hp as [->| ->]; [right; right; left|right; left]; done.
      * do 3 right. eauto.
Qed.

Lemma queue_cells_words head l p : p ∈ (queue_cells head l).*1 <-> queue_word head l p.
Proof.
  unfold queue_cells, queue_word. rw fmap_cons elem_of_cons chain_cells_words. cbn [fst]. tauto.
Qed.

Section Rules.
Context `{!memG Σ}.

(** The elements [l], without the field behind them. *)
Fixpoint links (pf : ptr) (l : list ptr) : iProp Σ :=
  match l with [] => emp | x :: l => pf ↦ x ∗ tqe_prev x ↦ pf ∗ links (tqe_next x) l end.

Lemma queue_split head l :
  cells (queue_cells head l) ⊣⊢
  tqh_last head ↦ last_field (tqh_first head) l ∗ cells (chain_cells (tqh_first head) l).
Proof. apply cells_cons. Qed.

Lemma chain_nil pf : cells (chain_cells pf []) ⊣⊢ pf ↦ NULL.
Proof. apply cells_one. Qed.

Lemma chain_cons pf x l :
  cells (chain_cells pf (x :: l)) ⊣⊢ pf ↦ x ∗ tqe_prev x ↦ pf ∗ cells (chain_cells (tqe_next x) l).
Proof. cbn [chain_cells]. by rw !cells_cons. Qed.

Lemma chain_app pf l1 l2 :
  cells (chain_cells pf (l1 ++ l2)) ⊣⊢ links pf l1 ∗ cells (chain_cells (last_field pf l1) l2).
Proof.
  revert pf. induction l1 as [|x l1 IH]; intros pf; cbn [app links last_field].
  { by rw bi.emp_sep. }
  rw !chain_cons IH. iSplit; [iIntros "($ & $ & $ & $)"|iIntros "(($ & $ & $) & $)"].
Qed.

Lemma last_field_app pf l1 l2 : last_field pf (l1 ++ l2) = last_field (last_field pf l1) l2.
Proof. revert pf. induction l1; cbn; auto. Qed.

Lemma wpm_insert_tail head l elm n p (Q : unit -> iProp Σ) :
  cells (queue_cells head l) -∗ tqe_next elm ↦ n -∗ tqe_prev elm ↦ p -∗
  (cells (queue_cells head (l ++ [elm])) -∗ Q tt) -∗
  wpm (TAILQ_INSERT_TAIL head elm) Q.
Proof.
  rw !queue_split last_field_app -{2}(app_nil_r l) !chain_app chain_cons !chain_nil. cbn [last_field].
  iIntros "(Hlast & Hl & Hend) Hn Hp HQ". unfold TAILQ_INSERT_TAIL. do 5 wpm_step.
  iApply (wpm_store with "Hlast"). iIntros "Hlast". iApply "HQ". iFrame.
Qed.

(** The two words that point to [elm] from its neighbours are redirected. *)
Lemma wpm_tailq_remove head l1 elm l2 (Q : unit -> iProp Σ) :
  Forall (fun x => x <> NULL) l2 ->
  cells (queue_cells head (l1 ++ elm :: l2)) -∗
  (cells (queue_cells head (l1 ++ l2)) -∗ Q tt) -∗
  wpm (TAILQ_REMOVE head elm) Q.
Proof.
  intros Hl2. rw !queue_split !chain_app !last_field_app chain_cons.
  iIntros "(Hlast & Hl1 & Hf & Hp & Hc) HQ". unfold TAILQ_REMOVE.
  destruct l2 as [|y l2]; cbn [last_field].
  - rw !chain_nil. wpm_step. cbn [negb Z.eqb NULL]. iApply wpm_bind. wpm_step.
    iApply (wpm_store with "Hlast"). iIntros "Hlast". do 2 wpm_step.
    iApply (wpm_store with "Hf"). iIntros "Hf". iApply "HQ". iFrame.
  - apply Forall_cons in Hl2 as [Hy _]. rw !chain_cons. iDestruct "Hc" as "(Hn & Hpy & Hc)". wpm_step.
    rw (proj2 (Z.eqb_neq y NULL)) //. cbn [negb]. iApply wpm_bind. wpm_step.
    iApply (wpm_store with "Hpy"). iIntros "Hpy". do 2 wpm_step.
    iApply (wpm_store with "Hf"). iIntros "Hf". iApply "HQ". iFrame.
Qed.

Lemma wpm_walk pf l rounds (Q : list ptr -> iProp Σ) :
  Forall (fun x => x <> NULL) l -> (length l <= rounds)%nat ->
  cells (chain_cells pf l) -∗ (cells (chain_cells pf l) -∗ Q l) -∗
  wpm (let* x := load pf in tailq_from rounds x) Q.
Proof.
  revert pf rounds Q. induction l as [|x l IH]; intros pf rounds Q Hl Hr.
  - rw chain_nil. iIntros "Hf HQ". wpm_step. destruct rounds; cbn; iApply wpm_ret; by iApply "HQ".
  - apply Forall_cons in Hl as [Hx Hl]. rw chain_cons. iIntros "(Hf & Hp & Hc) HQ". wpm_step.
    cbn in Hr. destruct rounds as [|rounds]; [lia|]. cbn [tailq_from].
    rw (proj2 (Z.eqb_neq x NULL)) //. iApply wpm_assoc. iApply wpm_bind.
    iApply (IH with "Hc"); [done|lia|]. iIntros "Hc". iApply wpm_ret. iApply "HQ". iFrame.
Qed.
End Rules.

(** ** The operations *)

Lemma queue_init h head :
  is_Some (h !! tqh_first head) -> is_Some (h !! tqh_last head) ->
  exists h', TAILQ_INIT head h = Done tt h' /\ queued h' head [] /\
    (forall p, ~ queue_word head [] p -> h' !! p = h !! p) /\ dom h' = dom h.
Proof.
  intros [v Hv] [w Hw]. unfold tqh_first, tqh_last in *.
  exists (<[head + 8 := head]> (<[head := NULL]> h)). unfold TAILQ_INIT, bind, store, tqh_first, tqh_last.
  rw Hv lookup_insert_ne; [|lia]. rw Hw. split_and!; [done| | |].
  - split; [constructor|]. split.
    + change (NoDup [head + 8; head]). repeat constructor; rw ?elem_of_cons ?elem_of_nil; lia.
    + intros p x. change (queue_cells head []) with [(head + 8, head); (head, NULL)].
      rw !elem_of_cons elem_of_nil.
      intros [[= -> ->]|[[= -> ->]|[]]]; [apply lookup_insert_eq|].
      rw lookup_insert_ne; [apply lookup_insert_eq|lia].
  - intros p Hp. rw !lookup_insert_ne //; intros <-; apply Hp; [by left|right; by left].
  - rw !dom_insert_lookup_L //. by rw lookup_insert_ne; [rw Hw|lia].
Qed.

(** TAILQ_INSERT_TAIL appends an element that is not in the list. *)
Lemma tailq_insert_appends h head l elm :
  queued h head l -> elm <> NULL ->
  (forall p, p = tqe_next elm \/ p = tqe_prev elm -> is_Some (h !! p) /\ ~ queue_word head l p) ->
  exists h', TAILQ_INSERT_TAIL head elm h = Done tt h' /\ queued h' head (l ++ [elm]) /\
    (forall p, ~ queue_word head (l ++ [elm]) p -> h' !! p = h !! p) /\ dom h' = dom h.
Proof.
  intros [Hl Hst] Helm Hw.
  destruct (proj1 (Hw (tqe_next elm) ltac:(by left))) as [n Hn].
  destruct (proj1 (Hw (tqe_prev elm) ltac:(by right))) as [p Hp].
  assert (stored (queue_cells head l ++ [(tqe_next elm, n); (tqe_prev elm, p)]) h) as Hst'.
  { apply stored_app; [done| |].
    - split; [change (NoDup [elm + 24; elm + 32]); repeat constructor; rw ?elem_of_cons ?elem_of_nil; lia|].
      intros q v. rw !elem_of_cons elem_of_nil. intros [[= -> ->]|[[= -> ->]|[]]]; done.
    - intros q Hq%queue_cells_words. cbn. rw !elem_of_cons elem_of_nil.
      intros [->|[->|[]]]; [by apply (Hw (tqe_next elm)); [left|]|by apply (Hw (tqe_prev elm)); [right|]]. }
  destruct (wpm_run (TAILQ_INSERT_TAIL head elm) _ h (fun _ c => c = queue_cells head (l ++ [elm])) Hst')
    as ([] & h' & c & Hrun & -> & Hst1 & Hsame & Hdom).
  - intros Σ G. rw cells_app cells_cons cells_one. iIntros "(Hq & Hn & Hp)".
    iApply (wpm_insert_tail with "Hq Hn Hp"). iIntros "Hq". iExists _. by iFrame.
  - exists h'. split_and!; [done|split; [|done]| |done].
    + apply Forall_app. by repeat constructor.
    + intros q Hq. apply Hsame. rw fmap_app elem_of_app queue_cells_words. cbn.
      rw !elem_of_cons elem_of_nil. unfold queue_word in *. set_solver.
Qed.

Lemma chain_NoDup pf l : NoDup (chain_cells pf l).*1 -> NoDup l.
Proof.
  revert pf. induction l as [|x l IH]; intros pf H; [constructor|].
  apply NoDup_cons in H as [_ H]. apply NoDup_cons in H as [Hp H]. constructor; [|by apply IH in H].
  intros Hx. apply Hp, chain_cells_words. right. exists x. split; [done|by right].
Qed.

Lemma filter_neq (x : ptr) (l : list ptr) : x ∉ l -> filter (fun y => y <> x) l = l.
Proof.
  induction l as [|y l IH]; intros H; [done|]. rw filter_cons_True; [|set_solver]. f_equal. set_solver.
Qed.

Lemma queue_word_app head l1 l2 l3 p : queue_word head (l1 ++ l3) p -> queue_word head (l1 ++ l2 ++ l3) p.
Proof. unfold queue_word. set_solver. Qed.

(** TAILQ_REMOVE takes an element out, wherever it is. *)
Lemma tailq_remove_filters h head l elm :
  queued h head l -> elm ∈ l ->
  exists h', TAILQ_REMOVE head elm h = Done tt h' /\ queued h' head (filter (fun x => x <> elm) l) /\
    (forall p, ~ queue_word head l p -> h' !! p = h !! p) /\ dom h' = dom h.
Proof.
  intros [Hl Hst] (l1 & l2 & ->)%list_elem_of_split.
  assert (NoDup (l1 ++ elm :: l2)) as Hd.
  { destruct Hst as [Hd _]. apply NoDup_cons in Hd as [_ Hd]. by eapply chain_NoDup. }
  apply NoDup_app in Hd as (Hd1 & Hdis & [Hno Hd2]%NoDup_cons).
  apply Forall_app in Hl as [Hl1 [Helm Hl2]%Forall_cons].
  rw filter_app filter_cons_False; [|tauto].
  rw (filter_neq _ l1); [|intros Hin; apply (Hdis _ Hin); by left]. rw filter_neq //.
  destruct (wpm_run (TAILQ_REMOVE head elm) _ h (fun _ c => c = queue_cells head (l1 ++ l2)) Hst)
    as ([] & h' & c & Hrun & -> & Hst1 & Hsame & Hdom).
  - intros Σ G. iIntros "Hq". iApply (wpm_tailq_remove with "Hq"); [done|]. iIntros "Hq".
    iExists _. by iFrame.
  - exists h'. split_and!; [done|split; [by apply Forall_app|done]| |done].
    intros p Hp. apply Hsame. by rw queue_cells_words.
Qed.

(** TAILQ_FOREACH visits the elements in their order and only reads. *)
Lemma tailq_foreach_visits rounds h head l :
  queued h head l -> (length l <= rounds)%nat -> TAILQ_FOREACH rounds head h = Done l h.
Proof.
  intros [Hl Hst] Hr.
  destruct (wpm_run (TAILQ_FOREACH rounds head) _ h (fun v c => v = l /\ c = queue_cells head l) Hst)
    as (v & h' & c & Hrun & (-> & ->) & Hst1 & Hsame & _).
  - intros Σ G. rw queue_split. iIntros "[Hlast Hc]". iApply (wpm_walk with "Hc"); [done|done|].
    iIntros "Hc". iExists (queue_cells head l). rw queue_split. by iFrame.
  - by rw Hrun (stored_agree _ _ _ Hst Hst1 Hsame).
Qed.

(** ** Whole runs *)

Inductive tailq_op : Type := QInsert (elm : ptr) | QRemove (elm : ptr).

Definition run_tailq_op (head : ptr) (o : tailq_op) : M mem unit :=
  match o with QInsert elm => TAILQ_INSERT_TAIL head elm | QRemove elm => TAILQ_REMOVE head elm end.

(** The operations of [EpollCtx] on [poll_fds].  An element of the list is not inserted again, only
    elements of the list are removed. *)
Definition spec_tailq_op (o : tailq_op) (l : list ptr) : option (list ptr) :=
  match o with
  | QInsert elm => if decide (elm ∈ l) then None else Some (l ++ [elm])
  | QRemove elm => if decide (elm ∈ l) then Some (filter (fun x => x <> elm) l) else None
  end.

Definition op_elm (o : tailq_op) : ptr := match o with QInsert elm | QRemove elm => elm end.

Definition elm_words (elm : ptr) : list ptr := [tqe_next elm; tqe_prev elm].

(** Elements that may be used: their words exist and do not overlap. *)
Record elements (h : mem) (head : ptr) (E : list ptr) : Prop := {
  elements_apart : NoDup (tqh_first head :: tqh_last head :: flat_map elm_words E);
  elements_exist : Forall (fun x => x <> NULL) E;
  elements_words p : p ∈ tqh_first head :: tqh_last head :: flat_map elm_words E -> is_Some (h !! p);
}.

Lemma elements_dom h h' head E : elements h head E -> dom h' = dom h -> elements h' head E.
Proof.
  intros [Ha He Hw] Hd. split; [done|done|]. intros p Hp. apply elem_of_dom. rw Hd.
  by apply elem_of_dom, Hw.
Qed.

Lemma elements_own h head E l elm :
  elements h head E -> Forall (fun x => x ∈ E) l -> elm ∈ E -> elm ∉ l ->
  forall p, p ∈ elm_words elm -> is_Some (h !! p) /\ ~ queue_word head l p.
Proof.
  intros [Ha _ Hw] Hl HE Hno p Hp.
  assert (forall x q, x ∈ E -> q ∈ elm_words x -> q ∈ flat_map elm_words E) as Hin.
  { intros x q Hx Hq. apply list_elem_of_In, in_flat_map. exists x. by rw -!list_elem_of_In. }
  split; [apply Hw; do 2 right; by eapply Hin|].
  apply NoDup_cons in Ha as [H1 Ha]. apply NoDup_cons in Ha as [H2 Ha].
  intros [->|[->|(x & Hx & Hq)]].
  - apply H1. right. by eapply Hin.
  - apply H2. by eapply Hin.
  - assert (x ∈ E) as HxE by by apply (proj1 (Forall_forall _ _) Hl).
    assert (p ∈ elm_words x) as Hpx by (destruct Hq as [->| ->]; [left|right; left]).
    by rewrite ->(flat_map_apart _ _ _ _ p Ha HE HxE Hp Hpx) in Hno.
Qed.

Fixpoint spec_tailq (ops : list tailq_op) (l : list ptr) : option (list ptr) :=
  match ops with [] => Some l | o :: ops => l' ← spec_tailq_op o l; spec_tailq ops l' end.

(** The words a run may change. *)
Definition elements_word (head : ptr) (E : list ptr) (p : ptr) : Prop :=
  p ∈ tqh_first head :: tqh_last head :: flat_map elm_words E.

Lemma queue_word_elements head E l p :
  Forall (fun x => x ∈ E) l -> queue_word head l p -> elements_word head E p.
Proof.
  intros Hl [->|[->|(x & Hx & Hp)]]; [by left|right; by left|do 2 right].
  apply list_elem_of_In, in_flat_map. exists x. rw -!list_elem_of_In.
  split; [by apply (proj1 (Forall_forall _ _) Hl)|]. destruct Hp as [->| ->]; [left|right; left].
Qed.

Lemma run_tailq_op_refines h head E o l l' :
  queued h head l -> elements h head E -> Forall (fun x => x ∈ E) l -> op_elm o ∈ E ->
  spec_tailq_op o l = Some l' ->
  exists h', run_tailq_op head o h = Done tt h' /\ queued h' head l' /\
    Forall (fun x => x ∈ E) l' /\ (forall p, ~ elements_word head E p -> h' !! p = h !! p) /\
    dom h' = dom h.
Proof.
  intros Hq He Hl HE Hspec. destruct o as [elm|elm]; cbn in *; destruct (decide (elm ∈ l)) as [Hin|Hin];
    try done; injection Hspec as <-.
  - destruct (tailq_insert_appends h head l elm) as (h' & Hrun & Hq' & Hsame & Hd); [done|..].
    { destruct He as [_ He _]. by apply (proj1 (Forall_forall _ _) He). }
    { intros p Hp. apply (elements_own h head E l elm); [done..|].
      destruct Hp as [->| ->]; [left|right; left]. }
    assert (Forall (fun x => x ∈ E) (l ++ [elm])) as Hl' by (apply Forall_app; by repeat constructor).
    exists h'. split_and!; [done..| |done]. intros p Hp. apply Hsame.
    intros Hw. apply Hp. by eapply queue_word_elements.
  - destruct (tailq_remove_filters h head l elm) as (h' & Hrun & Hq' & Hsame & Hd); [done..|].
    exists h'. split_and!; [done|done| | |done].
    + apply Forall_forall. intros x [_ Hx]%list_elem_of_filter. by apply (proj1 (Forall_forall _ _) Hl).
    + intros p Hp. apply Hsame. intros Hw. apply Hp. by eapply queue_word_elements.
Qed.

Lemma run_tailq_ops h head E ops l l' :
  queued h head l -> elements h head E -> Forall (fun x => x ∈ E) l ->
  Forall (fun o => op_elm o ∈ E) ops -> spec_tailq ops l = Some l' ->
  exists h', iterM (run_tailq_op head) ops h = Done tt h' /\ queued h' head l' /\
    forall p, ~ elements_word head E p -> h' !! p = h !! p.
Proof.
  revert h l. induction ops as [|o ops IH]; intros h l Hq He Hl HE Hspec; cbn in *.
  { injection Hspec as <-. by exists h. }
  apply Forall_cons in HE as [Ho HE]. destruct (spec_tailq_op o l) as [l1|] eqn:Hs; [|done].
  destruct (run_tailq_op_refines h head E o l l1) as (h1 & Hrun & Hq1 & Hl1 & Hsame & Hd); [done..|].
  destruct (IH h1 l1) as (h2 & Hrun2 & Hq2 & Hsame2); [done|by eapply elements_dom|done|done|done|].
  exists h2. split_and!; [unfold bind; by rw Hrun|done|].
  intros p Hp. rw Hsame2 //. by apply Hsame.
Qed.

(** C7: any run of insertions at the tail and removals from TAILQ_INIT on ends, forms the list that
    the operations on lists give, and changes no other word; TAILQ_FOREACH then visits that list
    in order and changes nothing. *)
Theorem tailq_run_refines h head E ops l :
  elements h head E -> Forall (fun o => op_elm o ∈ E) ops -> spec_tailq ops [] = Some l ->
  exists h', (TAILQ_INIT head ;; iterM (run_tailq_op head) ops) h = Done tt h' /\
    (forall rounds, (length l <= rounds)%nat -> TAILQ_FOREACH rounds head h' = Done l h') /\
    forall p, ~ elements_word head E p -> h' !! p = h !! p.
Proof.
  intros He HE Hspec. pose proof (elements_words _ _ _ He) as Hw.
  destruct (queue_init h head) as (h0 & Hinit & Hq & Hsame & Hd);
    [apply Hw; by left|apply Hw; right; by left|].
  destruct (run_tailq_ops h0 head E ops [] l) as (h' & Hrun & Hq' & Hsame');
    [done|by eapply elements_dom|done|done|done|].
  exists h'. split_and!; [unfold bind; by rw Hinit|by intros; apply tailq_foreach_visits|].
  intros p Hp. rw Hsame' //. apply Hsame. intros H. apply Hp. by apply (queue_word_elements _ _ []).
Qed.
