(* ===== verification/ContainerSim.v ===== *)
(** * Concrete trees and lists

    A memory with seven nodes, as [epoll_ctl] would register the descriptors 1 to 7, on which
    the theorems of [RbMap] and [Tailq] are applied. *)

From S2P Require Import RbMap Tailq.

(** ** Pools from lists *)

#[export] Instance node_ptr_dec a : Decision (node_ptr a).
Proof. unfold node_ptr, aligned. apply _. Defined.

(** Fresh nodes make a pool for the empty tree. *)
Lemma pool_fresh h head (nodes : list (ptr * Z)) :
  NoDup (head :: flat_map (fun x => node_words x.1) nodes) ->
  Forall (fun x => node_ptr x.1 /\ h !! node_fd x.1 = Some x.2 /\
                   Forall (fun p => is_Some (h !! p)) (node_words x.1)) nodes ->
  pool h head (list_to_map nodes) ∅.
Proof.
  intros [Hhead Hd]%NoDup_cons Hok.
  assert (forall a k, (list_to_map nodes : gmap Z Z) !! a = Some k -> (a, k) ∈ nodes) as Hin.
  { intros a k. apply elem_of_list_to_map_2. }
  assert (forall a k, (a, k) ∈ nodes -> head ∉ node_words a) as Hout.
  { intros a k H Hp. apply Hhead, list_elem_of_In, in_flat_map. exists (a, k). by rw -!list_elem_of_In. }
  split.
  - intros a k H%Hin. right. destruct (proj1 (Forall_forall _ _) Hok _ H) as (Hn & Hk & Hw). cbn in *.
    split_and!; [done|done|]. intros p Hp. split; [by apply (proj1 (Forall_forall _ _) Hw)|].
    intros [->|(k' & b & Hb & _)]; [by eapply Hout|by rewrite ->lookup_empty in Hb].
  - intros k a H. by rewrite ->lookup_empty in H.
  - intros a b k k' p Ha%Hin Hb%Hin Hpa Hpb.
    by injection (flat_map_apart _ _ _ _ p Hd Ha Hb Hpa Hpb).
  - intros a k H%Hin. by eapply Hout.
Qed.

(** ** Seven nodes *)

Definition nodes7 : list (ptr * Z) := map (fun i => (4096 * i, i)) [1; 2; 3; 4; 5; 6; 7].

(** The tree's head is at 64, the list's at 128; the words of the nodes are not initialised. *)
Definition memory7 : mem :=
  list_to_map ((64, 99) :: (128, 99) :: (136, 99) :: flat_map (fun x =>
    [(x.1, 99); (x.1 + 8, 99); (x.1 + 16, 99); (x.1 + 24, 99); (x.1 + 32, 99); (x.1 + 40, x.2)]) nodes7).

Definition N7 : gmap ptr Z := list_to_map nodes7.

Lemma pool7 : pool memory7 64 N7 ∅.
Proof. apply pool_fresh; apply (bool_decide_unpack _); vm_compute; exact I. Qed.

Lemma enough7 : enough 12 N7.
Proof. reflexivity. Qed.

(** All are inserted, in order, then the ones in the middle are removed again. *)
Definition ops7 : list rb_op :=
  map OpInsert [4096; 8192; 12288; 16384; 20480; 24576; 28672] ++
  [OpRemove 16384; OpFind 16384; OpRemove 8192; OpInsert 8192; OpRemove 20480].

Definition answers7 : list ptr := [0; 0; 0; 0; 0; 0; 0; 16384; 0; 8192; 0; 20480].

Lemma spec7 : exists m, spec_ops N7 ops7 ∅ = Some (answers7, m) /\ Z.of_nat (size m) = 5 /\
  (in_order m).*2 = [4096; 8192; 12288; 24576; 28672].
Proof. eexists. split_and!; vm_compute; reflexivity. Qed.

Lemma rb_run_refines_witness :
  exists h', (RB_INIT 64 ;; run_ops 12 64 ops7) memory7 = Done answers7 h' /\
    RB_FOREACH 5 12 64 h' = Done [4096; 8192; 12288; 24576; 28672] h'.
Proof.
  destruct spec7 as (m & Hm & Hsize & Horder).
  destruct (rb_run_refines 12 memory7 64 N7 ops7 answers7 m) as (h' & Hrun & _ & _ & Hall & _);
    [by vm_compute; eexists|exact pool7|exact enough7|exact Hm|].
  exists h'. split; [exact Hrun|]. rw -Horder. apply Hall. lia.
Defined.

Lemma rb_run_well_formed_witness :
  exists h', (RB_INIT 64 ;; run_ops 12 64 ops7) memory7 = Done answers7 h' /\ well_formed h' 64 5.
Proof.
  destruct spec7 as (m & Hm & Hsize & _).
  destruct (rb_run_well_formed 12 memory7 64 N7 ops7 answers7 m) as (h' & Hrun & Hw);
    [by vm_compute; eexists|exact pool7|exact enough7|exact Hm|].
  exists h'. split; [exact Hrun|]. rw Hsize in Hw. exact Hw.
Defined.

(** ** The tree with all seven nodes *)

Definition m7 : gmap Z ptr := list_to_map (map (fun x => (x.2, x.1)) nodes7).

Lemma full7 :
  exists h, (RB_INIT 64 ;; run_ops 12 64 (map OpInsert nodes7.*1)) memory7 = Done (replicate 7 0) h /\
    holds h 64 m7.
Proof.
  assert (spec_ops N7 (map OpInsert nodes7.*1) ∅ = Some (replicate 7 0, m7)) as Hm.
  { vm_compute. reflexivity. }
  destruct (init_run 12 memory7 64 N7 _ _ _ ltac:(by vm_compute; eexists) pool7 enough7 Hm) as (h & Hrun & Hh & _).
  exists h. split; [exact Hrun|exact Hh].
Qed.

(** From 4 on, both ways. *)
Lemma rb_step_example :
  exists h, rb_step L 12 16384 h = Done 20480 h /\ rb_step R 12 16384 h = Done 12288 h.
Proof.
  destruct full7 as (h & _ & Hh). exists h.
  destruct (rb_step_nearest L 12 h 64 m7 16384 4) as (r & Hr & Hn); [exact Hh|reflexivity..|].
  destruct (rb_step_nearest R 12 h 64 m7 16384 4) as (r' & Hr' & Hn'); [exact Hh|reflexivity..|].
  rw Hr Hr'. split; f_equal.
  - destruct Hn as [[_ Hno]|(k & Hk & Hpast & Hleast)]; [by destruct (Hno 5 20480)|].
    cbn in Hpast, Hleast. destruct (Hleast 5 20480); [reflexivity|lia|by subst k; injection Hk|].
    exfalso. lia.
  - destruct Hn' as [[_ Hno]|(k & Hk & Hpast & Hleast)]; [by destruct (Hno 3 12288)|].
    cbn in Hpast, Hleast. destruct (Hleast 3 12288); [reflexivity|lia|by subst k; injection Hk|].
    exfalso. lia.
Defined.

Lemma destroy_nodes_frees_witness :
  exists h h', holds h 64 m7 /\ destroy_nodes 7 12 64 h = Done tt h' /\ holds h' 64 ∅ /\ h' !! 16384 = None.
Proof.
  destruct full7 as (h & _ & Hh). exists h.
  destruct (destroy_nodes_frees 7 12 h 64 m7) as (h' & Hrun & Hh' & _ & Hnone);
    [exact Hh|reflexivity|vm_compute; lia|].
  exists h'. split_and!; [exact Hh|exact Hrun|exact Hh'|].
  apply (Hnone 4 16384); [reflexivity|by left].
Defined.

(** ** A list of three nodes *)

Definition queue_ops : list tailq_op :=
  [QInsert 4096; QInsert 8192; QInsert 12288; QRemove 8192; QInsert 16384; QRemove 4096; QInsert 8192].

Lemma elements7 : elements memory7 128 nodes7.*1.
Proof.
  split; [apply (bool_decide_unpack _); vm_compute; exact I|by repeat constructor|].
  apply Forall_forall, (bool_decide_unpack _). vm_compute. exact I.
Qed.

Lemma tailq_run_refines_witness :
  exists h, (TAILQ_INIT 128 ;; iterM (run_tailq_op 128) queue_ops) memory7 = Done tt h /\
    TAILQ_FOREACH 3 128 h = Done [12288; 16384; 8192] h.
Proof.
  destruct (tailq_run_refines memory7 128 nodes7.*1 queue_ops [12288; 16384; 8192])
    as (h & Hrun & Hwalk & _);
    [exact elements7|apply (bool_decide_unpack _); vm_compute; exact I|vm_compute; reflexivity|].
  exists h. split; [exact Hrun|]. apply Hwalk. cbn. lia.
Defined.
